(** * brain-demo: cross-section planes, material toggles, neuron network
      and signal propagation

    A shallow embedding of the algorithmic parts of the repository:

    - [crossSection.js]  : [createSectionPlane];
    - [transparency.js]  : [applyTransparency];
    - [wireframe.js]     : [applyWireframe] with its three [WeakMap]s;
    - [neuron.js]        : [isPointInSafeBox], [getMaxSafeDistance],
                           [createNeuron], [calculateConnectionProbability],
                           [createNeuronNetwork], [createSignalPulse],
                           [animateNeuralSignalPropagation].

    Part I is the embedding, Part II the properties. Line numbers in the
    comments count from the top of the source file that holds
    [wireframe.js] followed by [neuron.js].

    Conventions of the embedding.

    - A JavaScript number is a real number ([R]); rounding is not modelled.
      The two places where the source computes with [Infinity] or [NaN]
      ([getMaxSafeDistance] with a zero direction, and the axon fallback
      that multiplies a zero vector by [Infinity]) are modelled with
      [option]: [None] is [Infinity], respectively a vector of [NaN]s.
    - [Math.random] and three.js's [Vector3.randomDirection] read from an
      explicit entropy source that is threaded through the computation.
      No property assumes anything of the source unless it says so.
    - Materials are heap objects: a store maps material identities to
      their attributes, and meshes refer to materials by identity, so that
      one material shared by several meshes is one store entry.
    - Timers and animation frames are defunctionalised: a pending callback
      is a constructor that records what its closure captured, and
      [Date.now()] is the clock of the world the callback runs in.
    - What three.js provides ([Vector3], [Box3], [Object3D.traverse],
      [add] and [remove], the Catmull-Rom curve) is modelled only as far
      as the repository uses it. *)

From Stdlib Require Import Reals Lra Lia ZArith List String Bool.
From stdpp Require Import gmap.
#[global] Set Warnings "-register-all".

Import ListNotations.

(* ================================================================== *)
(** * Part I: the embedding                                            *)
(* ================================================================== *)

(** ** three.js values used by the code *)

Module Three.

Local Open Scope R_scope.

Record Vector3 := mkVector3 { vx : R; vy : R; vz : R }.

Definition Rleb (a b : R) : bool := if Rle_dec a b then true else false.
Definition Rltb (a b : R) : bool := if Rlt_dec a b then true else false.

(** Methods of [Vector3]. In three.js they update the receiver in place;
    here each returns the new value, and the embedding of a caller says
    which variable receives it. *)
Module Vec.

Definition add (a b : Vector3) : Vector3 :=
  mkVector3 (vx a + vx b) (vy a + vy b) (vz a + vz b).

Definition sub (a b : Vector3) : Vector3 :=
  mkVector3 (vx a - vx b) (vy a - vy b) (vz a - vz b).

Definition multiplyScalar (a : Vector3) (s : R) : Vector3 :=
  mkVector3 (vx a * s) (vy a * s) (vz a * s).

Definition addScalar (a : Vector3) (s : R) : Vector3 :=
  mkVector3 (vx a + s) (vy a + s) (vz a + s).

Definition subScalar (a : Vector3) (s : R) : Vector3 :=
  mkVector3 (vx a - s) (vy a - s) (vz a - s).

Definition length (a : Vector3) : R :=
  sqrt (vx a * vx a + vy a * vy a + vz a * vz a).

(** [normalize] is [divideScalar (length () || 1)], and
    [divideScalar s] is [multiplyScalar (1 / s)]. *)
Definition normalize (a : Vector3) : Vector3 :=
  let l := length a in
  multiplyScalar a (1 / (if Req_dec_T l 0 then 1 else l)).

Definition cross (a b : Vector3) : Vector3 :=
  mkVector3 (vy a * vz b - vz a * vy b)
            (vz a * vx b - vx a * vz b)
            (vx a * vy b - vy a * vx b).

Definition distanceTo (a b : Vector3) : R := length (sub a b).

End Vec.

Record Box3 := mkBox3 { bmin : Vector3; bmax : Vector3 }.

Module Box.

Definition isEmpty (b : Box3) : bool :=
  Rltb (vx (bmax b)) (vx (bmin b)) ||
  Rltb (vy (bmax b)) (vy (bmin b)) ||
  Rltb (vz (bmax b)) (vz (bmin b)).

Definition getCenter (b : Box3) : Vector3 :=
  if isEmpty b then mkVector3 0 0 0
  else Vec.multiplyScalar (Vec.add (bmin b) (bmax b)) 0.5.

Definition getSize (b : Box3) : Vector3 :=
  if isEmpty b then mkVector3 0 0 0 else Vec.sub (bmax b) (bmin b).

Definition containsPoint (b : Box3) (p : Vector3) : bool :=
  Rleb (vx (bmin b)) (vx p) && Rleb (vx p) (vx (bmax b)) &&
  Rleb (vy (bmin b)) (vy p) && Rleb (vy p) (vy (bmax b)) &&
  Rleb (vz (bmin b)) (vz p) && Rleb (vz p) (vz (bmax b)).

Definition setFromCenterAndSize (c s : Vector3) : Box3 :=
  let h := Vec.multiplyScalar s 0.5 in mkBox3 (Vec.sub c h) (Vec.add c h).

End Box.

Record Plane := mkPlane { normal : Vector3; constant : R }.

(** A colour is either the one three.js derives from a hexadecimal code
    ([setHex]) or arbitrary channel values. [clone] and [copy] transfer
    the value. *)
Inductive Color :=
| Hex (code : Z)
| RGB (r g b : R).

(** *** Materials and the scene graph

    A material is a heap object; [MatId] is its identity. The record
    lists the attributes the repository reads or writes; an attribute a
    material class does not have ([metalness] of a basic material, say)
    is [None], JavaScript's [undefined]. Every material has a [color]:
    the mesh materials a loaded model carries all do, and the snapshot
    code reads it without a test. Assigning [needsUpdate = true]
    increments [version]. *)
Definition MatId := positive.

Record Material := mkMaterial {
  mtype : string;
  color : Color;
  metalness : option R;
  roughness : option R;
  emissive : option Color;
  emissiveIntensity : option R;
  wireframe : bool;
  visible : bool;
  transparent : bool;
  opacity : R;
  depthWrite : bool;
  version : nat
}.

Definition set_color (c : Color) (m : Material) : Material :=
  mkMaterial (mtype m) c (metalness m) (roughness m) (emissive m)
    (emissiveIntensity m) (wireframe m) (visible m) (transparent m)
    (opacity m) (depthWrite m) (version m).

Definition set_metalness (x : option R) (m : Material) : Material :=
  mkMaterial (mtype m) (color m) x (roughness m) (emissive m)
    (emissiveIntensity m) (wireframe m) (visible m) (transparent m)
    (opacity m) (depthWrite m) (version m).

Definition set_roughness (x : option R) (m : Material) : Material :=
  mkMaterial (mtype m) (color m) (metalness m) x (emissive m)
    (emissiveIntensity m) (wireframe m) (visible m) (transparent m)
    (opacity m) (depthWrite m) (version m).

Definition set_emissive (c : option Color) (m : Material) : Material :=
  mkMaterial (mtype m) (color m) (metalness m) (roughness m) c
    (emissiveIntensity m) (wireframe m) (visible m) (transparent m)
    (opacity m) (depthWrite m) (version m).

Definition set_emissiveIntensity (x : option R) (m : Material) : Material :=
  mkMaterial (mtype m) (color m) (metalness m) (roughness m) (emissive m)
    x (wireframe m) (visible m) (transparent m)
    (opacity m) (depthWrite m) (version m).

Definition set_wireframe (b : bool) (m : Material) : Material :=
  mkMaterial (mtype m) (color m) (metalness m) (roughness m) (emissive m)
    (emissiveIntensity m) b (visible m) (transparent m)
    (opacity m) (depthWrite m) (version m).

Definition set_visible (b : bool) (m : Material) : Material :=
  mkMaterial (mtype m) (color m) (metalness m) (roughness m) (emissive m)
    (emissiveIntensity m) (wireframe m) b (transparent m)
    (opacity m) (depthWrite m) (version m).

Definition set_transparent (b : bool) (m : Material) : Material :=
  mkMaterial (mtype m) (color m) (metalness m) (roughness m) (emissive m)
    (emissiveIntensity m) (wireframe m) (visible m) b
    (opacity m) (depthWrite m) (version m).

Definition set_opacity (x : R) (m : Material) : Material :=
  mkMaterial (mtype m) (color m) (metalness m) (roughness m) (emissive m)
    (emissiveIntensity m) (wireframe m) (visible m) (transparent m)
    x (depthWrite m) (version m).

Definition set_depthWrite (b : bool) (m : Material) : Material :=
  mkMaterial (mtype m) (color m) (metalness m) (roughness m) (emissive m)
    (emissiveIntensity m) (wireframe m) (visible m) (transparent m)
    (opacity m) b (version m).

Definition set_needsUpdate (m : Material) : Material :=
  mkMaterial (mtype m) (color m) (metalness m) (roughness m) (emissive m)
    (emissiveIntensity m) (wireframe m) (visible m) (transparent m)
    (opacity m) (depthWrite m) (S (version m)).

(** The [material] property of a mesh: one material or an array, either
    possibly holding [null]. *)
Inductive MaterialSlot :=
| OneMaterial (m : option MatId)
| ManyMaterials (ms : list (option MatId)).

(** An object of the scene graph. [mesh] is [Some slot] exactly when
    [isMesh] is true. *)
Inductive Object3D :=
| Object (mesh : option MaterialSlot) (children : list Object3D).

Definition mesh_of (o : Object3D) : option MaterialSlot :=
  match o with Object m _ => m end.

Definition children_of (o : Object3D) : list Object3D :=
  match o with Object _ cs => cs end.

(** [Object3D.traverse]: the callback on the object, then on each child's
    subtree, in order. The callback's effect is a state transformer. *)
Fixpoint traverse {S : Type} (callback : Object3D -> S -> S)
    (o : Object3D) (s : S) : S :=
  match o with
  | Object _ cs =>
      (fix each (l : list Object3D) (s : S) : S :=
         match l with
         | [] => s
         | c :: l' => each l' (traverse callback c s)
         end) cs (callback o s)
  end.

(** [Array.isArray(child.material) ? child.material : [child.material]] *)
Definition materials_of (slot : MaterialSlot) : list (option MatId) :=
  match slot with
  | OneMaterial m => [m]
  | ManyMaterials ms => ms
  end.

(** [array.forEach(f)] for a callback that transforms the state. *)
Definition forEach {A S : Type} (l : list A) (f : A -> S -> S) (s : S) : S :=
  fold_left (fun s a => f a s) l s.

End Three.

Export Three.

(** ** crossSection.js *)

Module CrossSection.

Local Open Scope R_scope.
Local Open Scope string_scope.

Module SectionType.
Definition CORONAL : string := "coronal".
Definition SAGITTAL : string := "sagittal".
Definition AXIAL : string := "axial".
End SectionType.

(** What [console.warn] printed. *)
Inductive Diagnostic :=
| UnknownSectionType (type : string).

(** [createSectionPlane type position]: the plane, and the diagnostics the
    call emitted. The [switch] compares with strict equality, first match
    wins. *)
Definition createSectionPlane (type : string) (position : R)
  : Plane * list Diagnostic :=
  let normalizedPosition := (position - 0.5) * 2 in
  if String.eqb type SectionType.CORONAL then
    (mkPlane (mkVector3 1 0 0) normalizedPosition, [])
  else if String.eqb type SectionType.SAGITTAL then
    (mkPlane (mkVector3 0 1 0) normalizedPosition, [])
  else if String.eqb type SectionType.AXIAL then
    (mkPlane (mkVector3 0 0 1) normalizedPosition, [])
  else
    (mkPlane (mkVector3 0 0 1) normalizedPosition, [UnknownSectionType type]).

(** The clip constant as the specification words it. *)
Definition spec_constant (position : R) : R := (position - 0.5) * 2.

End CrossSection.

(** ** transparency.js *)

Module Transparency.

Local Open Scope R_scope.

(** The body of the inner [forEach] for one non-null material. *)
Definition transparencyOfMaterial (transparent : bool) (opacity : R)
    (m : Material) : Material :=
  set_needsUpdate
    (if transparent then
       set_depthWrite (Rltb opacity 1)
         (set_opacity opacity (set_transparent true m))
     else
       set_depthWrite true
         (set_opacity 1 (set_transparent false m))).

(** [applyTransparency(model, transparent, opacity = 0.5)] on the store of
    materials. [model = None] is a missing model; [opacity = None] is an
    omitted argument. ([alter] leaves a store alone that has no entry for
    the identity; an identity always denotes a live material.) *)
Definition applyTransparency (model : option Object3D) (transparent : bool)
    (opacity : option R) (store : gmap MatId Material)
  : gmap MatId Material :=
  let opacity := match opacity with Some o => o | None => 0.5 end in
  match model with
  | None => store
  | Some root =>
      traverse (fun child store =>
        match mesh_of child with
        | None => store
        | Some slot =>
            forEach (materials_of slot) (fun material store =>
              match material with
              | None => store
              | Some id =>
                  alter (transparencyOfMaterial transparent opacity) id store
              end) store
        end) root store
  end.

Definition removeTransparency (model : option Object3D)
    (store : gmap MatId Material) : gmap MatId Material :=
  applyTransparency model false None store.

End Transparency.

(** ** wireframe.js *)

Module Wireframe.

Local Open Scope R_scope.
Local Open Scope string_scope.

(** The object stored in [originalProperties]. *)
Record Props := mkProps {
  p_metalness : option R;
  p_roughness : option R;
  p_emissive : option Color;
  p_emissiveIntensity : option R
}.

(** The module's state: the material store and the three [WeakMap]s,
    keyed by material identity. [snapshotLog] is a ghost trace: it
    records, in order, the material of every execution of the
    snapshot-taking block (lines 31 to 46) and is never read. *)
Record State := mkState {
  materials : gmap MatId Material;
  originalColors : gmap MatId Color;
  originalMaterials : gmap MatId MatId;
  originalProperties : gmap MatId Props;
  snapshotLog : list MatId
}.

Definition isLit (m : Material) : bool :=
  String.eqb (mtype m) "MeshStandardMaterial" ||
  String.eqb (mtype m) "MeshPhysicalMaterial".

(** Lines 31 to 46: the snapshot of a material. *)
Definition propsOf (m : Material) : Props :=
  mkProps (metalness m) (roughness m) (emissive m)
    (match emissive m with
     | Some _ => emissiveIntensity m
     | None => None
     end).

(** Lines 50 to 69: the wireframe look. *)
Definition wireframeLook (m : Material) : Material :=
  let m := set_wireframe true m in
  let m := set_color (Hex 0xd3d3d3) m in
  let m := set_visible true m in
  let m := set_transparent false m in
  let m := set_opacity 1 m in
  if isLit m then
    let m := match metalness m with
             | Some _ => set_metalness (Some 0) m
             | None => m
             end in
    let m := match roughness m with
             | Some _ => set_roughness (Some 1) m
             | None => m
             end in
    match emissive m with
    | Some _ => set_emissiveIntensity (Some 0.3)
                  (set_emissive (Some (Hex 0xd3d3d3)) m)
    | None => m
    end
  else m.

(** Lines 83 to 94: writing a snapshot back. *)
Definition restoreProps (props : Props) (m : Material) : Material :=
  let m := match p_metalness props, metalness m with
           | Some x, Some _ => set_metalness (Some x) m
           | _, _ => m
           end in
  let m := match p_roughness props, roughness m with
           | Some x, Some _ => set_roughness (Some x) m
           | _, _ => m
           end in
  match p_emissive props, emissive m with
  | Some c, Some _ =>
      set_emissiveIntensity (p_emissiveIntensity props)
        (set_emissive (Some c) m)
  | _, _ => m
  end.

(** The body of the inner [forEach] for one non-null material [id] whose
    attributes are [m]. *)
Definition wireframeOfMaterial (wireframe : bool) (id : MatId)
    (m : Material) (st : State) : State :=
  if wireframe then
    let st :=
      match originalMaterials st !! id with
      | Some _ => st
      | None =>
          mkState (materials st)
            (<[id := color m]> (originalColors st))
            (<[id := id]> (originalMaterials st))
            (<[id := propsOf m]> (originalProperties st))
            (snapshotLog st ++ [id])
      end in
    mkState (<[id := set_needsUpdate (wireframeLook m)]> (materials st))
      (originalColors st) (originalMaterials st) (originalProperties st)
      (snapshotLog st)
  else
    let m := set_wireframe false m in
    let m := match originalColors st !! id with
             | Some originalColor => set_color originalColor m
             | None => m
             end in
    let m := match originalProperties st !! id with
             | Some props => restoreProps props m
             | None => m
             end in
    mkState (<[id := set_needsUpdate m]> (materials st))
      (delete id (originalColors st))
      (delete id (originalMaterials st))
      (delete id (originalProperties st))
      (snapshotLog st).

(** [applyWireframe(model, wireframe)]. A material identity always
    denotes a live object, so a store without an entry for it does not
    arise; the embedding leaves the state alone there. *)
Definition applyWireframe (model : option Object3D) (wireframe : bool)
    (st : State) : State :=
  match model with
  | None => st
  | Some root =>
      traverse (fun child st =>
        match mesh_of child with
        | None => st
        | Some slot =>
            forEach (materials_of slot) (fun material st =>
              match material with
              | None => st
              | Some id =>
                  match materials st !! id with
                  | Some m => wireframeOfMaterial wireframe id m st
                  | None => st
                  end
              end) st
        end) root st
  end.

Definition removeWireframe (model : option Object3D) (st : State) : State :=
  applyWireframe model false st.

End Wireframe.

(** ** neuron.js: geometry helpers *)

Module Neuron.

Local Open Scope R_scope.

(** *** The entropy source

    [uniform] is the sequence of values [Math.random] will return and
    [directions] the sequence of vectors [randomDirection] will produce
    (three.js, not this repository, decides how a direction is drawn).
    Drawing a value advances the sequence. *)
Record Entropy := mkEntropy {
  uniform : nat -> R;
  directions : nat -> Vector3
}.

Definition Rand (A : Type) : Type := Entropy -> A * Entropy.

Definition ret {A : Type} (a : A) : Rand A := fun e => (a, e).

Definition bind {A B : Type} (m : Rand A) (k : A -> Rand B) : Rand B :=
  fun e => let (a, e') := m e in k a e'.

Notation "x <- m ;; k" := (bind m (fun x => k))
  (at level 62, m at next level, right associativity).

Definition Math_random : Rand R :=
  fun e => (uniform e 0%nat,
            mkEntropy (fun n => uniform e (S n)) (directions e)).

Definition randomDirection : Rand Vector3 :=
  fun e => (directions e 0%nat,
            mkEntropy (uniform e) (fun n => directions e (S n))).

(** [Math.floor] *)
Definition floor (x : R) : Z := Int_part x.

(** *** [isPointInSafeBox] (default [margin = 0.05]; every caller passes
    it) *)
Definition isPointInSafeBox (point : Vector3) (box : Box3) (margin : R)
  : bool :=
  Rleb (vx (bmin box) + margin) (vx point) &&
  Rleb (vx point) (vx (bmax box) - margin) &&
  Rleb (vy (bmin box) + margin) (vy point) &&
  Rleb (vy point) (vy (bmax box) - margin) &&
  Rleb (vz (bmin box) + margin) (vz point) &&
  Rleb (vz point) (vz (bmax box) - margin).

(** *** [getMaxSafeDistance]

    [maxDist] starts at [Infinity] and stays there when no component of
    the direction is non-zero: the result is an [option R] whose [None]
    is [Infinity]. *)
Definition min_with (maxDist : option R) (x : R) : option R :=
  Some (match maxDist with
        | None => x
        | Some d => Rmin d x
        end).

(** One of the three [if ... else if ...] blocks, for the coordinate [p]
    of the position, [d] of the direction and the safe interval
    [[lo, hi]]. *)
Definition clipAxis (maxDist : option R) (p d lo hi : R) : option R :=
  if Rltb 0 d then min_with maxDist ((hi - p) / d)
  else if Rltb d 0 then min_with maxDist ((p - lo) / - d)
  else maxDist.

Definition getMaxSafeDistance (position direction : Vector3) (box : Box3)
    (margin : R) : option R :=
  let safeMin := Vec.addScalar (bmin box) margin in
  let safeMax := Vec.subScalar (bmax box) margin in
  let maxDist := None in
  let maxDist := clipAxis maxDist (vx position) (vx direction)
                   (vx safeMin) (vx safeMax) in
  let maxDist := clipAxis maxDist (vy position) (vy direction)
                   (vy safeMin) (vy safeMax) in
  let maxDist := clipAxis maxDist (vz position) (vz direction)
                   (vz safeMin) (vz safeMax) in
  match maxDist with
  | None => None
  | Some d => Some (if Rltb 0 d then d else 0)
  end.

(** [Math.min(length, maxLength * 0.8)] with [maxLength] possibly
    [Infinity]. *)
Definition clipLength (length : R) (maxLength : option R) : R :=
  match maxLength with
  | None => length
  | Some m => Rmin length (m * 0.8)
  end.

(** [!boundaryBox || isPointInSafeBox(p, boundaryBox, margin)] *)
Definition withinBoundary (boundaryBox : option Box3) (margin : R)
    (p : Vector3) : bool :=
  match boundaryBox with
  | None => true
  | Some box => isPointInSafeBox p box margin
  end.

(** *** Curves

    A [Line] is the polyline sampled from the Catmull-Rom curve through
    three control points; [divisions] is the argument of [getPoints].
    [keepsCurve] tells whether [userData.curve] was set. *)
Record Line := mkLine {
  lineFrom : Vector3;
  lineMid : Vector3;
  lineTo : Vector3;
  divisions : nat;
  keepsCurve : bool
}.

(** The unit vector across [direction] that the three curve builders
    compute: [(1,0,0) x direction] unless the direction is close to the
    x axis, then [(0,1,0) x direction]. *)
Definition perpendicular (direction : Vector3) : Vector3 :=
  if Rltb (Rabs (vx direction)) 0.9
  then Vec.normalize (Vec.cross (mkVector3 1 0 0) direction)
  else Vec.normalize (Vec.cross (mkVector3 0 1 0) direction).

(** The midpoint of [from] and [to], pushed sideways by
    [bend * distance * (Math.random() - 0.5)]. *)
Definition bentMidpoint (from to : Vector3) (bend : R) : Rand Vector3 :=
  let midPoint := Vec.multiplyScalar (Vec.add from to) 0.5 in
  let direction := Vec.normalize (Vec.sub to from) in
  r <- Math_random ;;
  let offset := Vec.multiplyScalar (perpendicular direction)
                  (Vec.distanceTo from to * bend * (r - 0.5)) in
  ret (Vec.add midPoint offset).

Definition createDendriteBranch (from to : Vector3) : Rand Line :=
  midPoint <- bentMidpoint from to 0.1 ;;
  ret (mkLine from midPoint to 30 false).

Definition createAxonBranch (from to : Vector3) : Rand Line :=
  midPoint <- bentMidpoint from to 0.2 ;;
  ret (mkLine from midPoint to 40 true).

(** A synapse: its curve and its [userData]. *)
Record Synapse := mkSynapse {
  synapseLine : Line;
  userFrom : Vector3;
  userTo : Vector3;
  active : bool
}.

Definition createSynapse (axonEnd dendritePoint : Vector3) : Rand Synapse :=
  midPoint <- bentMidpoint axonEnd dendritePoint 0.3 ;;
  ret (mkSynapse (mkLine axonEnd midPoint dendritePoint 30 false)
         axonEnd dendritePoint false).

(** *** [calculateConnectionProbability]

    (For [maxDistance = 0] JavaScript divides by zero; no caller's
    behaviour depends on the value then, since no distance is below a
    zero [maxDistance].) *)
Definition calculateConnectionProbability
    (distance maxDistance baseProbability : R) : R :=
  let distanceFactor := exp (- distance / (maxDistance * 0.3)) in
  let localFactor := if Rltb distance (maxDistance * 0.2) then 1.5 else 1.0 in
  let globalFactor := if Rltb (maxDistance * 0.5) distance then 0.3 else 1.0 in
  baseProbability * distanceFactor * localFactor * globalFactor.

(** The same quantity as the specification words it. *)
Definition spec_localBoost (d maxDistance : R) : R :=
  if Rlt_dec d (0.2 * maxDistance) then 1.5 else 1.0.

Definition spec_globalDamp (d maxDistance : R) : R :=
  if Rlt_dec (0.5 * maxDistance) d then 0.3 else 1.0.

Definition spec_connectionProbability (d maxDistance baseProbability : R)
  : R :=
  baseProbability * exp (- d / (0.3 * maxDistance))
  * spec_localBoost d maxDistance * spec_globalDamp d maxDistance.

(** *** [createNeuron] *)

(** The [options] argument; [None] is an absent property, for which the
    destructuring evaluates the default. *)
Record Options := mkOptions {
  opt_dendriteCount : option Z;
  opt_dendriteLength : option R;
  opt_axonLength : option R;
  opt_axonBranchProbability : option R
}.

Definition noOptions : Options := mkOptions None None None None.

(** The [userData] of the neuron group, with the curves the group holds.
    [dendrites] lists dendrites and their branches in creation order;
    [axonBranches] are the axon's branches, children of the group only.
    [axonEnd = None] (and [axon = None]) is the outcome of the fallback
    when it multiplies a zero direction by [Infinity]: a terminal whose
    coordinates are [NaN], and a curve through it. *)
Record NeuronData := mkNeuron {
  position : Vector3;
  somaSize : R;
  dendrites : list Line;
  axon : option Line;
  axonBranches : list Line;
  axonEnd : option Vector3
}.

Section CreateNeuron.

Variable position0 : Vector3.
Variable boundaryBox : option Box3.

(** [const margin = 0.05] *)
Definition margin : R := 0.05.

(** A branch at [branchPoint] of nominal length [branchLength]: lines
    271 to 282 for a dendrite, 326 to 337 for the axon. Returns the end
    point when it is within the boundary. *)
Definition branchEndFrom (branchPoint : Vector3) (branchLength : R)
  : Rand (option Vector3) :=
  d <- randomDirection ;;
  let branchDirection := Vec.normalize d in
  let branchLength :=
    match boundaryBox with
    | Some box =>
        clipLength branchLength
          (getMaxSafeDistance branchPoint branchDirection box margin)
    | None => branchLength
    end in
  let branchEnd :=
    Vec.add branchPoint (Vec.multiplyScalar branchDirection branchLength) in
  ret (if withinBoundary boundaryBox margin branchEnd
       then Some branchEnd else None).

(** One iteration of the dendrite loop (lines 237 to 290). [dendrites]
    is the array built so far. The calls [direction.multiplyScalar]
    scale [direction] itself: the second scaling, for the branch point,
    starts from the already scaled vector. *)
Definition growDendrite (dendriteLength : R) (dendrites : list Line)
  : Rand (list Line) :=
  r1 <- Math_random ;;
  let theta := r1 * PI * 2 in
  r2 <- Math_random ;;
  let phi := acos (2 * r2 - 1) in
  let direction :=
    Vec.normalize (mkVector3 (sin phi * cos theta)
                             (sin phi * sin theta)
                             (cos phi)) in
  r3 <- Math_random ;;
  let length := dendriteLength * (0.7 + r3 * 0.6) in
  let length :=
    match boundaryBox with
    | Some box =>
        clipLength length
          (getMaxSafeDistance position0 direction box margin)
    | None => length
    end in
  let direction := Vec.multiplyScalar direction length in
  let endPoint := Vec.add position0 direction in
  if withinBoundary boundaryBox margin endPoint then
    dendrite <- createDendriteBranch position0 endPoint ;;
    let dendrites := dendrites ++ [dendrite] in
    r4 <- Math_random ;;
    if Rltb r4 0.3 then
      let direction := Vec.multiplyScalar direction (length * 0.6) in
      let branchPoint := Vec.add position0 direction in
      if withinBoundary boundaryBox margin branchPoint then
        branchEnd <- branchEndFrom branchPoint (length * 0.4) ;;
        match branchEnd with
        | Some branchEnd =>
            branch <- createDendriteBranch branchPoint branchEnd ;;
            ret (dendrites ++ [branch])
        | None => ret dendrites
        end
      else ret dendrites
    else ret dendrites
  else ret dendrites.

(** [for (let i = 0; i < dendriteCount; i++)], by the number of
    iterations left. *)
Fixpoint growDendrites (iterations : nat) (dendriteLength : R)
    (dendrites : list Line) : Rand (list Line) :=
  match iterations with
  | O => ret dendrites
  | S k =>
      dendrites <- growDendrite dendriteLength dendrites ;;
      growDendrites k dendriteLength dendrites
  end.

(** [for (let i = 0; i < 2; i++)] of the axon's branches (lines 325 to
    342). *)
Fixpoint growAxonBranches (iterations : nat) (branchPoint : Vector3)
    (actualAxonLength : R) (branches : list Line) : Rand (list Line) :=
  match iterations with
  | O => ret branches
  | S k =>
      branchEnd <- branchEndFrom branchPoint (actualAxonLength * 0.3) ;;
      match branchEnd with
      | Some branchEnd =>
          branch <- createAxonBranch branchPoint branchEnd ;;
          growAxonBranches k branchPoint actualAxonLength
            (branches ++ [branch])
      | None =>
          growAxonBranches k branchPoint actualAxonLength branches
      end
  end.

(** Lines 317 to 344: the axon whose end passed the check.
    [axonDirection] is the direction already scaled by
    [actualAxonLength]. *)
Definition axonWithinBoundary (axonDirection : Vector3)
    (actualAxonLength axonBranchProbability : R) (axonEnd : Vector3)
  : Rand (option Line * list Line * option Vector3) :=
  axon <- createAxonBranch position0 axonEnd ;;
  r <- Math_random ;;
  if Rltb r axonBranchProbability then
    let axonDirection :=
      Vec.multiplyScalar axonDirection (actualAxonLength * 0.7) in
    let branchPoint := Vec.add position0 axonDirection in
    if withinBoundary boundaryBox margin branchPoint then
      branches <- growAxonBranches 2 branchPoint actualAxonLength [] ;;
      ret (Some axon, branches, Some axonEnd)
    else ret (Some axon, [], Some axonEnd)
  else ret (Some axon, [], Some axonEnd).

(** Lines 346 to 353: the fallback. [axonDirection] is again the
    direction already scaled by [actualAxonLength], and it is this
    scaled vector that line 347 passes to [getMaxSafeDistance] and line
    349 scales by [adjustedLength]. When it is the zero vector the
    distance is [Infinity], so is [adjustedLength], and the end point
    is [NaN]; [createAxonBranch] still draws its random number. *)
Definition axonFallback (box : Box3) (axonDirection : Vector3)
  : Rand (option Line * list Line * option Vector3) :=
  match getMaxSafeDistance position0 axonDirection box margin with
  | Some maxLength =>
      let adjustedLength := Rmax 0.05 (maxLength * 0.7) in
      let axonEnd :=
        Vec.add position0
          (Vec.multiplyScalar axonDirection adjustedLength) in
      axon <- createAxonBranch position0 axonEnd ;;
      ret (Some axon, [], Some axonEnd)
  | None =>
      _ <- Math_random ;;
      ret (None, [], None)
  end.

(** Lines 294 to 354. *)
Definition growAxon (axonLength axonBranchProbability : R)
  : Rand (option Line * list Line * option Vector3) :=
  d <- randomDirection ;;
  let axonDirection := Vec.normalize d in
  let actualAxonLength :=
    match boundaryBox with
    | Some box =>
        clipLength axonLength
          (getMaxSafeDistance position0 axonDirection box margin)
    | None => axonLength
    end in
  let axonDirection := Vec.multiplyScalar axonDirection actualAxonLength in
  let axonEnd := Vec.add position0 axonDirection in
  match boundaryBox with
  | None =>
      axonWithinBoundary axonDirection actualAxonLength
        axonBranchProbability axonEnd
  | Some box =>
      if isPointInSafeBox axonEnd box margin then
        axonWithinBoundary axonDirection actualAxonLength
          axonBranchProbability axonEnd
      else axonFallback box axonDirection
  end.

(** The destructuring of [options] (lines 201 to 206): the defaults are
    evaluated in order, each only when its property is absent. *)
Definition readOptions (options : Options) : Rand (Z * R * R * R) :=
  dendriteCount <-
    match opt_dendriteCount options with
    | Some n => ret n
    | None => (r <- Math_random ;; ret (3 + floor (r * 5))%Z)
    end ;;
  dendriteLength <-
    match opt_dendriteLength options with
    | Some l => ret l
    | None => (r <- Math_random ;; ret (0.1 + r * 0.15))
    end ;;
  axonLength <-
    match opt_axonLength options with
    | Some l => ret l
    | None => (r <- Math_random ;; ret (0.2 + r * 0.3))
    end ;;
  let axonBranchProbability :=
    match opt_axonBranchProbability options with
    | Some p => p
    | None => 0.3
    end in
  ret (dendriteCount, dendriteLength, axonLength, axonBranchProbability).

(** [createNeuron(position, somaSize = 0.01, options = {}, boundaryBox =
    null)]. *)
Definition createNeuron (somaSize : R) (options : Options)
  : Rand NeuronData :=
  o <- readOptions options ;;
  let '(dendriteCount, dendriteLength, axonLength, axonBranchProbability) :=
    o in
  dendrites <- growDendrites (Z.to_nat dendriteCount) dendriteLength [] ;;
  a <- growAxon axonLength axonBranchProbability ;;
  let '(axon, axonBranches, axonEnd) := a in
  ret (mkNeuron position0 somaSize dendrites axon axonBranches axonEnd).

End CreateNeuron.

(** *** [createNeuronNetwork] *)

(** A synapse of the network together with the indices, in [neurons], of
    the two neurons on whose [connections] arrays it was pushed. *)
Record Connection := mkConnection {
  source : nat;
  target : nat;
  synapse : Synapse
}.

(** The network group: its neurons in creation order and its synapses in
    creation order. [attempts] is the final value of the local variable
    of that name. *)
Record Network := mkNetwork {
  neurons : list NeuronData;
  connections : list Connection;
  attempts : nat
}.

(** The variables the two placement loops update. *)
Record Placement := mkPlacement {
  placed : list NeuronData;
  neuronIndex : nat;
  attemptsSoFar : nat
}.

Definition min3 (a b c : R) : R := Rmin (Rmin a b) c.

Section Placement.

(** Lines 527 to 551. [brainModel] is the box [setFromObject] computes
    for the model, [None] for a missing model. (For a model without
    geometry three.js returns a box of infinities; the embedding is about
    boxes with real corners.) *)
Variable brainModel : option Box3.
Variable count : nat.

Definition box : Box3 :=
  match brainModel with
  | Some b => b
  | None => Box.setFromCenterAndSize (mkVector3 0 0 0) (mkVector3 2 2 2)
  end.

Definition size : Vector3 := Box.getSize box.

Definition maxDistance : R := min3 (vx size) (vy size) (vz size) * 0.4.

Definition networkMargin : R := min3 (vx size) (vy size) (vz size) * 0.28.

Definition yOffset : R := vy size * 0.1.

Definition safeBox : Box3 :=
  let safeMin := Vec.addScalar (bmin box) networkMargin in
  let safeMax := Vec.subScalar (bmax box) networkMargin in
  mkBox3 (mkVector3 (vx safeMin) (vy safeMin + yOffset) (vz safeMin))
         (mkVector3 (vx safeMax) (vy safeMax + yOffset) (vz safeMax)).

Definition safeCenter : Vector3 := Box.getCenter safeBox.
Definition safeSize : Vector3 := Box.getSize safeBox.

Definition clusters : nat := (count / 10)%nat.
Definition maxAttempts : nat := (count * 10)%nat.

(** The condition shared by the three loops:
    [neuronIndex < count && attempts < maxAttempts]. *)
Definition mayPlace (st : Placement) : bool :=
  (neuronIndex st <? count)%nat && (attemptsSoFar st <? maxAttempts)%nat.

(** Lines 590 to 601 and 614 to 625: the neuron at [position], kept
    when its axon terminal passes the check. *)
Definition placeNeuronAt (position : Vector3) (st : Placement)
  : Rand Placement :=
  if Box.containsPoint safeBox position && Box.containsPoint box position
  then
    neuron <- createNeuron position (Some box) 0.01 noOptions ;;
    match axonEnd neuron with
    | Some axonEnd =>
        if isPointInSafeBox axonEnd box networkMargin then
          ret (mkPlacement (placed st ++ [neuron])
                 (S (neuronIndex st)) (attemptsSoFar st))
        else ret st
    | None => ret st
    end
  else ret st.

(** [Math.random() + Math.random() + Math.random() + Math.random() - 2] *)
Definition irwinHall : Rand R :=
  a <- Math_random ;;
  b <- Math_random ;;
  c <- Math_random ;;
  d <- Math_random ;;
  ret (a + b + c + d - 2).

(** The inner [for] of a cluster (lines 577 to 602), by the number of
    iterations [i < neuronsInCluster] still allows. *)
Fixpoint clusterMembers (iterations : nat) (clusterCenter : Vector3)
    (clusterSize : R) (st : Placement) : Rand Placement :=
  match iterations with
  | O => ret st
  | S k =>
      if mayPlace st then
        let st := mkPlacement (placed st) (neuronIndex st)
                    (S (attemptsSoFar st)) in
        ox <- irwinHall ;;
        oy <- irwinHall ;;
        oz <- irwinHall ;;
        let offset := mkVector3 (ox * clusterSize * 0.25)
                                (oy * clusterSize * 0.25)
                                (oz * clusterSize * 0.25) in
        let position := Vec.add clusterCenter offset in
        st <- placeNeuronAt position st ;;
        clusterMembers k clusterCenter clusterSize st
      else ret st
  end.

(** The body of the outer [for] (lines 563 to 602). *)
Definition cluster (st : Placement) : Rand Placement :=
  rx <- Math_random ;;
  ry <- Math_random ;;
  rz <- Math_random ;;
  let clusterCenter :=
    mkVector3 (vx safeCenter + (rx - 0.5) * vx safeSize * 0.35)
              (vy safeCenter + (ry - 0.5) * vy safeSize * 0.35)
              (vz safeCenter + (rz - 0.5) * vz safeSize * 0.35) in
  if negb (Box.containsPoint safeBox clusterCenter) then ret st
  else
    let clusterSize :=
      min3 (vx safeSize) (vy safeSize) (vz safeSize) * 0.06 in
    r <- Math_random ;;
    let neuronsInCluster :=
      Z.min (5 + floor (r * 8))
            (Z.of_nat count - Z.of_nat (neuronIndex st)) in
    clusterMembers (Z.to_nat neuronsInCluster) clusterCenter clusterSize st.

(** [for (let c = 0; c < clusters && ...; c++)], by the number of
    iterations [c < clusters] still allows. *)
Fixpoint clusterLoop (iterations : nat) (st : Placement)
  : Rand Placement :=
  match iterations with
  | O => ret st
  | S k =>
      if mayPlace st then
        st <- cluster st ;;
        clusterLoop k st
      else ret st
  end.

(** The [while] loop of lines 606 to 626. The loop has no bound of its
    own, so the embedding runs it on [fuel]: [None] is a loop that was
    cut short with its condition still true. *)
Fixpoint fillLoop (fuel : nat) (st : Placement) : Rand (option Placement) :=
  if mayPlace st then
    match fuel with
    | O => ret None
    | S fuel =>
        let st := mkPlacement (placed st) (neuronIndex st)
                    (S (attemptsSoFar st)) in
        rx <- Math_random ;;
        ry <- Math_random ;;
        rz <- Math_random ;;
        let position :=
          mkVector3 (vx safeCenter + (rx - 0.5) * vx safeSize * 0.4)
                    (vy safeCenter + (ry - 0.5) * vy safeSize * 0.4)
                    (vz safeCenter + (rz - 0.5) * vz safeSize * 0.4) in
        st <- placeNeuronAt position st ;;
        fillLoop fuel st
    end
  else ret (Some st).

(** Lines 554 to 626. *)
Definition placeNeurons (fuel : nat) : Rand (option Placement) :=
  st <- clusterLoop clusters (mkPlacement [] 0 0) ;;
  fillLoop fuel st.

End Placement.

Section Connect.

Variable neurons0 : list NeuronData.
Variable maxDistance0 : R.
Variable connectionProbability : R.

(** Lines 637 to 659 for the source [i] and the target [j], [i <> j].
    With a [NaN] terminal the distance and the probability are [NaN]
    and the comparison with the draw is false. *)
Definition connectPair (i j : nat) (sourceNeuron targetNeuron : NeuronData)
  : Rand (option Connection) :=
  let targetPosition := position targetNeuron in
  match axonEnd sourceNeuron with
  | None => (_ <- Math_random ;; ret None)
  | Some axonEnd =>
      let distance := Vec.distanceTo axonEnd targetPosition in
      let prob :=
        calculateConnectionProbability distance maxDistance0
          connectionProbability in
      r <- Math_random ;;
      if Rltb r prob && Rltb distance maxDistance0 then
        let directionToTarget :=
          Vec.normalize (Vec.sub targetPosition axonEnd) in
        r' <- Math_random ;;
        let dendriteConnectionPoint :=
          Vec.add targetPosition
            (Vec.multiplyScalar directionToTarget (- 0.05 - r' * 0.05)) in
        synapse <- createSynapse axonEnd dendriteConnectionPoint ;;
        ret (Some (mkConnection i j synapse))
      else ret None
  end.

(** The inner [for (let j = 0; j < neurons.length; j++)], over the
    indices still to visit. *)
Fixpoint connectTargets (i : nat) (sourceNeuron : NeuronData)
    (js : list nat) (acc : list Connection) : Rand (list Connection) :=
  match js with
  | [] => ret acc
  | j :: js =>
      if (i =? j)%nat then connectTargets i sourceNeuron js acc
      else
        match neurons0 !! j with
        | None => connectTargets i sourceNeuron js acc
        | Some targetNeuron =>
            c <- connectPair i j sourceNeuron targetNeuron ;;
            connectTargets i sourceNeuron js
              (match c with
               | Some c => acc ++ [c]
               | None => acc
               end)
        end
  end.

(** The outer [for (let i = 0; i < neurons.length; i++)]. *)
Fixpoint connectSources (sources : list nat) (acc : list Connection)
  : Rand (list Connection) :=
  match sources with
  | [] => ret acc
  | i :: sources =>
      match neurons0 !! i with
      | None => connectSources sources acc
      | Some sourceNeuron =>
          acc <- connectTargets i sourceNeuron
                   (seq 0 (List.length neurons0)) acc ;;
          connectSources sources acc
      end
  end.

(** Lines 629 to 661. *)
Definition connectNeurons : Rand (list Connection) :=
  connectSources (seq 0 (List.length neurons0)) [].

End Connect.

(** [createNeuronNetwork(brainModel, count = 50, connectionProbability =
    0.3)], run with [fuel] for its [while] loop. *)
Definition createNeuronNetwork (fuel : nat) (brainModel : option Box3)
    (count : nat) (connectionProbability : R) : Rand (option Network) :=
  st <- placeNeurons brainModel count fuel ;;
  match st with
  | None => ret None
  | Some st =>
      cs <- connectNeurons (placed st) (maxDistance brainModel)
              connectionProbability ;;
      ret (Some (mkNetwork (placed st) cs (attemptsSoFar st)))
  end.

End Neuron.

(** ** neuron.js: signal propagation *)

Module Signal.

Local Open Scope R_scope.

Definition SomaId := positive.
Definition SceneId := positive.
Definition PulseId := nat.

(** The material of a soma ([MeshStandardMaterial]): what the flashes
    read and write. *)
Record Soma := mkSoma {
  somaEmissive : Color;
  somaEmissiveIntensity : R
}.

(** A neuron group as the animation sees it: [userData] and its [soma]. *)
Record UserData := mkUserData { soma : option SomaId }.
Record NeuronObj := mkNeuronObj { userData : option UserData }.

(** A synapse line as the animation sees it: its geometry and the
    [position] attribute, the sampled points of the synapse's curve. *)
Record Geometry := mkGeometry { positionAttribute : option (list Vector3) }.
Record SynapseObj := mkSynapseObj { geometry : option Geometry }.

(** The mesh [createSignalPulse] creates. [pulseParent] is three.js's
    [parent] pointer; the two [Disposed] flags record [dispose]. *)
Record Pulse := mkPulse {
  pulseCurve : list Vector3;
  pulseDuration : R;
  startTime : R;
  pulseColor : Z;
  pulseSize : R;
  pulsePosition : Vector3;
  pulseScale : Vector3;
  pulseOpacity : R;
  pulseParent : option SceneId;
  geometryDisposed : bool;
  materialDisposed : bool
}.

(** The objects the callbacks share. [children] maps a scene (or any
    parent object) to the pulses among its children, in order. *)
Record Heap := mkHeap {
  somas : gmap SomaId Soma;
  children : gmap SceneId (list PulseId);
  pulses : list Pulse
}.

(** A pending callback, with the variables its closure captured. *)
Inductive Callback :=
| SourceFlash (soma : SomaId) (flashStart : R)
    (originalEmissive : Color) (originalIntensity : R)
| Transit (synapse : option SynapseObj) (targetNeuron : option NeuronObj)
    (scene : SceneId)
| Animate (pulse : PulseId) (parent : SceneId)
| AfterTransit (targetNeuron : option NeuronObj)
| Flash (soma : SomaId) (flashTime : R)
    (originalEmissive : Color) (originalIntensity : R).

(** One call of [animateNeuralSignalPropagation] and what it set in
    motion: the heap, the call's local variables [completed] and
    [signals], the callbacks waiting for an animation frame, the
    callbacks waiting for a timer with the time each is due, the clock,
    and the errors thrown inside callbacks. *)
Inductive Uncaught :=
| TypeError_userData_undefined.

Record World := mkWorld {
  heap : Heap;
  completed : bool;
  signals : list PulseId;
  frames : list Callback;
  timers : list (R * Callback);
  clock : R;
  uncaught : list Uncaught
}.

Definition set_heap (h : Heap) (w : World) : World :=
  mkWorld h (completed w) (signals w) (frames w) (timers w) (clock w)
    (uncaught w).

Definition set_completed (b : bool) (w : World) : World :=
  mkWorld (heap w) b (signals w) (frames w) (timers w) (clock w)
    (uncaught w).

Definition push_signal (p : PulseId) (w : World) : World :=
  mkWorld (heap w) (completed w) (signals w ++ [p]) (frames w) (timers w)
    (clock w) (uncaught w).

Definition requestAnimationFrame (cb : Callback) (w : World) : World :=
  mkWorld (heap w) (completed w) (signals w) (frames w ++ [cb]) (timers w)
    (clock w) (uncaught w).

Definition setTimeout (cb : Callback) (delay : R) (w : World) : World :=
  mkWorld (heap w) (completed w) (signals w) (frames w)
    (timers w ++ [(clock w + delay, cb)]) (clock w) (uncaught w).

Definition throw (e : Uncaught) (w : World) : World :=
  mkWorld (heap w) (completed w) (signals w) (frames w) (timers w)
    (clock w) (uncaught w ++ [e]).

Definition set_soma (id : SomaId) (s : Soma) (h : Heap) : Heap :=
  mkHeap (<[id := s]> (somas h)) (children h) (pulses h).

Definition set_pulse (id : PulseId) (p : Pulse) (h : Heap) : Heap :=
  mkHeap (somas h) (children h) (<[id := p]> (pulses h)).

Definition childrenOf (parent : SceneId) (h : Heap) : list PulseId :=
  default [] (children h !! parent).

(** [l.splice(l.indexOf(id), 1)] for an [id] that occurs in [l]: the list
    without the first occurrence. *)
Fixpoint without (id : PulseId) (l : list PulseId) : list PulseId :=
  match l with
  | [] => []
  | x :: l' => if (x =? id)%nat then l' else x :: without id l'
  end.

(** [parent.remove(pulse)]: when the pulse is among the children, its
    [parent] pointer is cleared and it is spliced out. *)
Definition Object3D_remove (parent : SceneId) (id : PulseId) (h : Heap)
  : Heap :=
  if existsb (fun x => (x =? id)%nat) (childrenOf parent h) then
    mkHeap (somas h)
      (<[parent := without id (childrenOf parent h)]> (children h))
      (match pulses h !! id with
       | Some p =>
           <[id := mkPulse (pulseCurve p) (pulseDuration p) (startTime p)
                     (pulseColor p) (pulseSize p) (pulsePosition p)
                     (pulseScale p) (pulseOpacity p) None
                     (geometryDisposed p) (materialDisposed p)]> (pulses h)
       | None => pulses h
       end)
  else h.

(** [parent.add(pulse)]: the pulse leaves its current parent, if any, and
    is pushed onto the children of the new one. *)
Definition Object3D_add (parent : SceneId) (id : PulseId) (h : Heap)
  : Heap :=
  let h := match pulses h !! id with
           | Some p =>
               match pulseParent p with
               | Some old => Object3D_remove old id h
               | None => h
               end
           | None => h
           end in
  mkHeap (somas h)
    (<[parent := childrenOf parent h ++ [id]]> (children h))
    (match pulses h !! id with
     | Some p =>
         <[id := mkPulse (pulseCurve p) (pulseDuration p) (startTime p)
                   (pulseColor p) (pulseSize p) (pulsePosition p)
                   (pulseScale p) (pulseOpacity p) (Some parent)
                   (geometryDisposed p) (materialDisposed p)]> (pulses h)
     | None => pulses h
     end).

(** [elapsed / duration < 1] as JavaScript evaluates it: for a zero
    [duration] the quotient is [NaN] or an infinity, below 1 only when
    [elapsed] is negative. *)
Definition progressBelowOne (elapsed duration : R) : bool :=
  if Req_dec_T duration 0 then Rltb elapsed 0
  else Rltb (elapsed / duration) 1.

Section Callbacks.

(** three.js's [CatmullRomCurve3.getPoint]: the point at parameter [t]
    of the curve through the given control points. *)
Variable getPoint : list Vector3 -> R -> Vector3.

(** The closure [animate] of [createSignalPulse] (lines 703 to 729),
    run when the clock shows [clock w]. [cancelAnimationFrame] in the
    last branch names the frame that is running, so cancels nothing. *)
Definition animate (id : PulseId) (parent : SceneId) (w : World) : World :=
  match pulses (heap w) !! id with
  | None => w
  | Some p =>
      let elapsed := clock w - startTime p in
      let progress := elapsed / pulseDuration p in
      if progressBelowOne elapsed (pulseDuration p) then
        let point := getPoint (pulseCurve p) progress in
        let intensity := sin (progress * PI * 2) * 0.2 + 0.8 in
        let p := mkPulse (pulseCurve p) (pulseDuration p) (startTime p)
                   (pulseColor p) (pulseSize p) point
                   (mkVector3 intensity intensity intensity) intensity
                   (pulseParent p) (geometryDisposed p)
                   (materialDisposed p) in
        requestAnimationFrame (Animate id parent)
          (set_heap (set_pulse id p (heap w)) w)
      else
        let h := Object3D_remove parent id (heap w) in
        match pulses h !! id with
        | None => set_heap h w
        | Some p =>
            let p := mkPulse (pulseCurve p) (pulseDuration p) (startTime p)
                       (pulseColor p) (pulseSize p) (pulsePosition p)
                       (pulseScale p) (pulseOpacity p) (pulseParent p)
                       true true in
            set_heap (set_pulse id p h) w
        end
  end.

(** [createSignalPulse(curve, parent, duration = 400, color = 0x00ffff,
    size = 0.015)]: the new world and the pulse, [None] for [null]. *)
Definition createSignalPulse (curve : option (list Vector3))
    (parent : option SceneId) (duration : R) (color : Z) (size : R)
    (w : World) : World * option PulseId :=
  match curve, parent with
  | Some curve, Some parent =>
      let id : PulseId := List.length (pulses (heap w)) in
      let p := mkPulse curve duration (clock w) color size
                 (mkVector3 0 0 0) (mkVector3 1 1 1) 1 None false false in
      let h := mkHeap (somas (heap w)) (children (heap w))
                 (pulses (heap w) ++ [p]) in
      let h := Object3D_add parent id h in
      let h := match pulses h !! id with
               | Some p =>
                   set_pulse id
                     (mkPulse (pulseCurve p) (pulseDuration p)
                        (startTime p) (pulseColor p) (pulseSize p)
                        (getPoint curve 0) (pulseScale p) (pulseOpacity p)
                        (pulseParent p) (geometryDisposed p)
                        (materialDisposed p)) h
               | None => h
               end in
      (animate id parent (set_heap h w), Some id)
  | _, _ => (w, None)
  end.

(** The closure [sourceFlash] (lines 759 to 772). *)
Definition sourceFlash (soma : SomaId) (flashStart : R)
    (originalEmissive : Color) (originalIntensity : R) (w : World)
  : World :=
  let elapsed := clock w - flashStart in
  let progress := elapsed / 75 in
  if Rltb progress 1 then
    let intensity := sin (progress * PI) in
    requestAnimationFrame
      (SourceFlash soma flashStart originalEmissive originalIntensity)
      (set_heap (set_soma soma
                   (mkSoma (Hex 0x0088ff)
                      (originalIntensity + intensity * 0.8)) (heap w)) w)
  else
    set_heap (set_soma soma (mkSoma originalEmissive originalIntensity)
                (heap w)) w.

(** The closure [flash] (lines 807 to 821). *)
Definition flash (soma : SomaId) (flashTime : R)
    (originalEmissive : Color) (originalIntensity : R) (w : World)
  : World :=
  let elapsed := clock w - flashTime in
  let progress := elapsed / 100 in
  if Rltb progress 1 then
    let intensity := sin (progress * PI) in
    requestAnimationFrame
      (Flash soma flashTime originalEmissive originalIntensity)
      (set_heap (set_soma soma
                   (mkSoma (Hex 0xffff00)
                      (originalIntensity + intensity * 0.5)) (heap w)) w)
  else
    set_completed true
      (set_heap (set_soma soma (mkSoma originalEmissive originalIntensity)
                   (heap w)) w).

(** The callback of the inner [setTimeout] (lines 799 to 826). Reading
    [userData.soma] of a target without [userData] throws. A soma is a
    live object; a store without an entry for it does not arise. *)
Definition afterTransit (targetNeuron : option NeuronObj) (w : World)
  : World :=
  match targetNeuron with
  | None => set_completed true w
  | Some target =>
      match userData target with
      | None => throw TypeError_userData_undefined w
      | Some data =>
          match soma data with
          | None => set_completed true w
          | Some id =>
              match somas (heap w) !! id with
              | Some s =>
                  flash id (clock w) (somaEmissive s)
                    (somaEmissiveIntensity s) w
              | None => w
              end
          end
      end
  end.

(** The callback of the outer [setTimeout] (lines 777 to 833). *)
Definition transit (synapse : option SynapseObj)
    (targetNeuron : option NeuronObj) (scene : SceneId) (w : World)
  : World :=
  match synapse, targetNeuron with
  | Some syn, Some _ =>
      match geometry syn with
      | Some geom =>
          match positionAttribute geom with
          | Some synapsePoints =>
              if (0 <? List.length synapsePoints)%nat then
                let (w, synapsePulse) :=
                  createSignalPulse (Some synapsePoints) (Some scene)
                    300 0x00ff00 0.012 w in
                match synapsePulse with
                | Some id =>
                    let w := set_heap (Object3D_add scene id (heap w)) w in
                    let w := push_signal id w in
                    setTimeout (AfterTransit targetNeuron) 300 w
                | None => w
                end
              else w
          | None => w
          end
      | None => set_completed true w
      end
  | _, _ => set_completed true w
  end.

(** [animateNeuralSignalPropagation(sourceNeuron, targetNeuron = null,
    synapse = null, scene = null)], called at time [now] on the heap
    [h]; [windowScene] is [window.scene]. [None] is the result [null];
    otherwise the world holds the returned object's [signals] and
    [completed]. *)
Definition animateNeuralSignalPropagation
    (sourceNeuron targetNeuron : option NeuronObj)
    (synapse : option SynapseObj) (scene windowScene : option SceneId)
    (h : Heap) (now : R) : option World :=
  match sourceNeuron with
  | None => None
  | Some source =>
      match userData source with
      | None => None
      | Some data =>
          let scene := match scene with
                       | Some s => Some s
                       | None => windowScene
                       end in
          match scene with
          | None => None
          | Some scene =>
              let w := mkWorld h false [] [] [] now [] in
              let w :=
                match soma data with
                | None => w
                | Some id =>
                    match somas h !! id with
                    | Some s =>
                        sourceFlash id now (somaEmissive s)
                          (somaEmissiveIntensity s) w
                    | None => w
                    end
                end in
              Some (setTimeout (Transit synapse targetNeuron scene) 75 w)
          end
      end
  end.

(** Running a pending callback. *)
Definition run (cb : Callback) (w : World) : World :=
  match cb with
  | SourceFlash soma flashStart e i => sourceFlash soma flashStart e i w
  | Transit synapse targetNeuron scene =>
      transit synapse targetNeuron scene w
  | Animate pulse parent => animate pulse parent w
  | AfterTransit targetNeuron => afterTransit targetNeuron w
  | Flash soma flashTime e i => flash soma flashTime e i w
  end.

Definition at_time (t : R) (fs : list Callback) (ts : list (R * Callback))
    (w : World) : World :=
  mkWorld (heap w) (completed w) (signals w) fs ts t (uncaught w).

(** The event loop: at a time [t] not before the clock, either one of
    the callbacks waiting for a frame runs, or one of the timers that
    are due fires. The label of a step is the callback that ran. *)
Inductive step : World -> Callback -> World -> Prop :=
| step_frame : forall w t before cb after,
    frames w = before ++ cb :: after ->
    clock w <= t ->
    step w cb (run cb (at_time t (before ++ after) (timers w) w))
| step_timer : forall w t before due cb after,
    timers w = before ++ (due, cb) :: after ->
    clock w <= t ->
    due <= t ->
    step w cb (run cb (at_time t (frames w) (before ++ after) w)).

(** A run of the event loop, with the callbacks it ran, in order. *)
Inductive runs : World -> list Callback -> World -> Prop :=
| runs_nil : forall w, runs w [] w
| runs_cons : forall w cb w' cbs w'',
    step w cb w' -> runs w' cbs w'' -> runs w (cb :: cbs) w''.

End Callbacks.

(** The stage a callback belongs to. *)
Definition isSourceFlash (cb : Callback) : bool :=
  match cb with SourceFlash _ _ _ _ => true | _ => false end.

Definition isTransitTimer (cb : Callback) : bool :=
  match cb with Transit _ _ _ => true | _ => false end.

(** [Animate] is the SynapseTransit stage; [AfterTransit] and [Flash] are
    the TargetFlash stage. *)
Definition isSynapseTransit (cb : Callback) : bool :=
  match cb with Animate _ _ => true | _ => false end.

Definition isTargetFlash (cb : Callback) : bool :=
  match cb with AfterTransit _ | Flash _ _ _ _ => true | _ => false end.

(** A world in which nothing but the source flash and the timer [timer],
    due at [due], has happened or is pending, over the pulses and scene
    children of the heap [h0]. *)
Definition Quiet (h0 : Heap) (due : R) (timer : Callback) (w : World)
  : Prop :=
  pulses (heap w) = pulses h0 /\
  children (heap w) = children h0 /\
  signals w = [] /\
  uncaught w = [] /\
  forallb isSourceFlash (frames w) = true /\
  ((completed w = false /\ timers w = [(due, timer)])
   \/ (completed w = true /\ timers w = [])).

End Signal.

(** ** Notions used to state and prove the properties *)

Module Reach.

(** The non-null materials [traverse] meets, mesh by mesh and, within a
    mesh, in array order; a material that several meshes share occurs
    once for each. *)
Fixpoint materialsReached (o : Object3D) : list MatId :=
  match o with
  | Object mesh cs =>
      match mesh with
      | Some slot => omap (fun m => m) (materials_of slot)
      | None => []
      end ++
      (fix each (l : list Object3D) : list MatId :=
         match l with
         | [] => []
         | c :: l' => materialsReached c ++ each l'
         end) cs
  end.

(** A traversal whose callback handles every non-null material of every
    mesh with [visit]: the shape of [applyTransparency] and
    [applyWireframe]. *)
Definition traverseMaterials {S : Type} (visit : MatId -> S -> S)
    (root : Object3D) (s : S) : S :=
  traverse (fun child s =>
    match mesh_of child with
    | None => s
    | Some slot =>
        forEach (materials_of slot) (fun material s =>
          match material with
          | None => s
          | Some id => visit id s
          end) s
    end) root s.

Definition visitAll {S : Type} (visit : MatId -> S -> S)
    (ids : list MatId) (s : S) : S :=
  fold_left (fun s id => visit id s) ids s.

End Reach.

Module WireframeView.

Import Wireframe.

(** What [applyWireframe] reads and writes for one material: its
    attributes, its entries in the three maps, and how often the ghost
    log names it. *)
Record View := mkView {
  v_material : option Material;
  v_color : option Color;
  v_self : option MatId;
  v_props : option Props;
  v_logged : nat
}.

Definition viewOf (id : MatId) (st : State) : View :=
  mkView (materials st !! id) (originalColors st !! id)
    (originalMaterials st !! id) (originalProperties st !! id)
    (count_occ Pos.eq_dec (snapshotLog st) id).

(** The callback of [applyWireframe] for the material [id]. *)
Definition visit (wireframe : bool) (id : MatId) (st : State) : State :=
  match materials st !! id with
  | Some m => wireframeOfMaterial wireframe id m st
  | None => st
  end.

(** The effect of [visit wireframe id] on the view of [id]. *)
Definition visitView (wireframe : bool) (id : MatId) (v : View) : View :=
  match v_material v with
  | None => v
  | Some m =>
      if wireframe then
        match v_self v with
        | Some _ =>
            mkView (Some (set_needsUpdate (wireframeLook m)))
              (v_color v) (v_self v) (v_props v) (v_logged v)
        | None =>
            mkView (Some (set_needsUpdate (wireframeLook m)))
              (Some (color m)) (Some id) (Some (propsOf m))
              (S (v_logged v))
        end
      else
        let m := set_wireframe false m in
        let m := match v_color v with
                 | Some c => set_color c m
                 | None => m
                 end in
        let m := match v_props v with
                 | Some props => restoreProps props m
                 | None => m
                 end in
        mkView (Some (set_needsUpdate m)) None None None (v_logged v)
  end.

(** The attributes the wireframe round trip is about. *)
Definition sameLook (a b : Material) : Prop :=
  color a = color b /\ metalness a = metalness b /\
  roughness a = roughness b /\ emissive a = emissive b /\
  emissiveIntensity a = emissiveIntensity b.

(** [m] has the optional attributes that [m0] has, and the emissive
    intensity of [m0] when [m0] has no emissive colour: what the wireframe
    look keeps of a material. *)
Definition keepsShape (m0 m : Material) : Prop :=
  (is_Some (metalness m) <-> is_Some (metalness m0)) /\
  (is_Some (roughness m) <-> is_Some (roughness m0)) /\
  (is_Some (emissive m) <-> is_Some (emissive m0)) /\
  (emissive m0 = None -> emissiveIntensity m = emissiveIntensity m0).

(** The view of [id] while the snapshot of [m0] is stored. *)
Definition Snapshotted (id : MatId) (m0 : Material) (v : View) : Prop :=
  v_color v = Some (color m0) /\
  v_self v = Some id /\
  v_props v = Some (propsOf m0) /\
  exists m : Material, v_material v = Some m /\ keepsShape m0 m.

(** The view of a material that shows the look of [m0] and has no
    snapshot. *)
Definition Restored (m0 : Material) (v : View) : Prop :=
  v_color v = None /\ v_self v = None /\ v_props v = None /\
  exists m : Material, v_material v = Some m /\ sameLook m m0.

End WireframeView.

Module NeuronLogic.

Import Neuron.

(** [post m P]: whatever the entropy, the result of [m] satisfies [P]. *)
Definition post {A : Type} (m : Rand A) (P : A -> Prop) : Prop :=
  forall e : Entropy, P (fst (m e)).

(** The end point of a line lies within the boundary. *)
Definition endsWithin (boundaryBox : option Box3) (l : Line) : Prop :=
  withinBoundary boundaryBox margin (lineTo l) = true.

(** What the placement loops maintain: the counters stay within their
    caps, [neuronIndex] counts the neurons placed, and every placed
    neuron has a terminal that passed the network's check. *)
Definition Accepted (brainModel : option Box3) (n : NeuronData) : Prop :=
  exists a : Vector3,
    axonEnd n = Some a /\
    isPointInSafeBox a (box brainModel) (networkMargin brainModel) = true.

Definition PlacementOK (brainModel : option Box3) (count : nat)
    (st : Placement) : Prop :=
  (attemptsSoFar st <= maxAttempts count)%nat /\
  (neuronIndex st <= count)%nat /\
  List.length (placed st) = neuronIndex st /\
  Forall (Accepted brainModel) (placed st).

(** An entropy source that always draws [c] and always points along [d],
    and the computations that leave a source as it was. *)
Definition constantEntropy (c : R) (d : Vector3) : Entropy :=
  mkEntropy (fun _ => c) (fun _ => d).

Definition keeps {A : Type} (m : Rand A) (e : Entropy) : Prop :=
  snd (m e) = e.

(** On the source [e], [m] returns a value that satisfies [P] and leaves
    the source as it was. *)
Definition returnsAt {A : Type} (e : Entropy) (m : Rand A) (P : A -> Prop)
  : Prop :=
  keeps m e /\ P (fst (m e)).

(** No neuron placed yet. *)
Definition Idle (st : Placement) : Prop :=
  placed st = [] /\ neuronIndex st = 0%nat.

(** [attempts++] *)
Definition counted (st : Placement) : Placement :=
  mkPlacement (placed st) (neuronIndex st) (S (attemptsSoFar st)).

(** A connection joins two distinct neurons of the list, the source's
    axon terminal being closer than [maxDistance0] to the target's
    position; the synapse runs from that terminal. *)
Definition WithinReach (neurons0 : list NeuronData) (maxDistance0 : R)
    (c : Connection) : Prop :=
  exists (src tgt : NeuronData) (a : Vector3),
    neurons0 !! source c = Some src /\
    neurons0 !! target c = Some tgt /\
    source c <> target c /\
    axonEnd src = Some a /\
    userFrom (synapse c) = a /\
    (Vec.distanceTo a (position tgt) < maxDistance0)%R.

End NeuronLogic.

(** ** Concrete inputs *)

Module Examples.

Local Open Scope R_scope.
Local Open Scope string_scope.

(** A standard material that is translucent to begin with. *)
Definition tintedGlass : Material :=
  mkMaterial "MeshStandardMaterial" (Hex 0x88ccff) (Some 0.1) (Some 0.2)
    (Some (Hex 0x000000)) (Some 1) false true true 0.7 false 0.

(** A model of one mesh whose material is material 1. *)
Definition oneMesh : Object3D := Object (Some (OneMaterial (Some 1%positive))) [].

Definition glassStore : gmap MatId Material := {[ 1%positive := tintedGlass ]}.

(** A basic material: no [metalness], [roughness] or [emissive]. *)
Definition plainPaint : Material :=
  mkMaterial "MeshBasicMaterial" (Hex 0xff0000) None None None None
    false true false 1 true 0.

(** A group of two meshes: the first has material 1, the second an array
    with a hole, material 1 again and material 2. *)
Definition sharingModel : Object3D :=
  Object None
    [ Object (Some (OneMaterial (Some 1%positive))) [];
      Object (Some (ManyMaterials [None; Some 1%positive; Some 2%positive]))
        [] ].

(** The state of the wireframe module before any call, over a store of
    the two materials. *)
Definition freshWireframe : Wireframe.State :=
  Wireframe.mkState
    (<[ 2%positive := plainPaint ]> {[ 1%positive := tintedGlass ]})
    ∅ ∅ ∅ [].

(** A pulse half way along a transit of 300 ms that began at time 0, and
    a world whose clock shows 150. *)
Definition halfWayPulse : Signal.Pulse :=
  Signal.mkPulse [mkVector3 0 0 0; mkVector3 1 0 0] 300 0 0x00ff00 0.012
    (mkVector3 0 0 0) (mkVector3 1 1 1) 1 (Some 1%positive) false false.

Definition halfWayWorld : Signal.World :=
  Signal.mkWorld
    (Signal.mkHeap ∅ {[ 1%positive := [0%nat] ]} [halfWayPulse])
    false [0%nat] [] [] 150 [].

(** The same world when the transit is over. *)
Definition arrivedWorld : Signal.World :=
  Signal.mkWorld
    (Signal.mkHeap ∅ {[ 1%positive := [0%nat] ]} [halfWayPulse])
    false [0%nat] [] [] 300 [].

(** A curve evaluator for the examples: the first control point. *)
Definition firstPoint (points : list Vector3) (t : R) : Vector3 :=
  List.hd (mkVector3 0 0 0) points.

(** A neuron with a soma, and the heap that holds the soma's material. *)
Definition soloNeuron : Signal.NeuronObj :=
  Signal.mkNeuronObj (Some (Signal.mkUserData (Some 1%positive))).

Definition soloHeap : Signal.Heap :=
  Signal.mkHeap {[ 1%positive := Signal.mkSoma (Hex 0xff6b6b) 0.5 ]} ∅ [].

(** An entropy source that always draws 0.5 and always points along the
    y axis. *)
Definition steadyEntropy : Neuron.Entropy :=
  NeuronLogic.constantEntropy 0.5 (mkVector3 0 1 0).

(** The cube from -1 to 1, a soma at its centre and a soma 0.02 from its
    face x = 1. *)
Definition cube : Box3 := mkBox3 (mkVector3 (-1) (-1) (-1)) (mkVector3 1 1 1).

Definition centre : Vector3 := mkVector3 0 0 0.

Definition nearFace : Vector3 := mkVector3 0.98 0 0.

(** Two neurons 0.3 apart: the axon of the first ends at the origin, the
    second sits at (0.3, 0, 0) and sends its axon far away. *)
Definition sender : Neuron.NeuronData :=
  Neuron.mkNeuron (mkVector3 0 (-0.2) 0) 0.01 [] None [] (Some centre).

Definition receiver : Neuron.NeuronData :=
  Neuron.mkNeuron (mkVector3 0.3 0 0) 0.01 [] None []
    (Some (mkVector3 5 0 0)).

(** An entropy source that always draws 0.5 and always points along the
    x axis, towards the face that [nearFace] is close to. *)
Definition outwardEntropy : Neuron.Entropy :=
  NeuronLogic.constantEntropy 0.5 (mkVector3 1 0 0).

(** An entropy source whose draws are all 0. *)
Definition lowEntropy : Neuron.Entropy :=
  NeuronLogic.constantEntropy 0 (mkVector3 0 1 0).

End Examples.

(** ** crossSection.js: clipping a model *)

Module Clipping.

Import CrossSection.

(** A material as the section code sees it: the attributes of [Material]
    and the two clipping attributes. [clippingPlanes = None] is three.js's
    initial [null]. *)
Record Clipped := mkClipped {
  base : Material;
  clippingPlanes : option (list Plane);
  clipShadows : bool
}.

(** The [TypeError] of an assignment to a property of [null] or
    [undefined]: unlike [applyTransparency] and [applyWireframe], the
    section code does not test a material before it writes to it. *)
Inductive Thrown :=
| TypeError_set_property_of_null.

(** The store a call leaves, and the error that ended the call, if any. *)
Definition Outcome : Type := gmap MatId Clipped * option Thrown.

(** Lines 66 to 68 and 71 to 73. *)
Definition withPlane (plane : Plane) (c : Clipped) : Clipped :=
  mkClipped (set_needsUpdate (base c)) (Some [plane]) true.

(** Lines 90 to 91 and 94 to 95. *)
Definition withoutPlanes (c : Clipped) : Clipped :=
  mkClipped (set_needsUpdate (base c)) (Some []) (clipShadows c).

(** A statement that runs only when nothing was thrown before it: an
    exception leaves [forEach] and [traverse]. *)
Definition unlessThrown (statement : gmap MatId Clipped -> Outcome)
    (o : Outcome) : Outcome :=
  match snd o with
  | Some _ => o
  | None => statement (fst o)
  end.

(** The assignments to the attributes of [material]. *)
Definition assign (f : Clipped -> Clipped) (material : option MatId)
    (store : gmap MatId Clipped) : Outcome :=
  match material with
  | None => (store, Some TypeError_set_property_of_null)
  | Some id => (alter f id store, None)
  end.

(** The traversal the two functions share: [f] on the material, or on
    each material of the array, of every mesh. *)
Definition onMeshes (f : Clipped -> Clipped) (root : Object3D)
    (store : gmap MatId Clipped) : Outcome :=
  traverse (fun child o =>
    unlessThrown (fun store =>
      match mesh_of child with
      | None => (store, None)
      | Some (OneMaterial material) => assign f material store
      | Some (ManyMaterials materials) =>
          forEach materials (fun mat o => unlessThrown (assign f mat) o)
            (store, None)
      end) o) root (store, None).

(** [applySectionToModel(model, plane)] *)
Definition applySectionToModel (model : option Object3D) (plane : Plane)
    (store : gmap MatId Clipped) : Outcome :=
  match model with
  | None => (store, None)
  | Some root => onMeshes (withPlane plane) root store
  end.

(** [removeSectionFromModel(model)] *)
Definition removeSectionFromModel (model : option Object3D)
    (store : gmap MatId Clipped) : Outcome :=
  match model with
  | None => (store, None)
  | Some root => onMeshes withoutPlanes root store
  end.

(** [updateCrossSection] of the cross-section controller: the plane for
    the store's type and position, applied to [window.modelRef]. The
    result carries the diagnostics of [createSectionPlane]. *)
Definition updateCrossSection (windowModelRef : option Object3D)
    (crossSectionType : string) (crossSectionPosition : R)
    (store : gmap MatId Clipped) : Outcome * list Diagnostic :=
  match windowModelRef with
  | Some model =>
      let (plane, log) :=
        createSectionPlane crossSectionType crossSectionPosition in
      (applySectionToModel (Some model) plane store, log)
  | None => ((store, None), [])
  end.

(** The material slots [traverse] meets, [null] ones included, mesh by
    mesh and, within a mesh, in array order. *)
Fixpoint slotsReached (o : Object3D) : list (option MatId) :=
  match o with
  | Object mesh cs =>
      match mesh with
      | Some slot => materials_of slot
      | None => []
      end ++
      (fix each (l : list Object3D) : list (option MatId) :=
         match l with
         | [] => []
         | c :: l' => slotsReached c ++ each l'
         end) cs
  end.

(** The materials of a list of slots up to its first [null]. *)
Fixpoint untilNull (slots : list (option MatId)) : list MatId :=
  match slots with
  | Some id :: slots => id :: untilNull slots
  | _ => []
  end.

Definition hasNull (slots : list (option MatId)) : bool :=
  existsb (fun slot => match slot with None => true | Some _ => false end)
    slots.

(** The assignments for a list of slots, in order. *)
Definition assignAll (f : Clipped -> Clipped) (slots : list (option MatId))
    (o : Outcome) : Outcome :=
  fold_left (fun o slot => unlessThrown (assign f slot) o) slots o.

(** [m] after [n] assignments of [needsUpdate = true]. *)
Definition updated (n : nat) (m : Material) : Material :=
  Nat.iter n set_needsUpdate m.

End Clipping.

(** ** Notions for the material toggles *)

Module Toggles.

Import Wireframe WireframeView.

Local Open Scope R_scope.

(** A material without its update counter. *)
Definition forgetVersion (m : Material) : Material :=
  mkMaterial (mtype m) (color m) (metalness m) (roughness m) (emissive m)
    (emissiveIntensity m) (wireframe m) (visible m) (transparent m)
    (opacity m) (depthWrite m) 0.

(** A sequence of calls of [applyWireframe], each with its model and its
    flag, from the state [st]. *)
Definition applyWireframes (calls : list (option Object3D * bool))
    (st : State) : State :=
  fold_left (fun st call => applyWireframe (fst call) (snd call) st)
    calls st.

(** The module's state when it is loaded: three empty maps. *)
Definition loaded (materials0 : gmap MatId Material) : State :=
  mkState materials0 ∅ ∅ ∅ [].

(** The three maps agree on whether [id] has a snapshot, the entry of
    [originalMaterials] is the material itself, and a material with a
    snapshot shows wireframe. *)
Definition InStep (id : MatId) (v : View) : Prop :=
  (is_Some (v_color v) <-> is_Some (v_self v)) /\
  (is_Some (v_props v) <-> is_Some (v_self v)) /\
  (forall x : MatId, v_self v = Some x -> x = id) /\
  (is_Some (v_self v) ->
   exists m : Material, v_material v = Some m /\ wireframe m = true).

(** The attributes that the wireframe look overwrites without a
    snapshot, and two it leaves alone. *)
Definition Flat (dw : bool) (ty : string) (v : View) : Prop :=
  exists m : Material,
    v_material v = Some m /\ visible m = true /\ transparent m = false /\
    opacity m = 1 /\ depthWrite m = dw /\ mtype m = ty.

End Toggles.

(** ** Further concrete inputs *)

Module Samples.

Local Open Scope R_scope.

(** The store of [Examples.glassStore] as the section code sees it: a
    material that has never been clipped. *)
Definition unclippedGlass : Clipping.Clipped :=
  Clipping.mkClipped Examples.tintedGlass None false.

Definition unclippedStore : gmap MatId Clipping.Clipped :=
  {[ 1%positive := unclippedGlass ]}.

(** A network of two neurons, [Examples.sender] before
    [Examples.receiver], with one synapse from the first to the second
    that stops 0.05 short of the soma; and the same two neurons in the
    other order. *)
Definition shortSynapse : Neuron.Synapse :=
  Neuron.mkSynapse
    (Neuron.mkLine Examples.centre (mkVector3 0.125 0 0)
       (mkVector3 0.25 0 0) 30 false)
    Examples.centre (mkVector3 0.25 0 0) false.

Definition forwardNet : Neuron.Network :=
  Neuron.mkNetwork [Examples.sender; Examples.receiver]
    [Neuron.mkConnection 0 1 shortSynapse] 2.

Definition backwardNet : Neuron.Network :=
  Neuron.mkNetwork [Examples.receiver; Examples.sender]
    [Neuron.mkConnection 1 0 shortSynapse] 2.

(** A synapse line whose geometry has no [position] attribute, and a
    target neuron without [userData]. *)
Definition bareSynapse : Signal.SynapseObj :=
  Signal.mkSynapseObj (Some (Signal.mkGeometry None)).

Definition bareNeuron : Signal.NeuronObj := Signal.mkNeuronObj None.

(** A synapse line of two points. *)
Definition lineSynapse : Signal.SynapseObj :=
  Signal.mkSynapseObj
    (Some (Signal.mkGeometry
             (Some [Examples.centre; mkVector3 0.25 0 0]))).

End Samples.

(** ** Notions for the neurons and the network *)

Module NetworkLogic.

Import Neuron NeuronLogic.

Local Open Scope R_scope.

(** [Math.random] returns values in [[0, 1)]: an entropy source all of
    whose values lie there. *)
Definition Fair (e : Entropy) : Prop :=
  forall n : nat, 0 <= uniform e n < 1.

(** On a fair source, [m] returns a result that satisfies [P] and leaves
    a fair source. *)
Definition postFair {A : Type} (m : Rand A) (P : A -> Prop) : Prop :=
  forall e : Entropy, Fair e -> P (fst (m e)) /\ Fair (snd (m e)).

Definition Steady {A : Type} (m : Rand A) : Prop :=
  postFair m (fun _ => True).

Definition dot (a b : Vector3) : R :=
  vx a * vx b + vy a * vy b + vz a * vz b.

(** The middle control point of a curve is the midpoint of its ends
    pushed across the chord, by at most [bend / 2] of the chord's
    length. *)
Definition Bent (bend : R) (l : Line) : Prop :=
  let chord := Vec.sub (lineTo l) (lineFrom l) in
  let midPoint := Vec.multiplyScalar (Vec.add (lineFrom l) (lineTo l)) 0.5 in
  dot (Vec.sub (lineMid l) midPoint) chord = 0 /\
  Vec.distanceTo (lineMid l) midPoint
  <= Vec.distanceTo (lineFrom l) (lineTo l) * bend * 0.5.

(** The axon of a neuron and the terminal in its [userData] go together:
    a curve from the soma to the terminal, or neither (a terminal of
    [NaN]s). *)
Definition AxonShape (n : NeuronData) : Prop :=
  match axon n, axonEnd n with
  | Some l, Some a => lineFrom l = position n /\ lineTo l = a
  | None, None => True
  | _, _ => False
  end.

(** A neuron as [createNeuronNetwork] accepts it: the soma inside the
    shrunk box and the model's box, every dendrite, dendrite branch and
    axon branch ending within the margin of 0.05, the axon running from
    the soma to the terminal, and the terminal within the network's
    margin. *)
Definition Seated (brainModel : option Box3) (n : NeuronData) : Prop :=
  Box.containsPoint (safeBox brainModel) (position n) = true /\
  Box.containsPoint (box brainModel) (position n) = true /\
  Forall (endsWithin (Some (box brainModel))) (dendrites n) /\
  Forall (endsWithin (Some (box brainModel))) (axonBranches n) /\
  (exists (l : Line) (a : Vector3),
     axon n = Some l /\ axonEnd n = Some a /\
     lineFrom l = position n /\ lineTo l = a /\
     isPointInSafeBox a (box brainModel) (networkMargin brainModel) = true).

(** The [to] end of a synapse is less than 0.1 from the position of
    its target: the test by which [startRandomNeuralSignals] looks for
    the target of a synapse. *)
Definition Docked (neurons0 : list NeuronData) (c : Connection) : Prop :=
  exists tgt : NeuronData,
    neurons0 !! target c = Some tgt /\
    Vec.distanceTo (position tgt) (userTo (synapse c)) < 0.1.

(** The two neurons a synapse joins, and the order in which the two
    loops of lines 629 to 661 come to the pairs: by source, then by
    target. *)
Definition ends (c : Connection) : nat * nat := (source c, target c).

Definition visitedBefore (c c' : Connection) : Prop :=
  (source c < source c')%nat
  \/ (source c = source c' /\ (target c < target c')%nat).

Fixpoint Ordered (cs : list Connection) : Prop :=
  match cs with
  | [] => True
  | c :: cs => Forall (visitedBefore c) cs /\ Ordered cs
  end.

End NetworkLogic.

(** ** neuron.js: the random signals *)

Module RandomSignals.

Import Neuron.

Local Open Scope R_scope.

(** An element of [neuronPairs]: the indices, in [neurons], of its
    [source] and [target], and its [synapse]. *)
Record Pair := mkPair {
  pairSource : nat;
  pairTarget : nat;
  pairSynapse : Connection
}.

(** [neuron.userData.connections.includes(synapse)] for the neuron of
    index [k]: [createNeuronNetwork] pushes a synapse on the [connections]
    of its source and on those of its target (lines 657 and 658), and
    nothing else writes to these arrays. *)
Definition includes (k : nat) (c : Connection) : bool :=
  (k =? source c)%nat || (k =? target c)%nat.

(** The inner [for (const targetNeuron of neurons)] (lines 941 to 954):
    the first neuron other than the one of index [sourceIndex] whose
    position is less than 0.1 from [synapseTo]. *)
Fixpoint findTarget (sourceIndex : nat) (synapseTo : Vector3)
    (candidates : list (nat * NeuronData)) : option nat :=
  match candidates with
  | [] => None
  | (t, targetNeuron) :: candidates =>
      if negb (t =? sourceIndex)%nat
         && Rltb (Vec.distanceTo (position targetNeuron) synapseTo) 0.1
      then Some t
      else findTarget sourceIndex synapseTo candidates
  end.

(** The outer [for (const sourceNeuron of neurons)] (lines 938 to 957),
    which stops at the first neuron whose [connections] include the
    synapse, whether or not a target was found for it. *)
Fixpoint findPair (c : Connection) (all candidates : list (nat * NeuronData))
  : option Pair :=
  match candidates with
  | [] => None
  | (k, _) :: candidates =>
      if includes k c then
        match findTarget k (userTo (synapse c)) all with
        | Some t => Some (mkPair k t c)
        | None => None
        end
      else findPair c all candidates
  end.

(** The array [neurons] the first traversal collects, each neuron with
    its index: the neuron groups are the first children of the network
    group, in the order of [neurons]. *)
Definition indexed (neurons0 : list NeuronData) : list (nat * NeuronData) :=
  combine (seq 0 (List.length neurons0)) neurons0.

(** The pair the second traversal pushes for a synapse, if any. *)
Definition pairOf (net : Network) (c : Connection) : option Pair :=
  findPair c (indexed (neurons net)) (indexed (neurons net)).

(** [neuronPairs]: the synapses are traversed in the order of their
    creation. *)
Definition neuronPairs (net : Network) : list Pair :=
  omap (pairOf net) (connections net).

(** The state of the signals of one network: the [userData.animating]
    flags of its neurons (no entry is [undefined]), the pending 500 ms
    timers with the neuron each will release, and the clock. [launches]
    is a ghost trace: the calls of [animateNeuralSignalPropagation] so
    far, each with its time. *)
Record Driver := mkDriver {
  animating : gmap nat bool;
  releases : list (R * nat);
  launches : list (R * Pair);
  now : R
}.

Definition isAnimating (d : Driver) (k : nat) : bool :=
  default false (animating d !! k).

(** [neuronPairs[Math.floor(Math.random() * neuronPairs.length)]], which
    is [undefined] for an index outside the array. *)
Definition pick (pairs : list Pair) (r : R) : option Pair :=
  let index := floor (r * INR (List.length pairs)) in
  if (index <? 0)%Z then None else pairs !! Z.to_nat index.

(** The closure [triggerSignal] (lines 971 to 983). *)
Definition triggerSignal (pairs : list Pair) (d : Driver) : Rand Driver :=
  r <- Math_random ;;
  match pick pairs r with
  | Some chosen =>
      if isAnimating d (pairSource chosen) then ret d
      else
        ret (mkDriver (<[pairSource chosen := true]> (animating d))
               (releases d ++ [(now d + 500, pairSource chosen)])
               (launches d ++ [(now d, chosen)])
               (now d))
  | None => ret d
  end.

(** [for (let i = 0; i < signalCount; i++) triggerSignal()] *)
Fixpoint triggerSignals (iterations : nat) (pairs : list Pair) (d : Driver)
  : Rand Driver :=
  match iterations with
  | O => ret d
  | S k =>
      d <- triggerSignal pairs d ;;
      triggerSignals k pairs d
  end.

(** The callback of [setInterval] (lines 988 to 994). *)
Definition tick (pairs : list Pair) (d : Driver) : Rand Driver :=
  r <- Math_random ;;
  let signalCount := (floor (r * 3) + 1)%Z in
  triggerSignals (Z.to_nat signalCount) pairs d.

(** The callback of the 500 ms timer for the neuron [k]. *)
Definition release (k : nat) (d : Driver) : Driver :=
  mkDriver (<[k := false]> (animating d)) (releases d) (launches d) (now d).

(** [startRandomNeuralSignals(networkGroup, interval)], called at the
    time of [d]: [None] is the result [null] (no network, no neuron, or
    no pair); otherwise the pairs and the state after the first
    [triggerSignal]. (The interval only decides when [tick] runs.) *)
Definition startRandomNeuralSignals (networkGroup : option Network)
    (d : Driver) : Rand (option (list Pair * Driver)) :=
  match networkGroup with
  | None => ret None
  | Some net =>
      match neurons net with
      | [] => ret None
      | _ :: _ =>
          match neuronPairs net with
          | [] => ret None
          | pairs =>
              d <- triggerSignal pairs d ;;
              ret (Some (pairs, d))
          end
      end
  end.

(** The event loop of the signals: at a time not before the clock, the
    interval's callback runs, or a timer that is due releases its
    neuron. [setInterval] decides when the callback runs; the relation
    allows any time. *)
Inductive step (pairs : list Pair)
  : Driver * Entropy -> Driver * Entropy -> Prop :=
| step_tick : forall d e t,
    now d <= t ->
    step pairs (d, e)
      (tick pairs (mkDriver (animating d) (releases d) (launches d) t) e)
| step_release : forall d e t before due k after,
    releases d = before ++ (due, k) :: after ->
    now d <= t ->
    due <= t ->
    step pairs (d, e)
      (release k (mkDriver (animating d) (before ++ after) (launches d) t),
       e).

Inductive runs (pairs : list Pair)
  : Driver * Entropy -> Driver * Entropy -> Prop :=
| runs_refl : forall s, runs pairs s s
| runs_step : forall s s' s'',
    step pairs s s' -> runs pairs s' s'' -> runs pairs s s''.

(** A network no signal has touched yet, at time [t]. *)
Definition idle (t : R) : Driver := mkDriver ∅ [] [] t.

(** Launches from the same source are at least 500 ms apart. *)
Fixpoint Spaced (l : list (R * Pair)) : Prop :=
  match l with
  | [] => True
  | (t, p) :: l' =>
      Forall (fun x => pairSource (snd x) = pairSource p -> t + 500 <= fst x)
        l'
      /\ Spaced l'
  end.

(** The timers that will release the neuron [k]. *)
Definition pendingFor (k : nat) (d : Driver) : list (R * nat) :=
  List.filter (fun x => (snd x =? k)%nat) (releases d).

(** What the event loop maintains: the launches are spaced and of pairs
    of the list; a neuron that is animating has exactly one timer
    pending, due 500 ms after its latest launch; a neuron that is not has
    none, and its launches are at least 500 ms old. *)
Definition Guarded (pairs : list Pair) (d : Driver) : Prop :=
  Spaced (launches d) /\
  Forall (fun x => In (snd x) pairs) (launches d) /\
  forall k : nat,
    if isAnimating d k then
      exists T : R,
        pendingFor k d = [(T + 500, k)] /\
        Forall (fun x => pairSource (snd x) = k -> fst x <= T) (launches d)
    else
      pendingFor k d = [] /\
      Forall (fun x => pairSource (snd x) = k -> fst x + 500 <= now d)
        (launches d).

End RandomSignals.

(** ** Notions for the stages of a signal *)

Module SignalStages.

Import Signal.

Local Open Scope R_scope.

(** The points the transit makes its curve of: those of the synapse's
    [position] attribute, when there is at least one. *)
Definition pointsOf (synapse : option SynapseObj) : option (list Vector3) :=
  match synapse with
  | Some syn =>
      match geometry syn with
      | Some geom =>
          match positionAttribute geom with
          | Some (p :: ps) => Some (p :: ps)
          | _ => None
          end
      | None => None
      end
  | None => None
  end.

Definition hasUserData (target : option NeuronObj) : Prop :=
  exists (tgt : NeuronObj) (data : UserData),
    target = Some tgt /\ userData tgt = Some data.

(** [targetNeuron.userData.soma], when there is one. *)
Definition targetSoma (target : option NeuronObj) : option SomaId :=
  match target with
  | Some tgt =>
      match userData tgt with
      | Some data => soma data
      | None => None
      end
  | None => None
  end.

Definition isFlash (cb : Callback) : bool :=
  match cb with Flash _ _ _ _ => true | _ => false end.

(** A callback that may wait for a frame in a call made at [now]: a
    frame of the source flash or of the pulse, or a frame of a target
    flash that began 375 ms after the call or later. *)
Definition frameOK (now : R) (cb : Callback) : Prop :=
  match cb with
  | SourceFlash _ _ _ _ => True
  | Animate _ _ => True
  | Flash _ flashTime _ _ => now + 375 <= flashTime
  | Transit _ _ _ => False
  | AfterTransit _ => False
  end.

(** How a call made at [now] can have completed: at once when the 75 ms
    timer finds no synapse, no synapse geometry or no target; otherwise
    375 ms after the call at the earliest, and 475 ms when the target has
    a soma to flash. *)
Definition Finished (now : R) (synapse : option SynapseObj)
    (target : option NeuronObj) (w : World) : Prop :=
  (synapse = None \/ target = None \/
   exists syn : SynapseObj, synapse = Some syn /\ geometry syn = None)
  \/ (is_Some (pointsOf synapse) /\ hasUserData target /\
      now + 375 <= clock w /\
      (targetSoma target = None \/ now + 475 <= clock w)).

(** The stages of a call made at [now]: the 75 ms timer is pending; or
    the pulse is under way and the 300 ms timer is pending; or no timer
    is left. *)
Definition Staged (now : R) (synapse : option SynapseObj)
    (target : option NeuronObj) (scene : SceneId) (w : World) : Prop :=
  Forall (frameOK now) (frames w) /\
  (uncaught w <> [] ->
   is_Some (pointsOf synapse) /\
   exists tgt : NeuronObj, target = Some tgt /\ userData tgt = None) /\
  ((completed w = false /\ signals w = [] /\
    forallb isSourceFlash (frames w) = true /\
    timers w = [(now + 75, Transit synapse target scene)] /\
    now <= clock w)
   \/ (completed w = false /\ is_Some (pointsOf synapse) /\
       existsb isFlash (frames w) = false /\
       exists (tgt : NeuronObj) (T1 : R),
         target = Some tgt /\ now + 75 <= T1 /\ T1 <= clock w /\
         timers w = [(T1 + 300, AfterTransit (Some tgt))])
   \/ (timers w = [] /\ now + 75 <= clock w /\
       (completed w = true -> Finished now synapse target w) /\
       (existsb isFlash (frames w) = true ->
        is_Some (pointsOf synapse) /\ hasUserData target /\
        now + 375 <= clock w))).

(** A callback that may wait for a frame while the soma [s], whose
    material was [s0] at the call, is the source: a frame of the source
    flash holds what it will restore, and a target flash is on another
    soma. *)
Definition frameKeeps (s : SomaId) (s0 : Soma) (cb : Callback) : Prop :=
  match cb with
  | SourceFlash s' _ e i =>
      s' = s /\ e = somaEmissive s0 /\ i = somaEmissiveIntensity s0
  | Flash s' _ _ _ => s' <> s
  | Animate _ _ => True
  | Transit _ _ _ => False
  | AfterTransit _ => False
  end.

(** The material of the source soma is what it was at the call, unless
    a frame of the source flash is still to run. *)
Definition SomaKept (s : SomaId) (s0 : Soma) (synapse : option SynapseObj)
    (target : option NeuronObj) (scene : SceneId) (w : World) : Prop :=
  Forall (frameKeeps s s0) (frames w) /\
  Forall (fun x => snd x = Transit synapse target scene
                   \/ snd x = AfterTransit target) (timers w) /\
  (existsb isSourceFlash (frames w) = true
   \/ somas (heap w) !! s = Some s0).

(** The pulse [id] follows its curve: created at [T1] for 300 ms, not
    disposed. *)
Definition pulseLive (id : PulseId) (T1 : R) (w : World) : Prop :=
  exists p : Pulse,
    pulses (heap w) !! id = Some p /\
    pulseDuration p = 300 /\ startTime p = T1 /\
    geometryDisposed p = false /\ materialDisposed p = false.

(** The pulse [id] is over: its geometry and material are disposed, and
    300 ms have passed since it was created. *)
Definition pulseOver (id : PulseId) (w : World) : Prop :=
  exists p : Pulse,
    pulses (heap w) !! id = Some p /\
    startTime p + 300 <= clock w /\
    geometryDisposed p = true /\ materialDisposed p = true.

Definition noTransit (cb : Callback) : Prop := isTransitTimer cb = false.

Definition isAfterTransit (cb : Callback) : bool :=
  match cb with AfterTransit _ => true | _ => false end.

(** The life of the pulse of a call on the heap [h] whose 75 ms timer is
    due at [due]: not created yet; or a child of the scene while
    exactly one frame of its animation waits; or over and no longer a
    child. *)
Definition PulseLife (h : Heap) (due : R) (synapse : option SynapseObj)
    (target : option NeuronObj) (scene : SceneId) (w : World) : Prop :=
  let id := List.length (pulses h) in
  let before := childrenOf scene h in
  Forall noTransit (frames w) /\
  ((pulses (heap w) = pulses h /\ children (heap w) = children h /\
    List.filter isSynapseTransit (frames w) = [] /\
    (timers w = [(due, Transit synapse target scene)]
     \/ Forall (fun x => isAfterTransit (snd x) = true) (timers w)))
   \/ (childrenOf scene (heap w) = before ++ [id] /\
       (exists T1 : R, T1 <= clock w /\ pulseLive id T1 w) /\
       List.filter isSynapseTransit (frames w) = [Animate id scene] /\
       Forall (fun x => isAfterTransit (snd x) = true) (timers w))
   \/ (childrenOf scene (heap w) = before /\
       pulseOver id w /\
       List.filter isSynapseTransit (frames w) = [] /\
       Forall (fun x => isAfterTransit (snd x) = true) (timers w))).

End SignalStages.

(** * JavaScript numbers

    The functions below divide by an argument that may be 0 or not a
    number at all, so their numbers include the special values. *)

Module JsNumber.

Local Open Scope R_scope.

(** A JavaScript number: a finite one, or one of the three special
    values. A zero is [+0], and rounding is left out as everywhere. *)
Inductive JsNum := Fin (r : R) | PosInf | NegInf | NaN.

(** [x * Infinity] for a finite [x]. *)
Definition ofSign (x : R) : JsNum :=
  if Rltb 0 x then PosInf else if Rltb x 0 then NegInf else NaN.

Definition neg (a : JsNum) : JsNum :=
  match a with
  | Fin x => Fin (- x)
  | PosInf => NegInf
  | NegInf => PosInf
  | NaN => NaN
  end.

Definition add (a b : JsNum) : JsNum :=
  match a, b with
  | NaN, _ | _, NaN => NaN
  | Fin x, Fin y => Fin (x + y)
  | PosInf, NegInf | NegInf, PosInf => NaN
  | PosInf, _ | _, PosInf => PosInf
  | NegInf, _ | _, NegInf => NegInf
  end.

Definition sub (a b : JsNum) : JsNum := add a (neg b).

Definition mul (a b : JsNum) : JsNum :=
  match a, b with
  | NaN, _ | _, NaN => NaN
  | Fin x, Fin y => Fin (x * y)
  | Fin x, PosInf | PosInf, Fin x => ofSign x
  | Fin x, NegInf | NegInf, Fin x => ofSign (- x)
  | PosInf, PosInf | NegInf, NegInf => PosInf
  | PosInf, NegInf | NegInf, PosInf => NegInf
  end.

Definition div (a b : JsNum) : JsNum :=
  match a, b with
  | NaN, _ | _, NaN => NaN
  | Fin x, Fin y => if Req_dec_T y 0 then ofSign x else Fin (x / y)
  | Fin _, _ => Fin 0
  | PosInf, Fin y => if Rltb y 0 then NegInf else PosInf
  | NegInf, Fin y => if Rltb y 0 then PosInf else NegInf
  | _, _ => NaN
  end.

(** [Math.min(a, b)]. *)
Definition min (a b : JsNum) : JsNum :=
  match a, b with
  | NaN, _ | _, NaN => NaN
  | NegInf, _ | _, NegInf => NegInf
  | PosInf, c | c, PosInf => c
  | Fin x, Fin y => Fin (Rmin x y)
  end.

(** [a < b]. *)
Definition lt (a b : JsNum) : bool :=
  match a, b with
  | NaN, _ | _, NaN => false
  | Fin x, Fin y => Rltb x y
  | _, NegInf => false
  | NegInf, _ => true
  | PosInf, _ => false
  | Fin _, PosInf => true
  end.

(** [Math.sin(a)]. *)
Definition jsin (a : JsNum) : JsNum :=
  match a with
  | Fin x => Fin (sin x)
  | _ => NaN
  end.

(** A number in a condition, as in [a || 1.0]: 0 and [NaN] are false. *)
Definition falsy (a : JsNum) : bool :=
  match a with
  | Fin x => if Req_dec_T x 0 then true else false
  | NaN => true
  | _ => false
  end.

End JsNumber.

(** * The scan animation of the cross-section (useSectionAnimation.js)

    The composable keeps [isAnimating], [animationId] and [startTime];
    the position of the section is in the scene store. [Date.now()] is
    the clock of the state. Frames asked for and timers set wait in the
    state until the event loop runs them. *)

Module SectionAnimation.

Import JsNumber.

Local Open Scope R_scope.

(** What the closure [animate] of one call of [playScanAnimation] holds:
    the argument [duration] as a number, and [startPosition]. *)
Record Closure := mkClosure {
  duration : JsNum;
  startPosition : JsNum
}.

(** The state: the store's [crossSectionPosition]; the composable's
    [isAnimating], [animationId] ([None] is [null]) and [startTime]
    ([None] is [null]); the frames asked for, each with its handle; the
    times at which the timers set are due; the number of handles given
    out; the clock. *)
Record Scan := mkScan {
  crossSectionPosition : JsNum;
  isAnimating : bool;
  animationId : option nat;
  startTime : option R;
  frames : list (nat * Closure);
  timers : list R;
  handles : nat;
  clock : R
}.

Definition animationDuration : JsNum := Fin 1500.

Definition setCrossSectionPosition (position : JsNum) (s : Scan) : Scan :=
  mkScan position (isAnimating s) (animationId s) (startTime s) (frames s)
    (timers s) (handles s) (clock s).

Definition set_isAnimating (b : bool) (s : Scan) : Scan :=
  mkScan (crossSectionPosition s) b (animationId s) (startTime s) (frames s)
    (timers s) (handles s) (clock s).

Definition set_animationId (id : option nat) (s : Scan) : Scan :=
  mkScan (crossSectionPosition s) (isAnimating s) id (startTime s)
    (frames s) (timers s) (handles s) (clock s).

Definition set_startTime (t : option R) (s : Scan) : Scan :=
  mkScan (crossSectionPosition s) (isAnimating s) (animationId s) t
    (frames s) (timers s) (handles s) (clock s).

(** [requestAnimationFrame(animate)]: the handles are 1, 2, ... *)
Definition requestAnimationFrame (c : Closure) (s : Scan) : Scan * nat :=
  let id := S (handles s) in
  (mkScan (crossSectionPosition s) (isAnimating s) (animationId s)
     (startTime s) (frames s ++ [(id, c)]) (timers s) id (clock s), id).

Definition cancelAnimationFrame (id : nat) (s : Scan) : Scan :=
  mkScan (crossSectionPosition s) (isAnimating s) (animationId s)
    (startTime s)
    (List.filter (fun f => negb (fst f =? id)%nat) (frames s))
    (timers s) (handles s) (clock s).

(** [setTimeout(..., 500)] with the arrow function of line 346. *)
Definition setTimeout (delay : R) (s : Scan) : Scan :=
  mkScan (crossSectionPosition s) (isAnimating s) (animationId s)
    (startTime s) (frames s) (timers s ++ [clock s + delay]) (handles s)
    (clock s).

(** [stopAnimation()] (lines 359 to 365); [if (animationId)] holds for
    a handle that is neither [null] nor 0. *)
Definition stopAnimation (s : Scan) : Scan :=
  let s := match animationId s with
           | Some (S n) =>
               set_animationId None (cancelAnimationFrame (S n) s)
           | _ => s
           end in
  set_isAnimating false s.

(** [pauseAnimation()] (lines 370 to 376): the same statements. *)
Definition pauseAnimation (s : Scan) : Scan :=
  let s := match animationId s with
           | Some (S n) =>
               set_animationId None (cancelAnimationFrame (S n) s)
           | _ => s
           end in
  set_isAnimating false s.

(** The closure [animate] (lines 334 to 351). [Date.now() - startTime]
    takes a [null] start time as 0. *)
Definition animate (c : Closure) (s : Scan) : Scan :=
  let elapsed := clock s - match startTime s with
                           | Some t => t
                           | None => 0
                           end in
  let progress := min (div (Fin elapsed) (duration c)) (Fin 1) in
  let newPosition :=
    add (startPosition c)
      (mul (sub (Fin 1) (startPosition c)) progress) in
  let s := setCrossSectionPosition newPosition s in
  if lt progress (Fin 1) then
    let (s, id) := requestAnimationFrame c s in
    set_animationId (Some id) s
  else
    setTimeout 500 s.

(** The arrow function of the timer (lines 346 to 349). *)
Definition reset (s : Scan) : Scan :=
  set_isAnimating false (setCrossSectionPosition (Fin 0) s).

(** [playScanAnimation(duration = animationDuration)] (lines 325 to
    354); [None] is a call without the argument. *)
Definition playScanAnimation (duration : option JsNum) (s : Scan) : Scan :=
  let duration := match duration with
                  | Some d => d
                  | None => animationDuration
                  end in
  let s := if isAnimating s then stopAnimation s else s in
  let s := set_isAnimating true s in
  let s := set_startTime (Some (clock s)) s in
  let startPosition := crossSectionPosition s in
  animate (mkClosure duration startPosition) s.

(** [resetSection()] of the panel (CrossSectionPanel.vue, lines 143 to
    146). *)
Definition resetSection (s : Scan) : Scan :=
  stopAnimation (setCrossSectionPosition (Fin 0.5) s).

Definition at_time (t : R) (fs : list (nat * Closure)) (ts : list R)
    (s : Scan) : Scan :=
  mkScan (crossSectionPosition s) (isAnimating s) (animationId s)
    (startTime s) fs ts (handles s) t.

(** What the event loop runs. *)
Inductive Event := Frame (id : nat) | Timer.

(** The event loop: at a time [t] not before the clock, a frame that
    waits runs, or a timer that is due fires. *)
Inductive step : Scan -> Event -> Scan -> Prop :=
| step_frame : forall s t before id c after,
    frames s = before ++ (id, c) :: after ->
    clock s <= t ->
    step s (Frame id) (animate c (at_time t (before ++ after) (timers s) s))
| step_timer : forall s t before due after,
    timers s = before ++ due :: after ->
    clock s <= t ->
    due <= t ->
    step s Timer (reset (at_time t (frames s) (before ++ after) s)).

Inductive runs : Scan -> list Event -> Scan -> Prop :=
| runs_nil : forall s, runs s [] s
| runs_cons : forall s ev s' evs s'',
    step s ev s' -> runs s' evs s'' -> runs s (ev :: evs) s''.

(** The state when the composable is set up: the store's position is
    0.5. *)
Definition atRest : Scan := mkScan (Fin 0.5) false None None [] [] 0 0.

(** A scan of 1500 ms from 0.5 that has just started at time 0, and the
    same scan when its frame at time 1500 has arrived at 1. *)
Definition justStarted : Scan :=
  mkScan (Fin 0.5) true (Some 1%nat) (Some 0)
    [(1%nat, mkClosure (Fin 1500) (Fin 0.5))] [] 1 0.

Definition justArrived : Scan :=
  mkScan (Fin 1) true (Some 1%nat) (Some 0) [] [2000] 1 1500.

(** A state in which nothing waits and no scan is under way. *)
Definition Idle (s : Scan) : Prop :=
  isAnimating s = false /\ frames s = [] /\ timers s = [].

(** The states of a scan from the position [x] over [d] ms, started at
    [t0]: sweeping, with one frame waiting and the position on the line
    from [x] to 1; arrived at 1, with the timer waiting; or reset. *)
Definition Sweeping (x d t0 : R) (s : Scan) : Prop :=
  isAnimating s = true /\ timers s = [] /\
  (exists id : nat,
     frames s = [(id, mkClosure (Fin d) (Fin x))]
     /\ animationId s = Some id /\ id <> 0%nat) /\
  exists T : R,
    t0 <= T <= clock s /\ T < t0 + d /\
    crossSectionPosition s = Fin (x + (1 - x) * ((T - t0) / d)).

Definition Arrived (d t0 : R) (s : Scan) : Prop :=
  isAnimating s = true /\ frames s = [] /\
  crossSectionPosition s = Fin 1 /\
  exists T : R, t0 + d <= T <= clock s /\ timers s = [T + 500].

Definition Over (d t0 : R) (s : Scan) : Prop :=
  isAnimating s = false /\ frames s = [] /\ timers s = [] /\
  crossSectionPosition s = Fin 0 /\ t0 + d + 500 <= clock s.

Definition Scanning (x d t0 : R) (s : Scan) : Prop :=
  startTime s = Some t0 /\
  (Sweeping x d t0 s \/ Arrived d t0 s \/ Over d t0 s).

End SectionAnimation.

(** * neuron.js: the signal along one line (animateNeuralSignal)

    The older animation of lines 846 to 895: it changes the colour and
    the opacity of the material of a line for [duration] ms and puts
    them back. The lines are objects on a heap; a frame that waits holds
    what the closure [animate] of its call holds. *)

Module LineSignal.

Import JsNumber.

Local Open Scope R_scope.

Definition LineId := positive.

Record Color := mkColor { red : JsNum; green : JsNum; blue : JsNum }.

(** [version] counts the assignments [needsUpdate = true]. *)
Record Material := mkMaterial {
  color : Color;
  opacity : JsNum;
  transparent : bool;
  version : nat
}.

Record UserData := mkUserData { active : bool }.

Record LineObj := mkLineObj {
  userData : option UserData;
  material : option Material
}.

(** [connection], [startTime], [duration], [originalColor] and
    [originalOpacity] of one call. *)
Record Closure := mkClosure {
  connection : LineId;
  startTime : R;
  duration : JsNum;
  originalColor : Color;
  originalOpacity : JsNum
}.

Record World := mkWorld {
  heap : gmap LineId LineObj;
  frames : list (nat * Closure);
  handles : nat;
  clock : R
}.

(** What the function returns: [undefined], or [animationId], which is
    [null] or a handle. *)
Inductive Result := Undefined | AnimationId (id : option nat).

(** [new THREE.Color(0x00ffff)] *)
Definition brightColor : Color := mkColor (Fin 0) (Fin 1) (Fin 1).

(** [Color.lerpColors(color1, color2, alpha)] *)
Definition lerpColors (color1 color2 : Color) (alpha : JsNum) : Color :=
  mkColor (add (red color1) (mul (sub (red color2) (red color1)) alpha))
          (add (green color1)
             (mul (sub (green color2) (green color1)) alpha))
          (add (blue color1) (mul (sub (blue color2) (blue color1)) alpha)).

Definition set_line (id : LineId) (l : LineObj) (w : World) : World :=
  mkWorld (<[id := l]> (heap w)) (frames w) (handles w) (clock w).

Definition requestAnimationFrame (c : Closure) (w : World) : World * nat :=
  let id := S (handles w) in
  (mkWorld (heap w) (frames w ++ [(id, c)]) id (clock w), id).

(** The closure [animate] (lines 863 to 888) and the handle it stored in
    [animationId], if it asked for a frame. The closure holds the line
    and its material, which are there when it runs. *)
Definition animate (c : Closure) (w : World) : World * option nat :=
  match heap w !! connection c with
  | Some (mkLineObj (Some data) (Some m)) =>
      let elapsed := clock w - startTime c in
      let progress := div (Fin elapsed) (duration c) in
      if lt progress (Fin 1) then
        let intensity := jsin (mul progress (Fin PI)) in
        let m := mkMaterial
                   (lerpColors (originalColor c) brightColor intensity)
                   (add (originalOpacity c)
                      (mul (mul intensity
                              (sub (Fin 1) (originalOpacity c)))
                         (Fin 0.5)))
                   true (S (version m)) in
        let w := set_line (connection c)
                   (mkLineObj (Some data) (Some m)) w in
        let (w, id) := requestAnimationFrame c w in
        (w, Some id)
      else
        let m := mkMaterial (originalColor c) (originalOpacity c) true
                   (S (version m)) in
        (set_line (connection c)
           (mkLineObj (Some (mkUserData false)) (Some m)) w, None)
  | _ => (w, None)
  end.

(** [animateNeuralSignal(connection, duration = 500)]; [None] is a
    missing argument. *)
Definition animateNeuralSignal (connection : option LineId)
    (duration : option JsNum) (w : World) : World * Result :=
  let duration := match duration with
                  | Some d => d
                  | None => Fin 500
                  end in
  match connection with
  | None => (w, Undefined)
  | Some id =>
      match heap w !! id with
      | Some (mkLineObj (Some data) (Some m)) =>
          if active data then (w, Undefined)
          else
            let startTime := clock w in
            let originalColor := color m in
            let originalOpacity :=
              if falsy (opacity m) then Fin 1 else opacity m in
            let m := mkMaterial (color m) (opacity m) true
                       (S (version m)) in
            let w := set_line id
                       (mkLineObj (Some (mkUserData true)) (Some m)) w in
            let (w, animationId) :=
              animate (mkClosure id startTime duration originalColor
                         originalOpacity) w in
            (w, AnimationId animationId)
      | _ => (w, Undefined)
      end
  end.

Definition at_time (t : R) (fs : list (nat * Closure)) (w : World)
  : World :=
  mkWorld (heap w) fs (handles w) t.

(** The event loop: at a time [t] not before the clock, a frame that
    waits runs. *)
Inductive step : World -> nat -> World -> Prop :=
| step_frame : forall w t before id c after,
    frames w = before ++ (id, c) :: after ->
    clock w <= t ->
    step w id (fst (animate c (at_time t (before ++ after) w))).

Inductive runs : World -> list nat -> World -> Prop :=
| runs_nil : forall w, runs w [] w
| runs_cons : forall w ev w' evs w'',
    step w ev w' -> runs w' evs w'' -> runs w (ev :: evs) w''.

(** The opacity the animation takes as the original one. *)
Definition taken (o : R) : R := if Req_dec_T o 0 then 1 else o.

(** The states of the animation of the line [id], started at [t0] over
    [d] ms on a material of colour [(r, g, b)] and opacity [o]: under
    way, with one frame waiting and the colour and the opacity as the
    last frame, at [T], set them; or over. *)
Definition Flashing (id : LineId) (r g b o d t0 : R) (w : World) : Prop :=
  exists (T : R) (m : Material) (handle : nat),
    t0 <= T <= clock w /\ T < t0 + d /\
    heap w !! id = Some (mkLineObj (Some (mkUserData true)) (Some m)) /\
    frames w
    = [(handle,
        mkClosure id t0 (Fin d) (mkColor (Fin r) (Fin g) (Fin b))
          (Fin (taken o)))] /\
    transparent m = true /\
    let k := sin ((T - t0) / d * PI) in
    color m = mkColor (Fin (r + (0 - r) * k)) (Fin (g + (1 - g) * k))
                (Fin (b + (1 - b) * k)) /\
    opacity m = Fin (taken o + k * (1 - taken o) * 0.5).

Definition Restored (id : LineId) (r g b o d t0 : R) (w : World) : Prop :=
  exists m : Material,
    t0 + d <= clock w /\
    heap w !! id = Some (mkLineObj (Some (mkUserData false)) (Some m)) /\
    frames w = [] /\
    transparent m = true /\
    color m = mkColor (Fin r) (Fin g) (Fin b) /\
    opacity m = Fin (taken o).

(** A line at rest, and a world that holds it. *)
Definition restingLine : LineObj :=
  mkLineObj (Some (mkUserData false))
    (Some (mkMaterial (mkColor (Fin 1) (Fin 0.5) (Fin 0)) (Fin 0) false 0)).

Definition restingWorld : World :=
  mkWorld {[ 1%positive := restingLine ]} [] 0 0.

End LineSignal.

(* ================================================================== *)
(** * Part II: properties                                              *)
(* ================================================================== *)

(** ** Comparisons on real numbers *)

Section RealComparisons.

Local Open Scope R_scope.

Lemma Rleb_true (a b : R) : Rleb a b = true <-> a <= b.
Proof. unfold Rleb. destruct (Rle_dec a b); split; intros; try easy. Qed.

Lemma Rleb_false (a b : R) : Rleb a b = false <-> b < a.
Proof.
  unfold Rleb. destruct (Rle_dec a b); split; intros; try easy; lra.
Qed.

Lemma Rltb_true (a b : R) : Rltb a b = true <-> a < b.
Proof. unfold Rltb. destruct (Rlt_dec a b); split; intros; try easy. Qed.

Lemma Rltb_false (a b : R) : Rltb a b = false <-> b <= a.
Proof.
  unfold Rltb. destruct (Rlt_dec a b); split; intros; try easy; lra.
Qed.

End RealComparisons.

(** ** Cross-section planes *)

Section CrossSectionFacts.

Import CrossSection.
Local Open Scope R_scope.
Local Open Scope string_scope.

Lemma createSectionPlane_constant (type : string) (position : R) :
  constant (fst (createSectionPlane type position)) = (position - 0.5) * 2.
Proof.
  unfold createSectionPlane.
  destruct (String.eqb type SectionType.CORONAL); [reflexivity |].
  destruct (String.eqb type SectionType.SAGITTAL); [reflexivity |].
  destruct (String.eqb type SectionType.AXIAL); reflexivity.
Qed.

(** An unknown section type gets the axial normal and one diagnostic. *)
Lemma createSectionPlane_unknown (type : string) (position : R) :
  type <> "coronal" -> type <> "sagittal" -> type <> "axial" ->
  createSectionPlane type position
  = (mkPlane (mkVector3 0 0 1) ((position - 0.5) * 2),
     [UnknownSectionType type]).
Proof.
  intros Hc Hs Ha. unfold createSectionPlane.
  apply String.eqb_neq in Hc, Hs, Ha.
  unfold SectionType.CORONAL, SectionType.SAGITTAL, SectionType.AXIAL.
  now rewrite Hc, Hs, Ha.
Qed.

(** C1. For a position in [0,1] the plane's constant is
    [(position - 0.5) * 2], which lies in [-1,1], is -1 at 0, 0 at 0.5
    and 1 at 1, and grows with the position (weakly and strictly); the
    normal is (1,0,0) for 'coronal', (0,1,0) for 'sagittal' and (0,0,1)
    for 'axial'; [createSectionPlane 'axial' 0.75] has normal (0,0,1)
    and constant 0.5. *)
Theorem createSectionPlane_spec (type : string) (position : R) :
  0 <= position <= 1 ->
  let plane := fst (createSectionPlane type position) in
  constant plane = spec_constant position /\
  -1 <= constant plane <= 1 /\
  constant (fst (createSectionPlane type 0)) = -1 /\
  constant (fst (createSectionPlane type 0.5)) = 0 /\
  constant (fst (createSectionPlane type 1)) = 1 /\
  (forall position' : R,
      position <= position' ->
      constant plane <= constant (fst (createSectionPlane type position'))) /\
  (forall position' : R,
      position < position' ->
      constant plane < constant (fst (createSectionPlane type position'))) /\
  (type = "coronal" -> normal plane = mkVector3 1 0 0) /\
  (type = "sagittal" -> normal plane = mkVector3 0 1 0) /\
  (type = "axial" -> normal plane = mkVector3 0 0 1) /\
  fst (createSectionPlane "axial" 0.75) = mkPlane (mkVector3 0 0 1) 0.5.
Proof.
  intros Hpos plane. subst plane.
  rewrite !createSectionPlane_constant. unfold spec_constant.
  repeat split; try lra.
  - intros p' Hle. rewrite createSectionPlane_constant. lra.
  - intros p' Hlt. rewrite createSectionPlane_constant. lra.
  - intros ->. reflexivity.
  - intros ->. reflexivity.
  - intros ->. reflexivity.
  - cbn. f_equal. lra.
Qed.

Lemma createSectionPlane_spec_witness :
  0 <= 0.75 <= 1 /\
  constant (fst (createSectionPlane "axial" 0.75)) = spec_constant 0.75.
Proof.
  split; [lra |].
  apply (createSectionPlane_spec "axial" 0.75). lra.
Defined.

End CrossSectionFacts.

(** ** Connection probability *)

Section ConnectionProbability.

Import Neuron.
Local Open Scope R_scope.

Lemma calculateConnectionProbability_unfold (d m p : R) :
  calculateConnectionProbability d m p
  = p * exp (- d / (m * 0.3))
    * (if Rltb d (m * 0.2) then 1.5 else 1.0)
    * (if Rltb (m * 0.5) d then 0.3 else 1.0).
Proof. reflexivity. Qed.

Lemma calculateConnectionProbability_eq_spec (d m p : R) :
  calculateConnectionProbability d m p = spec_connectionProbability d m p.
Proof.
  unfold calculateConnectionProbability, spec_connectionProbability,
    spec_localBoost, spec_globalDamp, Rltb.
  replace (m * 0.3) with (0.3 * m) by lra.
  replace (m * 0.2) with (0.2 * m) by lra.
  replace (m * 0.5) with (0.5 * m) by lra.
  destruct (Rlt_dec d (0.2 * m)), (Rlt_dec (0.5 * m) d); reflexivity.
Qed.

Lemma distanceFactor_decreasing (d d' m : R) :
  0 < m -> d < d' -> exp (- d' / (m * 0.3)) < exp (- d / (m * 0.3)).
Proof.
  intros Hm Hd. apply exp_increasing.
  unfold Rdiv. apply Rmult_lt_compat_r.
  - apply Rinv_0_lt_compat. lra.
  - lra.
Qed.

Lemma calculateConnectionProbability_decreasing (d d' m p : R) :
  0 < m -> 0 < p -> m * 0.2 <= d -> d < d' ->
  calculateConnectionProbability d' m p
  < calculateConnectionProbability d m p.
Proof.
  intros Hm Hp Hlocal Hd.
  rewrite !calculateConnectionProbability_unfold.
  pose proof (distanceFactor_decreasing d d' m Hm Hd) as Hexp.
  pose proof (exp_pos (- d' / (m * 0.3))) as Hpos'.
  assert (Rltb d (m * 0.2) = false) as -> by (apply Rltb_false; lra).
  assert (Rltb d' (m * 0.2) = false) as -> by (apply Rltb_false; lra).
  set (e := exp (- d / (m * 0.3))) in *.
  set (e' := exp (- d' / (m * 0.3))) in *.
  assert (p * e' < p * e) as Hpe by (apply Rmult_lt_compat_l; lra).
  assert (0 < p * e') as Hpe' by (apply Rmult_lt_0_compat; lra).
  unfold Rltb.
  destruct (Rlt_dec (m * 0.5) d'), (Rlt_dec (m * 0.5) d); try lra; nra.
Qed.

(** C3. For a distance [d >= 0] and [maxDistance > 0] the probability is
    [baseProbability * exp (- d / (0.3 * maxDistance)) * localBoost *
    globalDamp], with [localBoost] 1.5 below [0.2 * maxDistance] and 1
    otherwise, [globalDamp] 0.3 above [0.5 * maxDistance] and 1
    otherwise; and for a positive [baseProbability] it is strictly
    smaller at any larger distance once [d > 0.2 * maxDistance]. *)
Theorem calculateConnectionProbability_spec
    (d maxDistance baseProbability : R) :
  0 <= d -> 0 < maxDistance ->
  calculateConnectionProbability d maxDistance baseProbability
  = baseProbability * exp (- d / (0.3 * maxDistance))
    * (if Rlt_dec d (0.2 * maxDistance) then 1.5 else 1.0)
    * (if Rlt_dec (0.5 * maxDistance) d then 0.3 else 1.0)
  /\
  (0 < baseProbability -> 0.2 * maxDistance < d ->
   forall d' : R,
     d < d' ->
     calculateConnectionProbability d' maxDistance baseProbability
     < calculateConnectionProbability d maxDistance baseProbability).
Proof.
  intros Hd Hm. split.
  - apply calculateConnectionProbability_eq_spec.
  - intros Hp Hlocal d' Hlt.
    apply calculateConnectionProbability_decreasing; lra.
Qed.

Lemma calculateConnectionProbability_spec_witness :
  calculateConnectionProbability 0.5 1 1
  = 1 * exp (- (0.5) / (0.3 * 1))
    * (if Rlt_dec 0.5 (0.2 * 1) then 1.5 else 1.0)
    * (if Rlt_dec (0.5 * 1) 0.5 then 0.3 else 1.0)
  /\ calculateConnectionProbability 0.75 1 1
     < calculateConnectionProbability 0.5 1 1.
Proof.
  destruct (calculateConnectionProbability_spec 0.5 1 1) as [Heq Hdec];
    [lra | lra |].
  split; [exact Heq |].
  apply Hdec; lra.
Defined.

End ConnectionProbability.

(** ** Traversals of the scene graph *)

Section Traversal.

Import Reach.

Lemma Object3D_rect_children (P : Object3D -> Prop) :
  (forall mesh cs, Forall P cs -> P (Object mesh cs)) ->
  forall o, P o.
Proof.
  intros step. fix IH 1. intros [mesh cs]. apply step.
  induction cs as [| c cs IHcs]; constructor.
  - apply IH.
  - exact IHcs.
Qed.

Context {S : Type} (visit : MatId -> S -> S).

Lemma visitAll_app (ids ids' : list MatId) (s : S) :
  visitAll visit (ids ++ ids') s = visitAll visit ids' (visitAll visit ids s).
Proof. unfold visitAll. apply fold_left_app. Qed.

Lemma forEach_materials (l : list (option MatId)) (s : S) :
  forEach l (fun material s =>
    match material with
    | None => s
    | Some id => visit id s
    end) s
  = visitAll visit (omap (fun m => m) l) s.
Proof.
  revert s. induction l as [| [id |] l IH]; intros s; cbn.
  - reflexivity.
  - apply IH.
  - apply IH.
Qed.

(** A traversal visits the reached materials in order. *)
Lemma traverseMaterials_visitAll (root : Object3D) (s : S) :
  traverseMaterials visit root s = visitAll visit (materialsReached root) s.
Proof.
  revert s. induction root as [mesh cs IH] using Object3D_rect_children.
  intros s. unfold traverseMaterials in *. cbn [traverse materialsReached].
  rewrite visitAll_app.
  set (s' := visitAll visit _ s).
  assert (match mesh_of (Object mesh cs) with
          | Some slot =>
              forEach (materials_of slot)
                (fun material s =>
                   match material with
                   | Some id => visit id s
                   | None => s
                   end) s
          | None => s
          end = s') as ->.
  { subst s'. cbn [mesh_of]. destruct mesh as [slot |].
    - apply forEach_materials.
    - reflexivity. }
  clearbody s'. clear s. revert s'.
  induction IH as [| c cs Hc _ IHcs]; intros s.
  - reflexivity.
  - rewrite visitAll_app, <- Hc. apply IHcs.
Qed.

End Traversal.

(** ** Transparency *)

Section TransparencyFacts.

Import Reach Transparency.
Local Open Scope R_scope.

Lemma iter_shift {A : Type} (f : A -> A) (n : nat) (a : A) :
  Nat.iter n f (f a) = f (Nat.iter n f a).
Proof.
  induction n as [| n IH]; [reflexivity |].
  change (f (Nat.iter n f (f a)) = f (f (Nat.iter n f a))).
  now rewrite IH.
Qed.

(** Altering along a list of identities applies the function to an
    entry once for each occurrence of its identity. *)
Lemma visitAll_alter (f : Material -> Material) (ids : list MatId)
    (store : gmap MatId Material) (i : MatId) :
  visitAll (fun id => alter f id) ids store !! i
  = Nat.iter (count_occ Pos.eq_dec ids i) f <$> store !! i.
Proof.
  unfold visitAll.
  revert store. induction ids as [| j ids IH]; intros store.
  - cbn. now destruct (store !! i).
  - cbn [fold_left]. rewrite IH. cbn [count_occ].
    destruct (Pos.eq_dec j i) as [-> | Hne].
    + rewrite lookup_alter_eq. destruct (store !! i) as [m |]; cbn.
      * now rewrite iter_shift.
      * reflexivity.
    + now rewrite lookup_alter_ne.
Qed.

Lemma applyTransparency_visitAll (root : Object3D) (t : bool)
    (o : option R) (store : gmap MatId Material) :
  applyTransparency (Some root) t o store
  = visitAll
      (fun id => alter (transparencyOfMaterial t (default 0.5 o)) id)
      (materialsReached root) store.
Proof.
  rewrite <- traverseMaterials_visitAll.
  unfold applyTransparency, traverseMaterials. now destruct o.
Qed.

(** What any positive number of visits leaves in a material. *)
Lemma iter_transparencyOfMaterial (t : bool) (o : R) (n : nat)
    (m : Material) :
  Nat.iter (S n) (transparencyOfMaterial t o) m
  = mkMaterial (mtype m) (color m) (metalness m) (roughness m)
      (emissive m) (emissiveIntensity m) (wireframe m) (visible m)
      t (if t then o else 1) (if t then Rltb o 1 else true)
      (S n + version m).
Proof.
  induction n as [| n IH].
  - cbn. unfold transparencyOfMaterial. now destruct t.
  - change (Nat.iter (S (S n)) (transparencyOfMaterial t o) m)
      with (transparencyOfMaterial t o
              (Nat.iter (S n) (transparencyOfMaterial t o) m)).
    rewrite IH. unfold transparencyOfMaterial. now destruct t.
Qed.

Lemma applyTransparency_reached (root : Object3D) (t : bool)
    (o : option R) (store : gmap MatId Material) (id : MatId)
    (m : Material) :
  In id (materialsReached root) ->
  store !! id = Some m ->
  exists n : nat,
    applyTransparency (Some root) t o store !! id
    = Some (mkMaterial (mtype m) (color m) (metalness m) (roughness m)
              (emissive m) (emissiveIntensity m) (wireframe m) (visible m)
              t (if t then default 0.5 o else 1)
              (if t then Rltb (default 0.5 o) 1 else true)
              (S n + version m)).
Proof.
  intros Hin Hm.
  rewrite applyTransparency_visitAll, visitAll_alter, Hm.
  apply (count_occ_In Pos.eq_dec) in Hin.
  destruct (count_occ Pos.eq_dec (materialsReached root) id) as [| n];
    [lia |].
  exists n. cbn [fmap option_fmap option_map].
  now rewrite iter_transparencyOfMaterial.
Qed.

(** C7, as the code has it. Enabling transparency and then disabling it
    leaves every reached material opaque: [transparent = false],
    [opacity = 1], [depthWrite = true], whatever these attributes were
    before; so the round trip gives back the earlier values exactly for
    a material that was opaque in this sense. The attributes that
    [applyTransparency] does not assign keep their values. *)
Theorem applyTransparency_round_trip_resets (model : Object3D)
    (opacity0 opacity1 : option R) (store : gmap MatId Material)
    (id : MatId) (m : Material) :
  In id (materialsReached model) ->
  store !! id = Some m ->
  exists m' : Material,
    applyTransparency (Some model) false opacity1
      (applyTransparency (Some model) true opacity0 store) !! id = Some m'
    /\ transparent m' = false /\ opacity m' = 1 /\ depthWrite m' = true
    /\ color m' = color m /\ wireframe m' = wireframe m
    /\ visible m' = visible m
    /\ ((transparent m' = transparent m /\ opacity m' = opacity m
         /\ depthWrite m' = depthWrite m)
        <-> (transparent m = false /\ opacity m = 1
             /\ depthWrite m = true)).
Proof.
  intros Hin Hm.
  destruct (applyTransparency_reached model true opacity0 store id m Hin Hm)
    as [n Hon].
  destruct (applyTransparency_reached model false opacity1 _ id _ Hin Hon)
    as [n' Hoff].
  eexists. split; [exact Hoff |]. cbn.
  repeat split; try tauto; intuition congruence.
Qed.

Lemma applyTransparency_round_trip_resets_witness :
  exists m' : Material,
    applyTransparency (Some Examples.oneMesh) false None
      (applyTransparency (Some Examples.oneMesh) true (Some 0.5)
         Examples.glassStore) !! 1%positive = Some m'
    /\ opacity m' = 1.
Proof.
  destruct (applyTransparency_round_trip_resets Examples.oneMesh
              (Some 0.5) None Examples.glassStore 1%positive
              Examples.tintedGlass) as (m' & Hm' & _ & Ho & _).
  - cbn. left. reflexivity.
  - reflexivity.
  - exists m'. split; [exact Hm' | exact Ho].
Defined.

(** C7, as stated, fails: the translucent material of
    [Examples.glassStore] (opacity 0.7) comes back from the round trip
    with opacity 1. *)
Lemma applyTransparency_round_trip_not_restoring :
  ~ (forall (model : Object3D) (o : option R)
            (store : gmap MatId Material) (id : MatId) (m : Material),
        In id (materialsReached model) ->
        store !! id = Some m ->
        exists m' : Material,
          applyTransparency (Some model) false None
            (applyTransparency (Some model) true o store) !! id = Some m'
          /\ transparent m' = transparent m
          /\ opacity m' = opacity m
          /\ depthWrite m' = depthWrite m).
Proof.
  intros claim.
  destruct (claim Examples.oneMesh (Some 0.5) Examples.glassStore
              1%positive Examples.tintedGlass) as (m' & Hm' & _ & Ho & _).
  - cbn. left. reflexivity.
  - reflexivity.
  - destruct (applyTransparency_reached Examples.oneMesh true (Some 0.5)
                Examples.glassStore 1%positive Examples.tintedGlass)
      as [n Hon]; [cbn; left; reflexivity | reflexivity |].
    destruct (applyTransparency_reached Examples.oneMesh false None
                _ 1%positive _ ltac:(cbn; left; reflexivity) Hon)
      as [n' Hoff].
    rewrite Hoff in Hm'. injection Hm' as <-.
    cbn in Ho. lra.
Qed.

End TransparencyFacts.

(** ** Wireframe *)

Section WireframeFacts.

Import Reach Wireframe WireframeView.
Local Open Scope R_scope.

Lemma applyWireframe_visitAll (root : Object3D) (wf : bool) (st : State) :
  applyWireframe (Some root) wf st
  = visitAll (visit wf) (materialsReached root) st.
Proof. rewrite <- traverseMaterials_visitAll. reflexivity. Qed.

(** A visit acts on the view of the visited material as [visitView]
    says, and leaves the view of every other material alone. *)
Lemma viewOf_visit_same (wf : bool) (id : MatId) (st : State) :
  viewOf id (visit wf id st) = visitView wf id (viewOf id st).
Proof.
  unfold visit, visitView, viewOf; cbn [v_material].
  destruct (materials st !! id) as [m |] eqn:Hm; [| now rewrite Hm].
  unfold wireframeOfMaterial. destruct wf.
  - cbn [v_self]. destruct (originalMaterials st !! id) eqn:Hself;
      cbn [materials originalColors originalMaterials originalProperties
           snapshotLog v_color v_props v_logged];
      rewrite ?lookup_insert_eq; rewrite ?Hself.
    + reflexivity.
    + rewrite count_occ_app. cbn [count_occ].
      destruct (Pos.eq_dec id id); [| congruence].
      now rewrite Nat.add_1_r.
  - cbn [materials originalColors originalMaterials originalProperties
         snapshotLog v_color v_props v_logged].
    now rewrite lookup_insert_eq, !lookup_delete_eq.
Qed.

Lemma viewOf_visit_other (wf : bool) (id other : MatId) (st : State) :
  id <> other -> viewOf id (visit wf other st) = viewOf id st.
Proof.
  intros Hne. unfold visit.
  destruct (materials st !! other) as [m |]; [| reflexivity].
  unfold wireframeOfMaterial, viewOf. destruct wf.
  - destruct (originalMaterials st !! other);
      cbn [materials originalColors originalMaterials originalProperties
           snapshotLog];
      rewrite ?lookup_insert_ne by congruence; [reflexivity |].
    rewrite count_occ_app. cbn [count_occ].
    destruct (Pos.eq_dec other id); [congruence |].
    now rewrite Nat.add_0_r.
  - cbn [materials originalColors originalMaterials originalProperties
         snapshotLog].
    now rewrite lookup_insert_ne, !lookup_delete_ne by congruence.
Qed.

Lemma viewOf_visitAll (wf : bool) (ids : list MatId) (id : MatId)
    (st : State) :
  viewOf id (visitAll (visit wf) ids st)
  = Nat.iter (count_occ Pos.eq_dec ids id) (visitView wf id) (viewOf id st).
Proof.
  unfold visitAll. revert st.
  induction ids as [| j ids IH]; intros st; [reflexivity |].
  cbn [fold_left count_occ]. rewrite IH.
  destruct (Pos.eq_dec j id) as [-> | Hne].
  - now rewrite viewOf_visit_same, iter_shift.
  - now rewrite viewOf_visit_other by congruence.
Qed.

Lemma viewOf_applyWireframe (root : Object3D) (wf : bool) (id : MatId)
    (st : State) :
  viewOf id (applyWireframe (Some root) wf st)
  = Nat.iter (count_occ Pos.eq_dec (materialsReached root) id)
      (visitView wf id) (viewOf id st).
Proof. rewrite applyWireframe_visitAll. apply viewOf_visitAll. Qed.

(** *** One material under repeated visits *)

Ltac shape_contra :=
  match goal with
  | H : is_Some (Some _) <-> is_Some None |- _ =>
      exfalso; apply (@is_Some_None _ (proj1 H (mk_is_Some _ _ eq_refl)))
  | H : is_Some None <-> is_Some (Some _) |- _ =>
      exfalso; apply (@is_Some_None _ (proj2 H (mk_is_Some _ _ eq_refl)))
  end.

Lemma keepsShape_refl (m : Material) : keepsShape m m.
Proof. unfold keepsShape. tauto. Qed.

Lemma keepsShape_wireframeLook (m0 m : Material) :
  keepsShape m0 m -> keepsShape m0 (set_needsUpdate (wireframeLook m)).
Proof.
  unfold keepsShape, wireframeLook.
  intros (Hmetal & Hrough & Hemis & Hint).
  destruct (isLit _); [| exact (conj Hmetal (conj Hrough (conj Hemis Hint)))].
  destruct m as [ty c [me |] [ro |] [em |] ei wf vi tr op dw ve];
    cbn in *; repeat split; intros;
    first
      [ tauto
      | apply Hint; assumption
      | eexists; reflexivity
      | apply Hmetal; eexists; reflexivity
      | apply Hrough; eexists; reflexivity
      | apply Hemis; eexists; reflexivity
      | exfalso; destruct Hemis as [_ Hemis];
        assert (is_Some (@None Color)) as [x Hx]
          by (apply Hemis; eexists; eassumption);
        congruence
      | exfalso; destruct Hemis as [Hemis _];
        assert (is_Some (emissive m0)) as [x Hx]
          by (apply Hemis; eexists; reflexivity);
        congruence ].
Qed.

Lemma restoreProps_sameLook (m0 m : Material) :
  keepsShape m0 m ->
  sameLook
    (set_needsUpdate
       (restoreProps (propsOf m0)
          (set_color (color m0) (set_wireframe false m))))
    m0.
Proof.
  unfold keepsShape, sameLook, restoreProps, propsOf.
  intros (Hmetal & Hrough & Hemis & Hint).
  destruct m0 as [ty0 c0 [me0 |] [ro0 |] [em0 |] ei0 wf0 vi0 tr0 op0 dw0 ve0];
    destruct m as [ty c [me |] [ro |] [em |] ei wf vi tr op dw ve];
    cbn in *;
    try shape_contra;
    repeat split; try reflexivity; try (apply Hint; reflexivity).
Qed.

Lemma enable_untouched (id : MatId) (m0 : Material) (v : View) :
  v_material v = Some m0 -> v_self v = None ->
  Snapshotted id m0 (visitView true id v)
  /\ v_logged (visitView true id v) = S (v_logged v).
Proof.
  intros Hm Hself. unfold visitView. rewrite Hm, Hself.
  unfold Snapshotted; cbn. repeat split.
  eexists. split; [reflexivity |].
  apply keepsShape_wireframeLook, keepsShape_refl.
Qed.

Lemma enable_snapshotted (id : MatId) (m0 : Material) (v : View) :
  Snapshotted id m0 v ->
  Snapshotted id m0 (visitView true id v)
  /\ v_logged (visitView true id v) = v_logged v.
Proof.
  intros (Hc & Hself & Hp & m & Hm & Hshape).
  unfold visitView. rewrite Hm, Hself.
  unfold Snapshotted; cbn. repeat split; try assumption.
  eexists. split; [reflexivity |].
  now apply keepsShape_wireframeLook.
Qed.

Lemma disable_snapshotted (id : MatId) (m0 : Material) (v : View) :
  Snapshotted id m0 v ->
  Restored m0 (visitView false id v)
  /\ v_logged (visitView false id v) = v_logged v.
Proof.
  intros (Hc & Hself & Hp & m & Hm & Hshape).
  unfold visitView. rewrite Hm, Hc, Hp.
  unfold Restored; cbn. repeat split.
  eexists. split; [reflexivity |].
  now apply restoreProps_sameLook.
Qed.

Lemma disable_restored (id : MatId) (m0 : Material) (v : View) :
  Restored m0 v ->
  Restored m0 (visitView false id v)
  /\ v_logged (visitView false id v) = v_logged v.
Proof.
  intros (Hc & Hself & Hp & m & Hm & Hlook).
  unfold visitView. rewrite Hm, Hc, Hp.
  unfold Restored; cbn. repeat split.
  eexists. split; [reflexivity |]. exact Hlook.
Qed.

Lemma iter_enable_snapshotted (id : MatId) (m0 : Material) (n : nat)
    (v : View) :
  Snapshotted id m0 v ->
  Snapshotted id m0 (Nat.iter n (visitView true id) v)
  /\ v_logged (Nat.iter n (visitView true id) v) = v_logged v.
Proof.
  intros Hv. induction n as [| n [IH IHlog]]; [now split |].
  change (Nat.iter (S n) (visitView true id) v)
    with (visitView true id (Nat.iter n (visitView true id) v)).
  destruct (enable_snapshotted id m0 _ IH) as [H Hlog].
  split; [exact H | now rewrite Hlog].
Qed.

Lemma iter_enable_untouched (id : MatId) (m0 : Material) (n : nat)
    (v : View) :
  v_material v = Some m0 -> v_self v = None ->
  Snapshotted id m0 (Nat.iter (S n) (visitView true id) v)
  /\ v_logged (Nat.iter (S n) (visitView true id) v) = S (v_logged v).
Proof.
  intros Hm Hself.
  change (Nat.iter (S n) (visitView true id) v)
    with (visitView true id (Nat.iter n (visitView true id) v)).
  rewrite <- iter_shift.
  destruct (enable_untouched id m0 v Hm Hself) as [H Hlog].
  destruct (iter_enable_snapshotted id m0 n _ H) as [H' Hlog'].
  split; [exact H' | now rewrite Hlog'].
Qed.

Lemma iter_disable_restored (id : MatId) (m0 : Material) (n : nat)
    (v : View) :
  Restored m0 v ->
  Restored m0 (Nat.iter n (visitView false id) v)
  /\ v_logged (Nat.iter n (visitView false id) v) = v_logged v.
Proof.
  intros Hv. induction n as [| n [IH IHlog]]; [now split |].
  change (Nat.iter (S n) (visitView false id) v)
    with (visitView false id (Nat.iter n (visitView false id) v)).
  destruct (disable_restored id m0 _ IH) as [H Hlog].
  split; [exact H | now rewrite Hlog].
Qed.

Lemma iter_disable_snapshotted (id : MatId) (m0 : Material) (n : nat)
    (v : View) :
  Snapshotted id m0 v ->
  Restored m0 (Nat.iter (S n) (visitView false id) v)
  /\ v_logged (Nat.iter (S n) (visitView false id) v) = v_logged v.
Proof.
  intros Hv.
  change (Nat.iter (S n) (visitView false id) v)
    with (visitView false id (Nat.iter n (visitView false id) v)).
  rewrite <- iter_shift.
  destruct (disable_snapshotted id m0 v Hv) as [H Hlog].
  destruct (iter_disable_restored id m0 n _ H) as [H' Hlog'].
  split; [exact H' | now rewrite Hlog'].
Qed.

(** *** The round trips *)

Lemma viewOf_material (id : MatId) (st : State) :
  v_material (viewOf id st) = materials st !! id.
Proof. reflexivity. Qed.

Lemma applyWireframe_enable_view (model : Object3D) (st : State)
    (id : MatId) (m : Material) :
  In id (materialsReached model) ->
  materials st !! id = Some m ->
  originalMaterials st !! id = None ->
  Snapshotted id m (viewOf id (applyWireframe (Some model) true st))
  /\ v_logged (viewOf id (applyWireframe (Some model) true st))
     = S (v_logged (viewOf id st)).
Proof.
  intros Hin Hm Hnone. rewrite viewOf_applyWireframe.
  apply (count_occ_In Pos.eq_dec) in Hin.
  destruct (count_occ Pos.eq_dec (materialsReached model) id) as [| n];
    [lia |].
  now apply iter_enable_untouched.
Qed.

Lemma applyWireframe_enable_again_view (model : Object3D) (st : State)
    (id : MatId) (m : Material) :
  Snapshotted id m (viewOf id st) ->
  Snapshotted id m (viewOf id (applyWireframe (Some model) true st))
  /\ v_logged (viewOf id (applyWireframe (Some model) true st))
     = v_logged (viewOf id st).
Proof.
  intros Hsnap. rewrite viewOf_applyWireframe.
  now apply iter_enable_snapshotted.
Qed.

Lemma applyWireframe_disable_view (model : Object3D) (st : State)
    (id : MatId) (m : Material) :
  In id (materialsReached model) ->
  Snapshotted id m (viewOf id st) ->
  Restored m (viewOf id (applyWireframe (Some model) false st))
  /\ v_logged (viewOf id (applyWireframe (Some model) false st))
     = v_logged (viewOf id st).
Proof.
  intros Hin Hsnap. rewrite viewOf_applyWireframe.
  apply (count_occ_In Pos.eq_dec) in Hin.
  destruct (count_occ Pos.eq_dec (materialsReached model) id) as [| n];
    [lia |].
  now apply iter_disable_snapshotted.
Qed.

(** C6. For a material reached from the model that has no snapshot
    stored (wireframe is off for it), enabling wireframe and then
    disabling it gives back its colour, metalness, roughness, emissive
    colour and emissive intensity, and leaves no snapshot behind. *)
Theorem applyWireframe_round_trip (model : Object3D) (st : State)
    (id : MatId) (m : Material) :
  In id (materialsReached model) ->
  materials st !! id = Some m ->
  originalMaterials st !! id = None ->
  let st' :=
    applyWireframe (Some model) false
      (applyWireframe (Some model) true st) in
  exists m' : Material,
    materials st' !! id = Some m'
    /\ color m' = color m
    /\ metalness m' = metalness m
    /\ roughness m' = roughness m
    /\ emissive m' = emissive m
    /\ emissiveIntensity m' = emissiveIntensity m
    /\ originalColors st' !! id = None
    /\ originalMaterials st' !! id = None
    /\ originalProperties st' !! id = None.
Proof.
  intros Hin Hm Hnone st'. subst st'.
  destruct (applyWireframe_enable_view model st id m Hin Hm Hnone)
    as [Hsnap _].
  destruct (applyWireframe_disable_view model _ id m Hin Hsnap)
    as [(Hc & Hself & Hp & m' & Hm' & Hlook) _].
  exists m'. unfold sameLook in Hlook. unfold viewOf in *.
  cbn [v_material v_color v_self v_props v_logged] in *.
  intuition.
Qed.

Lemma applyWireframe_round_trip_witness :
  exists m' : Material,
    materials
      (applyWireframe (Some Examples.sharingModel) false
         (applyWireframe (Some Examples.sharingModel) true
            Examples.freshWireframe)) !! 1%positive = Some m'
    /\ color m' = Hex 0x88ccff
    /\ metalness m' = Some 0.1.
Proof.
  destruct (applyWireframe_round_trip Examples.sharingModel
              Examples.freshWireframe 1%positive Examples.tintedGlass)
    as (m' & Hm' & Hc & Hme & _).
  - cbn. left. reflexivity.
  - reflexivity.
  - reflexivity.
  - exists m'. repeat split; assumption.
Defined.

(** C8. For a material reached from the model that has no snapshot
    stored, a second enable leaves the three map entries of the first
    enable as they are (the colour and the properties captured before
    the first enable); over enable, enable, disable the snapshot block
    ran exactly once for the material; and the disable gives back the
    attributes the material had before the first enable and removes the
    entries. *)
Theorem applyWireframe_double_enable (model : Object3D) (st : State)
    (id : MatId) (m : Material) :
  In id (materialsReached model) ->
  materials st !! id = Some m ->
  originalMaterials st !! id = None ->
  let st1 := applyWireframe (Some model) true st in
  let st2 := applyWireframe (Some model) true st1 in
  let st3 := applyWireframe (Some model) false st2 in
  originalColors st1 !! id = Some (color m)
  /\ originalProperties st1 !! id = Some (propsOf m)
  /\ originalMaterials st1 !! id = Some id
  /\ originalColors st2 !! id = originalColors st1 !! id
  /\ originalProperties st2 !! id = originalProperties st1 !! id
  /\ originalMaterials st2 !! id = originalMaterials st1 !! id
  /\ count_occ Pos.eq_dec (snapshotLog st3) id
     = S (count_occ Pos.eq_dec (snapshotLog st) id)
  /\ exists m' : Material,
       materials st3 !! id = Some m'
       /\ color m' = color m
       /\ metalness m' = metalness m
       /\ roughness m' = roughness m
       /\ emissive m' = emissive m
       /\ emissiveIntensity m' = emissiveIntensity m
       /\ originalColors st3 !! id = None
       /\ originalMaterials st3 !! id = None
       /\ originalProperties st3 !! id = None.
Proof.
  intros Hin Hm Hnone st1 st2 st3. subst st1 st2 st3.
  destruct (applyWireframe_enable_view model st id m Hin Hm Hnone)
    as [Hsnap1 Hlog1].
  destruct (applyWireframe_enable_again_view model _ id m Hsnap1)
    as [Hsnap2 Hlog2].
  destruct (applyWireframe_disable_view model _ id m Hin Hsnap2)
    as [(Hc & Hself & Hp & m' & Hm' & Hlook) Hlog3].
  destruct Hsnap1 as (Hc1 & Hself1 & Hp1 & _).
  destruct Hsnap2 as (Hc2 & Hself2 & Hp2 & _).
  unfold viewOf in *.
  cbn [v_material v_color v_self v_props v_logged] in *.
  do 7 (split; [congruence |]).
  exists m'. unfold sameLook in Hlook. intuition.
Qed.

Lemma applyWireframe_double_enable_witness :
  count_occ Pos.eq_dec
    (snapshotLog
       (applyWireframe (Some Examples.sharingModel) false
          (applyWireframe (Some Examples.sharingModel) true
             (applyWireframe (Some Examples.sharingModel) true
                Examples.freshWireframe)))) 1%positive
  = 1%nat.
Proof.
  apply (applyWireframe_double_enable Examples.sharingModel
           Examples.freshWireframe 1%positive Examples.tintedGlass).
  - cbn. left. reflexivity.
  - reflexivity.
  - reflexivity.
Defined.

End WireframeFacts.

(** ** The signal pulse *)

Section PulseFacts.

Import Signal.
Local Open Scope R_scope.

Variable getPoint : list Vector3 -> R -> Vector3.

Lemma progressBelowOne_true (elapsed duration : R) :
  0 < duration -> elapsed < duration ->
  progressBelowOne elapsed duration = true.
Proof.
  intros Hd He. unfold progressBelowOne.
  destruct (Req_dec_T duration 0); [lra |].
  apply Rltb_true. apply Rmult_lt_reg_r with duration; [assumption |].
  unfold Rdiv. rewrite Rmult_assoc, Rinv_l by lra. lra.
Qed.

Lemma progressBelowOne_false (elapsed duration : R) :
  0 < duration -> duration <= elapsed ->
  progressBelowOne elapsed duration = false.
Proof.
  intros Hd He. unfold progressBelowOne.
  destruct (Req_dec_T duration 0); [lra |].
  apply Rltb_false. apply Rmult_le_reg_r with duration; [assumption |].
  unfold Rdiv. rewrite Rmult_assoc, Rinv_l by lra. lra.
Qed.

Lemma without_not_In (id : PulseId) (l : list PulseId) :
  ~ In id l -> without id l = l.
Proof.
  induction l as [| x l IH]; intros Hnot; cbn; [reflexivity |].
  destruct (Nat.eqb_spec x id) as [-> | Hne].
  - exfalso. apply Hnot. now left.
  - rewrite IH; [reflexivity |]. intros Hin. apply Hnot. now right.
Qed.

(** A child that occurs once is gone after the splice. *)
Lemma not_In_without (id : PulseId) (l : list PulseId) :
  List.NoDup l -> ~ In id (without id l).
Proof.
  induction 1 as [| x l Hx Hnd IH]; cbn; [tauto |].
  destruct (Nat.eqb_spec x id) as [-> | Hne]; [exact Hx |].
  intros [Heq | Hin]; [congruence | now apply IH].
Qed.

Lemma existsb_eqb_false (id : PulseId) (l : list PulseId) :
  existsb (fun x => (x =? id)%nat) l = false -> ~ In id l.
Proof.
  intros Hex Hin.
  assert (existsb (fun x => (x =? id)%nat) l = true) as Htrue.
  { apply existsb_exists. exists id. split; [exact Hin |].
    apply Nat.eqb_refl. }
  congruence.
Qed.

(** [parent.remove(pulse)] splices the pulse out of the parent's children
    and keeps it, with its disposal flags, in the heap. *)
Lemma Object3D_remove_spec (parent : SceneId) (id : PulseId) (h : Heap)
    (p : Pulse) :
  pulses h !! id = Some p ->
  childrenOf parent (Object3D_remove parent id h)
  = without id (childrenOf parent h)
  /\ exists p' : Pulse,
       pulses (Object3D_remove parent id h) !! id = Some p'
       /\ geometryDisposed p' = geometryDisposed p
       /\ materialDisposed p' = materialDisposed p.
Proof.
  intros Hp. unfold Object3D_remove.
  destruct (existsb (fun x => (x =? id)%nat) (childrenOf parent h)) eqn:Hex.
  - split.
    + unfold childrenOf at 1. cbn [children].
      now rewrite lookup_insert_eq.
    + cbn [pulses]. rewrite Hp. eexists. split.
      * apply list_lookup_insert_eq. now apply lookup_lt_Some in Hp.
      * split; reflexivity.
  - split.
    + symmetry. now apply without_not_In, existsb_eqb_false.
    + exists p. now repeat split.
Qed.

Lemma pulse_intensity_range (x : R) : 0.6 <= 0.8 + 0.2 * sin x <= 1.
Proof. pose proof (SIN_bound x). lra. Qed.

(** The pulse after a frame that found the transit under way. *)
Lemma animate_under_way (id : PulseId) (parent : SceneId) (w : World)
    (p : Pulse) :
  pulses (heap w) !! id = Some p ->
  progressBelowOne (clock w - startTime p) (pulseDuration p) = true ->
  let progress := (clock w - startTime p) / pulseDuration p in
  let intensity := sin (progress * PI * 2) * 0.2 + 0.8 in
  pulses (heap (animate getPoint id parent w)) !! id
  = Some (mkPulse (pulseCurve p) (pulseDuration p) (startTime p)
            (pulseColor p) (pulseSize p) (getPoint (pulseCurve p) progress)
            (mkVector3 intensity intensity intensity) intensity
            (pulseParent p) (geometryDisposed p) (materialDisposed p))
  /\ childrenOf parent (heap (animate getPoint id parent w))
     = childrenOf parent (heap w)
  /\ frames (animate getPoint id parent w) = frames w ++ [Animate id parent].
Proof.
  intros Hp Hbelow progress intensity. unfold animate. rewrite Hp, Hbelow.
  cbn [requestAnimationFrame set_heap set_pulse heap pulses frames].
  split; [| split; reflexivity].
  apply list_lookup_insert_eq. now apply lookup_lt_Some in Hp.
Qed.

(** C2, as the code has it. While the elapsed time [t] is in
    [[0, duration)], [animate] puts the pulse at the curve's point of
    parameter [t / duration] and sets the three scale factors and the
    opacity to [0.8 + 0.2 * sin (progress * 2 * PI)], a value between 0.6
    and 1, and asks for another frame; once [t >= duration] it splices
    the pulse out of its parent's children (where an object occurs at
    most once, so that the pulse is gone) and disposes of its geometry
    and its material, and asks for no frame. *)
Theorem animate_spec (id : PulseId) (parent : SceneId) (w : World)
    (p : Pulse) :
  pulses (heap w) !! id = Some p ->
  0 < pulseDuration p ->
  0 <= clock w - startTime p ->
  let elapsed := clock w - startTime p in
  let progress := elapsed / pulseDuration p in
  let intensity := 0.8 + 0.2 * sin (progress * (2 * PI)) in
  let w' := animate getPoint id parent w in
  (elapsed < pulseDuration p ->
   exists p' : Pulse,
     pulses (heap w') !! id = Some p'
     /\ pulsePosition p' = getPoint (pulseCurve p) progress
     /\ pulseScale p' = mkVector3 intensity intensity intensity
     /\ pulseOpacity p' = intensity
     /\ 0.6 <= intensity <= 1
     /\ geometryDisposed p' = geometryDisposed p
     /\ materialDisposed p' = materialDisposed p
     /\ childrenOf parent (heap w') = childrenOf parent (heap w)
     /\ frames w' = frames w ++ [Animate id parent])
  /\
  (pulseDuration p <= elapsed ->
   childrenOf parent (heap w') = without id (childrenOf parent (heap w))
   /\ (List.NoDup (childrenOf parent (heap w)) ->
       ~ In id (childrenOf parent (heap w')))
   /\ frames w' = frames w
   /\ exists p' : Pulse,
        pulses (heap w') !! id = Some p'
        /\ geometryDisposed p' = true
        /\ materialDisposed p' = true).
Proof.
  intros Hp Hdur Hel elapsed progress intensity w'.
  subst w'. split.
  - intros Hin.
    destruct (animate_under_way id parent w p Hp
                (progressBelowOne_true _ _ Hdur Hin)) as (Hq & Hch & Hfr).
    eexists. split; [exact Hq |].
    cbn [pulsePosition pulseScale pulseOpacity geometryDisposed
         materialDisposed].
    fold elapsed. fold progress.
    assert (sin (progress * PI * 2) * 0.2 + 0.8 = intensity) as ->.
    { subst intensity. replace (progress * PI * 2)
        with (progress * (2 * PI)) by lra. lra. }
    repeat split; try reflexivity; try assumption;
      apply pulse_intensity_range.
  - intros Hout. unfold animate. rewrite Hp.
    rewrite progressBelowOne_false by assumption.
    destruct (Object3D_remove_spec parent id (heap w) p Hp)
      as (Hgone & p' & Hp' & _ & _).
    rewrite Hp'.
    split; [exact Hgone |].
    split.
    { intros Hnd.
      change (~ In id (childrenOf parent
                         (Object3D_remove parent id (heap w)))).
      rewrite Hgone. now apply not_In_without. }
    split; [reflexivity |].
    cbn [set_heap set_pulse heap pulses].
    eexists. split.
    + apply list_lookup_insert_eq. now apply lookup_lt_Some in Hp'.
    + split; reflexivity.
Qed.

End PulseFacts.

Lemma animate_spec_witness :
  exists p' : Signal.Pulse,
    Signal.pulses
      (Signal.heap
         (Signal.animate Examples.firstPoint 0 1%positive
            Examples.halfWayWorld)) !! 0%nat = Some p'
    /\ Signal.pulseOpacity p' = (0.8 + 0.2 * sin (150 / 300 * (2 * PI)))%R.
Proof.
  destruct (animate_spec Examples.firstPoint 0 1%positive
              Examples.halfWayWorld Examples.halfWayPulse)
    as [Hin _].
  - reflexivity.
  - cbn. lra.
  - cbn. lra.
  - destruct Hin as (p' & Hp' & _ & _ & Hop & _).
    + cbn. lra.
    + exists p'. split; [exact Hp' |].
      rewrite Hop. cbn [Examples.halfWayWorld Signal.clock
        Examples.halfWayPulse Signal.startTime Signal.pulseDuration].
      replace (150 - 0)%R with 150%R by lra. reflexivity.
Defined.

(** C2, as stated, fails: half way through a transit of 300 ms the code
    sets the opacity to [0.8 + 0.2 * sin PI = 0.8], and the statement's
    [0.8 + 0.2 * sin (PI / 2)] is 1. *)
Lemma animate_not_half_sine :
  ~ (forall (getPoint : list Vector3 -> R -> Vector3) (id : Signal.PulseId)
            (parent : Signal.SceneId) (w : Signal.World) (p : Signal.Pulse),
        Signal.pulses (Signal.heap w) !! id = Some p ->
        (0 <= Signal.clock w - Signal.startTime p < Signal.pulseDuration p)%R ->
        exists p' : Signal.Pulse,
          Signal.pulses
            (Signal.heap (Signal.animate getPoint id parent w)) !! id
          = Some p'
          /\ Signal.pulseOpacity p'
             = (0.8 + 0.2 * sin ((Signal.clock w - Signal.startTime p)
                                 / Signal.pulseDuration p * PI))%R).
Proof.
  intros claim.
  destruct (claim Examples.firstPoint 0%nat 1%positive Examples.halfWayWorld
              Examples.halfWayPulse) as (p' & Hp' & Hop).
  - reflexivity.
  - cbn. lra.
  - destruct (animate_under_way Examples.firstPoint 0%nat 1%positive
                Examples.halfWayWorld Examples.halfWayPulse) as (Hq & _).
    + reflexivity.
    + apply progressBelowOne_true; cbn; lra.
    + rewrite Hq in Hp'. injection Hp' as <-.
      cbn [Signal.pulseOpacity Examples.halfWayWorld Signal.clock
           Examples.halfWayPulse Signal.startTime Signal.pulseDuration]
        in Hop.
      replace ((150 - 0) / 300 * PI * 2)%R with PI in Hop by lra.
      replace ((150 - 0) / 300 * PI)%R with (PI / 2)%R in Hop by lra.
      rewrite sin_PI, sin_PI2 in Hop. lra.
Qed.

(** ** Signal propagation without a synapse or without a target *)

Section SourceFlashOnly.

Import Signal.
Local Open Scope R_scope.

Variable getPoint : list Vector3 -> R -> Vector3.

Lemma transit_without (synapse : option SynapseObj)
    (targetNeuron : option NeuronObj) (scene : SceneId) (w : World) :
  synapse = None \/ targetNeuron = None ->
  transit getPoint synapse targetNeuron scene w = set_completed true w.
Proof.
  intros [-> | ->]; unfold transit;
    [reflexivity | now destruct synapse].
Qed.

Lemma forallb_remove_middle {A : Type} (f : A -> bool)
    (before after : list A) (x : A) :
  forallb f (before ++ x :: after) = true ->
  f x = true /\ forallb f (before ++ after) = true.
Proof.
  rewrite !forallb_app. cbn. rewrite !andb_true_iff. tauto.
Qed.

(** The source flash touches the soma's material and the frame queue. *)
Lemma sourceFlash_keeps (soma : SomaId) (flashStart : R) (e : Color) (i : R)
    (w : World) :
  let w' := sourceFlash soma flashStart e i w in
  pulses (heap w') = pulses (heap w)
  /\ children (heap w') = children (heap w)
  /\ signals w' = signals w
  /\ uncaught w' = uncaught w
  /\ timers w' = timers w
  /\ completed w' = completed w
  /\ clock w' = clock w
  /\ (forallb isSourceFlash (frames w) = true ->
      forallb isSourceFlash (frames w') = true).
Proof.
  unfold sourceFlash. destruct (Rltb _ 1);
    cbn [requestAnimationFrame set_heap set_soma heap pulses children
         signals uncaught frames timers completed clock];
    repeat split; try tauto.
  intros Hf. rewrite forallb_app, Hf. reflexivity.
Qed.

Lemma sourceFlash_quiet (h0 : Heap) (due : R) (timer : Callback)
    (soma : SomaId) (flashStart : R) (e : Color) (i : R) (w : World) :
  Quiet h0 due timer w ->
  Quiet h0 due timer (sourceFlash soma flashStart e i w)
  /\ completed (sourceFlash soma flashStart e i w) = completed w.
Proof.
  intros (Hp & Hc & Hs & Hu & Hf & Ht).
  destruct (sourceFlash_keeps soma flashStart e i w)
    as (Hp' & Hc' & Hs' & Hu' & Ht' & Hd' & _ & Hf').
  unfold Quiet. rewrite Hp', Hc', Hs', Hu', Ht', Hd'.
  repeat split; try assumption. now apply Hf'.
Qed.

(** One step of a quiet world whose timer is a transit without a synapse
    or without a target: a frame of the source flash, or the timer, which
    only sets [completed]. *)
Lemma quiet_step (h0 : Heap) (due : R) (synapse : option SynapseObj)
    (targetNeuron : option NeuronObj) (scene : SceneId)
    (w w' : World) (cb : Callback) :
  synapse = None \/ targetNeuron = None ->
  Quiet h0 due (Transit synapse targetNeuron scene) w ->
  step getPoint w cb w' ->
  Quiet h0 due (Transit synapse targetNeuron scene) w'
  /\ ((isSourceFlash cb = true /\ completed w' = completed w)
      \/ (cb = Transit synapse targetNeuron scene
          /\ completed w = false /\ completed w' = true)).
Proof.
  intros Hwithout Hq Hstep.
  inversion Hstep as [w0 t before cb0 after Hframes Ht
                     | w0 t before due' cb0 after Htimers Ht Hdue]; subst.
  - destruct Hq as (Hp & Hc & Hs & Hu & Hf & Htm).
    rewrite Hframes in Hf.
    apply forallb_remove_middle in Hf as [Hcb Hrest].
    destruct cb as [soma fs e i | | | |]; try discriminate.
    cbn [run].
    destruct (sourceFlash_quiet h0 due (Transit synapse targetNeuron scene)
                soma fs e i (at_time t (before ++ after) (timers w) w))
      as [Hq' Hcompleted].
    { unfold Quiet. cbn [at_time heap signals uncaught frames timers
                          completed]. repeat split; assumption. }
    split; [exact Hq' |]. left. split; [reflexivity | exact Hcompleted].
  - destruct Hq as (Hp & Hc & Hs & Hu & Hf & [[Hcompleted Htm] | [_ Htm]]).
    + rewrite Htm in Htimers.
      destruct before as [| x before].
      * injection Htimers as <- <- <-. cbn [run].
        rewrite transit_without by assumption.
        split.
        -- unfold Quiet. cbn [set_completed at_time heap signals uncaught
                               frames timers completed app].
           repeat split; try assumption. right. split; reflexivity.
        -- right. repeat split; assumption.
      * destruct before; discriminate.
    + rewrite Htm in Htimers. destruct before; discriminate.
Qed.

Lemma quiet_runs (h0 : Heap) (due : R) (synapse : option SynapseObj)
    (targetNeuron : option NeuronObj) (scene : SceneId)
    (w w' : World) (cbs : list Callback) :
  synapse = None \/ targetNeuron = None ->
  Quiet h0 due (Transit synapse targetNeuron scene) w ->
  runs getPoint w cbs w' ->
  Quiet h0 due (Transit synapse targetNeuron scene) w'
  /\ forallb (fun cb => isSourceFlash cb || isTransitTimer cb) cbs = true
  /\ (completed w' = true
      <-> completed w = true \/ existsb isTransitTimer cbs = true).
Proof.
  intros Hwithout Hq Hruns.
  induction Hruns as [w | w cb w1 cbs w2 Hstep Hruns IH].
  - split; [exact Hq |]. split; [reflexivity |]. cbn.
    split; [tauto | intros [H | H]; [exact H | discriminate]].
  - destruct (quiet_step h0 due synapse targetNeuron scene w w1 cb
                Hwithout Hq Hstep) as [Hq1 Hcb].
    destruct (IH Hq1) as (Hq2 & Hall & Hiff).
    split; [exact Hq2 |]. cbn [forallb existsb].
    destruct Hcb as [[Hflash Hsame] | (-> & Hfalse & Htrue)].
    + rewrite Hflash, Hall. split; [reflexivity |].
      rewrite Hsame in Hiff.
      destruct cb; try discriminate. exact Hiff.
    + rewrite Hall. split; [reflexivity |]. cbn.
      split; [intros _; right; reflexivity |].
      intros _. apply Hiff. left. exact Htrue.
Qed.

Lemma only_source_flash_and_timer (cbs : list Callback) :
  forallb (fun cb => isSourceFlash cb || isTransitTimer cb) cbs = true ->
  existsb isSynapseTransit cbs = false /\ existsb isTargetFlash cbs = false.
Proof.
  induction cbs as [| cb cbs IH]; cbn; [split; reflexivity |].
  rewrite andb_true_iff. intros [Hcb Hall].
  destruct (IH Hall) as [-> ->]. now destruct cb.
Qed.

(** The call itself: a quiet world whose timer is the transit, due 75 ms
    after the call. *)
Lemma animateNeuralSignalPropagation_quiet (source : NeuronObj)
    (data : UserData) (targetNeuron : option NeuronObj)
    (synapse : option SynapseObj) (scene windowScene : option SceneId)
    (sc : SceneId) (h : Heap) (now : R) :
  userData source = Some data ->
  match scene with Some s => Some s | None => windowScene end = Some sc ->
  exists w0 : World,
    animateNeuralSignalPropagation (Some source) targetNeuron
      synapse scene windowScene h now = Some w0
    /\ Quiet h (now + 75) (Transit synapse targetNeuron sc) w0
    /\ completed w0 = false.
Proof.
  intros Hdata Hscene. unfold animateNeuralSignalPropagation.
  rewrite Hdata, Hscene.
  set (w := mkWorld h false [] [] [] now []).
  set (w1 := match soma data with
             | Some id =>
                 match somas h !! id with
                 | Some s =>
                     sourceFlash id now (somaEmissive s)
                       (somaEmissiveIntensity s) w
                 | None => w
                 end
             | None => w
             end).
  assert (pulses (heap w1) = pulses h /\ children (heap w1) = children h
          /\ signals w1 = [] /\ uncaught w1 = [] /\ timers w1 = []
          /\ completed w1 = false /\ clock w1 = now
          /\ forallb isSourceFlash (frames w1) = true)
    as (Hp & Hc & Hs & Hu & Ht & Hd & Hclock & Hf).
  { subst w1. destruct (soma data) as [id |]; [| now repeat split].
    destruct (somas h !! id) as [s |]; [| now repeat split].
    destruct (sourceFlash_keeps id now (somaEmissive s)
                (somaEmissiveIntensity s) w)
      as (Hp & Hc & Hs & Hu & Ht & Hd & Hclock & Hf).
    repeat split; try assumption. now apply Hf. }
  eexists. split; [reflexivity |].
  unfold Quiet, setTimeout.
  cbn [heap signals uncaught frames timers completed].
  rewrite Ht, Hclock. repeat split; try assumption.
  left. split; [assumption | reflexivity].
Qed.

(** C9. A call with a source that has [userData], with a scene (its own
    argument or [window.scene]), and without a synapse or without a
    target starts a machine that only ever runs frames of the source
    flash and the 75 ms timer: no frame of a signal pulse, no callback of
    the target flash; no pulse is created or added to a scene; [signals]
    stays empty; nothing throws. [completed] is true exactly once the
    timer has run; until then the timer is pending and, whenever it
    fires, sets [completed]. *)
Theorem animateNeuralSignalPropagation_source_flash_only
    (source : NeuronObj) (data : UserData)
    (targetNeuron : option NeuronObj) (synapse : option SynapseObj)
    (scene windowScene : option SceneId) (sc : SceneId) (h : Heap)
    (now : R) :
  userData source = Some data ->
  match scene with Some s => Some s | None => windowScene end = Some sc ->
  synapse = None \/ targetNeuron = None ->
  exists w0 : World,
    animateNeuralSignalPropagation (Some source) targetNeuron
      synapse scene windowScene h now = Some w0
    /\ completed w0 = false
    /\ forall (cbs : list Callback) (w : World),
         runs getPoint w0 cbs w ->
         forallb (fun cb => isSourceFlash cb || isTransitTimer cb) cbs = true
         /\ existsb isSynapseTransit cbs = false
         /\ existsb isTargetFlash cbs = false
         /\ pulses (heap w) = pulses h
         /\ children (heap w) = children h
         /\ signals w = []
         /\ uncaught w = []
         /\ (completed w = true <-> existsb isTransitTimer cbs = true)
         /\ (completed w = false ->
             timers w = [(now + 75, Transit synapse targetNeuron sc)]
             /\ forall t : R,
                  clock w <= t -> now + 75 <= t ->
                  exists w' : World,
                    step getPoint w (Transit synapse targetNeuron sc) w'
                    /\ completed w' = true
                    /\ timers w' = []).
Proof.
  intros Hdata Hscene Hwithout.
  destruct (animateNeuralSignalPropagation_quiet source data targetNeuron
              synapse scene windowScene sc h now Hdata Hscene)
    as (w0 & Hcall & Hq0 & Hc0).
  exists w0. split; [exact Hcall |]. split; [exact Hc0 |].
  intros cbs w Hruns.
  destruct (quiet_runs h (now + 75) synapse targetNeuron sc w0 w cbs
              Hwithout Hq0 Hruns) as (Hq & Hall & Hiff).
  destruct (only_source_flash_and_timer cbs Hall) as [Hnotransit Hnotarget].
  destruct Hq as (Hp & Hc & Hs & Hu & Hf & Htm).
  do 7 (split; [assumption |]).
  split.
  - rewrite Hiff, Hc0. split; [intros [H | H]; [discriminate | exact H] |].
    intros H. right. exact H.
  - intros Hfalse.
    destruct Htm as [[_ Htimers] | [Htrue _]]; [| congruence].
    split; [exact Htimers |].
    intros t Hclock Hdue.
    eexists. split.
    + apply (step_timer getPoint w t [] (now + 75)
               (Transit synapse targetNeuron sc) []);
        [exact Htimers | exact Hclock | exact Hdue].
    + cbn [run]. rewrite transit_without by assumption.
      split; reflexivity.
Qed.

End SourceFlashOnly.

Lemma animateNeuralSignalPropagation_source_flash_only_witness :
  exists w0 : Signal.World,
    Signal.animateNeuralSignalPropagation (Some Examples.soloNeuron) None None
      (Some 1%positive) None Examples.soloHeap 0 = Some w0
    /\ Signal.completed w0 = false.
Proof.
  destruct (animateNeuralSignalPropagation_source_flash_only
              Examples.firstPoint Examples.soloNeuron
              (Signal.mkUserData (Some 1%positive)) None None
              (Some 1%positive) None 1%positive Examples.soloHeap 0)
    as (w0 & Hcall & Hcompleted & _).
  - reflexivity.
  - reflexivity.
  - left. reflexivity.
  - exists w0. split; [exact Hcall | exact Hcompleted].
Defined.

(** ** Reasoning about computations that draw random numbers *)

Section RandLogic.

Import Neuron NeuronLogic.

Lemma post_ret {A : Type} (a : A) (P : A -> Prop) : P a -> post (ret a) P.
Proof. intros H e. exact H. Qed.

Lemma post_bind {A B : Type} (m : Rand A) (k : A -> Rand B)
    (Q : A -> Prop) (P : B -> Prop) :
  post m Q -> (forall a, Q a -> post (k a) P) -> post (bind m k) P.
Proof.
  intros Hm Hk e. unfold bind.
  specialize (Hm e). destruct (m e) as [a e']. cbn in Hm.
  apply (Hk a Hm e').
Qed.

Lemma post_any {A : Type} (m : Rand A) : post m (fun _ => True).
Proof. intros e. exact I. Qed.

Lemma post_weaken {A : Type} (m : Rand A) (P Q : A -> Prop) :
  post m P -> (forall a, P a -> Q a) -> post m Q.
Proof. intros Hm HPQ e. apply HPQ, Hm. Qed.

(** A draw whose value does not matter. *)
Lemma post_draw {A B : Type} (m : Rand A) (k : A -> Rand B)
    (P : B -> Prop) :
  (forall a, post (k a) P) -> post (bind m k) P.
Proof.
  intros Hk. apply post_bind with (Q := fun _ => True).
  - apply post_any.
  - intros a _. apply Hk.
Qed.

End RandLogic.

(** ** Placement of the neurons *)

Section PlacementFacts.

Import Neuron NeuronLogic.
Local Open Scope nat_scope.

Variable brainModel : option Box3.
Variable count : nat.

Lemma mayPlace_true (st : Placement) :
  mayPlace count st = true <->
  neuronIndex st < count /\ attemptsSoFar st < maxAttempts count.
Proof.
  unfold mayPlace. rewrite andb_true_iff, !Nat.ltb_lt. tauto.
Qed.

Lemma mayPlace_false (st : Placement) :
  mayPlace count st = false <->
  count <= neuronIndex st \/ maxAttempts count <= attemptsSoFar st.
Proof.
  unfold mayPlace. rewrite andb_false_iff, !Nat.ltb_ge. tauto.
Qed.

Lemma placeNeuronAt_post (position : Vector3) (st : Placement) :
  post (placeNeuronAt brainModel position st)
    (fun st' =>
       attemptsSoFar st' = attemptsSoFar st
       /\ ((neuronIndex st' = neuronIndex st /\ placed st' = placed st)
           \/ (neuronIndex st' = S (neuronIndex st)
               /\ exists n : NeuronData,
                    placed st' = placed st ++ [n]
                    /\ Accepted brainModel n))).
Proof.
  unfold placeNeuronAt.
  destruct (_ && _); [| apply post_ret; tauto].
  apply post_draw. intros neuron.
  destruct (axonEnd neuron) as [a |] eqn:Hend; [| apply post_ret; tauto].
  destruct (isPointInSafeBox a _ _) eqn:Hsafe; [| apply post_ret; tauto].
  apply post_ret. cbn. split; [reflexivity |]. right.
  split; [reflexivity |]. exists neuron. split; [reflexivity |].
  exists a. split; assumption.
Qed.

(** An attempt that the loop condition allowed keeps the invariant. *)
Lemma attempt_ok (position : Vector3) (st : Placement) :
  PlacementOK brainModel count st ->
  mayPlace count st = true ->
  post (placeNeuronAt brainModel position (counted st))
    (fun st' => PlacementOK brainModel count st'
                /\ attemptsSoFar st' = S (attemptsSoFar st)).
Proof.
  intros (Hatt & Hidx & Hlen & Hacc) Hmay.
  apply mayPlace_true in Hmay as [Hi Ha].
  eapply post_weaken; [apply placeNeuronAt_post |].
  intros st' [Hatt' [[Hidx' Hplaced] | (Hidx' & n & Hplaced & Hn)]];
    unfold PlacementOK; rewrite Hatt', Hidx', Hplaced; cbn.
  - repeat split; try assumption; lia.
  - repeat split; try lia.
    + rewrite length_app. cbn. lia.
    + apply Forall_app. split; [assumption |]. now constructor.
Qed.

Lemma clusterMembers_ok (iterations : nat) (clusterCenter : Vector3)
    (clusterSize : R) (st : Placement) :
  PlacementOK brainModel count st ->
  post (clusterMembers brainModel count iterations clusterCenter
          clusterSize st)
    (PlacementOK brainModel count).
Proof.
  revert st. induction iterations as [| k IH]; intros st Hok; cbn.
  - now apply post_ret.
  - destruct (mayPlace count st) eqn:Hmay; [| now apply post_ret].
    do 3 (apply post_draw; intros ?).
    eapply post_bind; [now apply (attempt_ok _ st) |].
    intros st' [Hok' _]. now apply IH.
Qed.

Lemma cluster_ok (st : Placement) :
  PlacementOK brainModel count st ->
  post (cluster brainModel count st) (PlacementOK brainModel count).
Proof.
  intros Hok. unfold cluster.
  do 3 (apply post_draw; intros ?).
  destruct (negb _); [now apply post_ret |].
  apply post_draw; intros r.
  now apply clusterMembers_ok.
Qed.

Lemma clusterLoop_ok (iterations : nat) (st : Placement) :
  PlacementOK brainModel count st ->
  post (clusterLoop brainModel count iterations st)
    (PlacementOK brainModel count).
Proof.
  revert st. induction iterations as [| k IH]; intros st Hok; cbn.
  - now apply post_ret.
  - destruct (mayPlace count st); [| now apply post_ret].
    eapply post_bind; [now apply cluster_ok |].
    intros st' Hok'. now apply IH.
Qed.

(** With fuel for the attempts that remain, the [while] loop returns, and
    its condition is false on return. *)
Lemma fillLoop_ok (fuel : nat) (st : Placement) :
  PlacementOK brainModel count st ->
  maxAttempts count - attemptsSoFar st <= fuel ->
  post (fillLoop brainModel count fuel st)
    (fun r => exists st' : Placement,
                r = Some st'
                /\ PlacementOK brainModel count st'
                /\ mayPlace count st' = false).
Proof.
  revert st. induction fuel as [| fuel IH]; intros st Hok Hfuel.
  - cbn. destruct (mayPlace count st) eqn:Hmay.
    + apply mayPlace_true in Hmay. lia.
    + apply post_ret. now exists st.
  - cbn. destruct (mayPlace count st) eqn:Hmay.
    + do 3 (apply post_draw; intros ?).
      eapply post_bind; [now apply (attempt_ok _ st) |].
      intros st' [Hok' Hatt]. apply IH; [exact Hok' | lia].
    + apply post_ret. now exists st.
Qed.

(** More fuel than the loop needs changes nothing. *)
Lemma fillLoop_more_fuel (fuel extra : nat) (st st' : Placement)
    (e e' : Entropy) :
  fillLoop brainModel count fuel st e = (Some st', e') ->
  fillLoop brainModel count (fuel + extra) st e = (Some st', e').
Proof.
  revert st e. induction fuel as [| fuel IH]; intros st e.
  - cbn [fillLoop Nat.add]. destruct (mayPlace count st) eqn:Hmay.
    + cbn. discriminate.
    + intros Hrun. destruct extra; cbn [fillLoop]; now rewrite Hmay.
  - cbn [fillLoop Nat.add]. destruct (mayPlace count st); [| trivial].
    unfold bind at 1 2 3 4 5 6 7 8.
    destruct (Math_random e) as [rx e1].
    destruct (Math_random e1) as [ry e2].
    destruct (Math_random e2) as [rz e3].
    destruct (placeNeuronAt brainModel _ _ e3) as [st1 e4].
    apply IH.
Qed.

End PlacementFacts.

(** ** Connections *)

Section ConnectionFacts.

Import Neuron NeuronLogic.
Local Open Scope R_scope.

Variable neurons0 : list NeuronData.
Variable maxDistance0 : R.
Variable connectionProbability : R.

Lemma createSynapse_post (axonEnd dendritePoint : Vector3) :
  post (createSynapse axonEnd dendritePoint)
    (fun s => userFrom s = axonEnd /\ userTo s = dendritePoint
              /\ active s = false).
Proof.
  unfold createSynapse. apply post_draw. intros midPoint.
  apply post_ret. now repeat split.
Qed.

Lemma connectPair_post (i j : nat) (src tgt : NeuronData) :
  neurons0 !! i = Some src ->
  neurons0 !! j = Some tgt ->
  i <> j ->
  post (connectPair maxDistance0 connectionProbability i j src tgt)
    (fun r => match r with
              | Some c => WithinReach neurons0 maxDistance0 c
              | None => True
              end).
Proof.
  intros Hsrc Htgt Hne. unfold connectPair.
  destruct (axonEnd src) as [a |] eqn:Hend.
  - apply post_draw. intros r.
    destruct (Rltb r _ && Rltb _ maxDistance0) eqn:Hboth;
      [| now apply post_ret].
    apply andb_true_iff in Hboth as [_ Hnear]. apply Rltb_true in Hnear.
    apply post_draw. intros r'.
    eapply post_bind; [apply createSynapse_post |].
    intros s (Hfrom & _ & _). apply post_ret.
    exists src, tgt, a. cbn. repeat split; assumption.
  - apply post_draw. intros _. now apply post_ret.
Qed.

(** A synapse is created exactly when the draw is below the probability
    and the distance is below [maxDistance]. *)
Lemma connectPair_creates_iff (i j : nat) (src tgt : NeuronData)
    (a : Vector3) (e : Entropy) :
  axonEnd src = Some a ->
  let d := Vec.distanceTo a (position tgt) in
  is_Some (fst (connectPair maxDistance0 connectionProbability i j src tgt e))
  <-> uniform e 0%nat
      < calculateConnectionProbability d maxDistance0 connectionProbability
      /\ d < maxDistance0.
Proof.
  intros Hend d. unfold connectPair. rewrite Hend.
  unfold bind at 1. cbn [Math_random]. fold d.
  destruct (Rltb (uniform e 0%nat) _ && Rltb d maxDistance0) eqn:Hboth.
  - apply andb_true_iff in Hboth as [Hdraw Hnear].
    apply Rltb_true in Hdraw, Hnear.
    split; [intros _; split; assumption | intros _].
    unfold bind, Math_random, createSynapse, bentMidpoint, bind, ret.
    cbn. eexists. reflexivity.
  - cbn. split.
    + intros [c Hc]. discriminate.
    + intros [Hdraw Hnear]. apply Rltb_true in Hdraw, Hnear.
      rewrite Hdraw, Hnear in Hboth. discriminate.
Qed.

Lemma distanceTo_along_x (x : R) :
  0 <= x -> Vec.distanceTo (mkVector3 0 0 0) (mkVector3 x 0 0) = x.
Proof.
  intros Hx. unfold Vec.distanceTo, Vec.length, Vec.sub. cbn [vx vy vz].
  replace ((0 - x) * (0 - x) + (0 - 0) * (0 - 0) + (0 - 0) * (0 - 0))
    with (x * x) by lra.
  now apply sqrt_square.
Qed.

Lemma connectTargets_post (i : nat) (src : NeuronData) (targets : list nat)
    (acc : list Connection) :
  neurons0 !! i = Some src ->
  Forall (WithinReach neurons0 maxDistance0) acc ->
  post (connectTargets neurons0 maxDistance0 connectionProbability i src
          targets acc)
    (Forall (WithinReach neurons0 maxDistance0)).
Proof.
  intros Hsrc. revert acc.
  induction targets as [| j targets IH]; intros acc Hacc; cbn.
  - now apply post_ret.
  - destruct (Nat.eqb_spec i j) as [Heq | Hne]; [now apply IH |].
    destruct (neurons0 !! j) as [tgt |] eqn:Htgt; [| now apply IH].
    eapply post_bind; [now apply (connectPair_post i j src tgt) |].
    intros [c |] Hc; apply IH; [| assumption].
    apply Forall_app. split; [assumption | now constructor].
Qed.

Lemma connectSources_post (sources : list nat) (acc : list Connection) :
  Forall (WithinReach neurons0 maxDistance0) acc ->
  post (connectSources neurons0 maxDistance0 connectionProbability sources
          acc)
    (Forall (WithinReach neurons0 maxDistance0)).
Proof.
  revert acc. induction sources as [| i sources IH]; intros acc Hacc; cbn.
  - now apply post_ret.
  - destruct (neurons0 !! i) as [src |] eqn:Hsrc; [| now apply IH].
    eapply post_bind; [now apply connectTargets_post |].
    intros acc' Hacc'. now apply IH.
Qed.

Lemma connectNeurons_post :
  post (connectNeurons neurons0 maxDistance0 connectionProbability)
    (Forall (WithinReach neurons0 maxDistance0)).
Proof. apply connectSources_post. constructor. Qed.

End ConnectionFacts.

(** A pair that is connected: the terminal of [Examples.sender] is 0.3
    from [Examples.receiver], below a [maxDistance] of 0.8, and a draw of
    0 is below the positive probability. *)
Lemma connectPair_example :
  is_Some (fst (Neuron.connectPair 0.8 1 0 1 Examples.sender
                  Examples.receiver Examples.lowEntropy)).
Proof.
  apply (connectPair_creates_iff 0.8 1 0 1 Examples.sender
           Examples.receiver Examples.centre Examples.lowEntropy);
    [reflexivity |].
  cbn [Examples.receiver Neuron.position Examples.centre].
  rewrite distanceTo_along_x by lra.
  split; [| lra].
  cbn [Examples.lowEntropy NeuronLogic.constantEntropy Neuron.uniform].
  rewrite calculateConnectionProbability_unfold.
  match goal with
  | |- context [exp ?x] => pose proof (exp_pos x) as Hexp
  end.
  unfold Rltb.
  destruct (Rlt_dec 0.3 (0.8 * 0.2)), (Rlt_dec (0.8 * 0.5) 0.3);
    try lra; nra.
Qed.

(** ** The network *)

Section NetworkFacts.

Import Neuron NeuronLogic.

(** What every run of [createNeuronNetwork] with enough fuel returns. *)
Lemma createNeuronNetwork_post (fuel : nat) (brainModel : option Box3)
    (count : nat) (connectionProbability : R) :
  (count * 10 <= fuel)%nat ->
  post (createNeuronNetwork fuel brainModel count connectionProbability)
    (fun r => exists net : Network,
                r = Some net
                /\ (attempts net <= count * 10)%nat
                /\ (List.length (neurons net) <= count)%nat
                /\ ((List.length (neurons net) < count)%nat ->
                    attempts net = (count * 10)%nat)
                /\ Forall (Accepted brainModel) (neurons net)
                /\ Forall (WithinReach (neurons net) (maxDistance brainModel))
                     (connections net)).
Proof.
  intros Hfuel. unfold createNeuronNetwork, placeNeurons.
  eapply post_bind.
  - eapply post_bind.
    + apply (clusterLoop_ok brainModel count).
      unfold PlacementOK. cbn. repeat split; try lia. constructor.
    + intros st Hok. apply fillLoop_ok; [exact Hok |].
      unfold maxAttempts. lia.
  - intros r (st & -> & (Hatt & Hidx & Hlen & Hacc) & Hmay).
    eapply post_bind; [apply connectNeurons_post |].
    intros cs Hcs. apply post_ret. eexists. split; [reflexivity |].
    cbn [attempts neurons connections]. unfold maxAttempts in *.
    apply mayPlace_false in Hmay. unfold maxAttempts in Hmay.
    repeat split; try assumption; lia.
Qed.

(** The network when there is not enough fuel is still within reach: a
    run that was cut short returns no network. *)
Lemma createNeuronNetwork_connections (fuel : nat)
    (brainModel : option Box3) (count : nat) (connectionProbability : R) :
  post (createNeuronNetwork fuel brainModel count connectionProbability)
    (fun r => match r with
              | Some net =>
                  Forall (WithinReach (neurons net) (maxDistance brainModel))
                    (connections net)
              | None => True
              end).
Proof.
  unfold createNeuronNetwork.
  apply post_draw. intros [st |]; [| now apply post_ret].
  eapply post_bind; [apply connectNeurons_post |].
  intros cs Hcs. now apply post_ret.
Qed.

(** The result does not depend on the fuel once there is enough of it. *)
Lemma createNeuronNetwork_fuel_irrelevant (fuel : nat)
    (brainModel : option Box3) (count : nat) (connectionProbability : R)
    (e : Entropy) :
  (count * 10 <= fuel)%nat ->
  createNeuronNetwork fuel brainModel count connectionProbability e
  = createNeuronNetwork (count * 10) brainModel count connectionProbability e.
Proof.
  intros Hfuel.
  pose proof (createNeuronNetwork_post (count * 10) brainModel count
                connectionProbability ltac:(lia) e) as Hpost.
  replace fuel with (count * 10 + (fuel - count * 10))%nat by lia.
  generalize (fuel - count * 10)%nat. intros extra.
  unfold createNeuronNetwork, placeNeurons in *.
  unfold bind at 1 2 in Hpost. unfold bind at 1 2. unfold bind at 2 3.
  destruct (clusterLoop brainModel count (clusters count)
              (mkPlacement [] 0 0) e) as [st0 e0].
  destruct (fillLoop brainModel count (count * 10) st0 e0)
    as [[st1 |] e1] eqn:Hfill.
  - now rewrite (fillLoop_more_fuel brainModel count _ extra _ _ _ _ Hfill).
  - cbn in Hpost. destruct Hpost as (net & Hnet & _). discriminate.
Qed.

(** C10. Run with fuel for [10 * count] iterations of its [while] loop,
    [createNeuronNetwork] returns a network, whatever the model, the
    count, the probability and the random draws: it made at most
    [10 * count] placement attempts and placed at most [count] neurons,
    and when it placed fewer than [count] the attempts are exactly
    [10 * count] -- the cap was reached, and the smaller network is
    returned all the same. *)
Theorem createNeuronNetwork_terminates_within_cap (fuel : nat)
    (brainModel : option Box3) (count : nat) (connectionProbability : R)
    (e : Entropy) :
  (10 * count <= fuel)%nat ->
  exists (net : Network) (e' : Entropy),
    createNeuronNetwork fuel brainModel count connectionProbability e
    = (Some net, e')
    /\ (attempts net <= 10 * count)%nat
    /\ (List.length (neurons net) <= count)%nat
    /\ ((List.length (neurons net) < count)%nat ->
        attempts net = (10 * count)%nat).
Proof.
  intros Hfuel.
  pose proof (createNeuronNetwork_post fuel brainModel count
                connectionProbability ltac:(lia) e) as Hpost.
  destruct (createNeuronNetwork fuel brainModel count connectionProbability e)
    as [r e'].
  destruct Hpost as (net & Hr & Hatt & Hlen & Hcap & _). cbn in Hr.
  exists net, e'. rewrite Hr.
  split; [reflexivity |]. split; [lia |]. split; [lia |].
  intros Hless. specialize (Hcap Hless). lia.
Qed.

(** C4. [maxDistance] is 0.4 times the smallest dimension of the model's
    box; every synapse of a network that [createNeuronNetwork] returns
    joins two distinct neurons of the network such that the distance from
    the source's axon terminal to the target's position is strictly below
    [maxDistance]; and for a pair of neurons a synapse is created exactly
    when the uniform draw is below the computed probability and the
    distance is below [maxDistance]. *)
Theorem createNeuronNetwork_synapses_within_maxDistance (fuel : nat)
    (brainModel : option Box3) (count : nat) (connectionProbability : R)
    (e : Entropy) :
  let size := Box.getSize (box brainModel) in
  maxDistance brainModel
  = (Rmin (Rmin (vx size) (vy size)) (vz size) * 0.4)%R
  /\
  match fst (createNeuronNetwork fuel brainModel count connectionProbability e)
  with
  | Some net =>
      Forall (fun c : Connection =>
                exists (src tgt : NeuronData) (a : Vector3),
                  neurons net !! source c = Some src
                  /\ neurons net !! target c = Some tgt
                  /\ source c <> target c
                  /\ axonEnd src = Some a
                  /\ userFrom (synapse c) = a
                  /\ (Vec.distanceTo a (position tgt)
                      < maxDistance brainModel)%R)
        (connections net)
  | None => True
  end
  /\
  forall (i j : nat) (src tgt : NeuronData) (a : Vector3) (e' : Entropy),
    axonEnd src = Some a ->
    is_Some (fst (connectPair (maxDistance brainModel) connectionProbability
                    i j src tgt e'))
    <-> (uniform e' 0%nat
         < calculateConnectionProbability
             (Vec.distanceTo a (position tgt)) (maxDistance brainModel)
             connectionProbability
         /\ Vec.distanceTo a (position tgt) < maxDistance brainModel)%R.
Proof.
  intros size. split; [reflexivity |]. split.
  - apply (createNeuronNetwork_connections fuel brainModel count
             connectionProbability e).
  - intros i j src tgt a e' Hend.
    now apply connectPair_creates_iff.
Qed.

End NetworkFacts.

Lemma createNeuronNetwork_terminates_within_cap_witness :
  exists (net : Neuron.Network) (e' : Neuron.Entropy),
    Neuron.createNeuronNetwork 500 None 50 1 Examples.steadyEntropy
    = (Some net, e')
    /\ (Neuron.attempts net <= 500)%nat.
Proof.
  destruct (createNeuronNetwork_terminates_within_cap 500 None 50 1
              Examples.steadyEntropy) as (net & e' & Hrun & Hatt & _).
  - lia.
  - exists net, e'. split; [exact Hrun | exact Hatt].
Defined.

(** ** Neurons inside the boundary *)

Section NeuronFacts.

Import Neuron NeuronLogic.
Local Open Scope R_scope.

Variable position0 : Vector3.
Variable boundaryBox : option Box3.

Lemma createDendriteBranch_post (from to : Vector3) :
  post (createDendriteBranch from to)
    (fun l => lineFrom l = from /\ lineTo l = to).
Proof.
  unfold createDendriteBranch. apply post_draw. intros midPoint.
  apply post_ret. now split.
Qed.

Lemma createAxonBranch_post (from to : Vector3) :
  post (createAxonBranch from to)
    (fun l => lineFrom l = from /\ lineTo l = to).
Proof.
  unfold createAxonBranch. apply post_draw. intros midPoint.
  apply post_ret. now split.
Qed.

(** A branch end that is returned passed the check. *)
Lemma branchEndFrom_post (branchPoint : Vector3) (branchLength : R) :
  post (branchEndFrom boundaryBox branchPoint branchLength)
    (fun r => match r with
              | Some branchEnd =>
                  withinBoundary boundaryBox margin branchEnd = true
              | None => True
              end).
Proof.
  unfold branchEndFrom. apply post_draw. intros d. apply post_ret.
  destruct (withinBoundary boundaryBox margin _) eqn:Hin; [exact Hin | exact I].
Qed.

Lemma growDendrite_post (dendriteLength : R) (dendrites : list Line) :
  Forall (endsWithin boundaryBox) dendrites ->
  post (growDendrite position0 boundaryBox dendriteLength dendrites)
    (Forall (endsWithin boundaryBox)).
Proof.
  intros Hds. unfold growDendrite.
  do 3 (apply post_draw; intros ?).
  match goal with
  | |- context [withinBoundary boundaryBox margin ?p] =>
      destruct (withinBoundary boundaryBox margin p) eqn:Hend
  end; [| now apply post_ret].
  eapply post_bind; [apply createDendriteBranch_post |].
  intros dendrite [_ Hto].
  assert (Forall (endsWithin boundaryBox) (dendrites ++ [dendrite])) as Hds'.
  { apply Forall_app. split; [assumption |]. constructor; [| constructor].
    unfold endsWithin. now rewrite Hto. }
  apply post_draw. intros r4.
  destruct (Rltb r4 0.3); [| now apply post_ret].
  match goal with
  | |- context [withinBoundary boundaryBox margin ?p] =>
      destruct (withinBoundary boundaryBox margin p)
  end; [| now apply post_ret].
  eapply post_bind; [apply branchEndFrom_post |].
  intros [branchEnd |] Hbranch; [| now apply post_ret].
  eapply post_bind; [apply createDendriteBranch_post |].
  intros branch [_ Hto']. apply post_ret.
  apply Forall_app. split; [assumption |]. constructor; [| constructor].
  unfold endsWithin. now rewrite Hto'.
Qed.

Lemma growDendrites_post (iterations : nat) (dendriteLength : R)
    (dendrites : list Line) :
  Forall (endsWithin boundaryBox) dendrites ->
  post (growDendrites position0 boundaryBox iterations dendriteLength
          dendrites)
    (Forall (endsWithin boundaryBox)).
Proof.
  revert dendrites.
  induction iterations as [| k IH]; intros dendrites Hds; cbn.
  - now apply post_ret.
  - eapply post_bind; [now apply growDendrite_post |].
    intros ds Hds'. now apply IH.
Qed.

(** Every dendrite and every dendrite branch of a neuron ends within the
    boundary. *)
Lemma createNeuron_dendrites (somaSize : R) (options : Options) :
  post (createNeuron position0 boundaryBox somaSize options)
    (fun n => Forall (endsWithin boundaryBox) (dendrites n)).
Proof.
  unfold createNeuron.
  apply post_draw. intros [[[dendriteCount dendriteLength] axonLength] p].
  eapply post_bind; [apply growDendrites_post; constructor |].
  intros ds Hds. apply post_draw. intros [[ax branches] terminal].
  now apply post_ret.
Qed.

End NeuronFacts.

Section SafeDistance.

Import Neuron NeuronLogic.
Local Open Scope R_scope.

Lemma isPointInSafeBox_true (point : Vector3) (box : Box3) (margin : R) :
  isPointInSafeBox point box margin = true <->
  (vx (bmin box) + margin <= vx point <= vx (bmax box) - margin) /\
  (vy (bmin box) + margin <= vy point <= vy (bmax box) - margin) /\
  (vz (bmin box) + margin <= vz point <= vz (bmax box) - margin).
Proof.
  unfold isPointInSafeBox. rewrite !andb_true_iff, !Rleb_true. tauto.
Qed.

Lemma mult_div_cancel (d x : R) : d <> 0 -> d * (x / d) = x.
Proof. intros Hd. field. exact Hd. Qed.

(** One coordinate: the distance kept after the block for this
    coordinate is not negative, not above the distance before, and short
    enough to stay within the interval along this coordinate. *)
Lemma clipAxis_spec (acc : option R) (p d lo hi : R) :
  lo <= p <= hi ->
  match acc with Some a => 0 <= a | None => True end ->
  match clipAxis acc p d lo hi with Some a => 0 <= a | None => True end
  /\ (forall t : R,
        match clipAxis acc p d lo hi with Some a => t <= a | None => True end ->
        match acc with Some a => t <= a | None => True end)
  /\ (forall t : R,
        0 <= t ->
        match clipAxis acc p d lo hi with Some a => t <= a | None => True end ->
        lo <= p + d * t <= hi).
Proof.
  intros Hp Hacc. unfold clipAxis, min_with.
  destruct (Rltb 0 d) eqn:Hpos; [apply Rltb_true in Hpos |].
  - assert (0 <= (hi - p) / d) as HT.
    { apply Rmult_le_pos; [lra |]. left. now apply Rinv_0_lt_compat. }
    assert (d * ((hi - p) / d) = hi - p) as Hcancel
      by (apply mult_div_cancel; lra).
    assert (forall t, 0 <= t -> t <= (hi - p) / d -> lo <= p + d * t <= hi)
      as Hstay.
    { intros t Ht Hle.
      assert (d * t <= d * ((hi - p) / d)) by (apply Rmult_le_compat_l; lra).
      assert (0 <= d * t) by (apply Rmult_le_pos; lra). lra. }
    destruct acc as [a |].
    + repeat split.
      * now apply Rmin_glb.
      * intros t Ht. pose proof (Rmin_l a ((hi - p) / d)). lra.
      * apply Hstay; [assumption |].
        pose proof (Rmin_r a ((hi - p) / d)). lra.
      * apply Hstay; [assumption |].
        pose proof (Rmin_r a ((hi - p) / d)). lra.
    + repeat split; try assumption; now apply Hstay.
  - apply Rltb_false in Hpos.
    destruct (Rltb d 0) eqn:Hneg; [apply Rltb_true in Hneg |].
    + assert (0 <= (p - lo) / - d) as HT.
      { apply Rmult_le_pos; [lra |]. left. apply Rinv_0_lt_compat. lra. }
      assert (- d * ((p - lo) / - d) = p - lo) as Hcancel
        by (apply mult_div_cancel; lra).
      assert (forall t, 0 <= t -> t <= (p - lo) / - d ->
                        lo <= p + d * t <= hi) as Hstay.
      { intros t Ht Hle.
        assert (- d * t <= - d * ((p - lo) / - d))
          by (apply Rmult_le_compat_l; lra).
        assert (0 <= - d * t) by (apply Rmult_le_pos; lra). lra. }
      destruct acc as [a |].
      * repeat split.
        -- now apply Rmin_glb.
        -- intros t Ht. pose proof (Rmin_l a ((p - lo) / - d)). lra.
        -- apply Hstay; [assumption |].
           pose proof (Rmin_r a ((p - lo) / - d)). lra.
        -- apply Hstay; [assumption |].
           pose proof (Rmin_r a ((p - lo) / - d)). lra.
      * repeat split; try assumption; now apply Hstay.
    + apply Rltb_false in Hneg. assert (d = 0) as -> by lra.
      repeat split; try assumption; try tauto; lra.
Qed.

(** From a position within the margin, every point up to the maximum safe
    distance along the direction is within the margin. *)
Lemma getMaxSafeDistance_safe (position direction : Vector3) (box : Box3)
    (margin : R) :
  isPointInSafeBox position box margin = true ->
  match getMaxSafeDistance position direction box margin with
  | Some m => 0 <= m
  | None => True
  end
  /\ forall t : R,
       0 <= t ->
       match getMaxSafeDistance position direction box margin with
       | Some m => t <= m
       | None => True
       end ->
       isPointInSafeBox (Vec.add position (Vec.multiplyScalar direction t))
         box margin = true.
Proof.
  intros Hin. apply isPointInSafeBox_true in Hin as (Hx & Hy & Hz).
  unfold getMaxSafeDistance. cbn [Vec.addScalar Vec.subScalar vx vy vz].
  set (ax := clipAxis None (vx position) (vx direction)
               (vx (bmin box) + margin) (vx (bmax box) - margin)).
  set (ay := clipAxis ax (vy position) (vy direction)
               (vy (bmin box) + margin) (vy (bmax box) - margin)).
  set (az := clipAxis ay (vz position) (vz direction)
               (vz (bmin box) + margin) (vz (bmax box) - margin)).
  destruct (clipAxis_spec None (vx position) (vx direction) _ _ Hx I)
    as (Hx0 & _ & Hxs). fold ax in Hx0, Hxs.
  destruct (clipAxis_spec ax (vy position) (vy direction) _ _ Hy Hx0)
    as (Hy0 & Hyx & Hys). fold ay in Hy0, Hyx, Hys.
  destruct (clipAxis_spec ay (vz position) (vz direction) _ _ Hz Hy0)
    as (Hz0 & Hzy & Hzs). fold az in Hz0, Hzy, Hzs.
  assert (forall t,
            match az with
            | Some d => t <= (if Rltb 0 d then d else 0)
            | None => True
            end ->
            match az with Some a => t <= a | None => True end) as Hfinal.
  { intros t. destruct az as [d |]; [| tauto].
    destruct (Rltb 0 d); [tauto | lra]. }
  split.
  - destruct az as [d |]; [| exact I]. destruct (Rltb 0 d); lra.
  - intros t Ht Hle.
    assert (match az with Some a => t <= a | None => True end) as Hlez.
    { apply Hfinal. destruct az; exact Hle. }
    apply isPointInSafeBox_true. cbn [Vec.add Vec.multiplyScalar vx vy vz].
    repeat split;
      first [ apply Hxs; [assumption | now apply Hyx, Hzy]
            | apply Hys; [assumption | now apply Hzy]
            | now apply Hzs ].
Qed.

(** The clipped length: not negative and not beyond the maximum. *)
Lemma clipLength_range (length : R) (maxLength : option R) :
  0 <= length ->
  match maxLength with Some m => 0 <= m | None => True end ->
  0 <= clipLength length maxLength
  /\ match maxLength with
     | Some m => clipLength length maxLength <= m
     | None => True
     end.
Proof.
  intros Hl Hm. unfold clipLength. destruct maxLength as [m |].
  - split; [apply Rmin_glb; lra |].
    pose proof (Rmin_r length (m * 0.8)). lra.
  - now split.
Qed.

End SafeDistance.

Section AxonFacts.

Import Neuron NeuronLogic.
Local Open Scope R_scope.

Variable position0 : Vector3.

Lemma growAxonBranches_post (boundaryBox : option Box3) (iterations : nat)
    (branchPoint : Vector3) (actualAxonLength : R) (branches : list Line) :
  Forall (endsWithin boundaryBox) branches ->
  post (growAxonBranches boundaryBox iterations branchPoint actualAxonLength
          branches)
    (Forall (endsWithin boundaryBox)).
Proof.
  revert branches.
  induction iterations as [| k IH]; intros branches Hbs; cbn.
  - now apply post_ret.
  - eapply post_bind; [apply branchEndFrom_post |].
    intros [branchEnd |] Hend; [| now apply IH].
    eapply post_bind; [apply createAxonBranch_post |].
    intros branch [_ Hto]. apply IH.
    apply Forall_app. split; [assumption |]. constructor; [| constructor].
    unfold endsWithin. now rewrite Hto.
Qed.

(** The axon that passed the check: its curve ends at the checked point,
    which is the terminal; its branches end within the boundary. *)
Lemma axonWithinBoundary_post (boundaryBox : option Box3)
    (axonDirection : Vector3) (actualAxonLength axonBranchProbability : R)
    (axonEnd : Vector3) :
  post (axonWithinBoundary position0 boundaryBox axonDirection
          actualAxonLength axonBranchProbability axonEnd)
    (fun r => snd r = Some axonEnd
              /\ (exists l, fst (fst r) = Some l /\ lineTo l = axonEnd)
              /\ Forall (endsWithin boundaryBox) (snd (fst r))).
Proof.
  unfold axonWithinBoundary.
  eapply post_bind; [apply createAxonBranch_post |].
  intros ax [_ Hto]. apply post_draw. intros r.
  destruct (Rltb r axonBranchProbability);
    [| apply post_ret; cbn; eauto].
  destruct (withinBoundary boundaryBox margin _);
    [| apply post_ret; cbn; eauto].
  eapply post_bind; [apply growAxonBranches_post; constructor |].
  intros branches Hbs. apply post_ret. cbn. eauto.
Qed.

(** From a soma within the margin, an axon of non-negative length passes
    the check: its terminal is within the margin. *)
Lemma growAxon_safe (box : Box3) (axonLength axonBranchProbability : R) :
  isPointInSafeBox position0 box margin = true ->
  0 <= axonLength ->
  post (growAxon position0 (Some box) axonLength axonBranchProbability)
    (fun r => exists a : Vector3,
                snd r = Some a /\ isPointInSafeBox a box margin = true).
Proof.
  intros Hin Hlen. unfold growAxon. apply post_draw. intros d.
  destruct (getMaxSafeDistance_safe position0 (Vec.normalize d) box margin Hin)
    as [Hnonneg Hsafe].
  destruct (clipLength_range axonLength
              (getMaxSafeDistance position0 (Vec.normalize d) box margin)
              Hlen Hnonneg) as [Hlo Hhi].
  rewrite (Hsafe _ Hlo Hhi).
  eapply post_weaken; [apply axonWithinBoundary_post |].
  intros r (Hend & _ & _). eexists. split; [exact Hend |].
  now apply Hsafe.
Qed.

(** The axon length the destructuring yields: the option, or the default
    computed from a draw. *)
Lemma readOptions_axonLength (options : Options) (e : Entropy) :
  let '(_, _, axonLength, p) := fst (readOptions options e) in
  match opt_axonLength options with
  | Some l => axonLength = l
  | None => exists k : nat, axonLength = 0.2 + uniform e k * 0.3
  end
  /\ p = default 0.3 (opt_axonBranchProbability options).
Proof.
  destruct options as [[n |] [l |] [a |] [p |]]; cbn;
    (split; [first [reflexivity | eexists; reflexivity] | reflexivity]).
Qed.

(** The terminal of a neuron is the one [growAxon] computes for the
    requested length: the option, or the default drawn from the entropy
    source. *)
Lemma createNeuron_axonEnd (boundaryBox : option Box3) (somaSize : R)
    (options : Options) (e : Entropy) :
  exists (axonLength : R) (e' : Entropy),
    match opt_axonLength options with
    | Some l => axonLength = l
    | None => exists k : nat, axonLength = 0.2 + uniform e k * 0.3
    end
    /\ axonEnd (fst (createNeuron position0 boundaryBox somaSize options e))
       = snd (fst (growAxon position0 boundaryBox axonLength
                     (default 0.3 (opt_axonBranchProbability options)) e')).
Proof.
  pose proof (readOptions_axonLength options e) as Hopt.
  unfold createNeuron. unfold bind at 1.
  destruct (readOptions options e) as [[[[dc dl] al] p] e1].
  cbn [fst] in Hopt. destruct Hopt as [Hal ->].
  unfold bind.
  destruct (growDendrites position0 boundaryBox (Z.to_nat dc) dl [] e1)
    as [ds e2].
  exists al, e2. split; [exact Hal |].
  destruct (growAxon position0 boundaryBox al _ e2) as [[[ax br] en] e3].
  reflexivity.
Qed.

End AxonFacts.

(** ** Runs on a constant entropy source *)

Section ConstantEntropy.

Import Neuron NeuronLogic.
Local Open Scope R_scope.

Variable c : R.
Variable d : Vector3.

Lemma keeps_ret {A : Type} (a : A) (e : Entropy) : keeps (ret a) e.
Proof. reflexivity. Qed.

Lemma keeps_bind {A B : Type} (m : Rand A) (k : A -> Rand B) (e : Entropy) :
  keeps m e -> (forall a, keeps (k a) e) -> keeps (bind m k) e.
Proof.
  unfold keeps, bind. intros Hm Hk.
  destruct (m e) as [a e'] eqn:Hrun. cbn in Hm. subst e'. apply Hk.
Qed.

Lemma bind_keeps {A B : Type} (m : Rand A) (k : A -> Rand B) (e : Entropy) :
  keeps m e -> bind m k e = k (fst (m e)) e.
Proof.
  unfold keeps, bind. intros Hm.
  destruct (m e) as [a e'] eqn:Hrun. cbn in *. now subst e'.
Qed.

Lemma keeps_Math_random : keeps Math_random (constantEntropy c d).
Proof. reflexivity. Qed.

Lemma keeps_randomDirection : keeps randomDirection (constantEntropy c d).
Proof. reflexivity. Qed.

Lemma keeps_bentMidpoint (from to : Vector3) (bend : R) :
  keeps (bentMidpoint from to bend) (constantEntropy c d).
Proof.
  unfold bentMidpoint. apply keeps_bind; [apply keeps_Math_random |].
  intros r. apply keeps_ret.
Qed.

Lemma keeps_createDendriteBranch (from to : Vector3) :
  keeps (createDendriteBranch from to) (constantEntropy c d).
Proof.
  unfold createDendriteBranch.
  apply keeps_bind; [apply keeps_bentMidpoint |]. intros m. apply keeps_ret.
Qed.

Lemma keeps_createAxonBranch (from to : Vector3) :
  keeps (createAxonBranch from to) (constantEntropy c d).
Proof.
  unfold createAxonBranch.
  apply keeps_bind; [apply keeps_bentMidpoint |]. intros m. apply keeps_ret.
Qed.

Lemma keeps_branchEndFrom (boundaryBox : option Box3)
    (branchPoint : Vector3) (branchLength : R) :
  keeps (branchEndFrom boundaryBox branchPoint branchLength)
    (constantEntropy c d).
Proof.
  unfold branchEndFrom.
  apply keeps_bind; [apply keeps_randomDirection |].
  intros x. apply keeps_ret.
Qed.

Lemma keeps_growDendrite (position0 : Vector3) (boundaryBox : option Box3)
    (dendriteLength : R) (dendrites : list Line) :
  keeps (growDendrite position0 boundaryBox dendriteLength dendrites)
    (constantEntropy c d).
Proof.
  unfold growDendrite.
  do 3 (apply keeps_bind; [apply keeps_Math_random |]; intros ?).
  match goal with
  | |- context [withinBoundary boundaryBox margin ?p] =>
      destruct (withinBoundary boundaryBox margin p)
  end; [| apply keeps_ret].
  apply keeps_bind; [apply keeps_createDendriteBranch |]. intros dendrite.
  apply keeps_bind; [apply keeps_Math_random |]. intros r4.
  destruct (Rltb r4 0.3); [| apply keeps_ret].
  match goal with
  | |- context [withinBoundary boundaryBox margin ?p] =>
      destruct (withinBoundary boundaryBox margin p)
  end; [| apply keeps_ret].
  apply keeps_bind; [apply keeps_branchEndFrom |].
  intros [branchEnd |]; [| apply keeps_ret].
  apply keeps_bind; [apply keeps_createDendriteBranch |].
  intros branch. apply keeps_ret.
Qed.

Lemma keeps_growDendrites (position0 : Vector3) (boundaryBox : option Box3)
    (iterations : nat) (dendriteLength : R) (dendrites : list Line) :
  keeps (growDendrites position0 boundaryBox iterations dendriteLength
           dendrites)
    (constantEntropy c d).
Proof.
  revert dendrites. induction iterations as [| k IH]; intros dendrites; cbn.
  - apply keeps_ret.
  - apply keeps_bind; [apply keeps_growDendrite | apply IH].
Qed.

Lemma readOptions_constant :
  readOptions noOptions (constantEntropy c d)
  = ((3 + floor (c * 5))%Z, 0.1 + c * 0.15, 0.2 + c * 0.3, 0.3,
     constantEntropy c d).
Proof. reflexivity. Qed.

(** With no options and a constant source, the terminal is the one
    [growAxon] computes for the length [0.2 + c * 0.3] on that source. *)
Lemma createNeuron_constant (position0 : Vector3)
    (boundaryBox : option Box3) (somaSize : R) :
  axonEnd (fst (createNeuron position0 boundaryBox somaSize noOptions
                  (constantEntropy c d)))
  = snd (fst (growAxon position0 boundaryBox (0.2 + c * 0.3) 0.3
                (constantEntropy c d))).
Proof.
  unfold createNeuron. unfold bind at 1. rewrite readOptions_constant.
  rewrite bind_keeps by apply keeps_growDendrites.
  unfold bind.
  destruct (growAxon position0 boundaryBox (0.2 + c * 0.3) 0.3
              (constantEntropy c d)) as [[[ax br] en] e3].
  reflexivity.
Qed.

End ConstantEntropy.

(** ** The axon of a soma that is too close to a face *)

Section NearFace.

Import Neuron NeuronLogic.
Local Open Scope R_scope.

Lemma Rltb_irrefl (x : R) : Rltb x x = false.
Proof. apply Rltb_false. lra. Qed.

Lemma normalize_y : Vec.normalize (mkVector3 0 1 0) = mkVector3 0 1 0.
Proof.
  unfold Vec.normalize, Vec.length, Vec.multiplyScalar. cbn [vx vy vz].
  replace (0 * 0 + 1 * 1 + 0 * 0) with 1 by lra. rewrite sqrt_1.
  destruct (Req_dec_T 1 0); [lra |]. f_equal; lra.
Qed.

(** Along the y axis the maximum safe distance is the distance to the
    upper safe face, in units of the direction's length. *)
Lemma getMaxSafeDistance_along_y (position direction : Vector3) (box : Box3)
    (m : R) :
  vx direction = 0 -> vz direction = 0 -> 0 < vy direction ->
  vy position < vy (bmax box) - m ->
  getMaxSafeDistance position direction box m
  = Some ((vy (bmax box) - m - vy position) / vy direction).
Proof.
  intros Hx Hz Hy Hroom.
  unfold getMaxSafeDistance, clipAxis, min_with.
  cbn [Vec.addScalar Vec.subScalar vx vy vz].
  rewrite Hx, Hz, !Rltb_irrefl.
  assert (Rltb 0 (vy direction) = true) as -> by now apply Rltb_true.
  assert (0 < (vy (bmax box) - m - vy position) / vy direction) as Hpos.
  { apply Rmult_lt_0_compat; [lra | now apply Rinv_0_lt_compat]. }
  assert (Rltb 0 ((vy (bmax box) - m - vy position) / vy direction) = true)
    as -> by now apply Rltb_true.
  reflexivity.
Qed.

(** [createNeuron] at [Examples.nearFace] in [Examples.cube], with no
    options, on the source that draws 0.5 and points along y: the first
    end point (0.98, 0.35, 0) fails the check, and the fallback returns
    the terminal (0.98, 0.665, 0), whose x coordinate is still 0.03
    beyond the margin. *)
Lemma createNeuron_nearFace :
  exists a : Vector3,
    axonEnd (fst (createNeuron Examples.nearFace (Some Examples.cube) 0.01
                    noOptions Examples.steadyEntropy)) = Some a
    /\ vx a = 0.98 /\ vy a = 0.665 /\ vz a = 0
    /\ isPointInSafeBox a Examples.cube 0.05 = false.
Proof.
  unfold Examples.steadyEntropy. rewrite createNeuron_constant.
  unfold growAxon. unfold bind at 1.
  cbn [randomDirection constantEntropy directions uniform fst snd].
  rewrite normalize_y.
  rewrite (getMaxSafeDistance_along_y Examples.nearFace (mkVector3 0 1 0)
             Examples.cube margin) by (cbn; unfold margin; lra).
  cbn [Examples.nearFace Examples.cube bmax bmin vx vy vz].
  unfold clipLength, margin.
  replace (Rmin (0.2 + 0.5 * 0.3) ((1 - 0.05 - 0) / 1 * 0.8))
    with 0.35 by (rewrite Rmin_left; lra).
  assert (isPointInSafeBox
            (Vec.add Examples.nearFace
               (Vec.multiplyScalar (mkVector3 0 1 0) 0.35))
            Examples.cube 0.05
          = false) as ->.
  { apply not_true_is_false. intros Hin.
    apply isPointInSafeBox_true in Hin. cbn in Hin. lra. }
  unfold axonFallback.
  rewrite (getMaxSafeDistance_along_y Examples.nearFace
             (Vec.multiplyScalar (mkVector3 0 1 0) 0.35)
             Examples.cube margin)
    by (cbn; unfold margin; lra).
  cbn [Examples.nearFace Examples.cube Vec.multiplyScalar bmax vx vy vz].
  unfold margin.
  replace (Rmax 0.05 ((1 - 0.05 - 0) / (1 * 0.35) * 0.7)) with 1.9.
  2:{ assert ((1 - 0.05 - 0) / (1 * 0.35) * 0.7 = 1.9) as -> by lra.
      rewrite Rmax_right; lra. }
  unfold bind, createAxonBranch, bentMidpoint, bind, ret, Math_random.
  cbn [fst snd axonEnd Vec.add vx vy vz].
  eexists. split; [reflexivity |].
  cbn [Examples.nearFace Vec.add Vec.multiplyScalar vx vy vz].
  split; [lra |]. split; [lra |]. split; [lra |].
  apply not_true_is_false. intros Hin.
  apply isPointInSafeBox_true in Hin. cbn in Hin. lra.
Qed.

Lemma normalize_x : Vec.normalize (mkVector3 1 0 0) = mkVector3 1 0 0.
Proof.
  unfold Vec.normalize, Vec.length, Vec.multiplyScalar. cbn [vx vy vz].
  replace (1 * 1 + 0 * 0 + 0 * 0) with 1 by lra. rewrite sqrt_1.
  destruct (Req_dec_T 1 0); [lra |]. f_equal; lra.
Qed.

(** Along the x axis, from a position at or beyond the upper safe face,
    the maximum safe distance is 0. *)
Lemma getMaxSafeDistance_beyond_x (position direction : Vector3) (box : Box3)
    (m : R) :
  0 < vx direction -> vy direction = 0 -> vz direction = 0 ->
  vx (bmax box) - m <= vx position ->
  getMaxSafeDistance position direction box m = Some 0.
Proof.
  intros Hx Hy Hz Hbeyond.
  unfold getMaxSafeDistance, clipAxis, min_with.
  cbn [Vec.addScalar Vec.subScalar vx vy vz].
  rewrite Hy, Hz, !Rltb_irrefl.
  assert (Rltb 0 (vx direction) = true) as -> by now apply Rltb_true.
  assert ((vx (bmax box) - m - vx position) / vx direction <= 0) as Hneg.
  { apply Rmult_le_reg_r with (vx direction); [exact Hx |].
    unfold Rdiv. rewrite Rmult_assoc, Rinv_l by lra. lra. }
  assert (Rltb 0 ((vx (bmax box) - m - vx position) / vx direction) = false)
    as -> by now apply Rltb_false.
  reflexivity.
Qed.

(** For the zero direction the maximum safe distance is [Infinity]. *)
Lemma getMaxSafeDistance_zero (position direction : Vector3) (box : Box3)
    (m : R) :
  vx direction = 0 -> vy direction = 0 -> vz direction = 0 ->
  getMaxSafeDistance position direction box m = None.
Proof.
  intros Hx Hy Hz. unfold getMaxSafeDistance, clipAxis.
  rewrite Hx, Hy, Hz, !Rltb_irrefl. reflexivity.
Qed.

(** [createNeuron] at [Examples.nearFace] with the axon pointing at the
    near face: the clipped length is 0, line 304 scales the direction to
    the zero vector, the unchanged end point fails the check, and the
    fallback, asking for the safe distance along the zero vector, gets
    [Infinity] and returns a terminal of [NaN]s. *)
Lemma createNeuron_nearFace_outward :
  axonEnd (fst (createNeuron Examples.nearFace (Some Examples.cube) 0.01
                  noOptions Examples.outwardEntropy)) = None.
Proof.
  unfold Examples.outwardEntropy. rewrite createNeuron_constant.
  unfold growAxon. unfold bind at 1.
  cbn [randomDirection constantEntropy directions uniform fst snd].
  rewrite normalize_x.
  rewrite (getMaxSafeDistance_beyond_x Examples.nearFace (mkVector3 1 0 0)
             Examples.cube margin) by (cbn; unfold margin; lra).
  unfold clipLength.
  replace (Rmin (0.2 + 0.5 * 0.3) (0 * 0.8)) with 0
    by (rewrite Rmin_right; lra).
  assert (isPointInSafeBox
            (Vec.add Examples.nearFace
               (Vec.multiplyScalar (mkVector3 1 0 0) 0))
            Examples.cube margin = false) as ->.
  { apply not_true_is_false. intros Hin.
    apply isPointInSafeBox_true in Hin. cbn in Hin. unfold margin in Hin.
    lra. }
  unfold axonFallback.
  rewrite getMaxSafeDistance_zero by (cbn; lra).
  reflexivity.
Qed.

End NearFace.

Section WithinMargin.

Import Neuron NeuronLogic.
Local Open Scope R_scope.

(** C5, as the code has it. For a neuron created with a boundary box,
    every dendrite and dendrite branch ends within the margin of 0.05;
    and when the soma itself is within the margin, [Math.random] draws
    are not negative and a requested axon length is not negative, the
    axon is the one that passed the check: its terminal is within the
    margin. (The fallback of lines 346 to 353 runs no check on the
    terminal it returns; the statement says nothing about it.) *)
Theorem createNeuron_within_margin (position : Vector3) (box : Box3)
    (somaSize : R) (options : Options) (e : Entropy) :
  let n := fst (createNeuron position (Some box) somaSize options e) in
  Forall (fun l : Line => isPointInSafeBox (lineTo l) box 0.05 = true)
    (dendrites n)
  /\ (isPointInSafeBox position box 0.05 = true ->
      (forall k : nat, 0 <= uniform e k) ->
      (forall l : R, opt_axonLength options = Some l -> 0 <= l) ->
      exists a : Vector3,
        axonEnd n = Some a /\ isPointInSafeBox a box 0.05 = true).
Proof.
  intros n. subst n. split.
  - apply (createNeuron_dendrites position (Some box) somaSize options e).
  - intros Hin Hdraws Hopt.
    destruct (createNeuron_axonEnd position (Some box) somaSize options e)
      as (axonLength & e' & Hlen & ->).
    assert (0 <= axonLength) as Hnonneg.
    { destruct (opt_axonLength options) as [l |].
      - subst axonLength. now apply Hopt.
      - destruct Hlen as [k ->]. specialize (Hdraws k). lra. }
    apply (growAxon_safe position box axonLength _ Hin Hnonneg e').
Qed.

Lemma createNeuron_within_margin_witness :
  exists a : Vector3,
    axonEnd (fst (createNeuron Examples.centre (Some Examples.cube) 0.01
                    noOptions Examples.steadyEntropy)) = Some a
    /\ isPointInSafeBox a Examples.cube 0.05 = true.
Proof.
  apply (createNeuron_within_margin Examples.centre Examples.cube 0.01
           noOptions Examples.steadyEntropy).
  - apply isPointInSafeBox_true. cbn. lra.
  - intros k. cbn. lra.
  - intros l Hl. discriminate Hl.
Defined.

(** C5, as stated, fails in the fallback: the neuron of
    [createNeuron_nearFace] has its terminal at x = 0.98, beyond the
    margin of the cube's face x = 1. *)
Lemma createNeuron_fallback_outside_margin :
  ~ (forall (position : Vector3) (box : Box3) (somaSize : R)
            (options : Options) (e : Entropy),
        let n := fst (createNeuron position (Some box) somaSize options e) in
        Forall (fun l : Line => isPointInSafeBox (lineTo l) box 0.05 = true)
          (dendrites n)
        /\ exists a : Vector3,
             axonEnd n = Some a /\ isPointInSafeBox a box 0.05 = true).
Proof.
  intros claim.
  destruct (claim Examples.nearFace Examples.cube 0.01 noOptions
              Examples.steadyEntropy) as [_ (a & Ha & Hsafe)].
  destruct createNeuron_nearFace as (a' & Ha' & _ & _ & _ & Hout).
  rewrite Ha' in Ha. injection Ha as ->. congruence.
Qed.

End WithinMargin.

(** ** A run that places no neuron *)

Section UnderDelivery.

Import Neuron NeuronLogic.
Local Open Scope R_scope.

Ltac decide_comparisons :=
  repeat match goal with
    | |- context [Rltb ?a ?b] =>
        first [ rewrite (proj2 (Rltb_true a b)) by (cbn; lra)
              | rewrite (proj2 (Rltb_false a b)) by (cbn; lra) ]
    | |- context [Rleb ?a ?b] =>
        first [ rewrite (proj2 (Rleb_true a b)) by (cbn; lra)
              | rewrite (proj2 (Rleb_false a b)) by (cbn; lra) ]
    end.

Lemma returnsAt_ret {A : Type} (e : Entropy) (a : A) (P : A -> Prop) :
  P a -> returnsAt e (ret a) P.
Proof. intros H. split; [reflexivity | exact H]. Qed.

Lemma returnsAt_bind {A B : Type} (e : Entropy) (m : Rand A)
    (k : A -> Rand B) (Q : A -> Prop) (P : B -> Prop) :
  returnsAt e m Q -> (forall a, Q a -> returnsAt e (k a) P) ->
  returnsAt e (bind m k) P.
Proof.
  intros [Hkeep HQ] Hk. unfold returnsAt, keeps.
  rewrite (bind_keeps m k e Hkeep). exact (Hk _ HQ).
Qed.

Lemma returnsAt_keeps {A : Type} (e : Entropy) (m : Rand A) :
  keeps m e -> returnsAt e m (fun _ => True).
Proof. intros H. now split. Qed.

Lemma keeps_growAxonBranches (c : R) (d : Vector3)
    (boundaryBox : option Box3) (iterations : nat) (branchPoint : Vector3)
    (actualAxonLength : R) (branches : list Line) :
  keeps (growAxonBranches boundaryBox iterations branchPoint
           actualAxonLength branches)
    (constantEntropy c d).
Proof.
  revert branches. induction iterations as [| k IH]; intros branches; cbn.
  - apply keeps_ret.
  - apply keeps_bind; [apply keeps_branchEndFrom |].
    intros [branchEnd |]; [| apply IH].
    apply keeps_bind; [apply keeps_createAxonBranch |]. intros ?. apply IH.
Qed.

Lemma keeps_growAxon (c : R) (d : Vector3) (position0 : Vector3)
    (boundaryBox : option Box3) (axonLength axonBranchProbability : R) :
  keeps (growAxon position0 boundaryBox axonLength axonBranchProbability)
    (constantEntropy c d).
Proof.
  assert (forall dir len a,
             keeps (axonWithinBoundary position0 boundaryBox dir len
                      axonBranchProbability a) (constantEntropy c d))
    as Hmain.
  { intros dir len a. unfold axonWithinBoundary.
    apply keeps_bind; [apply keeps_createAxonBranch |]. intros ax.
    apply keeps_bind; [apply keeps_Math_random |]. intros r.
    destruct (Rltb r axonBranchProbability); [| apply keeps_ret].
    destruct (withinBoundary boundaryBox margin _); [| apply keeps_ret].
    apply keeps_bind; [apply keeps_growAxonBranches |].
    intros ?. apply keeps_ret. }
  unfold growAxon. apply keeps_bind; [apply keeps_randomDirection |].
  intros x. destruct boundaryBox as [box |]; [| apply Hmain].
  destruct (isPointInSafeBox _ box margin); [apply Hmain |].
  unfold axonFallback. destruct (getMaxSafeDistance _ _ box margin).
  - apply keeps_bind; [apply keeps_createAxonBranch |].
    intros ?. apply keeps_ret.
  - apply keeps_bind; [apply keeps_Math_random |]. intros ?. apply keeps_ret.
Qed.

Lemma keeps_createNeuron (c : R) (d : Vector3) (position0 : Vector3)
    (boundaryBox : option Box3) (somaSize : R) :
  keeps (createNeuron position0 boundaryBox somaSize noOptions)
    (constantEntropy c d).
Proof.
  unfold createNeuron. apply keeps_bind.
  - unfold keeps. now rewrite readOptions_constant.
  - intros [[[dc dl] al] p].
    apply keeps_bind; [apply keeps_growDendrites |]. intros ds.
    apply keeps_bind; [apply keeps_growAxon |].
    intros [[ax br] en]. apply keeps_ret.
Qed.

(** The default box, its size and the network's margin. *)
Lemma size_default : size None = mkVector3 2 2 2.
Proof.
  unfold size, box, Box.getSize, Box.isEmpty, Box.setFromCenterAndSize.
  cbn [Vec.sub Vec.add Vec.multiplyScalar bmin bmax vx vy vz].
  decide_comparisons. cbn [orb].
  unfold Vec.sub, Vec.add, Vec.multiplyScalar. cbn [vx vy vz].
  f_equal; lra.
Qed.

Lemma networkMargin_default : networkMargin None = 0.56.
Proof.
  unfold networkMargin, min3. rewrite size_default. cbn [vx vy vz].
  replace (Rmin 2 2) with 2 by (rewrite Rmin_left; lra).
  rewrite Rmin_left; lra.
Qed.

Lemma box_default :
  box None = mkBox3 (mkVector3 (0 - 2 * 0.5) (0 - 2 * 0.5) (0 - 2 * 0.5))
                    (mkVector3 (0 + 2 * 0.5) (0 + 2 * 0.5) (0 + 2 * 0.5)).
Proof. reflexivity. Qed.

(** The axon from (0, 0.2, 0) on the steady source runs 0.35 along y,
    passes the check of [createNeuron], and ends at y = 0.55. *)
Lemma growAxon_steady :
  exists a : Vector3,
    snd (fst (growAxon (mkVector3 0 0.2 0) (Some (box None))
                (0.2 + 0.5 * 0.3) 0.3
                (constantEntropy 0.5 (mkVector3 0 1 0)))) = Some a
    /\ vy a = 0.55.
Proof.
  unfold growAxon. unfold bind at 1.
  cbn [randomDirection constantEntropy directions uniform fst snd].
  rewrite normalize_y.
  rewrite (getMaxSafeDistance_along_y (mkVector3 0 0.2 0) (mkVector3 0 1 0)
             (box None) margin)
    by (rewrite ?box_default; cbn; unfold margin; lra).
  rewrite box_default. cbn [bmax vy]. unfold clipLength, margin.
  replace (Rmin (0.2 + 0.5 * 0.3) ((0 + 2 * 0.5 - 0.05 - 0.2) / 1 * 0.8))
    with 0.35 by (rewrite Rmin_left; lra).
  assert (isPointInSafeBox
            (Vec.add (mkVector3 0 0.2 0)
               (Vec.multiplyScalar (mkVector3 0 1 0) 0.35))
            (mkBox3 (mkVector3 (0 - 2 * 0.5) (0 - 2 * 0.5) (0 - 2 * 0.5))
               (mkVector3 (0 + 2 * 0.5) (0 + 2 * 0.5) (0 + 2 * 0.5)))
            0.05 = true) as ->.
  { apply isPointInSafeBox_true. cbn. lra. }
  match goal with
  | |- context [axonWithinBoundary ?p ?bb ?dir ?len ?prob ?a ?e] =>
      destruct (axonWithinBoundary_post p bb dir len prob a e)
        as (Hend & _ & _)
  end.
  eexists. split; [exact Hend |]. cbn. lra.
Qed.

Lemma createNeuron_steady (position : Vector3) :
  position = mkVector3 0 0.2 0 ->
  returnsAt Examples.steadyEntropy
    (createNeuron position (Some (box None)) 0.01 noOptions)
    (fun n => exists a : Vector3, axonEnd n = Some a /\ vy a = 0.55).
Proof.
  intros ->. split; [apply keeps_createNeuron |].
  unfold Examples.steadyEntropy. rewrite createNeuron_constant.
  exact growAxon_steady.
Qed.

(** Such a neuron fails the network's check, whose margin is 0.56: an
    attempt at (0, 0.2, 0) on the steady source changes nothing. *)
Lemma placeNeuronAt_steady (position : Vector3) (st : Placement) :
  position = mkVector3 0 0.2 0 ->
  returnsAt Examples.steadyEntropy (placeNeuronAt None position st)
    (fun st' => st' = st).
Proof.
  intros Hpos. unfold placeNeuronAt.
  destruct (_ && _); [| now apply returnsAt_ret].
  eapply returnsAt_bind; [now apply createNeuron_steady |].
  intros n (a & -> & Hy).
  assert (isPointInSafeBox a (box None) (networkMargin None) = false) as ->.
  { apply not_true_is_false. intros Hin.
    apply isPointInSafeBox_true in Hin.
    rewrite networkMargin_default, box_default in Hin. cbn in Hin. lra. }
  now apply returnsAt_ret.
Qed.

Lemma yOffset_default : yOffset None = 0.2.
Proof. unfold yOffset. rewrite size_default. cbn. lra. Qed.

Lemma safeCenter_default : safeCenter None = mkVector3 0 0.2 0.
Proof.
  unfold safeCenter, safeBox, Box.getCenter, Box.isEmpty.
  rewrite networkMargin_default, yOffset_default, box_default.
  unfold Vec.addScalar, Vec.subScalar. cbn [bmin bmax vx vy vz].
  decide_comparisons. cbn [orb].
  unfold Vec.add, Vec.multiplyScalar. cbn [vx vy vz]. f_equal; lra.
Qed.

Lemma Math_random_steady :
  returnsAt Examples.steadyEntropy Math_random (fun r => r = 0.5).
Proof. now split. Qed.

Lemma irwinHall_steady :
  returnsAt Examples.steadyEntropy irwinHall (fun x => x = 0).
Proof. split; [reflexivity |]. cbn. lra. Qed.

Lemma Idle_counted (st : Placement) : Idle st -> Idle (counted st).
Proof. intros H. exact H. Qed.

Section Loops.

Variable count : nat.

Lemma clusterMembers_steady (iterations : nat) (clusterCenter : Vector3)
    (clusterSize : R) (st : Placement) :
  clusterCenter = mkVector3 0 0.2 0 ->
  Idle st ->
  returnsAt Examples.steadyEntropy
    (clusterMembers None count iterations clusterCenter clusterSize st) Idle.
Proof.
  intros ->. revert st.
  induction iterations as [| k IH]; intros st Hidle; cbn [clusterMembers].
  - now apply returnsAt_ret.
  - destruct (mayPlace count st); [| now apply returnsAt_ret].
    do 3 (eapply returnsAt_bind; [apply irwinHall_steady |]; intros ? ->).
    eapply returnsAt_bind.
    + apply placeNeuronAt_steady.
      unfold Vec.add. cbn [vx vy vz]. f_equal; lra.
    + intros st' ->. apply IH. now apply Idle_counted.
Qed.

Lemma cluster_steady (st : Placement) :
  Idle st ->
  returnsAt Examples.steadyEntropy (cluster None count st) Idle.
Proof.
  intros Hidle. unfold cluster.
  do 3 (eapply returnsAt_bind; [apply Math_random_steady |]; intros ? ->).
  destruct (negb _); [now apply returnsAt_ret |].
  eapply returnsAt_bind; [apply Math_random_steady |].
  intros r _. apply clusterMembers_steady; [| exact Hidle].
  rewrite safeCenter_default. cbn [vx vy vz]. f_equal; lra.
Qed.

Lemma clusterLoop_steady (iterations : nat) (st : Placement) :
  Idle st ->
  returnsAt Examples.steadyEntropy (clusterLoop None count iterations st)
    Idle.
Proof.
  revert st. induction iterations as [| k IH]; intros st Hidle;
    cbn [clusterLoop].
  - now apply returnsAt_ret.
  - destruct (mayPlace count st); [| now apply returnsAt_ret].
    eapply returnsAt_bind; [now apply cluster_steady |].
    intros st' Hidle'. now apply IH.
Qed.

Lemma fillLoop_steady (fuel : nat) (st : Placement) :
  Idle st ->
  returnsAt Examples.steadyEntropy (fillLoop None count fuel st)
    (fun r => match r with Some st' => Idle st' | None => True end).
Proof.
  revert st. induction fuel as [| fuel IH]; intros st Hidle;
    cbn [fillLoop].
  - destruct (mayPlace count st); now apply returnsAt_ret.
  - destruct (mayPlace count st); [| now apply returnsAt_ret].
    do 3 (eapply returnsAt_bind; [apply Math_random_steady |]; intros ? ->).
    eapply returnsAt_bind.
    + apply placeNeuronAt_steady.
      rewrite safeCenter_default. cbn [vx vy vz]. f_equal; lra.
    + intros st' ->. apply IH. now apply Idle_counted.
Qed.

(** On the steady source and the default box every attempt is rejected:
    the network has no neuron and no synapse, and the attempts are
    [10 * count]. *)
Lemma createNeuronNetwork_places_none (connectionProbability : R) :
  (0 < count)%nat ->
  exists net : Network,
    fst (createNeuronNetwork (count * 10) None count connectionProbability
           Examples.steadyEntropy) = Some net
    /\ neurons net = []
    /\ connections net = []
    /\ attempts net = (count * 10)%nat.
Proof.
  intros Hcount.
  pose proof (createNeuronNetwork_post (count * 10) None count
                connectionProbability ltac:(lia) Examples.steadyEntropy)
    as (net & Hnet & _ & _ & Hcap & _).
  exists net. split; [exact Hnet |].
  assert (neurons net = []) as Hnone.
  { revert Hnet. unfold createNeuronNetwork, placeNeurons.
    assert (returnsAt Examples.steadyEntropy
              (st <- clusterLoop None count (clusters count)
                       (mkPlacement [] 0 0) ;;
               fillLoop None count (count * 10) st)
              (fun r => match r with Some st' => Idle st' | None => True end))
      as [Hkeep Hidle].
    { eapply returnsAt_bind.
      - apply clusterLoop_steady. now split.
      - intros st Hidle. now apply fillLoop_steady. }
    rewrite (bind_keeps _ _ _ Hkeep).
    destruct (fst _) as [st |]; [| discriminate].
    destruct Hidle as [Hplaced _].
    unfold bind. destruct (connectNeurons _ _ _ _) as [cs e'].
    cbn. intros [= <-]. exact Hplaced. }
  split; [exact Hnone |]. split.
  - revert Hnet Hnone. unfold createNeuronNetwork. unfold bind at 1.
    destruct (placeNeurons None count (count * 10) Examples.steadyEntropy)
      as [[st |] e1]; [| discriminate].
    unfold bind.
    destruct (connectNeurons (placed st) _ _ e1) as [cs e2] eqn:Hcs.
    cbn. intros [= <-]. cbn [neurons connections]. intros Hplaced.
    rewrite Hplaced in Hcs. cbn in Hcs. now injection Hcs as <- _.
  - apply Hcap. rewrite Hnone. exact Hcount.
Qed.

End Loops.

End UnderDelivery.

(** On the default box, with 50 neurons requested and every draw 0.5 and
    every direction along y, the network comes back empty after 500
    attempts. *)
Lemma createNeuronNetwork_under_delivers :
  exists net : Neuron.Network,
    fst (Neuron.createNeuronNetwork 500 None 50 1 Examples.steadyEntropy)
    = Some net
    /\ Neuron.neurons net = []
    /\ Neuron.connections net = []
    /\ Neuron.attempts net = 500%nat.
Proof. apply (createNeuronNetwork_places_none 50 1). lia. Qed.

(** ** The transit when there is a synapse and a target *)

Section TransitFacts.

Import Signal.
Local Open Scope R_scope.

Variable getPoint : list Vector3 -> R -> Vector3.

Lemma Object3D_remove_length (parent : SceneId) (id : PulseId) (h : Heap) :
  List.length (pulses (Object3D_remove parent id h))
  = List.length (pulses h).
Proof.
  unfold Object3D_remove.
  destruct (existsb _ _); [| reflexivity]. cbn [pulses].
  destruct (pulses h !! id); [apply length_insert | reflexivity].
Qed.

Lemma Object3D_add_length (parent : SceneId) (id : PulseId) (h : Heap) :
  List.length (pulses (Object3D_add parent id h)) = List.length (pulses h).
Proof.
  unfold Object3D_add. cbn [pulses].
  set (h' := match pulses h !! id with
             | Some p =>
                 match pulseParent p with
                 | Some old => Object3D_remove old id h
                 | None => h
                 end
             | None => h
             end).
  assert (List.length (pulses h') = List.length (pulses h)) as <-.
  { subst h'. destruct (pulses h !! id) as [p |]; [| reflexivity].
    destruct (pulseParent p); [apply Object3D_remove_length | reflexivity]. }
  destruct (pulses h' !! id); [apply length_insert | reflexivity].
Qed.

Lemma animate_length (id : PulseId) (parent : SceneId) (w : World) :
  List.length (pulses (heap (animate getPoint id parent w)))
  = List.length (pulses (heap w)).
Proof.
  unfold animate. destruct (pulses (heap w) !! id) as [p |]; [| reflexivity].
  destruct (progressBelowOne _ _).
  - cbn. apply length_insert.
  - destruct (pulses (Object3D_remove parent id (heap w)) !! id);
      cbn; rewrite ?length_insert; apply Object3D_remove_length.
Qed.

(** [createSignalPulse] with a curve and a parent allocates one pulse,
    whose identity it returns, and leaves [completed], [signals] and the
    timers alone. *)
Lemma createSignalPulse_allocates (curve : list Vector3) (parent : SceneId)
    (duration : R) (color : Z) (size : R) (w : World) :
  let r := createSignalPulse getPoint (Some curve) (Some parent) duration
             color size w in
  snd r = Some (List.length (pulses (heap w)))
  /\ List.length (pulses (heap (fst r))) = S (List.length (pulses (heap w)))
  /\ completed (fst r) = completed w
  /\ signals (fst r) = signals w
  /\ timers (fst r) = timers w.
Proof.
  cbn [createSignalPulse fst snd]. split; [reflexivity |].
  split.
  - rewrite animate_length. cbn [set_heap heap].
    match goal with
    | |- List.length (pulses (match ?x with Some _ => _ | None => _ end)) = _ =>
        destruct x
    end; cbn [set_pulse pulses]; rewrite ?length_insert;
      rewrite Object3D_add_length; cbn [pulses];
      rewrite length_app; cbn; lia.
  - unfold animate. cbn [set_heap heap completed signals timers].
    destruct (pulses _ !! _); [| now repeat split].
    destruct (progressBelowOne _ _); [now repeat split |].
    destruct (pulses _ !! _); now repeat split.
Qed.

(** The pulse [createSignalPulse] creates for a positive duration: it
    follows the given curve for the given duration from the time of the
    call, is a child of the parent, and its first frame has run. *)
Lemma createSignalPulse_pulse (curve : list Vector3) (parent : SceneId)
    (duration : R) (color : Z) (size : R) (w : World) :
  0 < duration ->
  let r := createSignalPulse getPoint (Some curve) (Some parent) duration
             color size w in
  let id : PulseId := List.length (pulses (heap w)) in
  exists p : Pulse,
    pulses (heap (fst r)) !! id = Some p
    /\ pulseCurve p = curve
    /\ pulseDuration p = duration
    /\ startTime p = clock w
    /\ pulseParent p = Some parent
    /\ geometryDisposed p = false
    /\ materialDisposed p = false
    /\ frames (fst r) = frames w ++ [Animate id parent]
    /\ clock (fst r) = clock w.
Proof.
  intros Hduration r id. subst r. cbn [createSignalPulse fst].
  change (List.length (pulses (heap w))) with id.
  set (p0 := mkPulse curve duration (clock w) color size (mkVector3 0 0 0)
               (mkVector3 1 1 1) 1 None false false).
  set (h1 := mkHeap (somas (heap w)) (children (heap w))
               (pulses (heap w) ++ [p0])).
  assert (pulses h1 !! id = Some p0) as Hp0
    by (subst h1 id; cbn [pulses]; now apply list_lookup_middle).
  assert (id < List.length (pulses h1))%nat as Hid
    by now apply lookup_lt_Some in Hp0.
  assert (pulses (Object3D_add parent id h1) !! id
          = Some (mkPulse curve duration (clock w) color size
                    (mkVector3 0 0 0) (mkVector3 1 1 1) 1 (Some parent)
                    false false)) as Hadd.
  { unfold Object3D_add. rewrite Hp0. cbn [pulseParent p0]. rewrite Hp0.
    cbn [pulses]. now apply list_lookup_insert_eq. }
  rewrite Hadd.
  cbn [pulseCurve pulseDuration startTime pulseColor pulseSize pulseScale
       pulseOpacity pulseParent geometryDisposed materialDisposed].
  set (p3 := mkPulse curve duration (clock w) color size (getPoint curve 0)
               (mkVector3 1 1 1) 1 (Some parent) false false).
  set (h3 := set_pulse id p3 (Object3D_add parent id h1)).
  assert (pulses (heap (set_heap h3 w)) !! id = Some p3) as Hp3.
  { subst h3. cbn [set_heap heap set_pulse pulses].
    apply list_lookup_insert_eq. now rewrite Object3D_add_length. }
  assert (progressBelowOne (clock (set_heap h3 w) - startTime p3)
            (pulseDuration p3) = true) as Hunder.
  { apply progressBelowOne_true; [exact Hduration |].
    subst p3. cbn [set_heap clock startTime pulseDuration]. lra. }
  destruct (animate_under_way getPoint id parent (set_heap h3 w) p3 Hp3
              Hunder) as (Hq & _ & Hframes).
  eexists. split; [exact Hq |].
  subst p3. cbn [pulseCurve pulseDuration startTime pulseParent
                 geometryDisposed materialDisposed].
  rewrite Hframes. unfold animate. rewrite Hp3, Hunder.
  now repeat split.
Qed.

(** The transit with a synapse that has points, and a target: one pulse
    is created and pushed on [signals], and the target flash is scheduled
    300 ms later; [completed] is left for that flash to set. *)
Lemma transit_with_synapse (syn : SynapseObj) (geom : Geometry)
    (points : list Vector3) (target : NeuronObj) (scene : SceneId)
    (w : World) :
  geometry syn = Some geom ->
  positionAttribute geom = Some points ->
  points <> [] ->
  let w' := transit getPoint (Some syn) (Some target) scene w in
  let id := List.length (pulses (heap w)) in
  completed w' = completed w
  /\ signals w' = signals w ++ [id]
  /\ List.length (pulses (heap w')) = S (List.length (pulses (heap w)))
  /\ timers w' = timers w ++ [(clock w + 300, AfterTransit (Some target))]
  /\ frames w' = frames w ++ [Animate id scene].
Proof.
  intros Hgeom Hpoints Hne. cbn [transit]. rewrite Hgeom, Hpoints.
  destruct points as [| pt points]; [congruence |].
  cbn [List.length Nat.ltb Nat.leb].
  pose proof (createSignalPulse_allocates (pt :: points) scene 300 0x00ff00
                0.012 w) as (Hid & Hlen & Hc & Hs & Ht).
  pose proof (createSignalPulse_pulse (pt :: points) scene 300 0x00ff00
                0.012 w ltac:(lra))
    as (p & _ & _ & _ & _ & _ & _ & _ & Hframes & Hclock).
  destruct (createSignalPulse getPoint (Some (pt :: points)) (Some scene)
              300 0x00ff00 0.012 w) as [w1 pulse].
  cbn [fst snd] in *. subst pulse.
  cbn [setTimeout push_signal set_heap completed signals timers heap
       frames clock].
  rewrite Object3D_add_length, Hc, Hs, Ht, Hlen, Hframes, Hclock.
  now repeat split.
Qed.

End TransitFacts.

Lemma maxDistance_default : Neuron.maxDistance None = 0.8%R.
Proof.
  unfold Neuron.maxDistance, Neuron.min3. rewrite size_default.
  cbn [vx vy vz].
  replace (Rmin 2 2) with 2%R by (rewrite Rmin_left; lra).
  rewrite Rmin_left; lra.
Qed.

Lemma createNeuronNetwork_synapses_within_maxDistance_witness :
  is_Some (fst (Neuron.connectPair (Neuron.maxDistance None) 1 0 1
                  Examples.sender Examples.receiver Examples.lowEntropy)).
Proof.
  apply (proj2 (proj2 (createNeuronNetwork_synapses_within_maxDistance
                         0 None 0 1 Examples.lowEntropy))
           0%nat 1%nat Examples.sender Examples.receiver Examples.centre
           Examples.lowEntropy eq_refl).
  rewrite maxDistance_default.
  cbn [Examples.receiver Neuron.position Examples.centre].
  rewrite distanceTo_along_x by lra.
  split; [| lra].
  cbn [Examples.lowEntropy NeuronLogic.constantEntropy Neuron.uniform].
  rewrite calculateConnectionProbability_unfold.
  match goal with
  | |- context [exp ?x] => pose proof (exp_pos x) as Hexp
  end.
  unfold Rltb.
  destruct (Rlt_dec 0.3 (0.8 * 0.2)), (Rlt_dec (0.8 * 0.5) 0.3);
    try lra; nra.
Defined.

(* ================================================================== *)
(** * Part III: further properties of the code                         *)
(* ================================================================== *)

(** ** Transparency: the exact effect of a call *)

Section TransparencyEffect.

Import Reach Transparency Toggles.
Local Open Scope R_scope.

Lemma iter_transparencyOfMaterial_any (t : bool) (o : R) (n : nat)
    (m : Material) :
  Nat.iter n (transparencyOfMaterial t o) m
  = match n with
    | O => m
    | S _ =>
        mkMaterial (mtype m) (color m) (metalness m) (roughness m)
          (emissive m) (emissiveIntensity m) (wireframe m) (visible m)
          t (if t then o else 1) (if t then Rltb o 1 else true)
          (n + version m)
    end.
Proof. destruct n; [reflexivity | apply iter_transparencyOfMaterial]. Qed.

(** X1. What a call of [applyTransparency] leaves in the store, for
    every material identity: a material no mesh of the model holds is
    untouched; a material that [n > 0] mesh slots hold has [transparent],
    [opacity] and [depthWrite] set from the arguments alone
    ([depthWrite] is [opacity < 1] when enabling, with 0.5 for an omitted
    opacity), every other attribute kept, and its update counter advanced
    by [n]; no material is created. *)
Theorem applyTransparency_effect (model : Object3D) (t : bool)
    (o : option R) (store : gmap MatId Material) (id : MatId) :
  let n := count_occ Pos.eq_dec (materialsReached model) id in
  let opacity := match o with Some x => x | None => 0.5 end in
  applyTransparency (Some model) t o store !! id
  = (fun m : Material =>
       match n with
       | O => m
       | S _ =>
           mkMaterial (mtype m) (color m) (metalness m) (roughness m)
             (emissive m) (emissiveIntensity m) (wireframe m) (visible m)
             t (if t then opacity else 1)
             (if t then Rltb opacity 1 else true)
             (n + version m)
       end) <$> store !! id.
Proof.
  intros n opacity.
  rewrite applyTransparency_visitAll, visitAll_alter. fold n.
  assert (default 0.5 o = opacity) as -> by now destruct o.
  destruct (store !! id) as [m |]; [| reflexivity].
  cbn [fmap option_fmap option_map]. f_equal.
  apply iter_transparencyOfMaterial_any.
Qed.

(** X2. Calls of [applyTransparency] on the same model do not build on
    one another: after two calls the store is, update counters aside, the
    store of the second call alone. In particular a repeated call changes
    nothing but the counters. *)
Theorem applyTransparency_last_call_wins (model : Object3D)
    (t1 t2 : bool) (o1 o2 : option R) (store : gmap MatId Material)
    (id : MatId) :
  forgetVersion
    <$> applyTransparency (Some model) t2 o2
          (applyTransparency (Some model) t1 o1 store) !! id
  = forgetVersion <$> applyTransparency (Some model) t2 o2 store !! id.
Proof.
  rewrite !applyTransparency_visitAll, !visitAll_alter.
  destruct (store !! id) as [m |]; [| reflexivity].
  cbn [fmap option_fmap option_map]. f_equal.
  rewrite !iter_transparencyOfMaterial_any.
  destruct (count_occ Pos.eq_dec (materialsReached model) id);
    reflexivity.
Qed.

End TransparencyEffect.

(** ** Wireframe: what the snapshots cover and what they do not *)

Section WireframeSnapshots.

Import Reach Wireframe WireframeView Toggles.
Local Open Scope R_scope.

Lemma iter_invariant {A : Type} (P : A -> Prop) (f : A -> A) (n : nat)
    (a : A) :
  (forall x, P x -> P (f x)) -> P a -> P (Nat.iter n f a).
Proof.
  intros Hf Ha. induction n as [| n IH]; [exact Ha |].
  change (P (f (Nat.iter n f a))). now apply Hf.
Qed.

Lemma wireframeLook_flags (m : Material) :
  wireframe (wireframeLook m) = true
  /\ visible (wireframeLook m) = true
  /\ transparent (wireframeLook m) = false
  /\ opacity (wireframeLook m) = 1
  /\ depthWrite (wireframeLook m) = depthWrite m
  /\ mtype (wireframeLook m) = mtype m.
Proof.
  unfold wireframeLook.
  destruct m as [ty c [me |] [ro |] [em |] ei wf vi tr op dw ve];
    cbn; destruct (isLit _); cbn; repeat split.
Qed.

Lemma restoreProps_flags (props : Props) (m : Material) :
  wireframe (restoreProps props m) = wireframe m
  /\ visible (restoreProps props m) = visible m
  /\ transparent (restoreProps props m) = transparent m
  /\ opacity (restoreProps props m) = opacity m
  /\ depthWrite (restoreProps props m) = depthWrite m
  /\ mtype (restoreProps props m) = mtype m
  /\ version (restoreProps props m) = version m.
Proof.
  unfold restoreProps.
  destruct props as [[pm |] [pr |] [pe |] pi];
    destruct m as [ty c [me |] [ro |] [em |] ei wf vi tr op dw ve];
    cbn; repeat split.
Qed.

Lemma visitView_enable_flat (id : MatId) (m : Material) (v : View) :
  v_material v = Some m ->
  Flat (depthWrite m) (mtype m) (visitView true id v).
Proof.
  intros Hm. unfold visitView. rewrite Hm.
  destruct (wireframeLook_flags m) as (_ & Hv & Ht & Ho & Hd & Hty).
  destruct (v_self v); eexists; (split; [reflexivity |]); cbn;
    repeat split; assumption.
Qed.

Lemma visitView_flat (wf : bool) (id : MatId) (dw : bool) (ty : string)
    (v : View) :
  Flat dw ty v -> Flat dw ty (visitView wf id v).
Proof.
  intros (m & Hm & Hv & Ht & Ho & Hd & Hty).
  destruct wf.
  - pose proof (visitView_enable_flat id m v Hm) as H.
    now rewrite Hd, Hty in H.
  - unfold visitView. rewrite Hm.
    eexists. split; [reflexivity |].
    destruct (v_color v), (v_props v); cbn;
      rewrite ?(proj1 (proj2 (restoreProps_flags _ _))),
        ?(proj1 (proj2 (proj2 (restoreProps_flags _ _)))),
        ?(proj1 (proj2 (proj2 (proj2 (restoreProps_flags _ _))))),
        ?(proj1 (proj2 (proj2 (proj2 (proj2 (restoreProps_flags _ _)))))),
        ?(proj1 (proj2 (proj2 (proj2 (proj2 (proj2
             (restoreProps_flags _ _)))))));
      cbn; repeat split; assumption.
Qed.

Lemma visitView_disable_wireframe (id : MatId) (v : View) :
  is_Some (v_material v) ->
  exists m : Material,
    v_material (visitView false id v) = Some m /\ wireframe m = false.
Proof.
  intros [m Hm]. unfold visitView. rewrite Hm.
  eexists. split; [reflexivity |].
  destruct (v_color v), (v_props v); cbn;
    rewrite ?(proj1 (restoreProps_flags _ _)); reflexivity.
Qed.

Lemma visitView_is_Some (wf : bool) (id : MatId) (v : View) :
  is_Some (v_material v) -> is_Some (v_material (visitView wf id v)).
Proof.
  intros [m Hm]. unfold visitView. rewrite Hm.
  destruct wf; [destruct (v_self v) |]; eexists; reflexivity.
Qed.

(** X3. The wireframe round trip takes no snapshot of [transparent],
    [opacity] or [visible]: whatever a material held by the model looked
    like, after enabling and disabling wireframe it is opaque
    ([transparent = false], [opacity = 1]) and visible, with wireframe
    off; [depthWrite] is as before. A material that [applyTransparency]
    had made translucent comes back opaque, with the [depthWrite] of a
    translucent one. *)
Theorem applyWireframe_round_trip_opaque (model : Object3D) (st : State)
    (id : MatId) (m : Material) :
  In id (materialsReached model) ->
  materials st !! id = Some m ->
  exists m' : Material,
    materials (applyWireframe (Some model) false
                 (applyWireframe (Some model) true st)) !! id = Some m'
    /\ wireframe m' = false
    /\ visible m' = true
    /\ transparent m' = false
    /\ opacity m' = 1
    /\ depthWrite m' = depthWrite m
    /\ mtype m' = mtype m.
Proof.
  intros Hin Hm.
  pose proof (viewOf_applyWireframe model false id
                (applyWireframe (Some model) true st)) as Hoff.
  rewrite (viewOf_applyWireframe model true id st) in Hoff.
  apply (count_occ_In Pos.eq_dec) in Hin.
  destruct (count_occ Pos.eq_dec (materialsReached model) id) as [| n];
    [lia |].
  set (v1 := Nat.iter (S n) (visitView true id) (viewOf id st)) in Hoff.
  assert (Flat (depthWrite m) (mtype m) v1) as Hflat1.
  { subst v1.
    change (Nat.iter (S n) (visitView true id) (viewOf id st))
      with (visitView true id (Nat.iter n (visitView true id) (viewOf id st))).
    rewrite <- iter_shift. apply iter_invariant.
    - intros x. apply visitView_flat.
    - now apply visitView_enable_flat. }
  change (Nat.iter (S n) (visitView false id) v1)
    with (visitView false id (Nat.iter n (visitView false id) v1)) in Hoff.
  set (v2 := Nat.iter n (visitView false id) v1) in Hoff.
  assert (Flat (depthWrite m) (mtype m) v2) as Hflat2.
  { subst v2. apply iter_invariant; [| exact Hflat1].
    intros x. apply visitView_flat. }
  destruct (visitView_flat false id _ _ v2 Hflat2)
    as (m' & Hm' & Hv & Ht & Ho & Hd & Hty).
  destruct (visitView_disable_wireframe id v2) as (m'' & Hm'' & Hwf).
  { destruct Hflat2 as (x & Hx & _). now exists x. }
  rewrite Hm' in Hm''. injection Hm'' as <-.
  exists m'. rewrite <- Hoff in Hm'. unfold viewOf in Hm'.
  cbn [v_material] in Hm'. repeat split; assumption.
Qed.

Lemma applyWireframe_round_trip_opaque_witness :
  exists m' : Material,
    materials (applyWireframe (Some Examples.oneMesh) false
                 (applyWireframe (Some Examples.oneMesh) true
                    Examples.freshWireframe)) !! 1%positive = Some m'
    /\ opacity m' = 1
    /\ depthWrite m' = false.
Proof.
  destruct (applyWireframe_round_trip_opaque Examples.oneMesh
              Examples.freshWireframe 1%positive Examples.tintedGlass)
    as (m' & Hm' & _ & _ & _ & Ho & Hd & _).
  - cbn. left. reflexivity.
  - reflexivity.
  - exists m'. repeat split; assumption.
Defined.

Lemma visitView_in_step (wf : bool) (id : MatId) (v : View) :
  InStep id v -> InStep id (visitView wf id v).
Proof.
  intros (Hc & Hp & Hself & Hwf). unfold visitView.
  destruct (v_material v) as [m |] eqn:Hm;
    [| unfold InStep; rewrite Hm; repeat split; tauto].
  destruct wf.
  - destruct (v_self v) as [x |] eqn:Hx.
    + unfold InStep; cbn [v_color v_self v_props v_material].
      rewrite ?Hx. repeat split; try tauto.
      intros _. eexists. split; [reflexivity |].
      apply wireframeLook_flags.
    + unfold InStep; cbn [v_color v_self v_props v_material].
      repeat split; try (intros; eexists; reflexivity).
      * intros x Hx'. congruence.
      * intros _. eexists. split; [reflexivity |].
        apply wireframeLook_flags.
  - unfold InStep; cbn [v_color v_self v_props v_material].
    split; [split; intros [x Hx]; discriminate |].
    split; [split; intros [x Hx]; discriminate |]. split.
    + intros x Hx. discriminate.
    + intros [x Hx]. discriminate.
Qed.

Lemma applyWireframe_in_step (model : option Object3D) (wf : bool)
    (id : MatId) (st : State) :
  InStep id (viewOf id st) ->
  InStep id (viewOf id (applyWireframe model wf st)).
Proof.
  intros Hin. destruct model as [root |]; [| exact Hin].
  rewrite viewOf_applyWireframe. apply iter_invariant; [| exact Hin].
  intros x. apply visitView_in_step.
Qed.

(** X4. The three snapshot maps of the wireframe module stay in step.
    After any sequence of calls of [applyWireframe] (any models, any
    flags) from the freshly loaded module, for every material: it has an
    entry in [originalColors] exactly when it has one in
    [originalMaterials], and likewise for [originalProperties]; the entry
    in [originalMaterials] is the material itself; and a material with a
    snapshot exists in the store and shows wireframe. So the one test the
    code makes, [originalMaterials.has], speaks for all three maps. *)
Theorem applyWireframe_maps_in_step
    (calls : list (option Object3D * bool))
    (materials0 : gmap MatId Material) (id : MatId) :
  let st := applyWireframes calls (loaded materials0) in
  (is_Some (originalColors st !! id)
   <-> is_Some (originalMaterials st !! id))
  /\ (is_Some (originalProperties st !! id)
      <-> is_Some (originalMaterials st !! id))
  /\ (forall x : MatId, originalMaterials st !! id = Some x -> x = id)
  /\ (is_Some (originalMaterials st !! id) ->
      exists m : Material,
        materials st !! id = Some m /\ wireframe m = true).
Proof.
  intros st.
  assert (InStep id (viewOf id st)) as H; [| exact H].
  subst st. unfold applyWireframes.
  assert (InStep id (viewOf id (loaded materials0))) as H0.
  { unfold InStep, viewOf, loaded.
    cbn [v_color v_self v_props v_material originalColors
         originalMaterials originalProperties materials].
    rewrite !lookup_empty.
    split; [split; intros [x Hx]; discriminate |].
    split; [split; intros [x Hx]; discriminate |]. split.
    - intros x Hx. discriminate.
    - intros [x Hx]. discriminate. }
  generalize dependent (loaded materials0).
  induction calls as [| [model wf] calls IH]; intros st H0; [exact H0 |].
  cbn [fold_left fst snd]. apply IH. now apply applyWireframe_in_step.
Qed.

(** X5. Disabling wireframe for a material that has no snapshot (it was
    never put in wireframe, or wireframe was disabled already) restores
    nothing: the call clears the [wireframe] flag, advances the update
    counter, and leaves every other attribute as it is. *)
Theorem removeWireframe_without_snapshot (model : Object3D) (st : State)
    (id : MatId) (m : Material) :
  In id (materialsReached model) ->
  materials st !! id = Some m ->
  originalColors st !! id = None ->
  originalProperties st !! id = None ->
  exists n : nat,
    materials (removeWireframe (Some model) st) !! id
    = Some (mkMaterial (mtype m) (color m) (metalness m) (roughness m)
              (emissive m) (emissiveIntensity m) false (visible m)
              (transparent m) (opacity m) (depthWrite m)
              (S n + version m)).
Proof.
  intros Hin Hm Hc Hp. unfold removeWireframe.
  pose proof (viewOf_applyWireframe model false id st) as Hview.
  apply (count_occ_In Pos.eq_dec) in Hin.
  destruct (count_occ Pos.eq_dec (materialsReached model) id) as [| n];
    [lia |].
  exists n.
  assert (forall k : nat,
            Nat.iter (S k) (visitView false id) (viewOf id st)
            = mkView
                (Some (mkMaterial (mtype m) (color m) (metalness m)
                         (roughness m) (emissive m) (emissiveIntensity m)
                         false (visible m) (transparent m) (opacity m)
                         (depthWrite m) (S k + version m)))
                None None None
                (count_occ Pos.eq_dec (snapshotLog st) id)) as Hiter.
  { induction k as [| k IH].
    - cbn [Nat.iter nat_rect]. unfold visitView, viewOf.
      cbn [v_material v_color v_props v_logged]. rewrite Hm, Hc, Hp.
      reflexivity.
    - change (Nat.iter (S (S k)) (visitView false id) (viewOf id st))
        with (visitView false id
                (Nat.iter (S k) (visitView false id) (viewOf id st))).
      rewrite IH. reflexivity. }
  rewrite Hiter in Hview.
  apply (f_equal v_material) in Hview. exact Hview.
Qed.

Lemma removeWireframe_without_snapshot_witness :
  exists n : nat,
    materials (removeWireframe (Some Examples.oneMesh)
                 Examples.freshWireframe) !! 1%positive
    = Some (mkMaterial "MeshStandardMaterial" (Hex 0x88ccff) (Some 0.1)
              (Some 0.2) (Some (Hex 0x000000)) (Some 1) false true true
              0.7 false (S n + 0)).
Proof.
  apply (removeWireframe_without_snapshot Examples.oneMesh
           Examples.freshWireframe 1%positive Examples.tintedGlass).
  - cbn. left. reflexivity.
  - reflexivity.
  - reflexivity.
  - reflexivity.
Defined.

End WireframeSnapshots.

(** ** Clipping planes on a model *)

Section ClippingFacts.

Import Reach CrossSection Clipping.
Local Open Scope R_scope.

Lemma assignAll_thrown (f : Clipped -> Clipped)
    (slots : list (option MatId)) (store : gmap MatId Clipped)
    (e : Thrown) :
  assignAll f slots (store, Some e) = (store, Some e).
Proof.
  unfold assignAll. induction slots as [| slot slots IH]; [reflexivity |].
  cbn [fold_left]. exact IH.
Qed.

Lemma assignAll_app (f : Clipped -> Clipped)
    (slots slots' : list (option MatId)) (o : Outcome) :
  assignAll f (slots ++ slots') o = assignAll f slots' (assignAll f slots o).
Proof. unfold assignAll. apply fold_left_app. Qed.

(** The callback of the traversal, on any outcome so far. *)
Lemma callback_assignAll (f : Clipped -> Clipped) (child : Object3D)
    (o : Outcome) :
  unlessThrown (fun store =>
    match mesh_of child with
    | None => (store, None)
    | Some (OneMaterial material) => assign f material store
    | Some (ManyMaterials materials) =>
        forEach materials (fun mat o => unlessThrown (assign f mat) o)
          (store, None)
    end) o
  = assignAll f (match mesh_of child with
                 | Some slot => materials_of slot
                 | None => []
                 end) o.
Proof.
  destruct o as [store [e |]].
  - rewrite assignAll_thrown. reflexivity.
  - unfold unlessThrown. cbn [fst snd].
    destruct (mesh_of child) as [[material | materials] |]; reflexivity.
Qed.

Lemma traverse_assignAll (f : Clipped -> Clipped) (root : Object3D)
    (o : Outcome) :
  traverse (fun child o =>
    unlessThrown (fun store =>
      match mesh_of child with
      | None => (store, None)
      | Some (OneMaterial material) => assign f material store
      | Some (ManyMaterials materials) =>
          forEach materials (fun mat o => unlessThrown (assign f mat) o)
            (store, None)
      end) o) root o
  = assignAll f (slotsReached root) o.
Proof.
  revert o. induction root as [mesh cs IH] using Object3D_rect_children.
  intros o. cbn [traverse slotsReached].
  rewrite assignAll_app, callback_assignAll. cbn [mesh_of].
  generalize (assignAll f match mesh with
                          | Some slot => materials_of slot
                          | None => []
                          end o).
  clear o. induction IH as [| c cs Hc _ IHcs]; intros o.
  - reflexivity.
  - rewrite assignAll_app, <- Hc. apply IHcs.
Qed.

Lemma assignAll_outcome (f : Clipped -> Clipped)
    (slots : list (option MatId)) (store : gmap MatId Clipped) :
  assignAll f slots (store, None)
  = (visitAll (fun id => alter f id) (untilNull slots) store,
     if hasNull slots then Some TypeError_set_property_of_null else None).
Proof.
  revert store. induction slots as [| [id |] slots IH]; intros store.
  - reflexivity.
  - change (assignAll f (Some id :: slots) (store, None))
      with (assignAll f slots (alter f id store, None)).
    rewrite IH. reflexivity.
  - change (assignAll f (None :: slots) (store, None))
      with (assignAll f slots (store, Some TypeError_set_property_of_null)).
    apply assignAll_thrown.
Qed.

Lemma onMeshes_outcome (f : Clipped -> Clipped) (root : Object3D)
    (store : gmap MatId Clipped) :
  onMeshes f root store
  = (visitAll (fun id => alter f id) (untilNull (slotsReached root)) store,
     if hasNull (slotsReached root)
     then Some TypeError_set_property_of_null else None).
Proof.
  unfold onMeshes. rewrite traverse_assignAll. apply assignAll_outcome.
Qed.

Lemma hasNull_true (slots : list (option MatId)) :
  hasNull slots = true <-> In None slots.
Proof.
  unfold hasNull. rewrite existsb_exists. split.
  - intros [[id |] [Hin Hnull]]; [discriminate | exact Hin].
  - intros Hin. exists None. now split.
Qed.

(** X6. [applySectionToModel] does not test a material before writing
    to it: the call throws a [TypeError] exactly when some mesh of the
    model holds a [null] material (alone or in its array). What the call
    leaves is then half done: the materials met before the first [null]
    carry the plane, those of later meshes do not. Without a [null] every
    material of every mesh is assigned, once for each slot holding it. *)
Theorem applySectionToModel_null_material (model : Object3D)
    (plane : Plane) (store : gmap MatId Clipped) :
  let slots := slotsReached model in
  let outcome := applySectionToModel (Some model) plane store in
  (snd outcome = Some TypeError_set_property_of_null <-> In None slots)
  /\ (snd outcome = None <-> ~ In None slots)
  /\ fst outcome
     = visitAll (fun id => alter (withPlane plane) id) (untilNull slots)
         store.
Proof.
  intros slots outcome. subst outcome slots.
  unfold applySectionToModel. rewrite onMeshes_outcome. cbn [fst snd].
  rewrite <- hasNull_true.
  destruct (hasNull (slotsReached model)); repeat split;
    try reflexivity; try discriminate; intros; congruence.
Qed.

Lemma visitAll_alter_any {A : Type} (f : A -> A) (ids : list MatId)
    (store : gmap MatId A) (i : MatId) :
  visitAll (fun id => alter f id) ids store !! i
  = Nat.iter (count_occ Pos.eq_dec ids i) f <$> store !! i.
Proof.
  unfold visitAll.
  revert store. induction ids as [| j ids IH]; intros store.
  - cbn. now destruct (store !! i).
  - cbn [fold_left]. rewrite IH. cbn [count_occ].
    destruct (Pos.eq_dec j i) as [-> | Hne].
    + rewrite lookup_alter_eq. destruct (store !! i) as [m |]; cbn.
      * now rewrite iter_shift.
      * reflexivity.
    + now rewrite lookup_alter_ne.
Qed.

Lemma untilNull_no_null (slots : list (option MatId)) (id : MatId) :
  hasNull slots = false -> In (Some id) slots -> In id (untilNull slots).
Proof.
  induction slots as [| [x |] slots IH]; cbn; intros Hnull Hin.
  - contradiction.
  - destruct Hin as [Heq | Hin]; [left; congruence | right; now apply IH].
  - discriminate.
Qed.

Lemma iter_withPlane (plane : Plane) (n : nat) (c : Clipped) :
  Nat.iter (S n) (withPlane plane) c
  = mkClipped (updated (S n) (base c)) (Some [plane]) true.
Proof.
  induction n as [| n IH]; [reflexivity |].
  change (Nat.iter (S (S n)) (withPlane plane) c)
    with (withPlane plane (Nat.iter (S n) (withPlane plane) c)).
  rewrite IH. reflexivity.
Qed.

Lemma iter_withoutPlanes (n : nat) (c : Clipped) :
  Nat.iter (S n) withoutPlanes c
  = mkClipped (updated (S n) (base c)) (Some []) (clipShadows c).
Proof.
  induction n as [| n IH]; [reflexivity |].
  change (Nat.iter (S (S n)) withoutPlanes c)
    with (withoutPlanes (Nat.iter (S n) withoutPlanes c)).
  rewrite IH. reflexivity.
Qed.

(** What either traversal leaves for a material some mesh holds, when no
    mesh holds a [null]. *)
Lemma onMeshes_reached (f : Clipped -> Clipped) (model : Object3D)
    (store : gmap MatId Clipped) (id : MatId) (c : Clipped) :
  ~ In None (slotsReached model) ->
  In (Some id) (slotsReached model) ->
  store !! id = Some c ->
  snd (onMeshes f model store) = None
  /\ exists n : nat,
       fst (onMeshes f model store) !! id = Some (Nat.iter (S n) f c).
Proof.
  intros Hnull Hin Hc. rewrite onMeshes_outcome. cbn [fst snd].
  destruct (hasNull (slotsReached model)) eqn:Hhas;
    [apply hasNull_true in Hhas; contradiction |].
  split; [reflexivity |].
  rewrite visitAll_alter_any, Hc.
  pose proof (untilNull_no_null _ id Hhas Hin) as Hin'.
  apply (count_occ_In Pos.eq_dec) in Hin'.
  destruct (count_occ Pos.eq_dec (untilNull (slotsReached model)) id)
    as [| n]; [lia |].
  exists n. reflexivity.
Qed.

(** X7. Clipping planes do not pile up. Whatever planes a material
    carried before (none, or those of earlier updates), after
    [updateCrossSection] every material held by a mesh of the model
    carries exactly one plane, the one [createSectionPlane] makes for the
    store's type and position, whose constant is [(position - 0.5) * 2];
    [clipShadows] is on; of the other attributes only the update counter
    moved. (For a model none of whose meshes holds a [null] material.) *)
Theorem updateCrossSection_one_plane (model : Object3D)
    (crossSectionType : string) (crossSectionPosition : R)
    (store : gmap MatId Clipped) (id : MatId) (c : Clipped) :
  ~ In None (slotsReached model) ->
  In (Some id) (slotsReached model) ->
  store !! id = Some c ->
  let outcome :=
    fst (updateCrossSection (Some model) crossSectionType
           crossSectionPosition store) in
  snd outcome = None
  /\ exists (n : nat) (plane : Plane),
       fst outcome !! id
       = Some (mkClipped (updated (S n) (base c)) (Some [plane]) true)
       /\ plane
          = fst (createSectionPlane crossSectionType crossSectionPosition)
       /\ constant plane = (crossSectionPosition - 0.5) * 2.
Proof.
  intros Hnull Hin Hc outcome. subst outcome.
  unfold updateCrossSection.
  pose proof (createSectionPlane_constant crossSectionType
                crossSectionPosition) as Hconstant.
  destruct (createSectionPlane crossSectionType crossSectionPosition)
    as [plane log].
  cbn [fst snd applySectionToModel] in *.
  destruct (onMeshes_reached (withPlane plane) model store id c Hnull Hin Hc)
    as [Hok [n Hn]].
  split; [exact Hok |].
  exists n, plane. rewrite Hn, iter_withPlane. now repeat split.
Qed.

(** X8. [removeSectionFromModel] is not the inverse of
    [applySectionToModel]: after applying a plane and removing it again,
    a material held by the model has an empty array of clipping planes
    (not the [null] a fresh material has) and [clipShadows] is still on,
    whatever it was before. *)
Theorem removeSectionFromModel_after_apply (model : Object3D)
    (plane : Plane) (store : gmap MatId Clipped) (id : MatId)
    (c : Clipped) :
  ~ In None (slotsReached model) ->
  In (Some id) (slotsReached model) ->
  store !! id = Some c ->
  let applied := applySectionToModel (Some model) plane store in
  let removed := removeSectionFromModel (Some model) (fst applied) in
  snd applied = None /\ snd removed = None
  /\ exists n : nat,
       fst removed !! id
       = Some (mkClipped (updated (S n) (base c)) (Some []) true).
Proof.
  intros Hnull Hin Hc applied removed. subst applied removed.
  cbn [applySectionToModel removeSectionFromModel].
  destruct (onMeshes_reached (withPlane plane) model store id c Hnull Hin Hc)
    as [Hok [n Hn]].
  destruct (onMeshes_reached withoutPlanes model _ id _ Hnull Hin Hn)
    as [Hok' [n' Hn']].
  split; [exact Hok |]. split; [exact Hok' |].
  exists (n' + S n)%nat. rewrite Hn', iter_withoutPlanes, iter_withPlane.
  cbn [base clipShadows]. f_equal. f_equal.
  unfold updated. symmetry. apply (Nat.iter_add (S n') (S n)).
Qed.

End ClippingFacts.

Lemma updateCrossSection_one_plane_witness :
  exists (n : nat) (plane : Plane),
    fst (fst (Clipping.updateCrossSection (Some Examples.oneMesh) "axial"
                0.75 Samples.unclippedStore)) !! 1%positive
    = Some (Clipping.mkClipped
              (Clipping.updated (S n) Examples.tintedGlass)
              (Some [plane]) true)
    /\ constant plane = ((0.75 - 0.5) * 2)%R.
Proof.
  destruct (updateCrossSection_one_plane Examples.oneMesh "axial" 0.75
              Samples.unclippedStore 1%positive Samples.unclippedGlass)
    as [_ (n & plane & Hn & _ & Hconstant)].
  - cbn. intros [H | H]; [discriminate H | exact H].
  - cbn. left. reflexivity.
  - reflexivity.
  - exists n, plane. split; [exact Hn | exact Hconstant].
Defined.

Lemma removeSectionFromModel_after_apply_witness :
  exists n : nat,
    fst (Clipping.removeSectionFromModel (Some Examples.oneMesh)
           (fst (Clipping.applySectionToModel (Some Examples.oneMesh)
                   (mkPlane (mkVector3 0 0 1) 0.5)
                   Samples.unclippedStore))) !! 1%positive
    = Some (Clipping.mkClipped
              (Clipping.updated (S n) Examples.tintedGlass) (Some []) true).
Proof.
  destruct (removeSectionFromModel_after_apply Examples.oneMesh
              (mkPlane (mkVector3 0 0 1) 0.5) Samples.unclippedStore
              1%positive Samples.unclippedGlass)
    as (_ & _ & n & Hn).
  - cbn. intros [H | H]; [discriminate H | exact H].
  - cbn. left. reflexivity.
  - reflexivity.
  - exists n. exact Hn.
Defined.

(** ** The largest safe distance *)

Section SafeDistanceExact.

Import Neuron NeuronLogic.
Local Open Scope R_scope.

(** One coordinate, the other way round: beyond the distance kept after
    the block, the point is beyond the distance kept before it or outside
    the interval along this coordinate; and the block keeps [Infinity]
    only for a zero component. *)
Lemma clipAxis_tight (acc : option R) (p d lo hi t : R) :
  lo <= p <= hi ->
  match clipAxis acc p d lo hi with
  | Some a =>
      a < t ->
      match acc with Some a0 => a0 < t | None => False end
      \/ ~ (lo <= p + d * t <= hi)
  | None => acc = None /\ d = 0
  end.
Proof.
  intros Hp. unfold clipAxis, min_with.
  destruct (Rltb 0 d) eqn:Hpos; [apply Rltb_true in Hpos |].
  - assert (forall T, T = (hi - p) / d -> T < t -> ~ (lo <= p + d * t <= hi))
      as Hout.
    { intros T -> Hlt [_ Hle].
      assert (d * ((hi - p) / d) = hi - p) as Hcancel
        by (apply mult_div_cancel; lra).
      assert (d * ((hi - p) / d) < d * t)
        by (apply Rmult_lt_compat_l; assumption).
      lra. }
    destruct acc as [a0 |].
    + intros Hlt. unfold Rmin in Hlt.
      destruct (Rle_dec a0 ((hi - p) / d)); [now left | right].
      now apply (Hout _ eq_refl).
    + intros Hlt. right. now apply (Hout _ eq_refl).
  - apply Rltb_false in Hpos.
    destruct (Rltb d 0) eqn:Hneg; [apply Rltb_true in Hneg |].
    + assert (forall T, T = (p - lo) / - d -> T < t ->
                        ~ (lo <= p + d * t <= hi)) as Hout.
      { intros T -> Hlt [Hle _].
        assert (- d * ((p - lo) / - d) = p - lo) as Hcancel
          by (apply mult_div_cancel; lra).
        assert (- d * ((p - lo) / - d) < - d * t)
          by (apply Rmult_lt_compat_l; lra).
        lra. }
      destruct acc as [a0 |].
      * intros Hlt. unfold Rmin in Hlt.
        destruct (Rle_dec a0 ((p - lo) / - d)); [now left | right].
        now apply (Hout _ eq_refl).
      * intros Hlt. right. now apply (Hout _ eq_refl).
    + apply Rltb_false in Hneg.
      destruct acc as [a0 |]; [intros Hlt; now left |].
      split; [reflexivity | lra].
Qed.

Lemma clipAxis_zero (acc : option R) (p lo hi : R) :
  clipAxis acc p 0 lo hi = acc.
Proof.
  unfold clipAxis.
  assert (Rltb 0 0 = false) as -> by (apply Rltb_false; lra).
  reflexivity.
Qed.

(** X9. [getMaxSafeDistance] is exact. From a position within the
    margin, the result is [Infinity] exactly for the zero direction; and
    otherwise it is a distance [m >= 0] such that the point at distance
    [t >= 0] along the direction is within the margin exactly when
    [t <= m]: no safe point is cut off and no unsafe point let
    through. *)
Theorem getMaxSafeDistance_exact (position direction : Vector3)
    (box : Box3) (margin t : R) :
  isPointInSafeBox position box margin = true ->
  0 <= t ->
  (getMaxSafeDistance position direction box margin = None
   <-> direction = mkVector3 0 0 0)
  /\ forall m : R,
       getMaxSafeDistance position direction box margin = Some m ->
       0 <= m
       /\ (isPointInSafeBox
             (Vec.add position (Vec.multiplyScalar direction t)) box margin
           = true
           <-> t <= m).
Proof.
  intros Hin Ht.
  destruct (getMaxSafeDistance_safe position direction box margin Hin)
    as [Hnonneg Hsafe].
  apply isPointInSafeBox_true in Hin as (Hx & Hy & Hz).
  unfold getMaxSafeDistance in *.
  cbn [Vec.addScalar Vec.subScalar vx vy vz] in *.
  set (ax := clipAxis None (vx position) (vx direction)
               (vx (bmin box) + margin) (vx (bmax box) - margin)) in *.
  set (ay := clipAxis ax (vy position) (vy direction)
               (vy (bmin box) + margin) (vy (bmax box) - margin)) in *.
  set (az := clipAxis ay (vz position) (vz direction)
               (vz (bmin box) + margin) (vz (bmax box) - margin)) in *.
  pose proof (clipAxis_tight None (vx position) (vx direction) _ _ t Hx)
    as Htx. fold ax in Htx.
  pose proof (clipAxis_tight ax (vy position) (vy direction) _ _ t Hy)
    as Hty. fold ay in Hty.
  pose proof (clipAxis_tight ay (vz position) (vz direction) _ _ t Hz)
    as Htz. fold az in Htz.
  split.
  - split.
    + intros Hnone. destruct az as [dz |] eqn:Haz; [discriminate |].
      destruct Htz as [Hay Hdz]. rewrite Hay in Hty.
      destruct Hty as [Hax Hdy]. rewrite Hax in Htx.
      destruct Htx as [_ Hdx].
      destruct direction as [dx dy dz']. cbn [vx vy vz] in *.
      now subst.
    + intros ->. subst az ay ax. cbn [vx vy vz].
      now rewrite !clipAxis_zero.
  - intros m Hm. destruct az as [dz |] eqn:Haz; [| discriminate].
    injection Hm as <-.
    split; [exact Hnonneg |]. split.
    + intros Hinside. apply isPointInSafeBox_true in Hinside.
      cbn [Vec.add Vec.multiplyScalar vx vy vz] in Hinside.
      destruct Hinside as (Hix & Hiy & Hiz).
      destruct (Rle_dec t (if Rltb 0 dz then dz else 0)) as [Hle | Hgt];
        [exact Hle | exfalso].
      assert (dz < t) as Hlt.
      { destruct (Rltb 0 dz) eqn:Hpos; [lra |].
        apply Rltb_false in Hpos. lra. }
      destruct (Htz Hlt) as [Hay | Hout]; [| now apply Hout].
      destruct ay as [dy |]; [| contradiction].
      destruct (Hty Hay) as [Hax | Hout]; [| now apply Hout].
      destruct ax as [dx |]; [| contradiction].
      destruct (Htx Hax) as [[] | Hout]. now apply Hout.
    + intros Hle. now apply Hsafe.
Qed.

Lemma getMaxSafeDistance_exact_witness :
  (getMaxSafeDistance Examples.centre (mkVector3 0 1 0) Examples.cube 0.05
   = None
   <-> mkVector3 0 1 0 = mkVector3 0 0 0)
  /\ forall m : R,
       getMaxSafeDistance Examples.centre (mkVector3 0 1 0) Examples.cube
         0.05 = Some m ->
       0 <= m
       /\ (isPointInSafeBox
             (Vec.add Examples.centre
                (Vec.multiplyScalar (mkVector3 0 1 0) 0.5))
             Examples.cube 0.05 = true
           <-> 0.5 <= m).
Proof.
  apply (getMaxSafeDistance_exact Examples.centre (mkVector3 0 1 0)
           Examples.cube 0.05 0.5).
  - apply isPointInSafeBox_true. cbn. lra.
  - lra.
Defined.

End SafeDistanceExact.

(** ** Computations on a fair entropy source *)

Section FairLogic.

Import Neuron NeuronLogic NetworkLogic.
Local Open Scope R_scope.

Lemma postFair_ret {A : Type} (a : A) (P : A -> Prop) :
  P a -> postFair (ret a) P.
Proof. intros H e He. split; assumption. Qed.

Lemma postFair_bind {A B : Type} (m : Rand A) (k : A -> Rand B)
    (Q : A -> Prop) (P : B -> Prop) :
  postFair m Q -> (forall a, Q a -> postFair (k a) P) ->
  postFair (bind m k) P.
Proof.
  intros Hm Hk e He. unfold bind.
  destruct (Hm e He) as [Ha He']. destruct (m e) as [a e'].
  cbn [fst snd] in *. now apply Hk.
Qed.

Lemma postFair_weaken {A : Type} (m : Rand A) (P Q : A -> Prop) :
  postFair m P -> (forall a, P a -> Q a) -> postFair m Q.
Proof.
  intros Hm HPQ e He. destruct (Hm e He) as [Ha He'].
  split; [now apply HPQ | exact He'].
Qed.

(** A property that holds on every source holds on the fair ones. *)
Lemma postFair_post {A : Type} (m : Rand A) (P : A -> Prop) :
  post m P -> Steady m -> postFair m P.
Proof.
  intros Hpost Hsteady e He. split; [apply Hpost | now apply Hsteady].
Qed.

Lemma postFair_Math_random :
  postFair Math_random (fun r => 0 <= r < 1).
Proof.
  intros e He. cbn. split; [apply He |]. intros n. apply He.
Qed.

Lemma postFair_randomDirection (P : Vector3 -> Prop) :
  (forall d, P d) -> postFair randomDirection P.
Proof. intros HP e He. split; [apply HP | exact He]. Qed.

Lemma steady_bind {A B : Type} (m : Rand A) (k : A -> Rand B) :
  Steady m -> (forall a, Steady (k a)) -> Steady (bind m k).
Proof.
  intros Hm Hk. apply postFair_bind with (Q := fun _ => True);
    [exact Hm | intros a _; apply Hk].
Qed.

Lemma steady_ret {A : Type} (a : A) : Steady (ret a).
Proof. now apply postFair_ret. Qed.

Lemma steady_Math_random : Steady Math_random.
Proof. eapply postFair_weaken; [apply postFair_Math_random | trivial]. Qed.

Lemma steady_randomDirection : Steady randomDirection.
Proof. now apply postFair_randomDirection. Qed.

End FairLogic.

Create HintDb steady.

#[local] Hint Resolve steady_ret steady_Math_random steady_randomDirection
  : steady.

(** Steps through a computation that only has to be shown to leave a
    fair source fair. *)
Ltac steady :=
  repeat
    first
      [ solve [auto with steady]
      | apply steady_bind; [| intros ?]
      | match goal with
        | |- NetworkLogic.Steady (if ?c then _ else _) => destruct c
        | |- NetworkLogic.Steady (match ?x with _ => _ end) => destruct x
        end ].

Section SteadyComputations.

Import Neuron NeuronLogic NetworkLogic.
Local Open Scope R_scope.

Lemma steady_bentMidpoint (from to : Vector3) (bend : R) :
  Steady (bentMidpoint from to bend).
Proof. unfold bentMidpoint. steady. Qed.

Lemma steady_createDendriteBranch (from to : Vector3) :
  Steady (createDendriteBranch from to).
Proof.
  unfold createDendriteBranch.
  apply steady_bind; [apply steady_bentMidpoint | intros ?; steady].
Qed.

Lemma steady_createAxonBranch (from to : Vector3) :
  Steady (createAxonBranch from to).
Proof.
  unfold createAxonBranch.
  apply steady_bind; [apply steady_bentMidpoint | intros ?; steady].
Qed.

Lemma steady_createSynapse (from to : Vector3) :
  Steady (createSynapse from to).
Proof.
  unfold createSynapse.
  apply steady_bind; [apply steady_bentMidpoint | intros ?; steady].
Qed.

Lemma steady_branchEndFrom (boundaryBox : option Box3)
    (branchPoint : Vector3) (branchLength : R) :
  Steady (branchEndFrom boundaryBox branchPoint branchLength).
Proof. unfold branchEndFrom. steady. Qed.

End SteadyComputations.

#[local] Hint Resolve steady_bentMidpoint steady_createDendriteBranch
  steady_createAxonBranch steady_createSynapse steady_branchEndFrom
  : steady.

Section SteadyNeuron.

Import Neuron NeuronLogic NetworkLogic.
Local Open Scope R_scope.

Lemma steady_growDendrite (position0 : Vector3)
    (boundaryBox : option Box3) (dendriteLength : R)
    (dendrites : list Line) :
  Steady (growDendrite position0 boundaryBox dendriteLength dendrites).
Proof. unfold growDendrite. steady. Qed.

Lemma steady_growDendrites (position0 : Vector3)
    (boundaryBox : option Box3) (iterations : nat) (dendriteLength : R)
    (dendrites : list Line) :
  Steady (growDendrites position0 boundaryBox iterations dendriteLength
            dendrites).
Proof.
  revert dendrites. induction iterations as [| k IH]; intros dendrites;
    cbn [growDendrites]; [steady |].
  apply steady_bind; [apply steady_growDendrite | intros ?; apply IH].
Qed.

Lemma steady_growAxonBranches (boundaryBox : option Box3)
    (iterations : nat) (branchPoint : Vector3) (actualAxonLength : R)
    (branches : list Line) :
  Steady (growAxonBranches boundaryBox iterations branchPoint
            actualAxonLength branches).
Proof.
  revert branches. induction iterations as [| k IH]; intros branches;
    cbn [growAxonBranches]; [steady |].
  apply steady_bind; [steady | intros [branchEnd |]; [| apply IH]].
  apply steady_bind; [steady | intros ?; apply IH].
Qed.

End SteadyNeuron.

#[local] Hint Resolve steady_growDendrite steady_growDendrites
  steady_growAxonBranches : steady.

Section SteadyAxon.

Import Neuron NeuronLogic NetworkLogic.
Local Open Scope R_scope.

Lemma steady_axonWithinBoundary (position0 : Vector3)
    (boundaryBox : option Box3) (axonDirection : Vector3)
    (actualAxonLength axonBranchProbability : R) (axonEnd : Vector3) :
  Steady (axonWithinBoundary position0 boundaryBox axonDirection
            actualAxonLength axonBranchProbability axonEnd).
Proof. unfold axonWithinBoundary. steady. Qed.

Lemma steady_axonFallback (position0 : Vector3) (box : Box3)
    (axonDirection : Vector3) :
  Steady (axonFallback position0 box axonDirection).
Proof. unfold axonFallback. steady. Qed.

End SteadyAxon.

#[local] Hint Resolve steady_axonWithinBoundary steady_axonFallback
  : steady.

Section SteadyCreateNeuron.

Import Neuron NeuronLogic NetworkLogic.
Local Open Scope R_scope.

Lemma steady_growAxon (position0 : Vector3) (boundaryBox : option Box3)
    (axonLength axonBranchProbability : R) :
  Steady (growAxon position0 boundaryBox axonLength axonBranchProbability).
Proof. unfold growAxon. steady. Qed.

Lemma steady_readOptions (options : Options) : Steady (readOptions options).
Proof. unfold readOptions. steady. Qed.

Lemma steady_createNeuron (position0 : Vector3)
    (boundaryBox : option Box3) (somaSize : R) (options : Options) :
  Steady (createNeuron position0 boundaryBox somaSize options).
Proof.
  unfold createNeuron.
  apply steady_bind; [apply steady_readOptions |].
  intros [[[dendriteCount dendriteLength] axonLength] p].
  apply steady_bind; [steady |]. intros ds.
  apply steady_bind; [apply steady_growAxon |].
  intros [[ax branches] terminal]. steady.
Qed.

End SteadyCreateNeuron.

#[local] Hint Resolve steady_growAxon steady_readOptions
  steady_createNeuron : steady.

Section SteadyPlacement.

Import Neuron NeuronLogic NetworkLogic.
Local Open Scope R_scope.

Variable brainModel : option Box3.
Variable count : nat.

Lemma steady_placeNeuronAt (position : Vector3) (st : Placement) :
  Steady (placeNeuronAt brainModel position st).
Proof. unfold placeNeuronAt. steady. Qed.

Lemma steady_irwinHall : Steady irwinHall.
Proof. unfold irwinHall. steady. Qed.

Lemma steady_clusterMembers (iterations : nat) (clusterCenter : Vector3)
    (clusterSize : R) (st : Placement) :
  Steady (clusterMembers brainModel count iterations clusterCenter
            clusterSize st).
Proof.
  revert st. induction iterations as [| k IH]; intros st;
    cbn [clusterMembers]; [steady |].
  destruct (mayPlace count st); [| steady].
  do 3 (apply steady_bind; [apply steady_irwinHall | intros ?]).
  apply steady_bind; [apply steady_placeNeuronAt | intros ?; apply IH].
Qed.

Lemma steady_cluster (st : Placement) : Steady (cluster brainModel count st).
Proof.
  unfold cluster.
  do 3 (apply steady_bind; [steady | intros ?]).
  destruct (negb _); [steady |].
  apply steady_bind; [steady | intros ?]. apply steady_clusterMembers.
Qed.

Lemma steady_clusterLoop (iterations : nat) (st : Placement) :
  Steady (clusterLoop brainModel count iterations st).
Proof.
  revert st. induction iterations as [| k IH]; intros st;
    cbn [clusterLoop]; [steady |].
  destruct (mayPlace count st); [| steady].
  apply steady_bind; [apply steady_cluster | intros ?; apply IH].
Qed.

Lemma steady_fillLoop (fuel : nat) (st : Placement) :
  Steady (fillLoop brainModel count fuel st).
Proof.
  revert st. induction fuel as [| fuel IH]; intros st; cbn [fillLoop];
    (destruct (mayPlace count st); [| steady]); [steady |].
  do 3 (apply steady_bind; [steady | intros ?]).
  apply steady_bind; [apply steady_placeNeuronAt | intros ?; apply IH].
Qed.

Lemma steady_placeNeurons (fuel : nat) :
  Steady (placeNeurons brainModel count fuel).
Proof.
  unfold placeNeurons.
  apply steady_bind; [apply steady_clusterLoop | intros ?].
  apply steady_fillLoop.
Qed.

End SteadyPlacement.

(** ** The curves of dendrites, axons and synapses *)

Section CurveFacts.

Import Neuron NeuronLogic NetworkLogic.
Local Open Scope R_scope.

Lemma length_nonneg (a : Vector3) : 0 <= Vec.length a.
Proof. apply sqrt_pos. Qed.

Lemma length_multiplyScalar (a : Vector3) (s : R) :
  Vec.length (Vec.multiplyScalar a s) = Rabs s * Vec.length a.
Proof.
  unfold Vec.length, Vec.multiplyScalar. cbn [vx vy vz].
  replace (vx a * s * (vx a * s) + vy a * s * (vy a * s)
           + vz a * s * (vz a * s))
    with (Rsqr s * (vx a * vx a + vy a * vy a + vz a * vz a))
    by (unfold Rsqr; ring).
  rewrite sqrt_mult; [| apply Rle_0_sqr | nra].
  now rewrite sqrt_Rsqr_abs.
Qed.

Lemma length_normalize (a : Vector3) : Vec.length (Vec.normalize a) <= 1.
Proof.
  unfold Vec.normalize. rewrite length_multiplyScalar.
  pose proof (length_nonneg a) as Hl.
  destruct (Req_dec_T (Vec.length a) 0) as [Hzero | Hnonzero].
  - rewrite Hzero. rewrite Rmult_0_r. lra.
  - assert (0 < Vec.length a) as Hpos by lra.
    rewrite Rabs_right.
    + unfold Rdiv. rewrite Rmult_1_l, Rinv_l by assumption. lra.
    + apply Rle_ge. unfold Rdiv. rewrite Rmult_1_l.
      left. now apply Rinv_0_lt_compat.
Qed.

Lemma length_perpendicular (direction : Vector3) :
  Vec.length (perpendicular direction) <= 1.
Proof.
  unfold perpendicular. destruct (Rltb _ _); apply length_normalize.
Qed.

(** The vector across [direction] is orthogonal to any multiple of
    [direction]. *)
Lemma dot_perpendicular (chord : Vector3) (k : R) :
  dot (perpendicular (Vec.multiplyScalar chord k)) chord = 0.
Proof.
  unfold perpendicular, Vec.normalize.
  destruct (Rltb _ _);
    match goal with
    | |- context [1 / ?x] => generalize (1 / x)
    end;
    intros c; unfold dot, Vec.cross, Vec.multiplyScalar; cbn [vx vy vz];
    ring.
Qed.

Lemma bentMidpoint_value (from to : Vector3) (bend : R) (e : Entropy) :
  fst (bentMidpoint from to bend e)
  = Vec.add (Vec.multiplyScalar (Vec.add from to) 0.5)
      (Vec.multiplyScalar
         (perpendicular (Vec.normalize (Vec.sub to from)))
         (Vec.distanceTo from to * bend * (uniform e 0%nat - 0.5))).
Proof. reflexivity. Qed.

Lemma sub_add_cancel (a b : Vector3) : Vec.sub (Vec.add a b) a = b.
Proof.
  destruct a, b. unfold Vec.sub, Vec.add. cbn [vx vy vz].
  f_equal; ring.
Qed.

Lemma distanceTo_add (a b : Vector3) :
  Vec.distanceTo (Vec.add a b) a = Vec.length b.
Proof. unfold Vec.distanceTo. now rewrite sub_add_cancel. Qed.

Lemma bentMidpoint_bent (from to : Vector3) (bend : R) (e : Entropy) :
  0 <= bend ->
  0 <= uniform e 0%nat <= 1 ->
  let mid := fst (bentMidpoint from to bend e) in
  let midPoint := Vec.multiplyScalar (Vec.add from to) 0.5 in
  dot (Vec.sub mid midPoint) (Vec.sub to from) = 0
  /\ Vec.distanceTo mid midPoint <= Vec.distanceTo from to * bend * 0.5.
Proof.
  intros Hbend Hr mid midPoint. subst mid midPoint.
  rewrite bentMidpoint_value, distanceTo_add, sub_add_cancel. split.
  - unfold Vec.normalize at 1.
    match goal with
    | |- context [Vec.multiplyScalar (perpendicular ?d) ?s] =>
        pose proof (dot_perpendicular (Vec.sub to from)
                      (1 / (if Req_dec_T (Vec.length (Vec.sub to from)) 0
                            then 1 else Vec.length (Vec.sub to from))))
          as Hperp;
        generalize dependent (perpendicular d); intros p Hperp;
        generalize s; intros s'
    end.
    unfold dot, Vec.multiplyScalar in *. cbn [vx vy vz] in *.
    replace (vx p * s' * vx (Vec.sub to from)
             + vy p * s' * vy (Vec.sub to from)
             + vz p * s' * vz (Vec.sub to from))
      with (s' * (vx p * vx (Vec.sub to from) + vy p * vy (Vec.sub to from)
                  + vz p * vz (Vec.sub to from))) by ring.
    rewrite Hperp. ring.
  - rewrite length_multiplyScalar.
    pose proof (length_perpendicular (Vec.normalize (Vec.sub to from)))
      as Hperp.
    pose proof (length_nonneg
                  (perpendicular (Vec.normalize (Vec.sub to from)))) as Hp0.
    pose proof (length_nonneg (Vec.sub from to)) as Hd.
    fold (Vec.distanceTo from to) in Hd.
    set (d := Vec.distanceTo from to) in *.
    assert (0 <= d * bend) as Hk by now apply Rmult_le_pos.
    set (k := d * bend) in *. set (r := uniform e 0%nat) in *.
    assert (0 <= k * r) as Hkr by (apply Rmult_le_pos; lra).
    assert (k * r <= k * 1) as Hkr1 by (apply Rmult_le_compat_l; lra).
    assert (Rabs (k * (r - 0.5)) <= k * 0.5) as Habs.
    { apply Rabs_le. split; lra. }
    pose proof (Rabs_pos (k * (r - 0.5))) as Ha0.
    set (x := Rabs (k * (r - 0.5))) in *.
    set (y := Vec.length (perpendicular (Vec.normalize (Vec.sub to from))))
      in *.
    assert (x * y <= x * 1) by (apply Rmult_le_compat_l; lra).
    lra.
Qed.

Lemma createDendriteBranch_value (from to : Vector3) (e : Entropy) :
  fst (createDendriteBranch from to e)
  = mkLine from (fst (bentMidpoint from to 0.1 e)) to 30 false.
Proof.
  unfold createDendriteBranch, bind.
  now destruct (bentMidpoint from to 0.1 e).
Qed.

Lemma createAxonBranch_value (from to : Vector3) (e : Entropy) :
  fst (createAxonBranch from to e)
  = mkLine from (fst (bentMidpoint from to 0.2 e)) to 40 true.
Proof.
  unfold createAxonBranch, bind.
  now destruct (bentMidpoint from to 0.2 e).
Qed.

Lemma createSynapse_value (from to : Vector3) (e : Entropy) :
  fst (createSynapse from to e)
  = mkSynapse (mkLine from (fst (bentMidpoint from to 0.3 e)) to 30 false)
      from to false.
Proof.
  unfold createSynapse, bind.
  now destruct (bentMidpoint from to 0.3 e).
Qed.

(** X10. The curves are gently bent. The curve of a dendrite, of an
    axon and of a synapse runs from the given start to the given end
    through one middle control point, which is the midpoint of the two
    pushed exactly across the chord (the offset is orthogonal to the
    chord) by at most 5%, 10% and 15% of the chord's length; it is
    sampled in 30, 40 and 30 segments, and only the axon keeps its curve
    in [userData]. A synapse records its ends as [from] and [to] and is
    created inactive. *)
Theorem curves_bent (from to : Vector3) (e : Entropy) :
  0 <= uniform e 0%nat <= 1 ->
  let dendrite := fst (createDendriteBranch from to e) in
  let axon := fst (createAxonBranch from to e) in
  let syn := fst (createSynapse from to e) in
  (lineFrom dendrite = from /\ lineTo dendrite = to
   /\ Bent 0.1 dendrite
   /\ divisions dendrite = 30%nat /\ keepsCurve dendrite = false)
  /\ (lineFrom axon = from /\ lineTo axon = to
      /\ Bent 0.2 axon
      /\ divisions axon = 40%nat /\ keepsCurve axon = true)
  /\ (lineFrom (synapseLine syn) = from /\ lineTo (synapseLine syn) = to
      /\ Bent 0.3 (synapseLine syn)
      /\ divisions (synapseLine syn) = 30%nat
      /\ userFrom syn = from /\ userTo syn = to /\ active syn = false).
Proof.
  intros Hr dendrite axon syn. subst dendrite axon syn.
  rewrite createDendriteBranch_value, createAxonBranch_value,
    createSynapse_value.
  unfold Bent.
  cbn [lineFrom lineTo lineMid divisions keepsCurve synapseLine userFrom
       userTo active].
  pose proof (bentMidpoint_bent from to 0.1 e ltac:(lra) Hr) as [H1 H1'].
  pose proof (bentMidpoint_bent from to 0.2 e ltac:(lra) Hr) as [H2 H2'].
  pose proof (bentMidpoint_bent from to 0.3 e ltac:(lra) Hr) as [H3 H3'].
  repeat split; first [reflexivity | assumption].
Qed.

Lemma curves_bent_witness :
  Bent 0.3
    (synapseLine
       (fst (createSynapse Examples.centre (mkVector3 0.3 0 0)
               Examples.steadyEntropy))).
Proof.
  apply (curves_bent Examples.centre (mkVector3 0.3 0 0)
           Examples.steadyEntropy).
  cbn. lra.
Defined.

End CurveFacts.

(** ** The shape of a neuron *)

Section NeuronShape.

Import Neuron NeuronLogic NetworkLogic.
Local Open Scope R_scope.

Variable position0 : Vector3.
Variable boundaryBox : option Box3.

Lemma growAxonBranches_length (iterations : nat) (branchPoint : Vector3)
    (actualAxonLength : R) (branches : list Line) :
  post (growAxonBranches boundaryBox iterations branchPoint actualAxonLength
          branches)
    (fun bs => (List.length bs <= List.length branches + iterations)%nat).
Proof.
  revert branches.
  induction iterations as [| k IH]; intros branches; cbn [growAxonBranches].
  - apply post_ret. cbv beta. lia.
  - apply post_draw. intros [branchEnd |].
    + apply post_draw. intros branch.
      eapply post_weaken; [apply IH |]. cbv beta. intros bs Hbs.
      rewrite length_app in Hbs. cbn in Hbs. lia.
    + eapply post_weaken; [apply IH |]. cbv beta. intros bs Hbs. lia.
Qed.

Lemma post_and {A : Type} (m : Rand A) (P Q : A -> Prop) :
  post m P -> post m Q -> post m (fun a => P a /\ Q a).
Proof. intros HP HQ e. split; [apply HP | apply HQ]. Qed.

(** What [growAxon] returns: the branches end within the boundary and
    are at most two; the axon runs from the soma to the terminal, or
    there is neither. *)
Lemma growAxon_shape (axonLength axonBranchProbability : R) :
  post (growAxon position0 boundaryBox axonLength axonBranchProbability)
    (fun r =>
       Forall (endsWithin boundaryBox) (snd (fst r))
       /\ (List.length (snd (fst r)) <= 2)%nat
       /\ match fst (fst r), snd r with
          | Some l, Some a => lineFrom l = position0 /\ lineTo l = a
          | None, None => True
          | _, _ => False
          end).
Proof.
  assert (forall axonDirection actualAxonLength axonEnd,
            post (axonWithinBoundary position0 boundaryBox axonDirection
                    actualAxonLength axonBranchProbability axonEnd)
              (fun r =>
                 Forall (endsWithin boundaryBox) (snd (fst r))
                 /\ (List.length (snd (fst r)) <= 2)%nat
                 /\ match fst (fst r), snd r with
                    | Some l, Some a => lineFrom l = position0 /\ lineTo l = a
                    | None, None => True
                    | _, _ => False
                    end)) as Hwithin.
  { intros axonDirection actualAxonLength axonEnd.
    unfold axonWithinBoundary.
    eapply post_bind; [apply createAxonBranch_post |].
    intros ax [Hfrom Hto]. apply post_draw. intros r.
    destruct (Rltb r axonBranchProbability);
      [| apply post_ret; cbn; repeat split; auto].
    destruct (withinBoundary boundaryBox margin _);
      [| apply post_ret; cbn; repeat split; auto].
    eapply post_bind.
    - apply post_and.
      + apply growAxonBranches_post. constructor.
      + apply growAxonBranches_length.
    - intros branches [Hends Hlen]. apply post_ret. cbn in *.
      repeat split; auto. }
  unfold growAxon. apply post_draw. intros d.
  destruct boundaryBox as [box |]; [| apply Hwithin].
  destruct (isPointInSafeBox _ box margin); [apply Hwithin |].
  unfold axonFallback.
  destruct (getMaxSafeDistance _ _ _ _) as [maxLength |].
  - eapply post_bind; [apply createAxonBranch_post |].
    intros ax [Hfrom Hto]. apply post_ret. cbn. repeat split; auto.
  - apply post_draw. intros _. apply post_ret. cbn. repeat split; auto.
Qed.

Lemma growDendrite_length (dendriteLength : R) (dendrites : list Line) :
  post (growDendrite position0 boundaryBox dendriteLength dendrites)
    (fun ds =>
       (List.length dendrites <= List.length ds <= List.length dendrites + 2)%nat
       /\ (boundaryBox = None ->
           (List.length dendrites + 1 <= List.length ds)%nat)).
Proof.
  unfold growDendrite.
  do 3 (apply post_draw; intros ?).
  match goal with
  | |- context [withinBoundary boundaryBox margin ?p] =>
      destruct (withinBoundary boundaryBox margin p) eqn:Hend
  end.
  - apply post_draw. intros dendrite. apply post_draw. intros r4.
    assert (forall ds : list Line,
              ds = dendrites ++ [dendrite] \/
              (exists b, ds = (dendrites ++ [dendrite]) ++ [b]) ->
              (List.length dendrites <= List.length ds
               <= List.length dendrites + 2)%nat
              /\ (boundaryBox = None ->
                  (List.length dendrites + 1 <= List.length ds)%nat))
      as Hcount.
    { intros ds [-> | [b ->]]; rewrite ?length_app; cbn; lia. }
    destruct (Rltb r4 0.3); [| apply post_ret; apply Hcount; now left].
    match goal with
    | |- context [withinBoundary boundaryBox margin ?p] =>
        destruct (withinBoundary boundaryBox margin p)
    end; [| apply post_ret; apply Hcount; now left].
    apply post_draw. intros [branchEnd |];
      [| apply post_ret; apply Hcount; now left].
    apply post_draw. intros branch. apply post_ret. apply Hcount.
    right. now exists branch.
  - apply post_ret. cbv beta. split; [lia |].
    intros ->. discriminate Hend.
Qed.

Lemma growDendrites_length (iterations : nat) (dendriteLength : R)
    (dendrites : list Line) :
  post (growDendrites position0 boundaryBox iterations dendriteLength
          dendrites)
    (fun ds =>
       (List.length ds <= List.length dendrites + 2 * iterations)%nat
       /\ (boundaryBox = None ->
           (List.length dendrites + iterations <= List.length ds)%nat)).
Proof.
  revert dendrites.
  induction iterations as [| k IH]; intros dendrites; cbn [growDendrites].
  - apply post_ret. cbv beta. split; [lia |]. intros _. lia.
  - eapply post_bind; [apply growDendrite_length |]. cbv beta.
    intros ds [Hds Hds']. eapply post_weaken; [apply IH |]. cbv beta.
    intros ds' [Hle Hge]. split; [lia |].
    intros Hnone. specialize (Hds' Hnone). specialize (Hge Hnone). lia.
Qed.

(** [3 + Math.floor(Math.random() * 5)] is between 3 and 7. *)
Lemma default_dendriteCount (r : R) :
  0 <= r < 1 -> (3 <= 3 + floor (r * 5) <= 7)%Z.
Proof.
  intros Hr. unfold floor.
  destruct (base_Int_part (r * 5)) as [Hlo Hhi].
  assert (IZR (Int_part (r * 5)) < 5) as Hlt by lra.
  assert (-1 < IZR (Int_part (r * 5))) as Hgt by lra.
  apply lt_IZR in Hlt, Hgt. lia.
Qed.

Lemma readOptions_dendriteCount (options : Options) (e : Entropy) :
  fst (fst (fst (fst (readOptions options e))))
  = match opt_dendriteCount options with
    | Some k => k
    | None => (3 + floor (uniform e 0%nat * 5))%Z
    end.
Proof. destruct options as [[n |] [l |] [a |] [p |]]; reflexivity. Qed.

(** A neuron, part by part: the dendrites are those [growDendrites]
    returns for the count read from the options, and the axon, its
    branches and the terminal are those [growAxon] returns. *)
Lemma createNeuron_parts (somaSize : R) (options : Options) (e : Entropy) :
  exists (dendriteLength axonLength p : R) (e1 e2 : Entropy),
    fst (createNeuron position0 boundaryBox somaSize options e)
    = mkNeuron position0 somaSize
        (fst (growDendrites position0 boundaryBox
                (Z.to_nat (fst (fst (fst (fst (readOptions options e))))))
                dendriteLength [] e1))
        (fst (fst (fst (growAxon position0 boundaryBox axonLength p e2))))
        (snd (fst (fst (growAxon position0 boundaryBox axonLength p e2))))
        (snd (fst (growAxon position0 boundaryBox axonLength p e2))).
Proof.
  unfold createNeuron, bind.
  destruct (readOptions options e) as [[[[dc dl] al] p] e1].
  cbn [fst].
  destruct (growDendrites position0 boundaryBox (Z.to_nat dc) dl [] e1)
    as [ds e2] eqn:Hds.
  destruct (growAxon position0 boundaryBox al p e2) as [[[ax br] en] e3]
    eqn:Hax.
  exists dl, al, p, e1, e2. rewrite Hds, Hax. reflexivity.
Qed.

(** X11. The shape of a neuron, whatever the boundary, the options and
    the random draws. [createNeuron] stores the position and the soma
    size it was given; the axon has at most two branches, each ending
    within the boundary; the axon's curve runs from the soma to the
    terminal stored in [userData.axonEnd] (or there is neither curve nor
    real terminal); there are at most twice as many dendrite curves as
    the dendrite count (each dendrite has at most one branch), hence at
    most 14 when the count is the default [3 + floor (random * 5)]; and
    without a boundary no dendrite is dropped and the axon exists. *)
Theorem createNeuron_shape (somaSize : R) (options : Options)
    (e : Entropy) :
  let n := fst (createNeuron position0 boundaryBox somaSize options e) in
  position n = position0
  /\ Neuron.somaSize n = somaSize
  /\ (List.length (axonBranches n) <= 2)%nat
  /\ Forall (endsWithin boundaryBox) (axonBranches n)
  /\ AxonShape n
  /\ (forall k : Z,
        opt_dendriteCount options = Some k ->
        (List.length (dendrites n) <= 2 * Z.to_nat k)%nat)
  /\ (opt_dendriteCount options = None ->
      0 <= uniform e 0%nat < 1 ->
      (List.length (dendrites n) <= 14)%nat)
  /\ (boundaryBox = None ->
      is_Some (axon n)
      /\ forall k : Z,
           opt_dendriteCount options = Some k ->
           (Z.to_nat k <= List.length (dendrites n))%nat).
Proof.
  intros n. subst n.
  destruct (createNeuron_parts somaSize options e)
    as (dl & al & p & e1 & e2 & ->).
  rewrite readOptions_dendriteCount.
  pose proof (growAxon_shape al p e2) as (Hends & Hlen & Hshape).
  unfold AxonShape.
  cbn [position Neuron.somaSize dendrites axon axonBranches axonEnd].
  split; [reflexivity |]. split; [reflexivity |].
  split; [exact Hlen |]. split; [exact Hends |].
  split; [exact Hshape |].
  split; [| split].
  - intros k Hk. rewrite Hk.
    destruct (growDendrites_length (Z.to_nat k) dl [] e1) as [Hle _].
    cbn [List.length] in Hle. lia.
  - intros Hnone Hr. rewrite Hnone.
    match goal with
    | |- context [growDendrites _ _ ?k _ _ _] =>
        destruct (growDendrites_length k dl [] e1) as [Hle _];
        assert (k <= 7)%nat
          by (pose proof (default_dendriteCount _ Hr); lia)
    end.
    cbn [List.length] in Hle. lia.
  - intros Hnone. split.
    + subst boundaryBox. unfold growAxon.
      unfold bind at 1.
      destruct (randomDirection e2) as [d e3].
      pose proof (axonWithinBoundary_post position0 None
                    (Vec.multiplyScalar (Vec.normalize d) al) al p
                    (Vec.add position0
                       (Vec.multiplyScalar (Vec.normalize d) al)) e3)
        as (_ & (l & Hl & _) & _).
      exists l. exact Hl.
    + intros k Hk. rewrite Hk.
      destruct (growDendrites_length (Z.to_nat k) dl [] e1) as [_ Hge].
      specialize (Hge Hnone). cbn [List.length] in Hge. lia.
Qed.

End NeuronShape.

Lemma createNeuron_shape_witness :
  (List.length
     (Neuron.dendrites
        (fst (Neuron.createNeuron Examples.centre (Some Examples.cube) 0.01
                Neuron.noOptions Examples.steadyEntropy))) <= 14)%nat.
Proof.
  apply (createNeuron_shape Examples.centre (Some Examples.cube) 0.01
           Neuron.noOptions Examples.steadyEntropy).
  - reflexivity.
  - cbn. lra.
Defined.

(** ** The neurons of a network *)

Section SeatedNeurons.

Import Neuron NeuronLogic NetworkLogic.
Local Open Scope R_scope.

Variable brainModel : option Box3.
Variable count : nat.

Lemma createNeuron_post_shape (position0 : Vector3)
    (boundaryBox : option Box3) (somaSize : R) (options : Options) :
  post (createNeuron position0 boundaryBox somaSize options)
    (fun n =>
       position n = position0
       /\ Forall (endsWithin boundaryBox) (dendrites n)
       /\ Forall (endsWithin boundaryBox) (axonBranches n)
       /\ AxonShape n).
Proof.
  intros e.
  pose proof (createNeuron_dendrites position0 boundaryBox somaSize options e)
    as Hdendrites.
  destruct (createNeuron_parts position0 boundaryBox somaSize options e)
    as (dl & al & p & e1 & e2 & Heq).
  rewrite Heq in *.
  pose proof (growAxon_shape position0 boundaryBox al p e2)
    as (Hends & _ & Hshape).
  unfold AxonShape.
  cbn [position dendrites axon axonBranches axonEnd] in *.
  now repeat split.
Qed.

Lemma placeNeuronAt_seated (position : Vector3) (st : Placement) :
  Forall (Seated brainModel) (placed st) ->
  post (placeNeuronAt brainModel position st)
    (fun st' => Forall (Seated brainModel) (placed st')).
Proof.
  intros Hst. unfold placeNeuronAt.
  destruct (Box.containsPoint (safeBox brainModel) position
            && Box.containsPoint (box brainModel) position) eqn:Hboth;
    [| now apply post_ret].
  apply andb_true_iff in Hboth as [Hsafe Hbox].
  eapply post_bind; [apply createNeuron_post_shape |].
  intros neuron (Hpos & Hds & Hbs & Hshape).
  destruct (axonEnd neuron) as [a |] eqn:Hend; [| now apply post_ret].
  destruct (isPointInSafeBox a _ _) eqn:Hin; [| now apply post_ret].
  apply post_ret. cbn [placed].
  apply Forall_app. split; [exact Hst |]. constructor; [| constructor].
  unfold Seated. rewrite Hpos.
  do 4 (split; [assumption |]).
  unfold AxonShape in Hshape. rewrite Hend in Hshape.
  destruct (axon neuron) as [l |]; [| contradiction].
  destruct Hshape as [Hfrom Hto].
  exists l, a. rewrite <- Hpos. now repeat split.
Qed.

Lemma clusterMembers_seated (iterations : nat) (clusterCenter : Vector3)
    (clusterSize : R) (st : Placement) :
  Forall (Seated brainModel) (placed st) ->
  post (clusterMembers brainModel count iterations clusterCenter
          clusterSize st)
    (fun st' => Forall (Seated brainModel) (placed st')).
Proof.
  revert st. induction iterations as [| k IH]; intros st Hst;
    cbn [clusterMembers]; [now apply post_ret |].
  destruct (mayPlace count st); [| now apply post_ret].
  do 3 (apply post_draw; intros ?).
  eapply post_bind; [now apply placeNeuronAt_seated |].
  intros st' Hst'. now apply IH.
Qed.

Lemma cluster_seated (st : Placement) :
  Forall (Seated brainModel) (placed st) ->
  post (cluster brainModel count st)
    (fun st' => Forall (Seated brainModel) (placed st')).
Proof.
  intros Hst. unfold cluster.
  do 3 (apply post_draw; intros ?).
  destruct (negb _); [now apply post_ret |].
  apply post_draw; intros r.
  now apply clusterMembers_seated.
Qed.

Lemma clusterLoop_seated (iterations : nat) (st : Placement) :
  Forall (Seated brainModel) (placed st) ->
  post (clusterLoop brainModel count iterations st)
    (fun st' => Forall (Seated brainModel) (placed st')).
Proof.
  revert st. induction iterations as [| k IH]; intros st Hst;
    cbn [clusterLoop]; [now apply post_ret |].
  destruct (mayPlace count st); [| now apply post_ret].
  eapply post_bind; [now apply cluster_seated |].
  intros st' Hst'. now apply IH.
Qed.

Lemma fillLoop_seated (fuel : nat) (st : Placement) :
  Forall (Seated brainModel) (placed st) ->
  post (fillLoop brainModel count fuel st)
    (fun r => match r with
              | Some st' => Forall (Seated brainModel) (placed st')
              | None => True
              end).
Proof.
  revert st. induction fuel as [| fuel IH]; intros st Hst; cbn [fillLoop];
    (destruct (mayPlace count st); [| now apply post_ret]).
  - now apply post_ret.
  - do 3 (apply post_draw; intros ?).
    eapply post_bind; [now apply placeNeuronAt_seated |].
    intros st' Hst'. now apply IH.
Qed.

Lemma placeNeurons_seated (fuel : nat) :
  post (placeNeurons brainModel count fuel)
    (fun r => match r with
              | Some st' => Forall (Seated brainModel) (placed st')
              | None => True
              end).
Proof.
  unfold placeNeurons.
  eapply post_bind; [apply clusterLoop_seated; constructor |].
  intros st Hst. now apply fillLoop_seated.
Qed.

End SeatedNeurons.

Section SeatedNetwork.

Import Neuron NeuronLogic NetworkLogic.
Local Open Scope R_scope.


End SeatedNetwork.


(** ** Where a synapse ends *)

Section DockedSynapses.

Import Neuron NeuronLogic NetworkLogic.
Local Open Scope R_scope.

Variable neurons0 : list NeuronData.
Variable maxDistance0 : R.
Variable connectionProbability : R.

Lemma distanceTo_add_r (a b : Vector3) :
  Vec.distanceTo a (Vec.add a b) = Vec.length b.
Proof.
  unfold Vec.distanceTo, Vec.length, Vec.sub, Vec.add. cbn [vx vy vz].
  f_equal. ring.
Qed.

Lemma postFair_and_post {A : Type} (m : Rand A) (P Q : A -> Prop) :
  post m P -> postFair m Q -> postFair m (fun a => P a /\ Q a).
Proof.
  intros HP HQ e He. destruct (HQ e He) as [Hq He'].
  split; [split; [apply HP | exact Hq] | exact He'].
Qed.

(** The connection point of a synapse: less than 0.1 from the target. *)
Lemma connectPair_docked (i j : nat) (src tgt : NeuronData) :
  postFair (connectPair maxDistance0 connectionProbability i j src tgt)
    (fun r => match r with
              | Some c =>
                  target c = j
                  /\ Vec.distanceTo (position tgt) (userTo (synapse c)) < 0.1
              | None => True
              end).
Proof.
  unfold connectPair.
  destruct (axonEnd src) as [a |].
  - eapply postFair_bind; [apply steady_Math_random |]. intros r _.
    destruct (Rltb r _ && Rltb _ maxDistance0);
      [| now apply postFair_ret].
    eapply postFair_bind; [apply postFair_Math_random |].
    intros r' Hr'.
    eapply postFair_bind.
    + apply postFair_post; [apply createSynapse_post |].
      apply steady_createSynapse.
    + intros s (_ & Hto & _). apply postFair_ret.
      cbn [target synapse]. split; [reflexivity |].
      rewrite Hto, distanceTo_add_r, length_multiplyScalar.
      pose proof (length_normalize (Vec.sub (position tgt) a)) as Hle.
      pose proof (length_nonneg
                    (Vec.normalize (Vec.sub (position tgt) a))) as Hge.
      rewrite Rabs_left by lra.
      set (l := Vec.length _) in *.
      assert ((0.05 + r' * 0.05) * l <= (0.05 + r' * 0.05) * 1)
        by (apply Rmult_le_compat_l; lra).
      lra.
  - eapply postFair_bind; [apply steady_Math_random |]. intros r _.
    now apply postFair_ret.
Qed.

Lemma connectPair_reach_docked (i j : nat) (src tgt : NeuronData) :
  neurons0 !! i = Some src ->
  neurons0 !! j = Some tgt ->
  i <> j ->
  postFair (connectPair maxDistance0 connectionProbability i j src tgt)
    (fun r => match r with
              | Some c =>
                  WithinReach neurons0 maxDistance0 c /\ Docked neurons0 c
              | None => True
              end).
Proof.
  intros Hsrc Htgt Hne.
  eapply postFair_weaken.
  - apply postFair_and_post.
    + now apply (connectPair_post neurons0 maxDistance0
                   connectionProbability i j src tgt).
    + apply connectPair_docked.
  - intros [c |] [Hreach Hdock]; [| exact I].
    split; [exact Hreach |]. destruct Hdock as [Hj Hd].
    exists tgt. rewrite Hj. now split.
Qed.

Lemma connectTargets_docked (i : nat) (src : NeuronData)
    (targets : list nat) (acc : list Connection) :
  neurons0 !! i = Some src ->
  Forall (fun c => WithinReach neurons0 maxDistance0 c /\ Docked neurons0 c)
    acc ->
  postFair (connectTargets neurons0 maxDistance0 connectionProbability i src
              targets acc)
    (Forall (fun c => WithinReach neurons0 maxDistance0 c
                      /\ Docked neurons0 c)).
Proof.
  intros Hsrc. revert acc.
  induction targets as [| j targets IH]; intros acc Hacc;
    cbn [connectTargets].
  - now apply postFair_ret.
  - destruct (Nat.eqb_spec i j) as [Heq | Hne]; [now apply IH |].
    destruct (neurons0 !! j) as [tgt |] eqn:Htgt; [| now apply IH].
    eapply postFair_bind; [now apply (connectPair_reach_docked i j src tgt) |].
    intros [c |] Hc; apply IH; [| assumption].
    apply Forall_app. split; [assumption | now constructor].
Qed.

Lemma connectSources_docked (sources : list nat) (acc : list Connection) :
  Forall (fun c => WithinReach neurons0 maxDistance0 c /\ Docked neurons0 c)
    acc ->
  postFair (connectSources neurons0 maxDistance0 connectionProbability
              sources acc)
    (Forall (fun c => WithinReach neurons0 maxDistance0 c
                      /\ Docked neurons0 c)).
Proof.
  revert acc. induction sources as [| i sources IH]; intros acc Hacc;
    cbn [connectSources].
  - now apply postFair_ret.
  - destruct (neurons0 !! i) as [src |] eqn:Hsrc; [| now apply IH].
    eapply postFair_bind; [now apply connectTargets_docked |].
    intros acc' Hacc'. now apply IH.
Qed.

Lemma connectNeurons_docked :
  postFair (connectNeurons neurons0 maxDistance0 connectionProbability)
    (Forall (fun c => WithinReach neurons0 maxDistance0 c
                      /\ Docked neurons0 c)).
Proof. apply connectSources_docked. constructor. Qed.

End DockedSynapses.

Section DockedNetwork.

Import Neuron NeuronLogic NetworkLogic.
Local Open Scope R_scope.


End DockedNetwork.


(** ** The pairs the random signals choose from *)

Section PairFacts.

Import Neuron NeuronLogic NetworkLogic RandomSignals.
Local Open Scope R_scope.

Lemma In_indexed (ns : list NeuronData) (s t : nat) (n : NeuronData) :
  In (t, n) (combine (seq s (List.length ns)) ns) ->
  (s <= t)%nat /\ ns !! (t - s)%nat = Some n.
Proof.
  revert s. induction ns as [| n0 ns IH]; intros s; cbn [List.length seq combine].
  - intros [].
  - intros [Heq | Hin].
    + injection Heq as <- <-. split; [lia |]. now rewrite Nat.sub_diag.
    + destruct (IH (S s) Hin) as [Hle Hlookup]. split; [lia |].
      replace (t - s)%nat with (S (t - S s)) by lia. exact Hlookup.
Qed.

Lemma findTarget_sound (k : nat) (to : Vector3)
    (candidates : list (nat * NeuronData)) (t : nat) :
  findTarget k to candidates = Some t ->
  t <> k
  /\ exists n : NeuronData,
       In (t, n) candidates /\ Vec.distanceTo (position n) to < 0.1.
Proof.
  induction candidates as [| [t0 n0] candidates IH]; cbn [findTarget];
    [discriminate |].
  destruct (negb (t0 =? k)%nat && Rltb _ 0.1) eqn:Htest.
  - intros Heq. injection Heq as <-.
    apply andb_true_iff in Htest as [Hne Hd].
    apply negb_true_iff, Nat.eqb_neq in Hne. apply Rltb_true in Hd.
    split; [exact Hne |]. exists n0. split; [now left | exact Hd].
  - intros Hrest. destruct (IH Hrest) as [Hne (n & Hin & Hd)].
    split; [exact Hne |]. exists n. split; [now right | exact Hd].
Qed.

Lemma findTarget_complete (k : nat) (to : Vector3) (ns : list NeuronData)
    (s j : nat) (n : NeuronData) :
  (s <= j)%nat ->
  ns !! (j - s)%nat = Some n ->
  j <> k ->
  Vec.distanceTo (position n) to < 0.1 ->
  exists t : nat,
    findTarget k to (combine (seq s (List.length ns)) ns) = Some t
    /\ (t <= j)%nat.
Proof.
  revert s. induction ns as [| n0 ns IH]; intros s Hle Hlookup Hne Hd;
    [discriminate |].
  cbn [List.length seq combine findTarget].
  destruct (negb (s =? k)%nat && Rltb _ 0.1) eqn:Htest.
  - exists s. split; [reflexivity | exact Hle].
  - destruct (Nat.eq_dec j s) as [-> | Hjs].
    + rewrite Nat.sub_diag in Hlookup. injection Hlookup as ->.
      apply andb_false_iff in Htest as [Htest | Htest].
      * apply negb_false_iff, Nat.eqb_eq in Htest. contradiction.
      * apply Rltb_false in Htest. lra.
    + destruct (IH (S s)) as (t & Ht & Hle'); try assumption; [lia | |].
      * replace (j - s)%nat with (S (j - S s)) in Hlookup by lia.
        exact Hlookup.
      * exists t. split; [exact Ht | exact Hle'].
Qed.

Lemma findPair_indexed (c : Connection) (all : list (nat * NeuronData))
    (ns : list NeuronData) (s : nat) :
  let m := Nat.min (source c) (target c) in
  (s <= m < s + List.length ns)%nat ->
  findPair c all (combine (seq s (List.length ns)) ns)
  = match findTarget m (userTo (synapse c)) all with
    | Some t => Some (mkPair m t c)
    | None => None
    end.
Proof.
  intros m. revert s. induction ns as [| n0 ns IH]; intros s Hm;
    cbn [List.length seq combine findPair] in *; [lia |].
  unfold includes.
  destruct (Nat.eqb_spec s (source c)) as [Hs | Hs];
    [| destruct (Nat.eqb_spec s (target c)) as [Ht | Ht]];
    cbn [orb].
  - assert (m = s) as -> by (subst m; lia). reflexivity.
  - assert (m = s) as -> by (subst m; lia). reflexivity.
  - apply IH. subst m. lia.
Qed.


End PairFacts.


(** ** The spacing of the random signals *)

Section DriverFacts.

Import Neuron NeuronLogic RandomSignals.
Local Open Scope R_scope.

Variable pairs : list Pair.

Lemma Spaced_app (l : list (R * Pair)) (t : R) (p : Pair) :
  Spaced l ->
  Forall (fun x => pairSource (snd x) = pairSource p -> fst x + 500 <= t) l ->
  Spaced (l ++ [(t, p)]).
Proof.
  induction l as [| [t0 p0] l IH]; intros Hl Hall; cbn [Spaced app].
  - split; constructor.
  - destruct Hl as [Hhead Htail].
    apply Forall_cons in Hall as [Hfirst Hrest]. cbn [fst snd] in Hfirst.
    split; [| now apply IH].
    apply Forall_app. split; [exact Hhead |].
    constructor; [| constructor]. cbn [fst snd].
    intros Heq. apply Hfirst. now symmetry.
Qed.

Lemma pick_In (r : R) (chosen : Pair) :
  pick pairs r = Some chosen -> In chosen pairs.
Proof.
  unfold pick. destruct (_ <? 0)%Z; [discriminate |].
  intros Hlookup. apply list_elem_of_In.
  now apply list_elem_of_lookup_2 in Hlookup.
Qed.

Lemma isAnimating_insert (d : Driver) (k k' : nat) (b : bool)
    (rs : list (R * nat)) (ls : list (R * Pair)) (t : R) :
  isAnimating (mkDriver (<[k := b]> (animating d)) rs ls t) k'
  = if Nat.eq_dec k k' then b else isAnimating d k'.
Proof.
  unfold isAnimating. cbn [animating].
  destruct (Nat.eq_dec k k') as [-> | Hne].
  - now rewrite lookup_insert_eq.
  - now rewrite lookup_insert_ne.
Qed.

(** One [triggerSignal] keeps the invariant and the clock. *)
Lemma triggerSignal_guarded (d : Driver) (e : Entropy) :
  Guarded pairs d ->
  Guarded pairs (fst (triggerSignal pairs d e))
  /\ now (fst (triggerSignal pairs d e)) = now d.
Proof.
  intros Hd. unfold triggerSignal, bind.
  destruct (Math_random e) as [r e1].
  destruct (pick pairs r) as [chosen |] eqn:Hpick;
    [| unfold ret; cbn [fst]; now split].
  destruct (isAnimating d (pairSource chosen)) eqn:Hflag;
    unfold ret; cbn [fst]; [now split |].
  split; [| reflexivity].
  destruct Hd as (Hspaced & Hin & Hk).
  pose proof (Hk (pairSource chosen)) as Hchosen. rewrite Hflag in Hchosen.
  destruct Hchosen as [Hnone Hold].
  unfold Guarded. cbn [launches now]. split; [| split].
  - apply Spaced_app; [exact Hspaced |].
    eapply Forall_impl; [exact Hold |]. cbv beta. tauto.
  - apply Forall_app. split; [exact Hin |].
    constructor; [| constructor]. cbn [snd]. now apply pick_In in Hpick.
  - intros k. rewrite isAnimating_insert.
    unfold pendingFor in *. cbn [releases launches now].
    rewrite List.filter_app. cbn [List.filter snd].
    destruct (Nat.eq_dec (pairSource chosen) k) as [<- | Hne].
    + rewrite Nat.eqb_refl, Hnone. exists (now d).
      split; [reflexivity |].
      apply Forall_app. split.
      * eapply Forall_impl; [exact Hold |]. cbv beta.
        intros x Hx Heq. specialize (Hx Heq). lra.
      * constructor; [| constructor]. cbn [fst]. intros _. lra.
    + assert ((pairSource chosen =? k)%nat = false) as ->
        by now apply Nat.eqb_neq.
      rewrite app_nil_r. specialize (Hk k).
      destruct (isAnimating d k).
      * destruct Hk as (T & Hpending & Hlaunches). exists T.
        split; [exact Hpending |].
        apply Forall_app. split; [exact Hlaunches |].
        constructor; [| constructor]. cbn [snd]. intros Heq. contradiction.
      * destruct Hk as [Hpending Hlaunches]. split; [exact Hpending |].
        apply Forall_app. split; [exact Hlaunches |].
        constructor; [| constructor]. cbn [snd]. intros Heq. contradiction.
Qed.

Lemma triggerSignals_guarded (iterations : nat) (d : Driver) (e : Entropy) :
  Guarded pairs d ->
  Guarded pairs (fst (triggerSignals iterations pairs d e)).
Proof.
  revert d e. induction iterations as [| k IH]; intros d e Hd;
    cbn [triggerSignals]; [exact Hd |].
  unfold bind.
  destruct (triggerSignal_guarded d e Hd) as [Hd' _].
  destruct (triggerSignal pairs d e) as [d' e'].
  now apply IH.
Qed.

(** Time may pass. *)
Lemma later_guarded (d : Driver) (t : R) :
  Guarded pairs d -> now d <= t ->
  Guarded pairs (mkDriver (animating d) (releases d) (launches d) t).
Proof.
  intros (Hspaced & Hin & Hk) Ht. unfold Guarded.
  cbn [launches now]. split; [exact Hspaced |]. split; [exact Hin |].
  intros k. specialize (Hk k). unfold isAnimating, pendingFor in *.
  cbn [animating releases launches now].
  destruct (default false (animating d !! k)); [exact Hk |].
  destruct Hk as [Hpending Hlaunches]. split; [exact Hpending |].
  eapply Forall_impl; [exact Hlaunches |]. cbv beta.
  intros x Hx Heq. specialize (Hx Heq). lra.
Qed.

Lemma filter_middle {A : Type} (f : A -> bool) (before after : list A)
    (x : A) :
  List.filter f (before ++ x :: after)
  = List.filter f before ++ (if f x then [x] else [])
    ++ List.filter f after.
Proof.
  rewrite List.filter_app. cbn [List.filter].
  now destruct (f x).
Qed.

(** A timer that is due releases its neuron. *)
Lemma release_guarded (d : Driver) (t due : R) (k : nat)
    (before after : list (R * nat)) :
  Guarded pairs d ->
  releases d = before ++ (due, k) :: after ->
  now d <= t ->
  due <= t ->
  Guarded pairs
    (release k (mkDriver (animating d) (before ++ after) (launches d) t)).
Proof.
  intros (Hspaced & Hin & Hk) Hreleases Ht Hdue. unfold Guarded, release.
  cbn [launches now animating releases].
  split; [exact Hspaced |]. split; [exact Hin |].
  intros k'. rewrite isAnimating_insert.
  pose proof (Hk k') as Hk'. unfold pendingFor in *.
  cbn [releases launches now].
  rewrite Hreleases, filter_middle in Hk'. cbn [snd] in Hk'.
  rewrite List.filter_app.
  destruct (Nat.eq_dec k k') as [<- | Hne].
  - rewrite Nat.eqb_refl in Hk'.
    destruct (isAnimating d k).
    + destruct Hk' as (T & Hpending & Hlaunches).
      destruct (List.filter _ before) as [| x xs];
        [| destruct xs; discriminate].
      cbn [app] in Hpending. injection Hpending as Hdue' Hafter.
      split; [now rewrite Hafter |].
      eapply Forall_impl; [exact Hlaunches |]. cbv beta.
      intros x Hx Heq. specialize (Hx Heq). lra.
    + destruct Hk' as [Hpending _].
      destruct (List.filter _ before); discriminate.
  - assert ((k =? k')%nat = false) as Hfalse by now apply Nat.eqb_neq.
    rewrite Hfalse in Hk'. cbn [app] in Hk'.
    destruct (isAnimating d k'); [exact Hk' |].
    destruct Hk' as [Hpending Hlaunches]. split; [exact Hpending |].
    eapply Forall_impl; [exact Hlaunches |]. cbv beta.
    intros x Hx Heq. specialize (Hx Heq). lra.
Qed.

Lemma step_guarded (s s' : Driver * Entropy) :
  Guarded pairs (fst s) -> step pairs s s' -> Guarded pairs (fst s').
Proof.
  intros Hs Hstep.
  destruct Hstep as [d e t Ht | d e t before due k after Hreleases Ht Hdue];
    cbn [fst] in *.
  - unfold tick, bind. destruct (Math_random e) as [r e1].
    apply triggerSignals_guarded. now apply later_guarded.
  - now apply (release_guarded d t due k before after).
Qed.

Lemma runs_guarded (s s' : Driver * Entropy) :
  Guarded pairs (fst s) -> runs pairs s s' -> Guarded pairs (fst s').
Proof.
  intros Hs Hruns. induction Hruns as [s | s s1 s2 Hstep Hruns IH];
    [exact Hs |].
  apply IH. now apply (step_guarded s s1).
Qed.

Lemma idle_guarded (t : R) : Guarded pairs (idle t).
Proof.
  unfold Guarded, idle. cbn [launches]. split; [exact I |].
  split; [constructor |]. intros k. unfold isAnimating, pendingFor.
  cbn [animating releases launches]. rewrite lookup_empty. cbn.
  split; [reflexivity | constructor].
Qed.

End DriverFacts.

Section DriverSpacing.

Import Neuron NeuronLogic RandomSignals.
Local Open Scope R_scope.

(** X15. The random signals of a network never start two propagations
    from the same neuron less than 500 ms apart. Started on a network no
    signal has touched, [startRandomNeuralSignals] returns [null] exactly
    when there is no network, no neuron or no pair; otherwise, after its
    first [triggerSignal] and however the interval's callback and the
    500 ms timers interleave, whatever [Math.random] returns: every
    launch is of a pair of [neuronPairs], and two launches with the same
    source neuron are at least 500 ms apart. *)
Theorem startRandomNeuralSignals_spaced (networkGroup : option Network)
    (t0 : R) (e : Entropy) :
  match startRandomNeuralSignals networkGroup (idle t0) e with
  | (Some (pairs, d0), e0) =>
      (exists net : Network,
         networkGroup = Some net /\ pairs = neuronPairs net
         /\ neurons net <> [] /\ pairs <> [])
      /\ forall (d : Driver) (e' : Entropy),
           runs pairs (d0, e0) (d, e') ->
           Spaced (launches d)
           /\ Forall (fun x => In (snd x) pairs) (launches d)
  | (None, e0) =>
      e0 = e
      /\ (networkGroup = None
          \/ exists net : Network,
               networkGroup = Some net
               /\ (neurons net = [] \/ neuronPairs net = []))
  end.
Proof.
  unfold startRandomNeuralSignals.
  destruct networkGroup as [net |]; [| cbn; split; [reflexivity | now left]].
  destruct (neurons net) as [| n ns] eqn:Hneurons.
  { cbn. split; [reflexivity |]. right. exists net. split; [reflexivity |].
    now left. }
  destruct (neuronPairs net) as [| p ps] eqn:Hpairs.
  { cbn. split; [reflexivity |]. right. exists net. split; [reflexivity |].
    now right. }
  unfold bind.
  pose proof (triggerSignal_guarded (p :: ps) (idle t0) e
                (idle_guarded (p :: ps) t0)) as [Hd0 _].
  destruct (triggerSignal (p :: ps) (idle t0) e) as [d0 e0].
  unfold ret. cbn [fst] in Hd0. split.
  - exists net. repeat split; congruence.
  - intros d e' Hruns.
    pose proof (runs_guarded (p :: ps) (d0, e0) (d, e') Hd0 Hruns)
      as (Hspaced & Hin & _).
    now split.
Qed.

End DriverSpacing.

(** ** The stages of a signal *)

Section StageEffects.

Import Signal SignalStages.
Local Open Scope R_scope.

Variable getPoint : list Vector3 -> R -> Vector3.

Lemma sourceFlash_effect (s : SomaId) (flashStart : R) (e : Color) (i : R)
    (w : World) :
  let w' := sourceFlash s flashStart e i w in
  timers w' = timers w /\ completed w' = completed w
  /\ signals w' = signals w /\ uncaught w' = uncaught w
  /\ clock w' = clock w
  /\ (frames w' = frames w
      \/ frames w' = frames w ++ [SourceFlash s flashStart e i]).
Proof.
  unfold sourceFlash. destruct (Rltb _ 1);
    cbn [requestAnimationFrame set_heap timers completed signals uncaught
         clock frames]; repeat split; auto.
Qed.

Lemma animate_effect (id : PulseId) (parent : SceneId) (w : World) :
  let w' := animate getPoint id parent w in
  timers w' = timers w /\ completed w' = completed w
  /\ signals w' = signals w /\ uncaught w' = uncaught w
  /\ clock w' = clock w
  /\ somas (heap w') = somas (heap w)
  /\ (frames w' = frames w \/ frames w' = frames w ++ [Animate id parent]).
Proof.
  unfold animate. destruct (pulses (heap w) !! id) as [p |];
    [| repeat split; auto].
  destruct (progressBelowOne _ _).
  - cbn [requestAnimationFrame set_heap set_pulse timers completed signals
         uncaught clock frames heap somas]. repeat split; auto.
  - assert (somas (Object3D_remove parent id (heap w)) = somas (heap w))
      as Hsomas.
    { unfold Object3D_remove. now destruct (existsb _ _). }
    destruct (pulses (Object3D_remove parent id (heap w)) !! id);
      cbn [set_heap set_pulse timers completed signals uncaught clock
           frames heap somas]; repeat split; auto.
Qed.

Lemma flash_effect (s : SomaId) (flashTime : R) (e : Color) (i : R)
    (w : World) :
  let w' := flash s flashTime e i w in
  timers w' = timers w /\ signals w' = signals w
  /\ uncaught w' = uncaught w /\ clock w' = clock w
  /\ ((frames w' = frames w ++ [Flash s flashTime e i]
       /\ completed w' = completed w /\ clock w < flashTime + 100)
      \/ (frames w' = frames w /\ completed w' = true
          /\ flashTime + 100 <= clock w)).
Proof.
  unfold flash. destruct (Rltb _ 1) eqn:Hprogress.
  - apply Rltb_true in Hprogress.
    cbn [requestAnimationFrame set_heap timers completed signals uncaught
         clock frames]. repeat split; auto. left. repeat split. lra.
  - apply Rltb_false in Hprogress.
    cbn [set_completed set_heap timers completed signals uncaught clock
         frames]. repeat split; auto. right. repeat split. lra.
Qed.

(** The callback of the 300 ms timer, for a target that is there. *)
Lemma afterTransit_effect (tgt : NeuronObj) (w : World) :
  let w' := afterTransit (Some tgt) w in
  timers w' = timers w /\ signals w' = signals w /\ clock w' = clock w
  /\ ((userData tgt = None /\ frames w' = frames w
       /\ completed w' = completed w
       /\ uncaught w' = uncaught w ++ [TypeError_userData_undefined])
      \/ (hasUserData (Some tgt) /\ uncaught w' = uncaught w
          /\ ((targetSoma (Some tgt) = None /\ frames w' = frames w
               /\ completed w' = true)
              \/ (frames w' = frames w /\ completed w' = completed w)
              \/ (exists (s : SomaId) (e : Color) (i : R),
                    frames w' = frames w ++ [Flash s (clock w) e i]
                    /\ completed w' = completed w)))).
Proof.
  unfold afterTransit, hasUserData, targetSoma.
  destruct (userData tgt) as [data |] eqn:Hdata.
  - destruct (soma data) as [id |] eqn:Hsoma.
    + destruct (somas (heap w) !! id) as [s |].
      * destruct (flash_effect id (clock w) (somaEmissive s)
                    (somaEmissiveIntensity s) w)
          as (Ht & Hs & Hu & Hc & [(Hf & Hd & _) | (_ & _ & Hlate)]);
          [| lra].
        do 3 (split; [assumption |]).
        right. split; [now exists tgt, data |].
        split; [exact Hu |]. right. right. eauto.
      * do 3 (split; [reflexivity |]).
        right. split; [now exists tgt, data |].
        split; [reflexivity |]. right. left. now split.
    + cbn [set_completed timers signals clock uncaught frames completed].
      do 3 (split; [reflexivity |]).
      right. split; [now exists tgt, data |].
      split; [reflexivity |]. left. now repeat split.
  - cbn [throw timers signals clock uncaught frames completed].
    do 3 (split; [reflexivity |]). left. now repeat split.
Qed.

(** The callback of the 75 ms timer. *)
Lemma transit_effect (synapse : option SynapseObj)
    (target : option NeuronObj) (scene : SceneId) (w : World) :
  let w' := transit getPoint synapse target scene w in
  uncaught w' = uncaught w /\ clock w' = clock w
  /\ (((synapse = None \/ target = None \/
        exists syn : SynapseObj, synapse = Some syn /\ geometry syn = None)
       /\ w' = set_completed true w)
      \/ (pointsOf synapse = None /\ w' = w)
      \/ (is_Some (pointsOf synapse)
          /\ (exists tgt : NeuronObj, target = Some tgt)
          /\ completed w' = completed w
          /\ signals w' <> []
          /\ timers w' = timers w ++ [(clock w + 300, AfterTransit target)]
          /\ exists id : PulseId,
               frames w' = frames w ++ [Animate id scene])).
Proof.
  destruct synapse as [syn |];
    [| cbn; do 2 (split; [reflexivity |]); left; split; auto].
  destruct target as [tgt |];
    [| cbn; do 2 (split; [reflexivity |]); left; split; auto].
  destruct (geometry syn) as [geom |] eqn:Hgeom.
  - destruct (positionAttribute geom) as [[| pt points] |] eqn:Hpoints.
    + cbn [transit]. rewrite Hgeom, Hpoints. cbn [List.length Nat.ltb Nat.leb].
      do 2 (split; [reflexivity |]). right. left.
      unfold pointsOf. rewrite Hgeom, Hpoints. now split.
    + destruct (transit_with_synapse getPoint syn geom (pt :: points) tgt
                  scene w Hgeom Hpoints ltac:(discriminate))
        as (Hc & Hs & Hlen & Ht & Hf).
      assert (uncaught (transit getPoint (Some syn) (Some tgt) scene w)
              = uncaught w
              /\ clock (transit getPoint (Some syn) (Some tgt) scene w)
                 = clock w) as [Hu Hclock].
      { cbn [transit]. rewrite Hgeom, Hpoints.
        cbn [List.length Nat.ltb Nat.leb].
        pose proof (createSignalPulse_pulse getPoint (pt :: points) scene
                      300 0x00ff00 0.012 w ltac:(lra))
          as (p & _ & _ & _ & _ & _ & _ & _ & _ & Hclock).
        assert (uncaught (fst (createSignalPulse getPoint
                                 (Some (pt :: points)) (Some scene) 300
                                 0x00ff00 0.012 w)) = uncaught w) as Hu.
        { cbn [createSignalPulse fst].
          apply (animate_effect _ _ (set_heap _ w)). }
        destruct (createSignalPulse getPoint (Some (pt :: points))
                    (Some scene) 300 0x00ff00 0.012 w) as [w1 [id |]];
          cbn [fst] in *; [| now split].
        cbn [setTimeout push_signal set_heap uncaught clock]. now split. }
      split; [exact Hu |]. split; [exact Hclock |]. right. right.
      split; [unfold pointsOf; rewrite Hgeom, Hpoints; now eexists |].
      split; [now exists tgt |]. split; [exact Hc |].
      split; [rewrite Hs; now destruct (signals w) |].
      split; [exact Ht |]. eexists. exact Hf.
    + cbn [transit]. rewrite Hgeom, Hpoints. cbn [List.length Nat.ltb Nat.leb].
      do 2 (split; [reflexivity |]). right. left.
      unfold pointsOf. rewrite Hgeom, Hpoints. now split.
  - cbn [transit]. rewrite Hgeom.
    cbn [set_completed uncaught clock]. do 2 (split; [reflexivity |]).
    left. split; [| reflexivity]. right. right. now exists syn.
Qed.

End StageEffects.

Section StageInvariant.

Import Signal SignalStages.
Local Open Scope R_scope.

Variable getPoint : list Vector3 -> R -> Vector3.
Variable now : R.
Variable synapse : option SynapseObj.
Variable target : option NeuronObj.
Variable scene : SceneId.

Lemma finished_later (w w' : World) :
  Finished now synapse target w -> clock w <= clock w' ->
  Finished now synapse target w'.
Proof.
  intros [Hdeg | (Hp & Hu & H375 & Hsoma)] Hle; [now left | right].
  repeat split; try assumption; [lra |].
  destruct Hsoma as [Hnone | H475]; [now left | right; lra].
Qed.

Lemma existsb_remove_middle {A : Type} (f : A -> bool)
    (before after : list A) (x : A) :
  existsb f (before ++ after) = true ->
  existsb f (before ++ x :: after) = true.
Proof.
  rewrite !existsb_app. cbn [existsb]. rewrite !orb_true_iff. tauto.
Qed.

Lemma existsb_requeue {A : Type} (f : A -> bool) (before after : list A)
    (x : A) :
  existsb f ((before ++ after) ++ [x]) = true ->
  existsb f (before ++ x :: after) = true.
Proof.
  rewrite !existsb_app. cbn [existsb]. rewrite orb_false_r.
  rewrite !orb_true_iff. tauto.
Qed.

Lemma existsb_false_iff {A : Type} (f : A -> bool) (l : list A) :
  existsb f l = false <-> ~ (existsb f l = true).
Proof. destruct (existsb f l); split; congruence. Qed.

Lemma Forall_remove_middle {A : Type} (P : A -> Prop)
    (before after : list A) (x : A) :
  Forall P (before ++ x :: after) -> P x /\ Forall P (before ++ after).
Proof.
  intros H. apply Forall_app in H as [Hb Hxa].
  apply Forall_cons in Hxa as [Hx Ha].
  split; [exact Hx |]. apply Forall_app. now split.
Qed.

Lemma sourceFlash_not_flash (fs : list Callback) :
  forallb isSourceFlash fs = true -> existsb isFlash fs = false.
Proof.
  induction fs as [| cb fs IH]; [reflexivity |]. cbn.
  rewrite andb_true_iff. intros [Hcb Hfs]. rewrite (IH Hfs).
  now destruct cb.
Qed.

(** A callback that ran from the frame queue and at most asked for
    itself again, touching nothing else the stages depend on. *)
Lemma staged_requeue (w w' : World) (before after : list Callback)
    (cb : Callback) :
  Staged now synapse target scene w ->
  frames w = before ++ cb :: after ->
  clock w <= clock w' ->
  timers w' = timers w -> completed w' = completed w ->
  signals w' = signals w -> uncaught w' = uncaught w ->
  (frames w' = before ++ after \/ frames w' = (before ++ after) ++ [cb]) ->
  Staged now synapse target scene w'.
Proof.
  intros (Hok & Hthrown & Hstage) Hframes Hclock Ht Hc Hs Hu Hf.
  rewrite Hframes in *.
  destruct (Forall_remove_middle _ _ _ _ Hok) as [Hcb Hrest].
  unfold Staged. rewrite Ht, Hc, Hs, Hu.
  split; [| split; [exact Hthrown |]].
  { destruct Hf as [-> | ->]; [exact Hrest |].
    apply Forall_app. split; [exact Hrest | now constructor]. }
  destruct Hstage as [(Hfalse & Hsig & Hall & Htm & Hnow)
                      | [(Hfalse & Hp & Hnone & tgt & T1 & Htgt & HT1 & Hle
                          & Htm)
                        | (Htm & H75 & Hfin & Hflash)]].
  - left. repeat split; try assumption; [| lra].
    apply forallb_remove_middle in Hall as [Hcb' Hrest'].
    destruct Hf as [-> | ->]; [exact Hrest' |].
    rewrite forallb_app, Hrest'. cbn. now rewrite Hcb'.
  - right. left. repeat split; try assumption.
    + apply existsb_false_iff. intros Htrue.
      apply existsb_false_iff in Hnone. apply Hnone.
      destruct Hf as [Hf | Hf]; rewrite Hf in Htrue;
        [now apply existsb_remove_middle | now apply existsb_requeue].
    + exists tgt, T1. repeat split; try assumption. lra.
  - assert (existsb isFlash (frames w') = true ->
            existsb isFlash (before ++ cb :: after) = true) as Hold.
    { intros Htrue. destruct Hf as [Hf | Hf]; rewrite Hf in Htrue;
        [now apply existsb_remove_middle | now apply existsb_requeue]. }
    right. right. split; [exact Htm |]. split; [lra |]. split.
    + intros Htrue. apply (finished_later w); [now apply Hfin | exact Hclock].
    + intros Htrue. destruct (Hflash (Hold Htrue)) as (Hp & Hu' & H375).
      repeat split; try assumption. lra.
Qed.

End StageInvariant.

Section StageSteps.

Import Signal SignalStages.
Local Open Scope R_scope.

Variable getPoint : list Vector3 -> R -> Vector3.
Variable now : R.
Variable synapse : option SynapseObj.
Variable target : option NeuronObj.
Variable scene : SceneId.

(** One step of the event loop keeps the stages, and tells how late it
    is when a frame of the pulse or a callback of the target flash
    runs. *)
Lemma staged_step (w w' : World) (cb : Callback) :
  Staged now synapse target scene w ->
  step getPoint w cb w' ->
  Staged now synapse target scene w'
  /\ clock w <= clock w'
  /\ (isSynapseTransit cb = true -> now + 75 <= clock w')
  /\ (isTargetFlash cb = true -> now + 375 <= clock w').
Proof.
  intros Hw Hstep.
  inversion Hstep as [w0 t before cb0 after Hframes Ht
                     | w0 t before due cb0 after Htimers Ht Hdue]; subst.
  - (* a frame *)
    set (w1 := at_time t (before ++ after) (timers w) w).
    pose proof Hw as (Hok & Hthrown & Hstage).
    rewrite Hframes in Hok.
    destruct (Forall_remove_middle _ _ _ _ Hok) as [Hcb Hrest].
    assert (forall w2 : World,
              timers w2 = timers w1 -> completed w2 = completed w1 ->
              signals w2 = signals w1 -> uncaught w2 = uncaught w1 ->
              clock w2 = clock w1 ->
              (frames w2 = frames w1 \/ frames w2 = frames w1 ++ [cb]) ->
              Staged now synapse target scene w2 /\ clock w <= clock w2)
      as Hrequeue.
    { intros w2 H1 H2 H3 H4 H5 H6. split; [| rewrite H5; exact Ht].
      apply (staged_requeue now synapse target scene w w2 before after cb);
        try assumption; rewrite ?H5; try exact Ht. }
    assert (isSourceFlash cb = false ->
            now + 75 <= clock w
            /\ (isFlash cb = true ->
                timers w = [] /\ is_Some (pointsOf synapse)
                /\ hasUserData target /\ now + 375 <= clock w
                /\ (completed w = true -> Finished now synapse target w)))
      as Hlate.
    { intros Hnot.
      destruct Hstage as [(_ & _ & Hall & _)
                          | [(_ & _ & Hnone & tgt & T1 & _ & HT1 & Hle & _)
                            | (Htm & H75 & Hfin & Hflash)]].
      - rewrite Hframes in Hall.
        apply forallb_remove_middle in Hall as [Hcb' _]. congruence.
      - split; [lra |]. intros Hfl. rewrite Hframes in Hnone.
        rewrite existsb_app in Hnone. cbn [existsb] in Hnone.
        rewrite Hfl, orb_true_r in Hnone. discriminate.
      - split; [exact H75 |]. intros Hfl.
        destruct Hflash as (Hp & Hu & H375).
        { rewrite Hframes, existsb_app. cbn [existsb].
          now rewrite Hfl, orb_true_r. }
        now repeat split. }
    destruct cb as [s fs e i | | id parent | | s ft e i];
      cbn [frameOK] in Hcb; try contradiction; cbn [run].
    + destruct (sourceFlash_effect s fs e i w1)
        as (H1 & H2 & H3 & H4 & H5 & H6).
      destruct (Hrequeue _ H1 H2 H3 H4 H5 H6) as [Hstaged Hclock].
      split; [exact Hstaged |]. split; [exact Hclock |].
      split; discriminate.
    + destruct (animate_effect getPoint id parent w1)
        as (H1 & H2 & H3 & H4 & H5 & _ & H6).
      destruct (Hrequeue _ H1 H2 H3 H4 H5 H6) as [Hstaged Hclock].
      destruct (Hlate eq_refl) as [H75 _].
      split; [exact Hstaged |]. split; [exact Hclock |].
      split; [| discriminate].
      intros _. rewrite H5. cbn [w1 at_time clock]. lra.
    + destruct (Hlate eq_refl) as [H75 Hfl].
      destruct (Hfl eq_refl) as (Htm & Hp & Hu & H375 & Hfin).
      destruct (flash_effect s ft e i w1)
        as (H1 & H3 & H4 & H5 & [(H6 & H2 & _) | (H6 & H2 & Hend)]).
      * destruct (Hrequeue _ H1 H2 H3 H4 H5 (or_intror H6))
          as [Hstaged Hclock].
        split; [exact Hstaged |]. split; [exact Hclock |].
        split; [discriminate |].
        intros _. rewrite H5. cbn [w1 at_time clock]. lra.
      * cbn [w1 at_time clock] in Hend, H5.
        split; [| rewrite H5; repeat split; try lra; discriminate].
        unfold Staged. rewrite H1, H2, H3, H4, H5, H6.
        cbn [w1 at_time frames timers uncaught].
        split; [exact Hrest |]. split; [exact Hthrown |].
        right. right. split; [exact Htm |]. split; [lra |]. split.
        -- intros _. right. repeat split; try assumption; [lra |].
           right. lra.
        -- intros _. repeat split; try assumption. lra.
  - (* a timer *)
    set (w1 := at_time t (frames w) (before ++ after) w).
    destruct Hw as (Hok & Hthrown & Hstage).
    destruct Hstage as [(Hfalse & Hsig & Hall & Htm & Hnow)
                        | [(Hfalse & Hp & Hnone & tgt & T1 & Htgt & HT1 & Hle
                            & Htm)
                          | (Htm & _)]].
    + (* the 75 ms timer *)
      rewrite Htm in Htimers.
      destruct before as [| x before];
        [| destruct before; discriminate].
      injection Htimers as <- <- <-. cbn [run].
      destruct (transit_effect getPoint synapse target scene w1)
        as (Hu & Hclock & Hcases).
      cbn [w1 at_time clock uncaught] in Hu, Hclock.
      split; [| rewrite Hclock; repeat split; try lra; discriminate].
      pose proof (sourceFlash_not_flash _ Hall) as Hnoflash.
      destruct Hcases as [[Hdeg ->] | [[Hnop ->] | (Hpts & [tgt Htgt] & Hc
                                                    & Hs & Ht' & id & Hf)]].
      * unfold Staged.
        cbn [set_completed w1 at_time frames uncaught completed timers
             clock app].
        split; [exact Hok |]. split; [exact Hthrown |].
        right. right. split; [reflexivity |]. split; [exact Hdue |].
        split; [intros _; now left |].
        intros Htrue. congruence.
      * unfold Staged.
        cbn [w1 at_time frames uncaught completed timers clock app].
        split; [exact Hok |]. split; [exact Hthrown |].
        right. right. split; [reflexivity |]. split; [exact Hdue |].
        split; [intros Htrue; congruence |].
        intros Htrue. congruence.
      * unfold Staged. rewrite Hu, Hc, Ht', Hf, Hclock.
        cbn [w1 at_time frames uncaught completed timers clock app].
        split; [apply Forall_app; split; [exact Hok | now constructor] |].
        split; [exact Hthrown |].
        right. left. split; [exact Hfalse |]. split; [exact Hpts |].
        split; [rewrite existsb_app, Hnoflash; reflexivity |].
        exists tgt, t. rewrite Htgt. repeat split; lra.
    + (* the 300 ms timer *)
      rewrite Htm in Htimers.
      destruct before as [| x before];
        [| destruct before; discriminate].
      injection Htimers as <- <- <-. cbn [run].
      destruct (afterTransit_effect tgt w1) as (Ht' & Hs & Hclock & Hcases).
      cbn [w1 at_time clock timers signals app] in Ht', Hs, Hclock.
      split; [| rewrite Hclock; repeat split; try lra; discriminate].
      destruct Hcases as [(Hnodata & Hf & Hc & Hu)
                          | (Hdata & Hu & [(Hnosoma & Hf & Hc)
                                          | [(Hf & Hc)
                                            | (s & e & i & Hf & Hc)]])];
        unfold Staged; rewrite Ht', Hf, Hc, Hu, Hclock;
        cbn [w1 at_time frames uncaught completed timers clock].
      * split; [exact Hok |].
        split; [intros _; split; [exact Hp |]; now exists tgt |].
        right. right. split; [reflexivity |]. split; [lra |].
        split; [intros Htrue; congruence |].
        intros Htrue. congruence.
      * split; [exact Hok |]. split; [exact Hthrown |].
        right. right. split; [reflexivity |]. split; [lra |].
        split; [| intros Htrue; congruence].
        intros _. right. rewrite Htgt.
        repeat split; try assumption; [lra | now left].
      * split; [exact Hok |]. split; [exact Hthrown |].
        right. right. split; [reflexivity |]. split; [lra |].
        split; [intros Htrue; congruence |].
        intros Htrue. congruence.
      * split; [apply Forall_app; split; [exact Hok |];
                constructor; [cbn; lra | constructor] |].
        split; [exact Hthrown |].
        right. right. split; [reflexivity |]. split; [lra |].
        split; [intros Htrue; congruence |].
        intros _. rewrite Htgt. repeat split; try assumption. lra.
    + rewrite Htm in Htimers. destruct before; discriminate.
Qed.

(** A run keeps the stages. *)
Lemma staged_runs (w w' : World) (cbs : list Callback) :
  Staged now synapse target scene w ->
  runs getPoint w cbs w' ->
  Staged now synapse target scene w'
  /\ clock w <= clock w'
  /\ (existsb isSynapseTransit cbs = true -> now + 75 <= clock w')
  /\ (existsb isTargetFlash cbs = true -> now + 375 <= clock w').
Proof.
  intros Hw Hruns.
  induction Hruns as [w | w cb w1 cbs w2 Hstep Hruns IH].
  - split; [exact Hw |]. split; [lra |]. split; discriminate.
  - destruct (staged_step w w1 cb Hw Hstep) as (Hw1 & Hle & H75 & H375).
    destruct (IH Hw1) as (Hw2 & Hle' & H75' & H375').
    split; [exact Hw2 |]. split; [lra |]. cbn [existsb].
    split; intros Htrue; apply orb_true_iff in Htrue as [Hcb | Hcbs].
    + specialize (H75 Hcb). lra.
    + now apply H75'.
    + specialize (H375 Hcb). lra.
    + now apply H375'.
Qed.

End StageSteps.

Section StageTheorems.

Import Signal SignalStages.
Local Open Scope R_scope.

Variable getPoint : list Vector3 -> R -> Vector3.

(** The call itself: the first stage, at the time of the call. *)
Lemma animateNeuralSignalPropagation_staged (source : NeuronObj)
    (data : UserData) (target : option NeuronObj)
    (synapse : option SynapseObj) (scene windowScene : option SceneId)
    (sc : SceneId) (h : Heap) (now : R) :
  userData source = Some data ->
  match scene with Some s => Some s | None => windowScene end = Some sc ->
  exists w0 : World,
    animateNeuralSignalPropagation (Some source) target synapse scene
      windowScene h now = Some w0
    /\ Staged now synapse target sc w0.
Proof.
  intros Hdata Hscene.
  destruct (animateNeuralSignalPropagation_quiet source data target synapse
              scene windowScene sc h now Hdata Hscene)
    as (w0 & Hcall & (_ & _ & Hs & Hu & Hf & Htm) & Hfalse).
  exists w0. split; [exact Hcall |].
  assert (clock w0 = now) as Hclock.
  { unfold animateNeuralSignalPropagation in Hcall.
    rewrite Hdata, Hscene in Hcall. injection Hcall as <-.
    cbn [setTimeout clock].
    destruct (soma data) as [id |]; [| reflexivity].
    destruct (somas h !! id) as [s |]; [| reflexivity].
    apply (sourceFlash_effect id now _ _ (mkWorld h false [] [] [] now [])). }
  unfold Staged. split; [| split].
  - clear -Hf. induction (frames w0) as [| cb fs IH]; constructor.
    + cbn in Hf. apply andb_true_iff in Hf as [Hcb _]. now destruct cb.
    + apply IH. cbn in Hf. now apply andb_true_iff in Hf as [_ Hfs].
  - intros Hthrown. congruence.
  - left. destruct Htm as [[_ Htm] | [Htrue _]]; [| congruence].
    repeat split; try assumption. lra.
Qed.

(** X16. The stages keep their times. After a call at time [now], at
    whatever later times the frames and the two timers run: no frame of
    the signal pulse runs and no pulse exists before 75 ms have passed;
    no callback of the target flash runs before 375 ms; and [completed]
    is never set before 75 ms, nor -- when the synapse has points and
    there is a target -- before 375 ms, nor before 475 ms when the target
    has a soma to flash. *)
Theorem animateNeuralSignalPropagation_stage_times (source : NeuronObj)
    (data : UserData) (target : option NeuronObj)
    (synapse : option SynapseObj) (scene windowScene : option SceneId)
    (sc : SceneId) (h : Heap) (now : R) :
  userData source = Some data ->
  match scene with Some s => Some s | None => windowScene end = Some sc ->
  exists w0 : World,
    animateNeuralSignalPropagation (Some source) target synapse scene
      windowScene h now = Some w0
    /\ forall (cbs : list Callback) (w : World),
         runs getPoint w0 cbs w ->
         now <= clock w
         /\ (existsb isSynapseTransit cbs = true -> now + 75 <= clock w)
         /\ (signals w <> [] -> now + 75 <= clock w)
         /\ (existsb isTargetFlash cbs = true -> now + 375 <= clock w)
         /\ (completed w = true ->
             now + 75 <= clock w
             /\ (is_Some (pointsOf synapse) -> target <> None ->
                 now + 375 <= clock w
                 /\ (is_Some (targetSoma target) -> now + 475 <= clock w))).
Proof.
  intros Hdata Hscene.
  destruct (animateNeuralSignalPropagation_staged source data target synapse
              scene windowScene sc h now Hdata Hscene)
    as (w0 & Hcall & Hw0).
  exists w0. split; [exact Hcall |]. intros cbs w Hruns.
  destruct (staged_runs getPoint now synapse target sc w0 w cbs Hw0 Hruns)
    as ((_ & _ & Hstage) & Hle & H75 & H375).
  assert (now <= clock w0) as Hnow.
  { destruct Hw0 as (_ & _ & [(_ & _ & _ & _ & H)
                             | [(_ & _ & _ & tgt & T1 & _ & H1 & H2 & _)
                               | (_ & H & _)]]); lra. }
  split; [lra |]. split; [exact H75 |].
  split; [| split; [exact H375 |]].
  - intros Hsignals.
    destruct Hstage as [(_ & Hs & _)
                        | [(_ & _ & _ & tgt & T1 & _ & H1 & H2 & _)
                          | (_ & H & _)]]; [contradiction | lra | lra].
  - intros Htrue.
    destruct Hstage as [(Hfalse & _)
                        | [(Hfalse & _) | (_ & H & Hfin & _)]];
      [congruence | congruence |].
    split; [exact H |]. intros Hpoints Htarget.
    destruct (Hfin Htrue)
      as [[-> | [-> | (syn & -> & Hgeom)]] | (_ & _ & Hlate & Hsoma)].
    + destruct Hpoints as [x Hx]. discriminate.
    + contradiction.
    + destruct Hpoints as [x Hx]. cbn in Hx. rewrite Hgeom in Hx.
      discriminate.
    + split; [exact Hlate |]. intros [x Hx].
      destruct Hsoma as [Hnone | H475]; [congruence | exact H475].
Qed.

(** X17. A signal that never completes. When the synapse has a geometry
    but no usable [position] attribute (none, or an empty one), the 75 ms
    timer does nothing at all -- not even [completed = true]; and when
    the target has no [userData], the 300 ms timer throws on
    [targetNeuron.userData.soma]. In both cases [completed] stays false
    for ever, whatever runs later; and an error is thrown only in the
    second case. *)
Theorem animateNeuralSignalPropagation_never_completes
    (source : NeuronObj) (data : UserData) (tgt : NeuronObj)
    (syn : SynapseObj) (geom : Geometry)
    (scene windowScene : option SceneId) (sc : SceneId) (h : Heap)
    (now : R) :
  userData source = Some data ->
  match scene with Some s => Some s | None => windowScene end = Some sc ->
  geometry syn = Some geom ->
  positionAttribute geom = None \/ positionAttribute geom = Some []
  \/ userData tgt = None ->
  exists w0 : World,
    animateNeuralSignalPropagation (Some source) (Some tgt) (Some syn) scene
      windowScene h now = Some w0
    /\ forall (cbs : list Callback) (w : World),
         runs getPoint w0 cbs w ->
         completed w = false
         /\ (uncaught w <> [] ->
             userData tgt = None /\ is_Some (pointsOf (Some syn))).
Proof.
  intros Hdata Hscene Hgeom Hodd.
  destruct (animateNeuralSignalPropagation_staged source data (Some tgt)
              (Some syn) scene windowScene sc h now Hdata Hscene)
    as (w0 & Hcall & Hw0).
  exists w0. split; [exact Hcall |]. intros cbs w Hruns.
  destruct (staged_runs getPoint now (Some syn) (Some tgt) sc w0 w cbs Hw0
              Hruns) as ((_ & Hthrown & Hstage) & _).
  split.
  - destruct (completed w) eqn:Hc; [exfalso | reflexivity].
    destruct Hstage as [(Hfalse & _)
                        | [(Hfalse & _) | (_ & _ & Hfin & _)]];
      [congruence | congruence |].
    destruct (Hfin eq_refl)
      as [[Hsyn | [Htgt | (syn' & Hsyn & Hgeom')]]
         | ([pts Hpts] & (t & d & Ht & Hd) & _)];
      try discriminate.
    + injection Hsyn as <-. congruence.
    + injection Ht as <-. cbn in Hpts. rewrite Hgeom in Hpts.
      destruct Hodd as [Hnone | [Hempty | Hnodata]].
      * rewrite Hnone in Hpts. discriminate.
      * rewrite Hempty in Hpts. discriminate.
      * congruence.
  - intros Hu. destruct (Hthrown Hu) as (Hpts & t & Ht & Hnodata).
    injection Ht as <-. now split.
Qed.

End StageTheorems.

Lemma animateNeuralSignalPropagation_stage_times_witness :
  exists w0 : Signal.World,
    Signal.animateNeuralSignalPropagation (Some Examples.soloNeuron)
      (Some Examples.soloNeuron) None (Some 1%positive) None
      Examples.soloHeap 0 = Some w0
    /\ forall (cbs : list Signal.Callback) (w : Signal.World),
         Signal.runs Examples.firstPoint w0 cbs w ->
         Signal.completed w = true -> (0 + 75 <= Signal.clock w)%R.
Proof.
  destruct (animateNeuralSignalPropagation_stage_times Examples.firstPoint
              Examples.soloNeuron (Signal.mkUserData (Some 1%positive))
              (Some Examples.soloNeuron) None (Some 1%positive) None
              1%positive Examples.soloHeap 0)
    as (w0 & Hcall & Hruns).
  - reflexivity.
  - reflexivity.
  - exists w0. split; [exact Hcall |].
    intros cbs w Hrun Hdone.
    destruct (Hruns cbs w Hrun) as (_ & _ & _ & _ & Hcompleted).
    now apply Hcompleted.
Defined.

Lemma animateNeuralSignalPropagation_never_completes_witness :
  exists w0 : Signal.World,
    Signal.animateNeuralSignalPropagation (Some Examples.soloNeuron)
      (Some Samples.bareNeuron) (Some Samples.bareSynapse)
      (Some 1%positive) None Examples.soloHeap 0 = Some w0
    /\ forall (cbs : list Signal.Callback) (w : Signal.World),
         Signal.runs Examples.firstPoint w0 cbs w ->
         Signal.completed w = false.
Proof.
  destruct (animateNeuralSignalPropagation_never_completes
              Examples.firstPoint Examples.soloNeuron
              (Signal.mkUserData (Some 1%positive)) Samples.bareNeuron
              Samples.bareSynapse (Signal.mkGeometry None)
              (Some 1%positive) None 1%positive Examples.soloHeap 0)
    as (w0 & Hcall & Hruns).
  - reflexivity.
  - reflexivity.
  - reflexivity.
  - left. reflexivity.
  - exists w0. split; [exact Hcall |].
    intros cbs w Hrun. now apply (Hruns cbs w Hrun).
Defined.

(** ** The source soma gets its material back *)

Section SourceSoma.

Import Signal SignalStages.
Local Open Scope R_scope.

Variable getPoint : list Vector3 -> R -> Vector3.

Lemma sourceFlash_soma (s : SomaId) (flashStart : R) (e : Color) (i : R)
    (w : World) :
  let w' := sourceFlash s flashStart e i w in
  timers w' = timers w
  /\ (frames w' = frames w ++ [SourceFlash s flashStart e i]
      \/ (frames w' = frames w
          /\ somas (heap w') !! s = Some (mkSoma e i))).
Proof.
  unfold sourceFlash. destruct (Rltb _ 1);
    cbn [requestAnimationFrame set_heap set_soma timers frames heap somas].
  - split; [reflexivity | now left].
  - split; [reflexivity | right]. split; [reflexivity |].
    apply lookup_insert_eq.
Qed.

Lemma flash_soma (s' : SomaId) (flashTime : R) (e : Color) (i : R)
    (w : World) (s : SomaId) :
  s' <> s ->
  let w' := flash s' flashTime e i w in
  timers w' = timers w
  /\ somas (heap w') !! s = somas (heap w) !! s
  /\ (frames w' = frames w \/ frames w' = frames w ++ [Flash s' flashTime e i]).
Proof.
  intros Hne. unfold flash. destruct (Rltb _ 1);
    cbn [requestAnimationFrame set_completed set_heap set_soma timers
         frames heap somas];
    (split; [reflexivity |]); (split; [now apply lookup_insert_ne |]);
    auto.
Qed.

Lemma Object3D_remove_somas (parent : SceneId) (id : PulseId) (h : Heap) :
  somas (Object3D_remove parent id h) = somas h.
Proof. unfold Object3D_remove. now destruct (existsb _ _). Qed.

Lemma Object3D_add_somas (parent : SceneId) (id : PulseId) (h : Heap) :
  somas (Object3D_add parent id h) = somas h.
Proof.
  unfold Object3D_add. cbn [somas].
  destruct (pulses h !! id) as [p |]; [| reflexivity].
  destruct (pulseParent p); [apply Object3D_remove_somas | reflexivity].
Qed.

Lemma createSignalPulse_somas (curve : option (list Vector3))
    (parent : option SceneId) (duration : R) (color : Z) (size : R)
    (w : World) :
  somas (heap (fst (createSignalPulse getPoint curve parent duration color
                      size w)))
  = somas (heap w).
Proof.
  destruct curve as [curve |], parent as [parent |]; try reflexivity.
  cbn [createSignalPulse fst].
  match goal with
  | |- somas (heap (animate _ _ _ ?w1)) = _ =>
      destruct (animate_effect getPoint (List.length (pulses (heap w)))
                  parent w1) as (_ & _ & _ & _ & _ & -> & _)
  end.
  cbn [set_heap heap].
  match goal with
  | |- somas (match ?x with Some _ => _ | None => _ end) = _ => destruct x
  end; cbn [set_pulse somas]; now rewrite Object3D_add_somas.
Qed.

Lemma transit_soma (synapse : option SynapseObj)
    (target : option NeuronObj) (scene : SceneId) (w : World) :
  let w' := transit getPoint synapse target scene w in
  somas (heap w') = somas (heap w)
  /\ (frames w' = frames w
      \/ exists id : PulseId, frames w' = frames w ++ [Animate id scene])
  /\ (timers w' = timers w
      \/ timers w' = timers w ++ [(clock w + 300, AfterTransit target)]).
Proof.
  destruct (transit_effect getPoint synapse target scene w)
    as (_ & _ & [[_ Heq] | [[_ Heq] | (_ & _ & _ & _ & Ht & id & Hf)]]).
  - cbv zeta. rewrite Heq. cbn. auto.
  - cbv zeta. rewrite Heq. auto.
  - split; [| split; [right; now exists id | now right]].
    unfold transit.
    destruct synapse as [syn |]; [| reflexivity].
    destruct target as [tgt |]; [| reflexivity].
    destruct (geometry syn) as [geom |]; [| reflexivity].
    destruct (positionAttribute geom) as [points |]; [| reflexivity].
    destruct (0 <? List.length points)%nat; [| reflexivity].
    pose proof (createSignalPulse_somas (Some points) (Some scene) 300
                  0x00ff00 0.012 w) as Hsomas.
    destruct (createSignalPulse getPoint (Some points) (Some scene) 300
                0x00ff00 0.012 w) as [w1 [id' |]]; cbn [fst] in Hsomas;
      [| exact Hsomas].
    cbn [setTimeout push_signal set_heap heap].
    now rewrite Object3D_add_somas.
Qed.

Lemma afterTransit_soma (target : option NeuronObj) (w : World)
    (s : SomaId) :
  targetSoma target <> Some s ->
  let w' := afterTransit target w in
  timers w' = timers w
  /\ somas (heap w') !! s = somas (heap w) !! s
  /\ (frames w' = frames w
      \/ exists (s' : SomaId) (ft : R) (e : Color) (i : R),
           s' <> s /\ frames w' = frames w ++ [Flash s' ft e i]).
Proof.
  intros Hne. unfold afterTransit, targetSoma in *.
  destruct target as [tgt |]; [| cbn; auto].
  destruct (userData tgt) as [data |]; [| cbn; auto].
  destruct (soma data) as [id |]; [| cbn; auto].
  destruct (somas (heap w) !! id) as [sm |]; [| auto].
  assert (id <> s) as Hid by congruence.
  destruct (flash_soma id (clock w) (somaEmissive sm)
              (somaEmissiveIntensity sm) w s Hid) as (Ht & Hs & Hf).
  split; [exact Ht |]. split; [exact Hs |].
  destruct Hf as [Hf | Hf]; [now left | right]. eauto 6.
Qed.

Variable s : SomaId.
Variable s0 : Soma.
Variable synapse : option SynapseObj.
Variable target : option NeuronObj.
Variable scene : SceneId.

Hypothesis other_soma : targetSoma target <> Some s.

Lemma existsb_keep {A : Type} (f : A -> bool) (before after extra : list A)
    (x : A) :
  f x = false ->
  existsb f (before ++ x :: after) = true ->
  existsb f ((before ++ after) ++ extra) = true.
Proof.
  intros Hx. rewrite !existsb_app. cbn [existsb]. rewrite Hx. cbn [orb].
  intros H. apply orb_true_iff in H as [H | H]; rewrite H.
  - reflexivity.
  - now rewrite orb_true_r.
Qed.

Lemma somaKept_step (w w' : World) (cb : Callback) :
  SomaKept s s0 synapse target scene w ->
  step getPoint w cb w' ->
  SomaKept s s0 synapse target scene w'.
Proof.
  intros (Hframes & Htimers & Hkept) Hstep.
  inversion Hstep as [w0 t before cb0 after Hfs Ht
                     | w0 t before due cb0 after Hts Ht Hdue]; subst.
  - rewrite Hfs in Hframes, Hkept.
    destruct (Forall_remove_middle _ _ _ _ Hframes) as [Hcb Hrest].
    set (w1 := at_time t (before ++ after) (timers w) w).
    destruct cb as [s' fs e i | | id parent | | s' ft e i];
      cbn [frameKeeps] in Hcb; try contradiction; cbn [run].
    + destruct Hcb as (-> & -> & ->).
      destruct (sourceFlash_soma s fs (somaEmissive s0)
                  (somaEmissiveIntensity s0) w1)
        as (Ht' & [Hf | [Hf Hsoma]]);
        unfold SomaKept; rewrite Ht', Hf; cbn [w1 at_time frames timers].
      * split; [apply Forall_app; split; [exact Hrest |];
                constructor; [now cbn | constructor] |].
        split; [exact Htimers |]. left.
        rewrite existsb_app. cbn. apply orb_true_r.
      * split; [exact Hrest |]. split; [exact Htimers |]. right.
        rewrite Hsoma. now destruct s0.
    + destruct (animate_effect getPoint id parent w1)
        as (Ht' & _ & _ & _ & _ & Hsomas & Hf).
      unfold SomaKept. rewrite Ht', Hsomas.
      cbn [w1 at_time frames timers heap].
      split; [| split; [exact Htimers |]].
      * destruct Hf as [-> | ->]; cbn [w1 at_time frames];
          [exact Hrest |].
        apply Forall_app. split; [exact Hrest | now repeat constructor].
      * destruct Hkept as [Hpending | Hsoma]; [left | now right].
        destruct Hf as [-> | ->]; cbn [w1 at_time frames].
        -- rewrite <- (app_nil_r (before ++ after)).
           now apply (existsb_keep _ _ _ _ (Animate id parent)).
        -- now apply (existsb_keep _ _ _ _ (Animate id parent)).
    + destruct (flash_soma s' ft e i w1 s Hcb) as (Ht' & Hsoma & Hf).
      unfold SomaKept. rewrite Ht', Hsoma.
      cbn [w1 at_time frames timers heap].
      split; [| split; [exact Htimers |]].
      * destruct Hf as [-> | ->]; cbn [w1 at_time frames];
          [exact Hrest |].
        apply Forall_app. split; [exact Hrest | now repeat constructor].
      * destruct Hkept as [Hpending | Hsoma']; [left | now right].
        destruct Hf as [-> | ->]; cbn [w1 at_time frames].
        -- rewrite <- (app_nil_r (before ++ after)).
           now apply (existsb_keep _ _ _ _ (Flash s' ft e i)).
        -- now apply (existsb_keep _ _ _ _ (Flash s' ft e i)).
  - rewrite Hts in Htimers.
    destruct (Forall_remove_middle _ _ _ _ Htimers) as [Hcb Hrest].
    cbn [snd] in Hcb.
    set (w1 := at_time t (frames w) (before ++ after) w).
    destruct Hcb as [-> | ->]; cbn [run].
    + destruct (transit_soma synapse target scene w1) as (Hsomas & Hf & Ht').
      unfold SomaKept. rewrite Hsomas. cbn [w1 at_time heap].
      split; [| split].
      * destruct Hf as [-> | [id ->]]; cbn [w1 at_time frames];
          [exact Hframes |].
        apply Forall_app. split; [exact Hframes | now repeat constructor].
      * destruct Ht' as [-> | ->]; cbn [w1 at_time timers];
          [exact Hrest |].
        apply Forall_app. split; [exact Hrest |].
        constructor; [now right | constructor].
      * destruct Hkept as [Hpending | Hsoma]; [left | now right].
        destruct Hf as [-> | [id ->]]; cbn [w1 at_time frames];
          [exact Hpending |].
        rewrite existsb_app, Hpending. reflexivity.
    + destruct (afterTransit_soma target w1 s other_soma)
        as (Ht' & Hsoma & Hf).
      unfold SomaKept. rewrite Ht', Hsoma.
      cbn [w1 at_time timers heap].
      split; [| split; [exact Hrest |]].
      * destruct Hf as [-> | (s' & ft & e & i & Hne & ->)];
          cbn [w1 at_time frames]; [exact Hframes |].
        apply Forall_app. split; [exact Hframes | now repeat constructor].
      * destruct Hkept as [Hpending | Hsoma']; [left | now right].
        destruct Hf as [-> | (s' & ft & e & i & Hne & ->)];
          cbn [w1 at_time frames]; [exact Hpending |].
        rewrite existsb_app, Hpending. reflexivity.
Qed.

Lemma somaKept_runs (w w' : World) (cbs : list Callback) :
  SomaKept s s0 synapse target scene w ->
  runs getPoint w cbs w' ->
  SomaKept s s0 synapse target scene w'.
Proof.
  intros Hw Hruns. induction Hruns as [w | w cb w1 cbs w2 Hstep Hruns IH];
    [exact Hw |].
  apply IH. now apply (somaKept_step w w1 cb).
Qed.

End SourceSoma.

Section SourceSomaTheorem.

Import Signal SignalStages.
Local Open Scope R_scope.

Variable getPoint : list Vector3 -> R -> Vector3.

(** X18. The source flash gives the soma its material back. After a
    call whose source has a soma, and whose target (if any) has another
    soma, at every moment of every run: either a frame of the source
    flash is still waiting, or the soma's emissive colour and intensity
    are exactly those it had when the call was made. Neither the pulse
    nor the target flash, nor the order in which frames and timers run,
    can leave the source soma with the colour of the flash. *)
Theorem animateNeuralSignalPropagation_restores_source (source : NeuronObj)
    (data : UserData) (s : SomaId) (s0 : Soma)
    (target : option NeuronObj) (synapse : option SynapseObj)
    (scene windowScene : option SceneId) (sc : SceneId) (h : Heap)
    (now : R) :
  userData source = Some data ->
  soma data = Some s ->
  somas h !! s = Some s0 ->
  match scene with Some x => Some x | None => windowScene end = Some sc ->
  targetSoma target <> Some s ->
  exists w0 : World,
    animateNeuralSignalPropagation (Some source) target synapse scene
      windowScene h now = Some w0
    /\ forall (cbs : list Callback) (w : World),
         runs getPoint w0 cbs w ->
         existsb isSourceFlash (frames w) = true
         \/ somas (heap w) !! s = Some s0.
Proof.
  intros Hdata Hsoma Hs0 Hscene Hother.
  unfold animateNeuralSignalPropagation.
  rewrite Hdata, Hscene, Hsoma, Hs0.
  eexists. split; [reflexivity |]. intros cbs w Hruns.
  eapply (somaKept_runs getPoint s s0 synapse target sc Hother) in Hruns.
  - destruct Hruns as (_ & _ & Hkept). exact Hkept.
  - unfold SomaKept. cbn [setTimeout frames timers heap].
    destruct (sourceFlash_soma s now (somaEmissive s0)
                (somaEmissiveIntensity s0) (mkWorld h false [] [] [] now []))
      as (Ht & [Hf | [Hf Hrestored]]); rewrite Ht, Hf;
      cbn [frames timers app].
    + split; [now repeat constructor |].
      split; [constructor; [now left | constructor] |].
      now left.
    + split; [constructor |].
      split; [constructor; [now left | constructor] |].
      right. rewrite Hrestored. now destruct s0.
Qed.

End SourceSomaTheorem.

Lemma animateNeuralSignalPropagation_restores_source_witness :
  exists w0 : Signal.World,
    Signal.animateNeuralSignalPropagation (Some Examples.soloNeuron) None
      None (Some 1%positive) None Examples.soloHeap 0 = Some w0
    /\ forall (cbs : list Signal.Callback) (w : Signal.World),
         Signal.runs Examples.firstPoint w0 cbs w ->
         existsb Signal.isSourceFlash (Signal.frames w) = true
         \/ Signal.somas (Signal.heap w) !! 1%positive
            = Some (Signal.mkSoma (Hex 0xff6b6b) 0.5).
Proof.
  apply (animateNeuralSignalPropagation_restores_source Examples.firstPoint
           Examples.soloNeuron (Signal.mkUserData (Some 1%positive))
           1%positive (Signal.mkSoma (Hex 0xff6b6b) 0.5) None None
           (Some 1%positive) None 1%positive Examples.soloHeap 0).
  - reflexivity.
  - reflexivity.
  - reflexivity.
  - reflexivity.
  - discriminate.
Defined.

(** ** The life of the signal pulse *)

Section PulseHeap.

Import Signal SignalStages.
Local Open Scope R_scope.

Variable getPoint : list Vector3 -> R -> Vector3.

Lemma without_app_last (id : PulseId) (l : list PulseId) :
  ~ In id l -> without id (l ++ [id]) = l.
Proof.
  induction l as [| x l IH]; intros Hnot; cbn [app without].
  - now rewrite Nat.eqb_refl.
  - destruct (Nat.eqb_spec x id) as [-> | Hne].
    + exfalso. apply Hnot. now left.
    + rewrite IH; [reflexivity |]. intros Hin. apply Hnot. now right.
Qed.

(** [remove] keeps everything of the pulse but its parent. *)
Lemma Object3D_remove_pulse (parent : SceneId) (id : PulseId) (h : Heap)
    (p : Pulse) :
  pulses h !! id = Some p ->
  exists p' : Pulse,
    pulses (Object3D_remove parent id h) !! id = Some p'
    /\ pulseCurve p' = pulseCurve p
    /\ pulseDuration p' = pulseDuration p
    /\ startTime p' = startTime p
    /\ geometryDisposed p' = geometryDisposed p
    /\ materialDisposed p' = materialDisposed p.
Proof.
  intros Hp. unfold Object3D_remove.
  destruct (existsb _ _).
  - cbn [pulses]. rewrite Hp. eexists. split.
    + apply list_lookup_insert_eq. now apply lookup_lt_Some in Hp.
    + now repeat split.
  - exists p. now repeat split.
Qed.

(** Adding a pulse to the parent it already has: it is spliced out and
    pushed again. *)
Lemma Object3D_add_again (parent : SceneId) (id : PulseId) (h : Heap)
    (p : Pulse) (siblings : list PulseId) :
  pulses h !! id = Some p ->
  pulseParent p = Some parent ->
  childrenOf parent h = siblings ++ [id] ->
  ~ In id siblings ->
  childrenOf parent (Object3D_add parent id h) = siblings ++ [id]
  /\ exists p' : Pulse,
       pulses (Object3D_add parent id h) !! id = Some p'
       /\ pulseDuration p' = pulseDuration p
       /\ startTime p' = startTime p
       /\ geometryDisposed p' = geometryDisposed p
       /\ materialDisposed p' = materialDisposed p.
Proof.
  intros Hp Hparent Hchildren Hfresh. unfold Object3D_add.
  rewrite Hp, Hparent.
  destruct (Object3D_remove_spec parent id h p Hp) as (Hgone & _).
  destruct (Object3D_remove_pulse parent id h p Hp)
    as (p1 & Hp1 & _ & Hd & Hs & Hg & Hm).
  rewrite Hp1. split.
  - unfold childrenOf at 1. cbn [children]. rewrite lookup_insert_eq.
    cbn [default]. rewrite Hgone, Hchildren.
    now rewrite without_app_last.
  - cbn [pulses]. eexists. split.
    + apply list_lookup_insert_eq. now apply lookup_lt_Some in Hp1.
    + cbn. now repeat split.
Qed.

(** The children of the parent after [createSignalPulse]. *)
Lemma createSignalPulse_children (curve : list Vector3) (parent : SceneId)
    (duration : R) (color : Z) (size : R) (w : World) :
  0 < duration ->
  let id : PulseId := List.length (pulses (heap w)) in
  childrenOf parent
    (heap (fst (createSignalPulse getPoint (Some curve) (Some parent)
                  duration color size w)))
  = childrenOf parent (heap w) ++ [id].
Proof.
  intros Hduration id. cbn [createSignalPulse fst].
  change (List.length (pulses (heap w))) with id.
  set (p0 := mkPulse curve duration (clock w) color size (mkVector3 0 0 0)
               (mkVector3 1 1 1) 1 None false false).
  set (h1 := mkHeap (somas (heap w)) (children (heap w))
               (pulses (heap w) ++ [p0])).
  assert (pulses h1 !! id = Some p0) as Hp0
    by (subst h1 id; cbn [pulses]; now apply list_lookup_middle).
  assert (pulses (Object3D_add parent id h1) !! id
          = Some (mkPulse curve duration (clock w) color size
                    (mkVector3 0 0 0) (mkVector3 1 1 1) 1 (Some parent)
                    false false)) as Hadd.
  { unfold Object3D_add. rewrite Hp0. cbn [pulseParent p0]. rewrite Hp0.
    cbn [pulses]. apply list_lookup_insert_eq.
    now apply lookup_lt_Some in Hp0. }
  assert (childrenOf parent (Object3D_add parent id h1)
          = childrenOf parent (heap w) ++ [id]) as Hchildren.
  { unfold Object3D_add. rewrite Hp0. cbn [pulseParent p0].
    unfold childrenOf at 1. cbn [children]. rewrite lookup_insert_eq.
    reflexivity. }
  rewrite Hadd.
  cbn [pulseCurve pulseDuration startTime pulseColor pulseSize pulseScale
       pulseOpacity pulseParent geometryDisposed materialDisposed].
  set (p3 := mkPulse curve duration (clock w) color size (getPoint curve 0)
               (mkVector3 1 1 1) 1 (Some parent) false false).
  set (h3 := set_pulse id p3 (Object3D_add parent id h1)).
  assert (pulses (heap (set_heap h3 w)) !! id = Some p3) as Hp3.
  { subst h3. cbn [set_heap heap set_pulse pulses].
    apply list_lookup_insert_eq. rewrite Object3D_add_length.
    now apply lookup_lt_Some in Hp0. }
  assert (progressBelowOne (clock (set_heap h3 w) - startTime p3)
            (pulseDuration p3) = true) as Hunder.
  { apply progressBelowOne_true; [exact Hduration |].
    subst p3. cbn [set_heap clock startTime pulseDuration]. lra. }
  destruct (animate_under_way getPoint id parent (set_heap h3 w) p3 Hp3
              Hunder) as (_ & Hsame & _).
  rewrite Hsame. subst h3. cbn [set_heap heap set_pulse].
  unfold childrenOf in *. cbn [children] in *. exact Hchildren.
Qed.

(** The heap after the transit that creates the pulse. *)
Lemma transit_heap (syn : SynapseObj) (geom : Geometry)
    (points : list Vector3) (tgt : NeuronObj) (scene : SceneId)
    (w : World) :
  geometry syn = Some geom ->
  positionAttribute geom = Some points ->
  points <> [] ->
  ~ In (List.length (pulses (heap w))) (childrenOf scene (heap w)) ->
  let w' := transit getPoint (Some syn) (Some tgt) scene w in
  let id := List.length (pulses (heap w)) in
  childrenOf scene (heap w') = childrenOf scene (heap w) ++ [id]
  /\ pulseLive id (clock w) w'.
Proof.
  intros Hgeom Hpoints Hne Hfresh. cbn [transit].
  rewrite Hgeom, Hpoints.
  destruct points as [| pt points]; [congruence |].
  cbn [List.length Nat.ltb Nat.leb].
  pose proof (createSignalPulse_allocates getPoint (pt :: points) scene 300
                0x00ff00 0.012 w) as (Hid & _).
  pose proof (createSignalPulse_pulse getPoint (pt :: points) scene 300
                0x00ff00 0.012 w ltac:(lra))
    as (p & Hp & _ & Hd & Hs & Hparent & Hg & Hm & _ & _).
  pose proof (createSignalPulse_children (pt :: points) scene 300 0x00ff00
                0.012 w ltac:(lra)) as Hchildren.
  destruct (createSignalPulse getPoint (Some (pt :: points)) (Some scene)
              300 0x00ff00 0.012 w) as [w1 pulse].
  cbn [fst snd] in *. subst pulse.
  cbn [setTimeout push_signal set_heap heap].
  destruct (Object3D_add_again scene _ (heap w1) p _ Hp Hparent Hchildren
              Hfresh) as (Hagain & p' & Hp' & Hd' & Hs' & Hg' & Hm').
  split; [exact Hagain |].
  exists p'. cbn [heap]. split; [exact Hp' |].
  repeat split; congruence.
Qed.

End PulseHeap.

Section PulseSteps.

Import Signal SignalStages.
Local Open Scope R_scope.

Variable getPoint : list Vector3 -> R -> Vector3.
Variables (h : Heap) (due : R) (synapse : option SynapseObj)
  (target : option NeuronObj) (scene : SceneId).

Hypothesis fresh : ~ In (List.length (pulses h)) (childrenOf scene h).

(** The callbacks of the two flashes and of the 300 ms timer leave the
    pulses and the scene alone, and ask for no frame of the pulse. *)
Lemma bystander_effect (cb : Callback) (w : World) :
  isSynapseTransit cb = false -> isTransitTimer cb = false ->
  let w' := run getPoint cb w in
  pulses (heap w') = pulses (heap w)
  /\ children (heap w') = children (heap w)
  /\ timers w' = timers w /\ clock w' = clock w
  /\ exists fs : list Callback,
       frames w' = frames w ++ fs
       /\ List.filter isSynapseTransit fs = []
       /\ Forall noTransit fs.
Proof.
  assert (forall w0 : World,
            exists fs : list Callback,
              frames w0 = frames w0 ++ fs
              /\ List.filter isSynapseTransit fs = []
              /\ Forall noTransit fs) as Hnone.
  { intros w0. exists []. rewrite app_nil_r. repeat split. constructor. }
  intros Hs Ht.
  destruct cb as [s f e i | syn tgt sc | id parent | tgt | s f e i];
    try discriminate; cbn [run].
  - unfold sourceFlash. destruct (Rltb _ 1);
      cbn [requestAnimationFrame set_heap set_soma heap pulses children
           timers clock frames]; do 4 (split; [reflexivity |]).
    + eexists [_]. split; [reflexivity |]. split; [reflexivity |].
      repeat constructor.
    + apply Hnone.
  - assert (forall (s : SomaId) (f : R) (e : Color) (i : R),
              let w' := flash s f e i w in
              pulses (heap w') = pulses (heap w)
              /\ children (heap w') = children (heap w)
              /\ timers w' = timers w /\ clock w' = clock w
              /\ exists fs : list Callback,
                   frames w' = frames w ++ fs
                   /\ List.filter isSynapseTransit fs = []
                   /\ Forall noTransit fs) as Hflash.
    { intros s f e i. unfold flash. destruct (Rltb _ 1);
        cbn [requestAnimationFrame set_completed set_heap set_soma heap
             pulses children timers clock frames];
        do 4 (split; [reflexivity |]).
      - eexists [_]. split; [reflexivity |]. split; [reflexivity |].
        repeat constructor.
      - apply Hnone. }
    unfold afterTransit.
    destruct tgt as [tgt |];
      [| cbn [set_completed heap timers clock frames];
         do 4 (split; [reflexivity |]); apply Hnone].
    destruct (userData tgt) as [data |];
      [| cbn [throw heap timers clock frames];
         do 4 (split; [reflexivity |]); apply Hnone].
    destruct (soma data) as [id |];
      [| cbn [set_completed heap timers clock frames];
         do 4 (split; [reflexivity |]); apply Hnone].
    destruct (somas (heap w) !! id) as [s |];
      [apply Hflash | do 4 (split; [reflexivity |]); apply Hnone].
  - unfold flash. destruct (Rltb _ 1);
      cbn [requestAnimationFrame set_completed set_heap set_soma heap
           pulses children timers clock frames];
      do 4 (split; [reflexivity |]).
    + eexists [_]. split; [reflexivity |]. split; [reflexivity |].
      repeat constructor.
    + apply Hnone.
Qed.

Lemma pulseLife_timers (w : World) :
  PulseLife h due synapse target scene w ->
  timers w = [(due, Transit synapse target scene)]
  \/ Forall (fun x => isAfterTransit (snd x) = true) (timers w).
Proof.
  intros (_ & [(_ & _ & _ & Ht) | [(_ & _ & _ & Ht) | (_ & _ & _ & Ht)]]);
    auto.
Qed.

(** A world that differs from one in the life of the pulse by a later
    clock and by callbacks other than the pulse's is in it as well. *)
Lemma pulseLife_quiet (w w' : World) :
  PulseLife h due synapse target scene w ->
  pulses (heap w') = pulses (heap w) ->
  children (heap w') = children (heap w) ->
  clock w <= clock w' ->
  Forall noTransit (frames w') ->
  List.filter isSynapseTransit (frames w')
  = List.filter isSynapseTransit (frames w) ->
  (timers w' = timers w
   \/ Forall (fun x => isAfterTransit (snd x) = true) (timers w')) ->
  PulseLife h due synapse target scene w'.
Proof.
  intros (_ & Hcases) Hpulses Hchildren Hclock Hno Hfilter Htimers.
  assert (Forall (fun x => isAfterTransit (snd x) = true) (timers w) ->
          Forall (fun x => isAfterTransit (snd x) = true) (timers w'))
    as Hafter by (destruct Htimers as [-> | Ht]; auto).
  split; [exact Hno |].
  destruct Hcases as [(Hp & Hc & Hf & Ht)
                     | [(Hc & (T1 & HT1 & p & Hp & Hrest) & Hf & Ht)
                       | (Hc & (p & Hp & Hlate & Hrest) & Hf & Ht)]].
  - left. split; [congruence |]. split; [congruence |].
    split; [congruence |].
    destruct Htimers as [-> | Ht']; [exact Ht | now right].
  - right. left. split; [unfold childrenOf in *; congruence |].
    split; [| split; [congruence | auto]].
    exists T1. split; [lra |]. exists p. rewrite Hpulses. now split.
  - right. right. split; [unfold childrenOf in *; congruence |].
    split; [| split; [congruence | auto]].
    exists p. rewrite Hpulses. split; [exact Hp |]. split; [lra |].
    exact Hrest.
Qed.

Lemma app_singleton_middle {A : Type} (l1 l2 : list A) (x y : A) :
  l1 ++ [x] ++ l2 = [y] -> l1 = [] /\ x = y /\ l2 = [].
Proof.
  destruct l1 as [| z l1]; cbn [app].
  - intros H. injection H as -> ->. now repeat split.
  - intros H. injection H as _ H. now destruct l1.
Qed.

Lemma progressBelowOne_over (elapsed : R) :
  progressBelowOne elapsed 300 = false -> 300 <= elapsed.
Proof.
  intros Hfalse. destruct (Rlt_dec elapsed 300) as [Hlt | Hge]; [| lra].
  rewrite progressBelowOne_true in Hfalse by lra. discriminate.
Qed.

(** One step of the event loop keeps the life of the pulse. *)
Lemma pulseLife_step (w : World) (cb : Callback) (w' : World) :
  PulseLife h due synapse target scene w ->
  step getPoint w cb w' ->
  PulseLife h due synapse target scene w'.
Proof.
  intros Hlife Hstep.
  inversion Hstep as [w0 t before cb0 after Hframes Ht
                     | w0 t before d cb0 after Htimers Ht Hdue]; subst.
  - pose proof Hlife as (Hno & Hcases).
    rewrite Hframes in Hno.
    apply Forall_remove_middle in Hno as [Hcb Hrest].
    destruct (isSynapseTransit cb) eqn:Hanimate.
    + destruct cb as [| | id parent | |]; try discriminate.
      rewrite Hframes, filter_middle in Hcases. cbn [isSynapseTransit] in Hcases.
      destruct Hcases as [(_ & _ & Hf & _)
                         | [(Hc & (T1 & HT1 & p & Hp & Hd & Hs & Hg & Hm)
                             & Hf & Hafter)
                           | (_ & _ & Hf & _)]];
        [now destruct (List.filter isSynapseTransit before) | |
         now destruct (List.filter isSynapseTransit before)].
      apply app_singleton_middle in Hf as (Hb & Hid & Ha).
      injection Hid as -> ->.
      set (w1 := at_time t (before ++ after) (timers w) w).
      assert (pulses (heap w1) !! (List.length (pulses h) : PulseId)
              = Some p) as Hp1 by exact Hp.
      split.
      { cbn [run]. pose proof (animate_effect getPoint
                                 (List.length (pulses h)) scene w1)
          as (_ & _ & _ & _ & _ & _ & [Hf | Hf]); rewrite Hf;
          subst w1; cbn [at_time frames]; [exact Hrest |].
        apply Forall_app. split; [exact Hrest |]. repeat constructor. }
      cbn [run].
      destruct (progressBelowOne (clock w1 - startTime p) (pulseDuration p))
        eqn:Hbelow.
      * destruct (animate_under_way getPoint _ scene w1 p Hp1 Hbelow)
          as (Hq & Hchildren & Hf).
        right. left. split; [rewrite Hchildren; exact Hc |].
        split; [| split].
        -- exists T1. split.
           ++ pose proof (animate_effect getPoint (List.length (pulses h))
                            scene w1) as (_ & _ & _ & _ & Hclock & _).
              rewrite Hclock. subst w1. cbn [at_time clock]. lra.
           ++ eexists. split; [exact Hq |]. cbn. now repeat split.
        -- rewrite Hf. subst w1. cbn [at_time frames].
           rewrite !List.filter_app, Hb, Ha. reflexivity.
        -- pose proof (animate_effect getPoint (List.length (pulses h))
                         scene w1) as (Htimers & _).
           rewrite Htimers. exact Hafter.
      * assert (T1 + 300 <= t) as Hlate.
        { rewrite Hd, Hs in Hbelow. apply progressBelowOne_over in Hbelow.
          subst w1. cbn [at_time clock] in Hbelow. lra. }
        unfold animate. rewrite Hp1, Hbelow.
        destruct (Object3D_remove_spec scene _ (heap w1) p Hp1)
          as (Hgone & _).
        destruct (Object3D_remove_pulse scene _ (heap w1) p Hp1)
          as (p' & Hp' & _ & _ & Hs' & _ & _).
        rewrite Hp'.
        right. right.
        cbn [set_heap set_pulse heap frames timers clock].
        split.
        { change (childrenOf scene
                    (Object3D_remove scene (List.length (pulses h))
                       (heap w1)) = childrenOf scene h).
          rewrite Hgone. subst w1. cbn [at_time heap]. rewrite Hc.
          now apply without_app_last. }
        split; [| split].
        -- eexists. cbn [heap pulses clock]. split.
           ++ apply list_lookup_insert_eq. now apply lookup_lt_Some in Hp'.
           ++ cbn. subst w1. cbn [at_time clock].
              split; [lra | now split].
        -- subst w1. cbn [at_time frames].
           rewrite !List.filter_app, Hb, Ha. reflexivity.
        -- subst w1. cbn [at_time timers]. exact Hafter.
    + destruct (bystander_effect cb
                  (at_time t (before ++ after) (timers w) w) Hanimate Hcb)
        as (Hp & Hc & Htm & Hclock & fs & Hf & Hfilter & Hfs).
      apply pulseLife_quiet with w; try assumption.
      * rewrite Hclock. cbn [at_time clock]. exact Ht.
      * rewrite Hf. cbn [at_time frames]. apply Forall_app. now split.
      * rewrite Hf. cbn [at_time frames].
        rewrite Hframes, filter_middle, Hanimate, !List.filter_app, Hfilter.
        now rewrite app_nil_r.
      * left. exact Htm.
  - destruct (pulseLife_timers w Hlife) as [Hone | Hafter].
    + rewrite Hone in Htimers.
      assert (before = [] /\ (d, cb) = (due, Transit synapse target scene)
              /\ after = []) as (-> & Hcb & ->).
      { symmetry in Htimers.
        now apply (app_singleton_middle before after) in Htimers. }
      injection Hcb as -> ->.
      destruct Hlife as (Hno & [(Hp & Hc & Hf & _)
                               | [(_ & _ & _ & Hafter)
                                 | (_ & _ & _ & Hafter)]]);
        [| rewrite Hone in Hafter; apply Forall_cons in Hafter as [Hx _];
           discriminate ..].
      cbn [app run].
      set (w1 := at_time t (frames w) [] w).
      destruct synapse as [syn |];
        [| split; [exact Hno |]; left; cbn; repeat split; auto].
      destruct target as [tgt |];
        [| split; [exact Hno |]; left; cbn; repeat split; auto].
      destruct (geometry syn) as [geom |] eqn:Hgeom;
        [| cbn [transit]; rewrite Hgeom; split; [exact Hno |]; left; cbn;
           repeat split; auto].
      destruct (positionAttribute geom) as [[| pt points] |] eqn:Hpoints;
        [cbn [transit]; rewrite Hgeom, Hpoints;
         cbn [List.length Nat.ltb Nat.leb]; split; [exact Hno |]; left; cbn;
         repeat split; auto
        | |
         cbn [transit]; rewrite Hgeom, Hpoints; split; [exact Hno |]; left;
         cbn; repeat split; auto].
      assert (~ In (List.length (pulses (heap w1)))
                (childrenOf scene (heap w1))) as Hfresh.
      { subst w1. cbn [at_time heap]. unfold childrenOf. rewrite Hp, Hc.
        exact fresh. }
      destruct (transit_with_synapse getPoint syn geom (pt :: points) tgt
                  scene w1 Hgeom Hpoints ltac:(discriminate))
        as (_ & _ & _ & Htm & Hfr).
      destruct (transit_heap getPoint syn geom (pt :: points) tgt scene w1
                  Hgeom Hpoints ltac:(discriminate) Hfresh)
        as (Hchildren & Hlive).
      assert (clock (transit getPoint (Some syn) (Some tgt) scene w1) = t)
        as Hclock by apply (transit_effect getPoint _ _ scene w1).
      subst w1. cbn [at_time heap frames timers clock] in *.
      rewrite Hp in *. unfold childrenOf in Hchildren at 2.
      rewrite Hc in Hchildren. fold (childrenOf scene h) in Hchildren.
      split.
      { rewrite Hfr. apply Forall_app. split; [exact Hno |].
        repeat constructor. }
      right. left. split; [exact Hchildren |].
      split; [| split].
      * exists t. split; [rewrite Hclock; lra | exact Hlive].
      * rewrite Hfr, List.filter_app, Hf. reflexivity.
      * rewrite Htm. repeat constructor.
    + rewrite Htimers in Hafter.
      apply Forall_remove_middle in Hafter as [Hcb Hrest].
      cbn [snd] in Hcb.
      destruct cb as [| | | tgt |]; try discriminate.
      destruct (bystander_effect (AfterTransit tgt)
                  (at_time t (frames w) (before ++ after) w) eq_refl
                  eq_refl)
        as (Hp & Hc & Htm & Hclock & fs & Hf & Hfilter & Hfs).
      pose proof Hlife as (Hno & _).
      apply pulseLife_quiet with w; try assumption.
      * rewrite Hclock. cbn [at_time clock]. exact Ht.
      * rewrite Hf. cbn [at_time frames]. apply Forall_app. now split.
      * rewrite Hf. cbn [at_time frames].
        rewrite List.filter_app, Hfilter. now rewrite app_nil_r.
      * right. rewrite Htm. cbn [at_time timers]. exact Hrest.
Qed.

Lemma pulseLife_runs (w : World) (cbs : list Callback) (w' : World) :
  PulseLife h due synapse target scene w ->
  runs getPoint w cbs w' ->
  PulseLife h due synapse target scene w'.
Proof.
  intros Hlife Hruns. induction Hruns as [| w cb w1 cbs w2 Hstep _ IH];
    [exact Hlife |].
  apply IH. now apply pulseLife_step with w cb.
Qed.

End PulseSteps.

Section PulseTheorem.

Import Signal SignalStages.
Local Open Scope R_scope.

Variable getPoint : list Vector3 -> R -> Vector3.

(** X19. The signal pulse does not stay behind. After a call on a heap
    whose scene does not hold the index of the next pulse, at whatever
    times the frames and timers run, the world is in one of two states.
    Either no frame of a pulse is pending, the scene has exactly the
    children it had before the call, and the pulse of the call, if it
    was created, has its geometry and material disposed and was created
    at least 300 ms ago. Or exactly one frame of the pulse is pending,
    the pulse is the last child of the scene, once (though
    [createSignalPulse] and the timer's callback both add it), and it is
    not disposed. *)
Theorem animateNeuralSignalPropagation_pulse_life (source : NeuronObj)
    (data : UserData) (target : option NeuronObj)
    (synapse : option SynapseObj) (scene windowScene : option SceneId)
    (sc : SceneId) (h : Heap) (now : R) :
  userData source = Some data ->
  match scene with Some s => Some s | None => windowScene end = Some sc ->
  ~ In (List.length (pulses h)) (childrenOf sc h) ->
  exists w0 : World,
    animateNeuralSignalPropagation (Some source) target synapse scene
      windowScene h now = Some w0
    /\ forall (cbs : list Callback) (w : World),
         runs getPoint w0 cbs w ->
         let id : PulseId := List.length (pulses h) in
         (List.filter isSynapseTransit (frames w) = []
          /\ childrenOf sc (heap w) = childrenOf sc h
          /\ forall p : Pulse,
               pulses (heap w) !! id = Some p ->
               geometryDisposed p = true /\ materialDisposed p = true
               /\ startTime p + 300 <= clock w)
         \/ (List.filter isSynapseTransit (frames w) = [Animate id sc]
             /\ childrenOf sc (heap w) = childrenOf sc h ++ [id]
             /\ exists p : Pulse,
                  pulses (heap w) !! id = Some p
                  /\ geometryDisposed p = false
                  /\ materialDisposed p = false).
Proof.
  intros Hdata Hscene Hfresh.
  destruct (animateNeuralSignalPropagation_quiet source data target synapse
              scene windowScene sc h now Hdata Hscene)
    as (w0 & Hcall & (Hp & Hc & _ & _ & Hf & Htm) & Hfalse).
  exists w0. split; [exact Hcall |]. intros cbs w Hruns id.
  assert (Forall noTransit (frames w0)
          /\ List.filter isSynapseTransit (frames w0) = []) as [Hno Hfilter].
  { clear -Hf. induction (frames w0) as [| cb fs IH];
      [split; [constructor | reflexivity] |].
    cbn [forallb] in Hf. apply andb_true_iff in Hf as [Hcb Hfs].
    destruct (IH Hfs) as [IH1 IH2].
    split; [constructor; [now destruct cb | exact IH1] |].
    cbn [List.filter]. now destruct cb. }
  assert (PulseLife h (now + 75) synapse target sc w0) as Hlife.
  { split; [exact Hno |]. left. do 3 (split; [assumption |]).
    left. destruct Htm as [[_ Htm] | [Htrue _]]; [exact Htm | congruence]. }
  destruct (pulseLife_runs getPoint h (now + 75) synapse target sc Hfresh
              w0 cbs w Hlife Hruns)
    as (_ & [(Hp' & Hc' & Hf' & _)
            | [(Hc' & (T1 & _ & p & Hp' & _ & _ & Hg & Hm) & Hf' & _)
              | (Hc' & (p & Hp' & Hlate & Hg & Hm) & Hf' & _)]]).
  - left. split; [exact Hf' |].
    split; [unfold childrenOf; now rewrite Hc' |].
    intros p Hlookup. rewrite Hp' in Hlookup.
    apply lookup_lt_Some in Hlookup. subst id. lia.
  - right. split; [exact Hf' |]. split; [exact Hc' |].
    exists p. now repeat split.
  - left. split; [exact Hf' |]. split; [exact Hc' |].
    intros q Hlookup. subst id. rewrite Hp' in Hlookup.
    injection Hlookup as <-. now repeat split.
Qed.

End PulseTheorem.

Lemma animateNeuralSignalPropagation_pulse_life_witness :
  exists w0 : Signal.World,
    Signal.animateNeuralSignalPropagation (Some Examples.soloNeuron)
      (Some Examples.soloNeuron) (Some Samples.lineSynapse)
      (Some 1%positive) None Examples.soloHeap 0 = Some w0
    /\ forall (cbs : list Signal.Callback) (w : Signal.World),
         Signal.runs Examples.firstPoint w0 cbs w ->
         Signal.childrenOf 1%positive (Signal.heap w) = []
         \/ Signal.childrenOf 1%positive (Signal.heap w) = [0%nat].
Proof.
  destruct (animateNeuralSignalPropagation_pulse_life Examples.firstPoint
              Examples.soloNeuron (Signal.mkUserData (Some 1%positive))
              (Some Examples.soloNeuron) (Some Samples.lineSynapse)
              (Some 1%positive) None 1%positive Examples.soloHeap 0)
    as (w0 & Hcall & Hruns).
  - reflexivity.
  - reflexivity.
  - intros [].
  - exists w0. split; [exact Hcall |].
    intros cbs w Hrun.
    destruct (Hruns cbs w Hrun) as [(_ & Hc & _) | (_ & Hc & _)];
      [left | right]; exact Hc.
Defined.

(** ** The scan animation *)

Section ScanSteps.

Import JsNumber SectionAnimation.
Local Open Scope R_scope.

Lemma progress_value (e d : R) :
  0 < d -> min (div (Fin e) (Fin d)) (Fin 1) = Fin (Rmin (e / d) 1).
Proof.
  intros Hd. unfold div. destruct (Req_dec_T d 0); [lra | reflexivity].
Qed.

Lemma quotient_below_one (e d : R) : 0 < d -> e < d -> e / d < 1.
Proof.
  intros Hd He. apply Rmult_lt_reg_r with d; [assumption |].
  unfold Rdiv. rewrite Rmult_assoc, Rinv_l by lra. lra.
Qed.

Lemma quotient_above_one (e d : R) : 0 < d -> d <= e -> 1 <= e / d.
Proof.
  intros Hd He. apply Rmult_le_reg_r with d; [assumption |].
  unfold Rdiv. rewrite Rmult_assoc, Rinv_l by lra. lra.
Qed.

Lemma quotient_nonneg (e d : R) : 0 < d -> 0 <= e -> 0 <= e / d.
Proof.
  intros Hd He. unfold Rdiv. apply Rmult_le_pos; [exact He |].
  left. now apply Rinv_0_lt_compat.
Qed.

(** A frame of the sweep before its end. *)
Lemma animate_sweeping (x d t0 : R) (s : Scan) :
  0 < d -> startTime s = Some t0 -> clock s < t0 + d ->
  animate (mkClosure (Fin d) (Fin x)) s
  = mkScan (Fin (x + (1 - x) * ((clock s - t0) / d))) (isAnimating s)
      (Some (S (handles s))) (startTime s)
      (frames s ++ [(S (handles s), mkClosure (Fin d) (Fin x))])
      (timers s) (S (handles s)) (clock s).
Proof.
  intros Hd Hstart Hearly. unfold animate. rewrite Hstart.
  cbn [duration startPosition]. rewrite progress_value by exact Hd.
  pose proof (quotient_below_one (clock s - t0) d Hd ltac:(lra)) as Hq.
  rewrite Rmin_left by lra.
  cbn [lt]. replace (Rltb ((clock s - t0) / d) 1) with true
    by (symmetry; now apply Rltb_true).
  cbn [sub neg add mul requestAnimationFrame setCrossSectionPosition
       set_animationId crossSectionPosition isAnimating animationId
       startTime frames timers handles clock].
  rewrite ?Hstart. reflexivity || (do 2 f_equal; lra).
Qed.

(** The frame of the sweep that ends it. *)
Lemma animate_arrives (x d t0 : R) (s : Scan) :
  0 < d -> startTime s = Some t0 -> t0 + d <= clock s ->
  animate (mkClosure (Fin d) (Fin x)) s
  = mkScan (Fin 1) (isAnimating s) (animationId s) (startTime s)
      (frames s) (timers s ++ [clock s + 500]) (handles s) (clock s).
Proof.
  intros Hd Hstart Hlate. unfold animate. rewrite Hstart.
  cbn [duration startPosition]. rewrite progress_value by exact Hd.
  pose proof (quotient_above_one (clock s - t0) d Hd ltac:(lra)) as Hq.
  rewrite Rmin_right by lra.
  cbn [lt]. replace (Rltb 1 1) with false
    by (symmetry; apply Rltb_false; lra).
  cbn [sub neg add mul]. unfold setTimeout, setCrossSectionPosition.
  cbn [crossSectionPosition isAnimating animationId startTime frames timers
       handles clock].
  rewrite Hstart. do 2 f_equal. lra.
Qed.

(** Starting a scan in a state in which no frame waits. *)
Lemma playScanAnimation_starts (arg : option JsNum) (x d : R) (s : Scan) :
  match arg with Some a => a | None => animationDuration end = Fin d ->
  0 < d ->
  isAnimating s = false ->
  crossSectionPosition s = Fin x ->
  playScanAnimation arg s
  = mkScan (Fin x) true (Some (S (handles s))) (Some (clock s))
      (frames s ++ [(S (handles s), mkClosure (Fin d) (Fin x))])
      (timers s) (S (handles s)) (clock s).
Proof.
  intros Harg Hd Hidle Hx. unfold playScanAnimation.
  rewrite Harg, Hidle. unfold set_isAnimating, set_startTime.
  cbn [crossSectionPosition isAnimating animationId startTime frames
       timers handles clock].
  rewrite Hx, (animate_sweeping x d (clock s)); [| exact Hd | reflexivity |].
  - cbn [crossSectionPosition isAnimating animationId startTime frames
         timers handles clock].
    do 2 f_equal. unfold Rdiv. lra.
  - cbn [clock]. lra.
Qed.

Lemma scanning_step (x d t0 : R) (s : Scan) (ev : Event) (s' : Scan) :
  0 < d ->
  Scanning x d t0 s -> step s ev s' -> Scanning x d t0 s'.
Proof.
  intros Hd (Hstart & Hstate) Hstep.
  inversion Hstep as [s0 t before id c after Hframes Ht
                     | s0 t before due after Htimers Ht Hdue]; subst.
  - destruct Hstate as [(Ha & Htm & (id0 & Hf & Hid & _) & T & HT & Hearly
                         & Hp)
                       | [(_ & Hf & _) | (_ & Hf & _)]];
      [| rewrite Hf in Hframes; now destruct before ..].
    rewrite Hf in Hframes. symmetry in Hframes.
    apply (app_singleton_middle before after) in Hframes
      as (-> & Hc & ->).
    injection Hc as -> ->. cbn [app].
    set (s1 := at_time t [] (timers s) s).
    assert (startTime s1 = Some t0) as Hstart1 by exact Hstart.
    destruct (Rlt_dec t (t0 + d)) as [Hearly' | Hlate].
    + rewrite (animate_sweeping x d t0 s1 Hd Hstart1) by exact Hearly'.
      split; [exact Hstart |]. left. unfold Sweeping.
      subst s1. cbn [at_time isAnimating timers frames animationId
                     crossSectionPosition clock handles app].
      split; [exact Ha |]. split; [exact Htm |].
      split; [eexists; split; [reflexivity |]; split;
              [reflexivity | discriminate] |].
      exists t. split; [lra |]. split; [exact Hearly' | reflexivity].
    + rewrite (animate_arrives x d t0 s1 Hd Hstart1)
        by (subst s1; cbn [at_time clock]; lra).
      split; [exact Hstart |]. right. left. unfold Arrived.
      subst s1. cbn [at_time isAnimating timers frames animationId
                     crossSectionPosition clock handles].
      split; [exact Ha |]. do 2 (split; [reflexivity |]).
      exists t. split; [lra |]. now rewrite Htm.
  - destruct Hstate as [(_ & Htm & _)
                       | [(Ha & Hf & Hp & T & HT & Htm) | (_ & _ & Htm & _)]];
      [rewrite Htm in Htimers; now destruct before | |
       rewrite Htm in Htimers; now destruct before].
    rewrite Htm in Htimers. symmetry in Htimers.
    apply (app_singleton_middle before after) in Htimers
      as (-> & -> & ->).
    split; [exact Hstart |]. right. right.
    unfold Over, reset, set_isAnimating, setCrossSectionPosition.
    cbn [at_time set_isAnimating setCrossSectionPosition isAnimating
         frames timers crossSectionPosition clock app].
    split; [reflexivity |]. split; [exact Hf |].
    do 2 (split; [reflexivity |]). lra.
Qed.

Lemma scanning_runs (x d t0 : R) (s : Scan) (evs : list Event) (s' : Scan) :
  0 < d ->
  Scanning x d t0 s -> runs s evs s' -> Scanning x d t0 s'.
Proof.
  intros Hd Hs Hruns. induction Hruns as [| s ev s1 evs s2 Hstep _ IH];
    [exact Hs |].
  apply IH. now apply scanning_step with s ev.
Qed.

End ScanSteps.

Section ScanTheorems.

Import JsNumber SectionAnimation.
Local Open Scope R_scope.

(** X20. The scan is a linear sweep to 1, then a reset. After
    [playScanAnimation] with a positive duration [d] (the default is
    1500) in a state where nothing waits, from a finite position
    [x <= 1], at whatever times the frames and the timer run, the state
    is one of three. Sweeping: [isAnimating], one frame waits, and the
    position is [x + (1 - x) * (T - t0) / d] for the time [T < t0 + d]
    of the last frame. Arrived: [isAnimating], the position is exactly
    1, no frame waits, and the reset is due 500 ms after the frame that
    arrived, which ran no earlier than [t0 + d]. Over: not animating,
    position 0, nothing waits, and at least [d + 500] ms have passed.
    So the position is 0 or lies between [x] and 1. *)
Theorem playScanAnimation_sweep (arg : option JsNum) (x d : R) (s : Scan)
    (evs : list Event) (s' : Scan) :
  match arg with Some a => a | None => animationDuration end = Fin d ->
  0 < d ->
  Idle s ->
  crossSectionPosition s = Fin x ->
  x <= 1 ->
  runs (playScanAnimation arg s) evs s' ->
  (Sweeping x d (clock s) s' \/ Arrived d (clock s) s'
   \/ Over d (clock s) s')
  /\ exists y : R,
       crossSectionPosition s' = Fin y /\ (y = 0 \/ x <= y <= 1).
Proof.
  intros Harg Hd (Hidle & Hf & Htm) Hx Hle Hruns.
  assert (Scanning x d (clock s) (playScanAnimation arg s)) as Hstart.
  { rewrite (playScanAnimation_starts arg x d s Harg Hd Hidle Hx).
    split; [reflexivity |]. left. unfold Sweeping.
    cbn [isAnimating timers frames animationId crossSectionPosition clock].
    split; [reflexivity |]. split; [exact Htm |]. rewrite Hf.
    split; [eexists; split; [reflexivity |]; split;
            [reflexivity | discriminate] |].
    exists (clock s). split; [lra |]. split; [lra |].
    do 2 f_equal. unfold Rdiv. lra. }
  destruct (scanning_runs x d (clock s) _ evs s' Hd Hstart Hruns)
    as (_ & Hstate).
  split; [exact Hstate |].
  destruct Hstate as [(_ & _ & _ & T & HT & Hearly & Hp)
                     | [(_ & _ & Hp & _) | (_ & _ & _ & Hp & _)]].
  - eexists. split; [exact Hp |]. right.
    pose proof (quotient_nonneg (T - clock s) d Hd ltac:(lra)) as H0.
    pose proof (quotient_below_one (T - clock s) d Hd ltac:(lra)) as H1.
    assert (0 <= (1 - x) * ((T - clock s) / d)) as Hlow
      by (apply Rmult_le_pos; lra).
    assert ((1 - x) * ((T - clock s) / d) <= (1 - x) * 1) as Hhigh
      by (apply Rmult_le_compat_l; lra).
    lra.
  - exists 1. split; [exact Hp |]. right. lra.
  - exists 0. split; [exact Hp |]. now left.
Qed.

(** X21. A scan without a duration. When the duration is not a number,
    or is 0, the first frame divides to [NaN]: called in a state where
    nothing waits, [playScanAnimation] sets the position to [NaN] at
    once, whatever it was, asks for no frame and sets the reset timer;
    the only event that follows is the timer, which sets the position to
    0 not earlier than 500 ms after the call. *)
Theorem playScanAnimation_without_duration (a : JsNum) (s : Scan)
    (evs : list Event) (s' : Scan) :
  a = NaN \/ a = Fin 0 ->
  Idle s ->
  runs (playScanAnimation (Some a) s) evs s' ->
  (evs = [] /\ crossSectionPosition s' = NaN /\ isAnimating s' = true
   /\ frames s' = [] /\ timers s' = [clock s + 500])
  \/ (evs = [Timer] /\ crossSectionPosition s' = Fin 0
      /\ isAnimating s' = false /\ frames s' = [] /\ timers s' = []
      /\ clock s + 500 <= clock s').
Proof.
  intros Ha (Hidle & Hf & Htm) Hruns.
  assert (playScanAnimation (Some a) s
          = mkScan NaN true (animationId s) (Some (clock s)) []
              [clock s + 500] (handles s) (clock s)) as Hplay.
  { unfold playScanAnimation. rewrite Hidle.
    unfold animate, set_isAnimating, set_startTime.
    cbn [duration startPosition crossSectionPosition isAnimating
         animationId startTime frames timers handles clock].
    assert (min (div (Fin (clock s - clock s)) a) (Fin 1) = NaN) as ->.
    { destruct Ha as [-> | ->]; [reflexivity |].
      unfold div. destruct (Req_dec_T 0 0) as [_ | Hne]; [| lra].
      unfold ofSign.
      replace (Rltb 0 (clock s - clock s)) with false
        by (symmetry; apply Rltb_false; lra).
      replace (Rltb (clock s - clock s) 0) with false
        by (symmetry; apply Rltb_false; lra).
      reflexivity. }
    assert (forall p q : JsNum, add p (mul q NaN) = NaN) as ->
      by (intros [] []; reflexivity).
    cbn [lt]. unfold setTimeout, setCrossSectionPosition.
    cbn [crossSectionPosition isAnimating animationId startTime frames
         timers handles clock].
    now rewrite Hf, Htm. }
  rewrite Hplay in Hruns.
  inversion Hruns as [| s0 ev s1 evs' s2 Hstep Hrest]; subst.
  - left. now repeat split.
  - right.
    inversion Hstep as [s0 t before id c after Hframes Ht
                       | s0 t before due after Htimers Ht Hdue]; subst;
      [cbn [frames] in Hframes; now destruct before |].
    cbn [timers] in Htimers. symmetry in Htimers.
    apply (app_singleton_middle before after) in Htimers
      as (-> & -> & ->).
    cbn [clock] in Ht, Hdue.
    inversion Hrest as [| s0 ev s1 evs'' s2 Hstep' _]; subst.
    + unfold reset, set_isAnimating, setCrossSectionPosition.
      cbn [at_time crossSectionPosition isAnimating frames timers clock app].
      now repeat split.
    + exfalso.
      inversion Hstep' as [s0 t' before id c after Hframes _
                          | s0 t' before due after Htimers _ _]; subst.
      * unfold reset, set_isAnimating, setCrossSectionPosition in Hframes.
        cbn [at_time frames] in Hframes. now destruct before.
      * unfold reset, set_isAnimating, setCrossSectionPosition in Htimers.
        cbn [at_time timers app] in Htimers. now destruct before.
Qed.

Lemma stopAnimation_sweeping (x d t0 : R) (s : Scan) :
  Sweeping x d t0 s ->
  stopAnimation s
  = mkScan (crossSectionPosition s) false None (startTime s) [] []
      (handles s) (clock s)
  /\ pauseAnimation s = stopAnimation s.
Proof.
  intros (_ & Htm & (id & Hf & Hid & Hne) & _).
  split; [| reflexivity].
  unfold stopAnimation. rewrite Hid.
  destruct id as [| n]; [congruence |].
  unfold set_isAnimating, set_animationId, cancelAnimationFrame.
  cbn [crossSectionPosition isAnimating animationId startTime frames timers
       handles clock].
  rewrite Hf, Htm. cbn [List.filter fst]. now rewrite Nat.eqb_refl.
Qed.

Lemma playScanAnimation_stops_first (arg : option JsNum) (s : Scan) :
  isAnimating s = true ->
  playScanAnimation arg s = playScanAnimation arg (stopAnimation s).
Proof.
  intros Ha. unfold playScanAnimation. rewrite Ha.
  assert (isAnimating (stopAnimation s) = false) as -> by reflexivity.
  reflexivity.
Qed.

(** X22. Stopping a sweep. [stopAnimation] and [pauseAnimation] are the
    same: in a sweep they cancel the frame that waits, so that nothing
    waits any more, no event follows, and the position stays where the
    last frame put it, on the line from [x] to 1. *)
Theorem stopAnimation_ends_sweep (x d t0 : R) (s : Scan)
    (evs : list Event) (s' : Scan) :
  Sweeping x d t0 s ->
  runs (stopAnimation s) evs s' ->
  pauseAnimation s = stopAnimation s
  /\ evs = [] /\ Idle s'
  /\ crossSectionPosition s' = crossSectionPosition s.
Proof.
  intros Hsweep Hruns.
  destruct (stopAnimation_sweeping x d t0 s Hsweep) as (Hstop & Hpause).
  split; [exact Hpause |]. rewrite Hstop in Hruns.
  inversion Hruns as [| s0 ev s1 evs' s2 Hstep _]; subst.
  - split; [reflexivity |]. split; [now repeat split | reflexivity].
  - exfalso.
    inversion Hstep as [s0 t before id c after Hframes _
                       | s0 t before due after Htimers _ _]; subst.
    + cbn [frames] in Hframes. now destruct before.
    + cbn [timers] in Htimers. now destruct before.
Qed.

(** X23. Starting a scan during a sweep starts over. The frame of the
    sweep under way is cancelled first, so that one frame waits and not
    two, and the new scan sweeps from the position the old one had
    reached, over its own duration, from the time of the call. *)
Theorem playScanAnimation_restarts (arg : option JsNum) (x d t0 d' : R)
    (s : Scan) :
  Sweeping x d t0 s ->
  match arg with Some a => a | None => animationDuration end = Fin d' ->
  0 < d' ->
  exists y : R,
    crossSectionPosition s = Fin y
    /\ Sweeping y d' (clock s) (playScanAnimation arg s)
    /\ startTime (playScanAnimation arg s) = Some (clock s).
Proof.
  intros Hsweep Harg Hd'.
  destruct (stopAnimation_sweeping x d t0 s Hsweep) as (Hstop & _).
  destruct Hsweep as (Ha & _ & _ & T & _ & _ & Hp).
  eexists. split; [exact Hp |].
  rewrite (playScanAnimation_stops_first arg s Ha), Hstop.
  erewrite playScanAnimation_starts;
    [| exact Harg | exact Hd' | reflexivity | exact Hp].
  unfold Sweeping.
  cbn [isAnimating timers frames animationId crossSectionPosition clock
       startTime app handles].
  split; [| reflexivity].
  do 2 (split; [reflexivity |]).
  split; [eexists; split; [reflexivity |]; split;
          [reflexivity | discriminate] |].
  exists (clock s). split; [lra |]. split; [lra |].
  f_equal. unfold Rdiv. lra.
Qed.

(** X24. The reset timer is never cancelled. When a scan has arrived and
    its reset waits (no frame, one timer), [resetSection] of the panel
    cancels nothing, and a scan started then has the old timer beside
    its frame. When the timer fires, the new scan is marked as not animating
    and the position jumps to 0 while its frame still waits; and a scan
    started in that state, which [isAnimating] no longer prevents, adds a
    second frame beside the first. *)
Theorem resetSection_keeps_reset_timer (s : Scan) (due d2 d3 t : R) :
  frames s = [] ->
  timers s = [due] ->
  0 < d2 -> 0 < d3 ->
  clock s <= t -> due <= t ->
  let s2 := playScanAnimation (Some (Fin d2)) (resetSection s) in
  let s3 := reset (at_time t (frames s2) [] s2) in
  let first := (S (handles s), mkClosure (Fin d2) (Fin 0.5)) in
  let second := (S (S (handles s)), mkClosure (Fin d3) (Fin 0)) in
  isAnimating s2 = true
  /\ frames s2 = [first] /\ timers s2 = [due]
  /\ step s2 Timer s3
  /\ isAnimating s3 = false
  /\ crossSectionPosition s3 = Fin 0
  /\ frames s3 = [first]
  /\ frames (playScanAnimation (Some (Fin d3)) s3) = [first; second].
Proof.
  intros Hf Htm Hd2 Hd3 Ht Hdue s2 s3 first second.
  assert (resetSection s
          = mkScan (Fin 0.5) false
              (match animationId s with
               | Some (S _) => None
               | other => other
               end)
              (startTime s) [] [due] (handles s) (clock s)) as Hreset.
  { unfold resetSection, stopAnimation, setCrossSectionPosition.
    cbn [animationId].
    destruct (animationId s) as [[| n] |];
      unfold set_isAnimating, set_animationId, cancelAnimationFrame;
      cbn [crossSectionPosition isAnimating animationId startTime frames
           timers handles clock];
      rewrite Hf, Htm; reflexivity. }
  assert (s2 = mkScan (Fin 0.5) true (Some (S (handles s)))
                 (Some (clock s)) [first] [due] (S (handles s)) (clock s))
    as Hs2.
  { subst s2. rewrite Hreset.
    erewrite playScanAnimation_starts;
      [reflexivity | reflexivity | exact Hd2 | reflexivity | reflexivity]. }
  assert (s3 = mkScan (Fin 0) false (Some (S (handles s)))
                 (Some (clock s)) [first] [] (S (handles s)) t) as Hs3.
  { subst s3. now rewrite Hs2. }
  split; [now rewrite Hs2 |]. split; [now rewrite Hs2 |].
  split; [now rewrite Hs2 |].
  split.
  { subst s3. rewrite Hs2.
    apply (step_timer _ t [] due []); cbn [timers clock app];
      [reflexivity | exact Ht | exact Hdue]. }
  rewrite Hs3. do 3 (split; [reflexivity |]).
  erewrite playScanAnimation_starts;
    [reflexivity | reflexivity | exact Hd3 | reflexivity | reflexivity].
Qed.

End ScanTheorems.

Lemma justStarted_sweeping :
  SectionAnimation.Sweeping 0.5 1500 0 SectionAnimation.justStarted.
Proof.
  unfold SectionAnimation.Sweeping, SectionAnimation.justStarted.
  cbn [SectionAnimation.isAnimating SectionAnimation.timers
       SectionAnimation.frames SectionAnimation.animationId
       SectionAnimation.crossSectionPosition SectionAnimation.clock].
  do 2 (split; [reflexivity |]).
  split; [exists 1%nat; split; [reflexivity |]; split;
          [reflexivity | discriminate] |].
  exists 0%R. split; [lra |]. split; [lra |]. f_equal. lra.
Defined.

Lemma playScanAnimation_sweep_witness :
  (SectionAnimation.Sweeping 0.5 1500 0
     (SectionAnimation.playScanAnimation None SectionAnimation.atRest)
   \/ SectionAnimation.Arrived 1500 0
        (SectionAnimation.playScanAnimation None SectionAnimation.atRest)
   \/ SectionAnimation.Over 1500 0
        (SectionAnimation.playScanAnimation None SectionAnimation.atRest))
  /\ exists y : R,
       SectionAnimation.crossSectionPosition
         (SectionAnimation.playScanAnimation None SectionAnimation.atRest)
       = JsNumber.Fin y /\ (y = 0 \/ 0.5 <= y <= 1)%R.
Proof.
  apply (playScanAnimation_sweep None 0.5 1500 SectionAnimation.atRest []).
  - reflexivity.
  - lra.
  - now repeat split.
  - reflexivity.
  - lra.
  - apply SectionAnimation.runs_nil.
Defined.

Lemma playScanAnimation_without_duration_witness :
  ([] = @nil SectionAnimation.Event
   /\ SectionAnimation.crossSectionPosition
        (SectionAnimation.playScanAnimation (Some JsNumber.NaN)
           SectionAnimation.atRest) = JsNumber.NaN
   /\ SectionAnimation.isAnimating
        (SectionAnimation.playScanAnimation (Some JsNumber.NaN)
           SectionAnimation.atRest) = true
   /\ SectionAnimation.frames
        (SectionAnimation.playScanAnimation (Some JsNumber.NaN)
           SectionAnimation.atRest) = []
   /\ SectionAnimation.timers
        (SectionAnimation.playScanAnimation (Some JsNumber.NaN)
           SectionAnimation.atRest) = [(0 + 500)%R])
  \/ ([] = [SectionAnimation.Timer]
      /\ SectionAnimation.crossSectionPosition
           (SectionAnimation.playScanAnimation (Some JsNumber.NaN)
              SectionAnimation.atRest) = JsNumber.Fin 0
      /\ SectionAnimation.isAnimating
           (SectionAnimation.playScanAnimation (Some JsNumber.NaN)
              SectionAnimation.atRest) = false
      /\ SectionAnimation.frames
           (SectionAnimation.playScanAnimation (Some JsNumber.NaN)
              SectionAnimation.atRest) = []
      /\ SectionAnimation.timers
           (SectionAnimation.playScanAnimation (Some JsNumber.NaN)
              SectionAnimation.atRest) = []
      /\ (0 + 500 <= SectionAnimation.clock
                        (SectionAnimation.playScanAnimation
                           (Some JsNumber.NaN)
                           SectionAnimation.atRest))%R).
Proof.
  apply (playScanAnimation_without_duration JsNumber.NaN
           SectionAnimation.atRest []).
  - now left.
  - now repeat split.
  - apply SectionAnimation.runs_nil.
Defined.

Lemma stopAnimation_ends_sweep_witness :
  SectionAnimation.pauseAnimation SectionAnimation.justStarted
  = SectionAnimation.stopAnimation SectionAnimation.justStarted
  /\ [] = @nil SectionAnimation.Event
  /\ SectionAnimation.Idle
       (SectionAnimation.stopAnimation SectionAnimation.justStarted)
  /\ SectionAnimation.crossSectionPosition
       (SectionAnimation.stopAnimation SectionAnimation.justStarted)
     = SectionAnimation.crossSectionPosition SectionAnimation.justStarted.
Proof.
  apply (stopAnimation_ends_sweep 0.5 1500 0 SectionAnimation.justStarted []).
  - exact justStarted_sweeping.
  - apply SectionAnimation.runs_nil.
Defined.

Lemma playScanAnimation_restarts_witness :
  exists y : R,
    SectionAnimation.crossSectionPosition SectionAnimation.justStarted
    = JsNumber.Fin y
    /\ SectionAnimation.Sweeping y 1500
         (SectionAnimation.clock SectionAnimation.justStarted)
         (SectionAnimation.playScanAnimation None
            SectionAnimation.justStarted)
    /\ SectionAnimation.startTime
         (SectionAnimation.playScanAnimation None
            SectionAnimation.justStarted)
       = Some (SectionAnimation.clock SectionAnimation.justStarted).
Proof.
  apply (playScanAnimation_restarts None 0.5 1500 0 1500
           SectionAnimation.justStarted).
  - exact justStarted_sweeping.
  - reflexivity.
  - lra.
Defined.

Lemma resetSection_keeps_reset_timer_witness :
  SectionAnimation.frames
    (SectionAnimation.playScanAnimation
       (Some (JsNumber.Fin 1500))
       (SectionAnimation.reset
          (SectionAnimation.at_time 2000
             (SectionAnimation.frames
                (SectionAnimation.playScanAnimation
                   (Some (JsNumber.Fin 1500))
                   (SectionAnimation.resetSection
                      SectionAnimation.justArrived)))
             []
             (SectionAnimation.playScanAnimation
                (Some (JsNumber.Fin 1500))
                (SectionAnimation.resetSection
                   SectionAnimation.justArrived)))))
  = [(2%nat, SectionAnimation.mkClosure (JsNumber.Fin 1500)
               (JsNumber.Fin 0.5));
     (3%nat, SectionAnimation.mkClosure (JsNumber.Fin 1500)
               (JsNumber.Fin 0))].
Proof.
  apply (resetSection_keeps_reset_timer SectionAnimation.justArrived 2000
           1500 1500 2000).
  - reflexivity.
  - reflexivity.
  - lra.
  - lra.
  - cbn. lra.
  - lra.
Defined.

(** ** The order and the number of the synapses *)

Section OrderedConnections.

Import Neuron NeuronLogic NetworkLogic.
Local Open Scope nat_scope.

Variable neurons0 : list NeuronData.
Variable maxDistance0 : R.
Variable connectionProbability : R.

Lemma ordered_snoc (acc : list Connection) (c : Connection) :
  Ordered acc -> Forall (fun x => visitedBefore x c) acc ->
  Ordered (acc ++ [c]).
Proof.
  induction acc as [| x acc IH]; intros Hord Hall; cbn [app Ordered].
  - split; [constructor | exact I].
  - destruct Hord as [Hx Hacc]. apply Forall_cons in Hall as [Hxc Hall].
    split; [| now apply IH].
    apply Forall_app. split; [exact Hx | now constructor].
Qed.

Lemma ordered_NoDup (cs : list Connection) :
  Ordered cs -> List.NoDup (List.map ends cs).
Proof.
  induction cs as [| c cs IH]; intros Hord; cbn [List.map];
    [constructor |].
  destruct Hord as [Hc Hcs]. constructor; [| now apply IH].
  intros Hin. apply in_map_iff in Hin as (c' & Hends & Hin').
  rewrite Forall_forall in Hc. apply list_elem_of_In in Hin'.
  specialize (Hc c' Hin'). unfold ends in Hends.
  injection Hends as Hs Ht. unfold visitedBefore in Hc. lia.
Qed.

Lemma connectPair_ends (i j : nat) (src tgt : NeuronData) :
  post (connectPair maxDistance0 connectionProbability i j src tgt)
    (fun r => match r with
              | Some c => source c = i /\ target c = j
              | None => True
              end).
Proof.
  unfold connectPair. destruct (axonEnd src) as [a |].
  - apply post_draw. intros r.
    destruct (_ && _); [| now apply post_ret].
    apply post_draw. intros r'. apply post_draw. intros s.
    now apply post_ret.
  - apply post_draw. intros _. now apply post_ret.
Qed.

(** The inner loop over the targets [a], [a + 1], ... of the source
    [i]. *)
Lemma connectTargets_ordered (i : nat) (src : NeuronData) (len a : nat)
    (acc : list Connection) :
  Ordered acc ->
  Forall (fun c => source c < i \/ (source c = i /\ target c < a)) acc ->
  post (connectTargets neurons0 maxDistance0 connectionProbability i src
          (seq a len) acc)
    (fun acc' => Ordered acc' /\ Forall (fun c => source c <= i) acc').
Proof.
  revert a acc. induction len as [| len IH]; intros a acc Hord Hlow;
    cbn [seq connectTargets].
  - apply post_ret. split; [exact Hord |].
    eapply Forall_impl; [exact Hlow |]. cbv beta. intros c Hc. lia.
  - assert (Forall (fun c => source c < i
                             \/ (source c = i /\ target c < S a)) acc)
      as Hnext.
    { eapply Forall_impl; [exact Hlow |]. cbv beta. intros c Hc. lia. }
    destruct (Nat.eqb_spec i a) as [Heq | Hne]; [now apply IH |].
    destruct (neurons0 !! a) as [tgt |]; [| now apply IH].
    eapply post_bind; [apply connectPair_ends |].
    intros [c |] Hc; [| now apply IH].
    destruct Hc as [Hs Ht]. apply IH.
    + apply ordered_snoc; [exact Hord |].
      eapply Forall_impl; [exact Hlow |]. cbv beta.
      intros x Hx. unfold visitedBefore. lia.
    + apply Forall_app. split; [exact Hnext |].
      constructor; [lia | constructor].
Qed.

(** The outer loop over the sources [a], [a + 1], ... *)
Lemma connectSources_ordered (len a : nat) (acc : list Connection) :
  Ordered acc ->
  Forall (fun c => source c < a) acc ->
  post (connectSources neurons0 maxDistance0 connectionProbability
          (seq a len) acc)
    Ordered.
Proof.
  revert a acc. induction len as [| len IH]; intros a acc Hord Hlow;
    cbn [seq connectSources].
  - now apply post_ret.
  - assert (Forall (fun c => source c < S a) acc) as Hnext.
    { eapply Forall_impl; [exact Hlow |]. cbv beta. intros c Hc. lia. }
    destruct (neurons0 !! a) as [src |]; [| now apply IH].
    eapply post_bind.
    + apply (connectTargets_ordered a src); [exact Hord |].
      eapply Forall_impl; [exact Hlow |]. cbv beta. intros c Hc. lia.
    + intros acc' [Hord' Hle]. apply IH; [exact Hord' |].
      eapply Forall_impl; [exact Hle |]. cbv beta. intros c Hc. lia.
Qed.

Lemma connectNeurons_ordered :
  post (connectNeurons neurons0 maxDistance0 connectionProbability) Ordered.
Proof.
  apply connectSources_ordered; [exact I | constructor].
Qed.

Lemma others_length (i len a : nat) :
  List.length (List.filter (fun j => negb (i =? j)) (seq a len))
  = len - (if (a <=? i) && (i <? a + len) then 1 else 0).
Proof.
  revert a. induction len as [| len IH]; intros a; cbn [seq List.filter].
  - cbn. now destruct (_ && _).
  - destruct (Nat.eqb_spec i a) as [Heq | Hne]; cbn [negb List.length];
      rewrite IH;
      destruct (Nat.leb_spec a i), (Nat.ltb_spec i (a + S len)),
        (Nat.leb_spec (S a) i), (Nat.ltb_spec i (S a + len));
      cbn [andb]; lia.
Qed.

(** The inner loop adds at most one synapse for each target other than
    the source. *)
Lemma connectTargets_length (i : nat) (src : NeuronData) (js : list nat)
    (acc : list Connection) :
  post (connectTargets neurons0 maxDistance0 connectionProbability i src
          js acc)
    (fun acc' =>
       List.length acc'
       <= List.length acc
          + List.length (List.filter (fun j => negb (i =? j)) js)).
Proof.
  revert acc. induction js as [| j js IH]; intros acc;
    cbn [connectTargets List.filter].
  - apply post_ret. lia.
  - destruct (Nat.eqb_spec i j) as [Heq | Hne]; cbn [negb];
      [apply IH |].
    destruct (neurons0 !! j) as [tgt |].
    + apply post_draw. intros c.
      eapply post_weaken; [apply IH |]. cbv beta. intros acc' Hacc'.
      cbn [List.length]. destruct c; rewrite ?length_app in Hacc';
        cbn [List.length] in Hacc'; lia.
    + eapply post_weaken; [apply IH |]. cbv beta. intros acc' Hacc'.
      cbn [List.length]. lia.
Qed.

Lemma connectSources_length (sources : list nat) (acc : list Connection) :
  post (connectSources neurons0 maxDistance0 connectionProbability sources
          acc)
    (fun acc' =>
       List.length acc'
       <= List.length acc
          + List.length sources * (List.length neurons0 - 1)).
Proof.
  revert acc. induction sources as [| i sources IH]; intros acc;
    cbn [connectSources List.length].
  - apply post_ret. lia.
  - destruct (neurons0 !! i) as [src |] eqn:Hsrc.
    + apply lookup_lt_Some in Hsrc.
      eapply post_bind; [apply connectTargets_length |].
      intros acc' Hacc'. rewrite others_length in Hacc'.
      replace ((0 <=? i) && (i <? 0 + List.length neurons0)) with true
        in Hacc'
        by (symmetry; apply andb_true_iff; split;
            [now apply Nat.leb_le; lia | now apply Nat.ltb_lt]).
      eapply post_weaken; [apply IH |]. cbv beta. intros acc'' Hacc''.
      lia.
    + eapply post_weaken; [apply IH |]. cbv beta. intros acc' Hacc'. lia.
Qed.

Lemma connectNeurons_length :
  post (connectNeurons neurons0 maxDistance0 connectionProbability)
    (fun cs =>
       List.length cs
       <= List.length neurons0 * (List.length neurons0 - 1)).
Proof.
  eapply post_weaken; [apply connectSources_length |]. cbv beta.
  intros cs Hcs. rewrite length_seq in Hcs. cbn [List.length] in Hcs. lia.
Qed.

End OrderedConnections.

Section OrderedNetwork.

Import Neuron NeuronLogic NetworkLogic.
Local Open Scope nat_scope.


End OrderedNetwork.


(** ** The signal along one line *)

Section LineSteps.

Import JsNumber LineSignal.
Local Open Scope R_scope.

Variables (id : LineId) (r g b o d t0 : R).

Hypothesis positive_duration : 0 < d.

Let closure : Closure :=
  mkClosure id t0 (Fin d) (mkColor (Fin r) (Fin g) (Fin b)) (Fin (taken o)).

(** A frame before the end. *)
Lemma animate_flashing (data : UserData) (m : Material) (w : World) :
  heap w !! id = Some (mkLineObj (Some data) (Some m)) ->
  clock w < t0 + d ->
  let k := sin ((clock w - t0) / d * PI) in
  animate closure w
  = (mkWorld
       (<[id := mkLineObj (Some data)
                  (Some (mkMaterial
                           (mkColor (Fin (r + (0 - r) * k))
                              (Fin (g + (1 - g) * k))
                              (Fin (b + (1 - b) * k)))
                           (Fin (taken o + k * (1 - taken o) * 0.5))
                           true (S (version m))))]> (heap w))
       (frames w ++ [(S (handles w), closure)]) (S (handles w)) (clock w),
     Some (S (handles w))).
Proof.
  intros Hline Hearly k. unfold animate.
  cbn [connection closure startTime duration originalColor originalOpacity].
  rewrite Hline. unfold div.
  destruct (Req_dec_T d 0) as [Hzero | _]; [lra |].
  cbn [lt].
  replace (Rltb ((clock w - t0) / d) 1) with true
    by (symmetry; apply Rltb_true; apply quotient_below_one; lra).
  reflexivity.
Qed.

(** The frame that ends the animation. *)
Lemma animate_restores (data : UserData) (m : Material) (w : World) :
  heap w !! id = Some (mkLineObj (Some data) (Some m)) ->
  t0 + d <= clock w ->
  animate closure w
  = (mkWorld
       (<[id := mkLineObj (Some (mkUserData false))
                  (Some (mkMaterial (mkColor (Fin r) (Fin g) (Fin b))
                           (Fin (taken o)) true (S (version m))))]>
          (heap w))
       (frames w) (handles w) (clock w),
     None).
Proof.
  intros Hline Hlate. unfold animate.
  cbn [connection closure startTime duration originalColor originalOpacity].
  rewrite Hline. unfold div.
  destruct (Req_dec_T d 0) as [Hzero | _]; [lra |].
  cbn [lt].
  replace (Rltb ((clock w - t0) / d) 1) with false
    by (symmetry; apply Rltb_false; apply quotient_above_one; lra).
  reflexivity.
Qed.

Lemma flashing_step (w : World) (ev : nat) (w' : World) :
  Flashing id r g b o d t0 w \/ Restored id r g b o d t0 w ->
  step w ev w' ->
  Flashing id r g b o d t0 w' \/ Restored id r g b o d t0 w'.
Proof.
  intros Hstate Hstep.
  inversion Hstep as [w0 t before handle c after Hframes Ht]; subst.
  destruct Hstate as [(T & m & handle0 & HT & Hearly & Hline & Hf & _)
                     | (m & _ & _ & Hf & _)];
    [| rewrite Hf in Hframes; now destruct before].
  rewrite Hf in Hframes. symmetry in Hframes.
  apply (app_singleton_middle before after) in Hframes as (-> & Hc & ->).
  injection Hc as -> ->. cbn [app].
  fold closure.
  set (w1 := at_time t [] w).
  assert (heap w1 !! id
          = Some (mkLineObj (Some (mkUserData true)) (Some m))) as Hline1
    by exact Hline.
  destruct (Rlt_dec t (t0 + d)) as [Hearly' | Hlate].
  - rewrite (animate_flashing _ m w1 Hline1) by exact Hearly'.
    left. exists t. eexists. exists (S (handles w)).
    cbn [fst heap frames clock w1 at_time app handles].
    split; [lra |]. split; [exact Hearly' |].
    split; [apply lookup_insert_eq |].
    split; [reflexivity |].
    cbn [transparent color opacity]. now repeat split.
  - rewrite (animate_restores _ m w1 Hline1)
      by (subst w1; cbn [at_time clock]; lra).
    right. eexists.
    cbn [fst heap frames clock w1 at_time].
    split; [lra |]. split; [apply lookup_insert_eq |].
    cbn [transparent color opacity]. now repeat split.
Qed.

Lemma flashing_runs (w : World) (evs : list nat) (w' : World) :
  Flashing id r g b o d t0 w \/ Restored id r g b o d t0 w ->
  runs w evs w' ->
  Flashing id r g b o d t0 w' \/ Restored id r g b o d t0 w'.
Proof.
  intros Hstate Hruns.
  induction Hruns as [| w ev w1 evs w2 Hstep _ IH]; [exact Hstate |].
  apply IH. now apply flashing_step with w ev.
Qed.

End LineSteps.

Section LineTheorem.

Import JsNumber LineSignal.
Local Open Scope R_scope.

Lemma sin_half_turn (q : R) : 0 <= q -> q < 1 -> 0 <= sin (q * PI) <= 1.
Proof.
  intros H0 H1. pose proof PI_RGT_0 as Hpi. split.
  - apply sin_ge_0; nra.
  - apply SIN_bound.
Qed.

(** X26. [animateNeuralSignal] puts the colour back, and the opacity
    unless it was 0. Called with a positive duration [d] (500 by
    default) for a line that is not active, with a material of finite
    colour [(r, g, b)] and an opacity [o] between 0 and 1, while no
    frame waits, it returns
    the handle of its first frame, and at whatever times the frames run
    the line is in one of two states. Under way: the line is active, a
    further call returns [undefined] and changes nothing, one frame
    waits, and the colour lies on the line from the original colour to
    [(0, 1, 1)] at [k = sin(pi * (T - t0) / d)], with the opacity at
    [o' + k * (1 - o') / 2], where [o'] is [o], or 1 when [o] is 0. Over:
    at least [d] ms have passed, the line is not active, no frame waits,
    the colour is the original one, the opacity is [o'] -- so an opacity
    of 0 has become 1 -- and [transparent] is true whatever it was. In
    both states the opacity lies between [o'] and 1. *)
Theorem animateNeuralSignal_restores (id : LineId) (arg : option JsNum)
    (m : Material) (r g b o d : R) (w : World) (evs : list nat)
    (w' : World) :
  heap w !! id = Some (mkLineObj (Some (mkUserData false)) (Some m)) ->
  color m = mkColor (Fin r) (Fin g) (Fin b) ->
  opacity m = Fin o ->
  0 <= o <= 1 ->
  match arg with Some a => a | None => Fin 500 end = Fin d ->
  0 < d ->
  frames w = [] ->
  runs (fst (animateNeuralSignal (Some id) arg w)) evs w' ->
  snd (animateNeuralSignal (Some id) arg w)
  = AnimationId (Some (S (handles w)))
  /\ (Flashing id r g b o d (clock w) w'
      /\ (forall arg' : option JsNum,
            animateNeuralSignal (Some id) arg' w' = (w', Undefined))
      \/ Restored id r g b o d (clock w) w')
  /\ exists (m' : Material) (data : UserData) (q : R),
       heap w' !! id = Some (mkLineObj (Some data) (Some m'))
       /\ transparent m' = true
       /\ opacity m' = Fin q /\ taken o <= q <= 1.
Proof.
  intros Hline Hcolor Hopacity Ho Harg Hd Hframes Hruns.
  assert ((if falsy (opacity m) then Fin 1 else opacity m)
          = Fin (taken o)) as Htaken.
  { rewrite Hopacity. unfold falsy, taken.
    now destruct (Req_dec_T o 0). }
  assert (animateNeuralSignal (Some id) arg w
          = (let (w1, h) :=
               animate
                 (mkClosure id (clock w) (Fin d)
                    (mkColor (Fin r) (Fin g) (Fin b)) (Fin (taken o)))
                 (set_line id
                    (mkLineObj (Some (mkUserData true))
                       (Some (mkMaterial (color m) (opacity m) true
                                (S (version m))))) w) in
             (w1, AnimationId h))) as Hcall.
  { unfold animateNeuralSignal. rewrite Hline, Harg. cbn [active].
    now rewrite Htaken, Hcolor. }
  rewrite Hcall in Hruns |- *.
  pose proof (animate_flashing id r g b o d (clock w) Hd (mkUserData true)
                (mkMaterial (color m) (opacity m) true (S (version m)))
                (set_line id
                   (mkLineObj (Some (mkUserData true))
                      (Some (mkMaterial (color m) (opacity m) true
                               (S (version m))))) w)
                (lookup_insert_eq _ _ _)
                ltac:(cbn [set_line clock]; lra)) as Hfirst.
  cbv zeta in Hfirst. rewrite Hfirst in Hruns |- *. clear Hfirst Hcall.
  cbn [fst snd set_line handles clock heap frames version] in Hruns |- *.
  split; [reflexivity |].
  assert (Flashing id r g b o d (clock w) w'
          \/ Restored id r g b o d (clock w) w') as Hstate.
  { eapply (flashing_runs id r g b o d (clock w) Hd); [| exact Hruns].
    left. exists (clock w). eexists. exists (S (handles w)).
    cbn [heap frames clock].
    split; [lra |]. split; [lra |].
    split; [apply lookup_insert_eq |].
    split; [now rewrite Hframes |].
    cbn [transparent color opacity]. now repeat split. }
  assert (0 <= taken o <= 1) as Ho'.
  { unfold taken. destruct (Req_dec_T o 0); lra. }
  split.
  - destruct Hstate as [Hflash | Hover]; [left | now right].
    split; [exact Hflash |]. intros arg'.
    destruct Hflash as (T & m' & handle & _ & _ & Hline' & _).
    unfold animateNeuralSignal. now rewrite Hline'.
  - destruct Hstate
      as [(T & m' & handle & HT & Hearly & Hline' & _ & Htr & _ & Hop)
         | (m' & _ & Hline' & _ & Htr & _ & Hop)].
    + exists m', (mkUserData true). eexists.
      split; [exact Hline' |]. split; [exact Htr |].
      split; [exact Hop |].
      pose proof (sin_half_turn ((T - clock w) / d)
                    (quotient_nonneg (T - clock w) d Hd ltac:(lra))
                    (quotient_below_one (T - clock w) d Hd ltac:(lra)))
        as Hk.
      set (k := sin ((T - clock w) / d * PI)) in *.
      assert (0 <= k * (1 - taken o)) as Hlow
        by (apply Rmult_le_pos; lra).
      assert (k * (1 - taken o) <= 1 * (1 - taken o)) as Hhigh
        by (apply Rmult_le_compat_r; lra).
      lra.
    + exists m', (mkUserData false), (taken o).
      split; [exact Hline' |]. split; [exact Htr |].
      split; [exact Hop |]. lra.
Qed.

End LineTheorem.

Lemma animateNeuralSignal_restores_witness :
  snd (LineSignal.animateNeuralSignal (Some 1%positive) None
         LineSignal.restingWorld)
  = LineSignal.AnimationId (Some 1%nat)
  /\ (LineSignal.Flashing 1%positive 1 0.5 0 0 500 0
        (fst (LineSignal.animateNeuralSignal (Some 1%positive) None
                LineSignal.restingWorld))
      /\ (forall arg' : option JsNumber.JsNum,
            LineSignal.animateNeuralSignal (Some 1%positive) arg'
              (fst (LineSignal.animateNeuralSignal (Some 1%positive) None
                      LineSignal.restingWorld))
            = (fst (LineSignal.animateNeuralSignal (Some 1%positive) None
                      LineSignal.restingWorld),
               LineSignal.Undefined))
      \/ LineSignal.Restored 1%positive 1 0.5 0 0 500 0
           (fst (LineSignal.animateNeuralSignal (Some 1%positive) None
                   LineSignal.restingWorld)))
  /\ exists (m' : LineSignal.Material) (data : LineSignal.UserData) (q : R),
       LineSignal.heap
         (fst (LineSignal.animateNeuralSignal (Some 1%positive) None
                 LineSignal.restingWorld)) !! 1%positive
       = Some (LineSignal.mkLineObj (Some data) (Some m'))
       /\ LineSignal.transparent m' = true
       /\ LineSignal.opacity m' = JsNumber.Fin q
       /\ (LineSignal.taken 0 <= q <= 1)%R.
Proof.
  apply (animateNeuralSignal_restores 1%positive None
           (LineSignal.mkMaterial
              (LineSignal.mkColor (JsNumber.Fin 1) (JsNumber.Fin 0.5)
                 (JsNumber.Fin 0))
              (JsNumber.Fin 0) false 0)
           1 0.5 0 0 500 LineSignal.restingWorld []).
  - reflexivity.
  - reflexivity.
  - reflexivity.
  - lra.
  - reflexivity.
  - lra.
  - reflexivity.
  - apply LineSignal.runs_nil.
Defined.
